(** * Trading simulation engine: a shallow embedding of
      [src/src/annual-trading-results.tsx] (the body of the simulation
      [useEffect], lines 41-298) and of the settings form and the
      application shell of [src/src/trading-simulation-app.tsx], with the
      properties of the summary.

    The effect is embedded twice, line by line alike.

    - [Runtime] is the effect as it runs: every amount is a binary64
      number ([B64], round to nearest even after each operation, with
      overflow, [NaN] and signed zeros), and the calendar is generated
      from [Date] objects read in the time zone of the browser ([Local]).
      Properties that depend on rounding, on overflow or on the time zone
      are stated on it.
    - The embedding at the top level takes amounts as exact rationals
      with the special values a division can produce ([JS.num]) and dates
      as calendar days. It is the effect in a zone of constant offset
      between 0 and 24 hours east of Greenwich
      ([generateDates_fixed_zone]) with arithmetic that does not round.
      The properties stated on it are about counters, labels, the order
      of amounts and the control flow.

    Modelling conventions common to both.

    - Counters that the source only ever increments by one from zero
      ([totalWins], [currentWinStreak], bucket [trades], ...) are [nat];
      they are injected into the numbers where the source divides them.
    - [tradesPerDay] is the bound of a counting loop and is a [nat].
    - [Math.random] is an oracle: the k-th call returns [rng k]; the
      state records how many calls were made.
    - A [Record<string, Stats>] object is an association list in insertion
      order (the order [Object.values] enumerates); indexing a missing key
      and then reading a property of the result throws in the source, so the
      update returns [None] there. *)

From Stdlib Require Import ZArith QArith Qcanon Qround List Bool Arith Lia String Ascii.
From Stdlib Require Import DecimalString Sorted.
From Stdlib Require Import Floats.SpecFloat.
Import ListNotations.

Local Open Scope Z_scope.

(* ===================================================================== *)
(** ** JavaScript numbers, without rounding *)
(* ===================================================================== *)

(** A finite number is an exact rational; [Infinity], [-Infinity] and
    [NaN] arise from divisions only. *)

Module JS.

Inductive num : Type :=
| Fin (q : Qc)
| PInf
| NInf
| NaN.

Definition Qc_of_Z (z : Z) : Qc := Q2Qc (inject_Z z).
Definition Qc_of_nat (n : nat) : Qc := Qc_of_Z (Z.of_nat n).
Definition of_Z (z : Z) : num := Fin (Qc_of_Z z).
Definition of_nat (n : nat) : num := Fin (Qc_of_nat n).

Definition Qc_ltb (a b : Qc) : bool :=
  match (a ?= b)%Qc with Lt => true | _ => false end.

Definition Qc_eqb (a b : Qc) : bool :=
  match (a ?= b)%Qc with Eq => true | _ => false end.

Definition is_finite (x : num) : bool :=
  match x with Fin _ => true | _ => false end.

Definition neg (x : num) : num :=
  match x with
  | Fin q => Fin (- q)%Qc
  | PInf => NInf
  | NInf => PInf
  | NaN => NaN
  end.

(** [x + y] *)
Definition add (x y : num) : num :=
  match x, y with
  | NaN, _ | _, NaN => NaN
  | Fin a, Fin b => Fin (a + b)%Qc
  | PInf, NInf | NInf, PInf => NaN
  | PInf, _ | _, PInf => PInf
  | NInf, _ | _, NInf => NInf
  end.

(** [x - y] *)
Definition sub (x y : num) : num := add x (neg y).

(** Sign of a number: [Some Lt] negative, [Some Eq] zero, [Some Gt]
    positive, [None] for [NaN]. *)
Definition sign (x : num) : option comparison :=
  match x with
  | Fin q => Some (q ?= 0)%Qc
  | PInf => Some Gt
  | NInf => Some Lt
  | NaN => None
  end.

(** [x * y] *)
Definition mul (x y : num) : num :=
  match x, y with
  | Fin a, Fin b => Fin (a * b)%Qc
  | _, _ =>
      match sign x, sign y with
      | Some Eq, _ | _, Some Eq => NaN
      | Some Gt, Some Gt | Some Lt, Some Lt => PInf
      | Some Gt, Some Lt | Some Lt, Some Gt => NInf
      | _, _ => NaN
      end
  end.

(** [x / y]: a finite quotient when the divisor is a non-zero finite
    number; [0 / 0] is [NaN] and [a / 0] is an infinity of the sign of
    [a]. *)
Definition div (x y : num) : num :=
  match x, y with
  | Fin a, Fin b =>
      if Qc_eqb b 0 then
        match (a ?= 0)%Qc with
        | Eq => NaN
        | Gt => PInf
        | Lt => NInf
        end
      else Fin (a / b)%Qc
  | Fin _, PInf | Fin _, NInf => Fin 0%Qc
  | PInf, Fin b => if Qc_ltb b 0 then NInf else PInf
  | NInf, Fin b => if Qc_ltb b 0 then PInf else NInf
  | _, _ => NaN
  end.

(** [x < y]; every comparison with [NaN] is false. *)
Definition lt (x y : num) : bool :=
  match x, y with
  | NaN, _ | _, NaN => false
  | Fin a, Fin b => Qc_ltb a b
  | NInf, NInf => false
  | NInf, _ => true
  | _, PInf => match x with PInf => false | _ => true end
  | _, _ => false
  end.

(** [x > y] *)
Definition gt (x y : num) : bool := lt y x.

(** [x <= y] *)
Definition le (x y : num) : bool :=
  match x, y with
  | NaN, _ | _, NaN => false
  | Fin a, Fin b => negb (Qc_ltb b a)
  | NInf, _ => true
  | _, PInf => true
  | _, _ => false
  end.

(** Truthiness of a number: [0] and [NaN] are falsy. *)
Definition truthy (x : num) : bool :=
  match x with
  | Fin q => negb (Qc_eqb q 0)
  | PInf | NInf => true
  | NaN => false
  end.

(** [x || y] on numbers. *)
Definition or (x y : num) : num := if truthy x then x else y.

(** Truthiness of a [string | null]: [null] and the empty string are
    falsy. *)
Definition str_truthy (s : option string) : bool :=
  match s with
  | None => false
  | Some s => negb (String.eqb s EmptyString)
  end.

(** [s || d] where [s] is a string. *)
Definition str_or (s d : string) : string :=
  if String.eqb s EmptyString then d else s.

(** [s || d] where [s : string | null]. *)
Definition opt_or (s : option string) (d : string) : string :=
  match s with
  | None => d
  | Some s => str_or s d
  end.

End JS.

Import JS.

(* ===================================================================== *)
(** ** JavaScript numbers, as binary64 *)
(* ===================================================================== *)

(** The numbers of the source as they are at run time: IEEE 754 binary64
    values with round-to-nearest-even, from the specification of
    floating-point arithmetic of the standard library. *)
Module B64.

Definition prec : Z := 53.
Definition emax : Z := 1024.

Definition num : Type := spec_float.

Definition NaN : num := S754_nan.
Definition PInf : num := S754_infinity false.
Definition NInf : num := S754_infinity true.

(** [x + y], [x - y], [x * y], [x / y] *)
Definition add (x y : num) : num := SFadd prec emax x y.
Definition sub (x y : num) : num := SFsub prec emax x y.
Definition mul (x y : num) : num := SFmul prec emax x y.
Definition div (x y : num) : num := SFdiv prec emax x y.

(** [x < y], [x > y], [x <= y]; every comparison with [NaN] is false. *)
Definition lt (x y : num) : bool := SFltb x y.
Definition gt (x y : num) : bool := SFltb y x.
Definition le (x y : num) : bool := SFleb x y.

(** The double nearest to an integer (the integer itself below 2^53). *)
Definition of_Z (z : Z) : num := binary_normalize prec emax z 0 false.
Definition of_nat (n : nat) : num := of_Z (Z.of_nat n).

(** The double a decimal literal [n / 10^d] denotes: the one nearest to
    it (for [n] and [10^d] below 2^53, where the division is that
    rounding). *)
Definition decimal (n : Z) (d : nat) : num :=
  div (of_Z n) (of_Z (10 ^ Z.of_nat d)).

Definition is_finite (x : num) : bool :=
  match x with
  | S754_zero _ | S754_finite _ _ _ => true
  | S754_infinity _ | S754_nan => false
  end.

(** The exact value of a finite double ([0] for the others). *)
Definition toQ (x : num) : Q :=
  match x with
  | S754_finite s m e =>
      let v := if 0 <=? e then inject_Z (Z.pos m * 2 ^ e)
               else Qmake (Z.pos m) (Z.to_pos (2 ^ (- e))) in
      if s then Qopp v else v
  | _ => 0%Q
  end.

(** Truthiness of a number: [0], [-0] and [NaN] are falsy. *)
Definition truthy (x : num) : bool :=
  match x with
  | S754_zero _ | S754_nan => false
  | S754_infinity _ | S754_finite _ _ _ => true
  end.

(** [x || y] on numbers. *)
Definition or (x y : num) : num := if truthy x then x else y.

(** The integer nearest to 100 times the double [m * 2^e], the larger
    one on a tie. *)
Definition hundredths (m : positive) (e : Z) : Z :=
  if 0 <=? e then Z.pos m * 2 ^ e * 100
  else (Z.pos m * 200 + 2 ^ (- e)) / 2 ^ (- e + 1).

(** [n / 100] printed with two decimals, for [0 <= n]. *)
Definition printHundredths (n : Z) : string :=
  String.append (NilZero.string_of_int (Z.to_int (n / 100)))
    (String.append "."
       (String.append (if n mod 100 <? 10 then "0"%string else ""%string)
          (NilZero.string_of_int (Z.to_int (n mod 100))))).

(** [x.toFixed(2)], for a magnitude below 10^21 (from there on the
    source prints the exponent notation of [String(x)]). The digits are
    those of the exact value of the double. *)
Definition toFixed2 (x : num) : string :=
  match x with
  | S754_nan => "NaN"
  | S754_infinity false => "Infinity"
  | S754_infinity true => "-Infinity"
  | S754_zero _ => "0.00"
  | S754_finite s m e =>
      String.append (if s then "-"%string else ""%string)
                    (printHundredths (hundredths m e))
  end.

(** A number of the format: the mantissa of a finite one has at most 53
    bits, and exactly 53 unless the exponent is the least one. *)
Definition valid (x : num) : bool := valid_binary prec emax x.

(** The exponent of the least power of two above a finite double that
    is not zero: [2^(magnitude x - 1) <= |x| < 2^(magnitude x)]. *)
Definition magnitude (x : num) : Z :=
  match x with
  | S754_finite _ m e => Z.pos (digits2_pos m) + e
  | _ => 0
  end.

(** The value of a finite double in units of [2^-1074], the least
    positive double ([0] for the others). *)
Definition units (x : num) : Z :=
  match x with
  | S754_finite s m e => cond_Zopp s (Z.pos m * 2 ^ (e + 1074))
  | _ => 0
  end.

(** [x] is neither [0] nor [-0]. *)
Definition nonzero (x : num) : bool :=
  match x with
  | S754_zero _ => false
  | _ => true
  end.

(** The double [2^k], for [-1022 <= k <= 1023]. *)
Definition pow2 (k : Z) : num := S754_finite false (2 ^ 52) (k - 52).

End B64.

(* ===================================================================== *)
(** ** Dates at calendar-day precision *)
(* ===================================================================== *)

(** A [Date] here is a calendar day, the number of days since
    1970-01-01: the date of a [Date] object in a zone where local
    midnight and midnight UTC fall on the same day. The [Date] objects
    themselves are in [Local] below. *)
Definition Date : Type := Z.

(** [Date.getDay()]: 0 is Sunday, 6 is Saturday (1970-01-01 was a
    Thursday). *)
Definition getDay (d : Date) : Z := (d + 4) mod 7.

(** Proleptic Gregorian calendar: the civil date (year, month 1-12,
    day 1-31) of a day number. *)
Definition civil_from_days (d : Date) : Z * Z * Z :=
  let z := d + 719468 in
  let era := z / 146097 in
  let doe := z - era * 146097 in
  let yoe := (doe - doe / 1460 + doe / 36524 - doe / 146096) / 365 in
  let y := yoe + era * 400 in
  let doy := doe - (365 * yoe + yoe / 4 - yoe / 100) in
  let mp := (5 * doy + 2) / 153 in
  let dd := doy - (153 * mp + 2) / 5 + 1 in
  let m := if mp <? 10 then mp + 3 else mp - 9 in
  (if m <=? 2 then y + 1 else y, m, dd).

(** The day number of a civil date: [new Date(year, month - 1, day)]. *)
Definition days_from_civil (year month day : Z) : Date :=
  let y := if month <=? 2 then year - 1 else year in
  let era := y / 400 in
  let yoe := y - era * 400 in
  let mp := if 2 <? month then month - 3 else month + 9 in
  let doy := (153 * mp + 2) / 5 + day - 1 in
  let doe := yoe * 365 + yoe / 4 - yoe / 100 + doy in
  era * 146097 + doe - 719468.

Definition getFullYear (d : Date) : Z := fst (fst (civil_from_days d)).
Definition getMonth1 (d : Date) : Z := snd (fst (civil_from_days d)).
Definition getDate (d : Date) : Z := snd (civil_from_days d).

(** [toLocaleString('default', { month: 'short' })], for an English
    locale. *)
Definition monthShort (d : Date) : string :=
  nth (Z.to_nat (getMonth1 d - 1))
    ["Jan"; "Feb"; "Mar"; "Apr"; "May"; "Jun";
     "Jul"; "Aug"; "Sep"; "Oct"; "Nov"; "Dec"]%string "Jan"%string.

(** Decimal rendering of an integer inside a template literal. *)
Definition string_of_Z (z : Z) : string := NilZero.string_of_int (Z.to_int z).

(** [Math.ceil(n / 7)] for an integer [n]. *)
Definition ceil_div7 (n : Z) : Z := (n + 6) / 7.

Record DateInfo : Type := mkDateInfo {
  fullDate : string;
  month : string;
  week : string;
  dateObj : Date
}.

(** The year the constructor [new Date(year, month, day)] takes for its
    first argument: a year from 0 to 99 stands for 1900 + year. *)
Definition constructorYear (year : Z) : Z :=
  if (0 <=? year) && (year <=? 99) then 1900 + year else year.

(** The object pushed for one kept day (lines 74-88). *)
Definition dateInfo_of (currentDate : Date) : DateInfo :=
  let month := monthShort currentDate in
  let day := getDate currentDate in
  let year := getFullYear currentDate in
  let firstDayOfYear := days_from_civil (constructorYear year) 1 1 in
  let pastDaysOfYear := currentDate - firstDayOfYear in
  let weekNumber := ceil_div7 (pastDaysOfYear + getDay firstDayOfYear + 1) in
  {| fullDate := month ++ " " ++ string_of_Z day ++ " " ++ string_of_Z year;
     month := month ++ " " ++ string_of_Z year;
     week := "Week " ++ string_of_Z weekNumber ++ ", " ++ string_of_Z year;
     dateObj := currentDate |}%string.

Definition isWeekday (d : Date) : bool :=
  negb (getDay d =? 0) && negb (getDay d =? 6).

(** The [while (currentDate <= endDate)] loop of [generateDates]; [fuel]
    bounds the number of iterations. *)
Fixpoint generateDates_loop (fuel : nat) (currentDate endDate : Date)
  : list DateInfo :=
  match fuel with
  | O => []
  | S fuel' =>
      if currentDate <=? endDate then
        (if isWeekday currentDate then [dateInfo_of currentDate] else [])
          ++ generateDates_loop fuel' (currentDate + 1) endDate
      else []
  end.

(** [generateDates] (lines 67-96).  The loop runs once per day of
    [startDate .. endDate], which is the fuel given
    ([generateDates_loop_fuel] shows that more fuel changes nothing). *)
Definition generateDates (startDate endDate : Date) : list DateInfo :=
  generateDates_loop (Z.to_nat (endDate - startDate + 1)) startDate endDate.

(** The days of [startDate .. endDate], both ends included, in order. *)
Definition daysOfRange (startDate endDate : Date) : list Date :=
  map (fun i => startDate + Z.of_nat i)
      (seq 0 (Z.to_nat (endDate - startDate + 1))).

(** The count of weekdays in [startDate .. endDate], as the claim words
    it. *)
Definition weekdayCount (startDate endDate : Date) : nat :=
  List.length (filter isWeekday (daysOfRange startDate endDate)).

(* ===================================================================== *)
(** ** Dates as instants read in the local time zone *)
(* ===================================================================== *)

(** The [Date] objects of lines 53-54 and 67-96 as they are at run time.
    A [Date] holds a time value, the milliseconds since
    1970-01-01T00:00Z. [new Date('YYYY-MM-DD')] is midnight UTC of that
    day, whereas [getDay], [getDate], [getFullYear], [toLocaleString],
    [setDate] and [new Date(year, 0, 1)] read and write the fields of
    local time, and [<=] and [getTime] compare time values. *)
Module Local.

Definition msPerDay : Z := 86400000.
Definition msPerHour : Z := 3600000.

(** A time zone: the offset of local time from UTC in milliseconds
    (positive east of Greenwich) before the first transition, and the
    transitions in increasing order, each the UTC instant from which a
    new offset holds. *)
Record Zone : Type := mkZone {
  baseOffset : Z;
  transitions : list (Z * Z)
}.

(** The offset in force at the UTC instant [t]. *)
Fixpoint offsetAtUtc_from (o : Z) (trs : list (Z * Z)) (t : Z) : Z :=
  match trs with
  | [] => o
  | (at_, o') :: rest => if t <? at_ then o else offsetAtUtc_from o' rest t
  end.

Definition offsetAtUtc (zone : Zone) (t : Z) : Z :=
  offsetAtUtc_from (baseOffset zone) (transitions zone) t.

(** The offset by which the local time [tl] is read. A local time that
    a transition repeats (clocks set back) or skips (clocks set forward)
    is read with the offset before that transition. *)
Fixpoint offsetAtLocal_from (o : Z) (trs : list (Z * Z)) (tl : Z) : Z :=
  match trs with
  | [] => o
  | (at_, o') :: rest =>
      if tl <? Z.max (at_ + o) (at_ + o') then o
      else offsetAtLocal_from o' rest tl
  end.

Definition offsetAtLocal (zone : Zone) (tl : Z) : Z :=
  offsetAtLocal_from (baseOffset zone) (transitions zone) tl.

(** [LocalTime(t)] and [UTC(tl)] of the language specification. *)
Definition LocalTime (zone : Zone) (t : Z) : Z := t + offsetAtUtc zone t.
Definition UTC (zone : Zone) (tl : Z) : Z := tl - offsetAtLocal zone tl.

(** [new Date('YYYY-MM-DD')]: midnight UTC of the day numbered [d]. *)
Definition parseDate (d : Date) : Z := d * msPerDay.

(** The calendar day of local time at [t]. *)
Definition localDay (zone : Zone) (t : Z) : Date := LocalTime zone t / msPerDay.

Definition getDay (zone : Zone) (t : Z) : Z := (localDay zone t + 4) mod 7.
Definition getFullYear (zone : Zone) (t : Z) : Z :=
  fst (fst (civil_from_days (localDay zone t))).
Definition getDate (zone : Zone) (t : Z) : Z :=
  snd (civil_from_days (localDay zone t)).

(** [toLocaleString('default', { month: 'short' })], for an English
    locale. *)
Definition monthShort (zone : Zone) (t : Z) : string :=
  nth (Z.to_nat (snd (fst (civil_from_days (localDay zone t))) - 1))
    ["Jan"; "Feb"; "Mar"; "Apr"; "May"; "Jun";
     "Jul"; "Aug"; "Sep"; "Oct"; "Nov"; "Dec"]%string "Jan"%string.

(** [d.setDate(d.getDate() + 1)]: the same local time of day on the next
    calendar day (a day past the end of a month is carried into the next
    month), read back in the zone. *)
Definition nextDay (zone : Zone) (t : Z) : Z :=
  UTC zone (LocalTime zone t + msPerDay).

(** [new Date(year, 0, 1)]: local midnight of January 1st. *)
Definition firstDayOfYear (zone : Zone) (year : Z) : Z :=
  UTC zone (days_from_civil (constructorYear year) 1 1 * msPerDay).

(** [Math.ceil((pastDaysOfYear + firstDayOfYear.getDay() + 1) / 7)]
    with [pastDaysOfYear] the difference of the time values divided by
    86400000 (lines 80-82). The quotient is taken exactly; it is an
    integer or at least 1/604800000 away from one, so the rounding of
    the double does not change its ceiling. *)
Definition weekNumber (zone : Zone) (t : Z) : Z :=
  let first := firstDayOfYear zone (getFullYear zone t) in
  let sevenths := (t - first) + (getDay zone first + 1) * msPerDay in
  (sevenths + 7 * msPerDay - 1) / (7 * msPerDay).

(** The object pushed for one kept day (lines 74-88). *)
Definition dateInfo_of (zone : Zone) (currentDate : Z) : DateInfo :=
  let month := monthShort zone currentDate in
  let day := getDate zone currentDate in
  let year := getFullYear zone currentDate in
  let weekNumber := weekNumber zone currentDate in
  {| fullDate := month ++ " " ++ string_of_Z day ++ " " ++ string_of_Z year;
     month := month ++ " " ++ string_of_Z year;
     week := "Week " ++ string_of_Z weekNumber ++ ", " ++ string_of_Z year;
     dateObj := currentDate |}%string.

Definition isWeekday (zone : Zone) (t : Z) : bool :=
  negb (getDay zone t =? 0) && negb (getDay zone t =? 6).

(** The [while (currentDate <= endDate)] loop of [generateDates];
    [None] when [fuel] iterations do not reach its exit. *)
Fixpoint generateDates_loop (zone : Zone) (fuel : nat)
  (currentDate endDate : Z) : option (list DateInfo) :=
  match fuel with
  | O => None
  | S fuel' =>
      if currentDate <=? endDate then
        match generateDates_loop zone fuel' (nextDay zone currentDate)
                endDate with
        | Some rest =>
            Some ((if isWeekday zone currentDate
                   then [dateInfo_of zone currentDate] else []) ++ rest)
        | None => None
        end
      else Some []
  end.

(** [generateDates(new Date(startDate), new Date(endDate))] for the
    dates [startDate] and [endDate] of the settings, given by their day
    numbers. The fuel is twice the number of days of the range, and one
    for the test that ends the loop. *)
Definition generateDates (zone : Zone) (startDate endDate : Date)
  : option (list DateInfo) :=
  generateDates_loop zone (S (Z.to_nat (2 * (endDate - startDate + 1))))
    (parseDate startDate) (parseDate endDate).

(** The time zones of the properties. *)
Definition utc : Zone := {| baseOffset := 0; transitions := [] |}.

(** A zone without transitions, at or east of Greenwich. *)
Definition fixedEast (zone : Zone) : Prop :=
  transitions zone = [] /\ 0 <= baseOffset zone < msPerDay.

(** America/New_York in 2025: UTC-5, summer time (UTC-4) from March 9th
    07:00Z to November 2nd 06:00Z. *)
Definition newYork : Zone :=
  {| baseOffset := -5 * msPerHour;
     transitions :=
       [ (days_from_civil 2025 3 9 * msPerDay + 7 * msPerHour, -4 * msPerHour);
         (days_from_civil 2025 11 2 * msPerDay + 6 * msPerHour, -5 * msPerHour) ] |}.

(** Europe/Berlin in 2025: UTC+1, summer time (UTC+2) from March 30th
    01:00Z to October 26th 01:00Z. *)
Definition berlin : Zone :=
  {| baseOffset := 1 * msPerHour;
     transitions :=
       [ (days_from_civil 2025 3 30 * msPerDay + 1 * msPerHour, 2 * msPerHour);
         (days_from_civil 2025 10 26 * msPerDay + 1 * msPerHour, 1 * msPerHour) ] |}.

(** Asia/Tokyo: UTC+9 throughout. *)
Definition tokyo : Zone := {| baseOffset := 9 * msPerHour; transitions := [] |}.

(** The entry of the day-precision calendar as an object whose [Date]
    is midnight UTC of that day. *)
Definition atMidnight (d : DateInfo) : DateInfo :=
  {| fullDate := fullDate d; month := month d; week := week d;
     dateObj := parseDate (dateObj d) |}.

End Local.

(* ===================================================================== *)
(** ** Data model ([types.ts]) *)
(* ===================================================================== *)

(** The fields of [SimulationSettings] the engine reads. [winRate] is a
    percentage. *)
Record SimulationSettings : Type := mkSettings {
  startDate : Date;
  endDate : Date;
  tradesPerDay : nat;
  winRate : Qc;
  riskRewardRatio : Qc;
  riskPerTrade : Qc;
  startingEquity : Qc
}.

Record EquityPoint : Type := mkEquityPoint {
  ep_date : string;
  ep_equity : num;
  ep_month : string;
  ep_week : string
}.

(** [MonthlyStats] and [WeeklyStats] differ only in the name of the key
    field ([month] / [week]); [key] stands for both. *)
Record BucketStats : Type := mkBucket {
  key : string;
  wins : nat;
  losses : nat;
  profitLoss : num;
  trades : nat
}.

(** A bucket of the breakdown lists: the accumulated bucket spread, plus
    [winRate], the string [toFixed(2)] returns. *)
Record BucketReport : Type := mkReport {
  stats : BucketStats;
  winRateText : string
}.

Record SimulationStats : Type := mkStats {
  s_winRate : num;
  s_avgRPerDay : num;
  s_avgRPerWeek : num;
  s_avgTradesPerDay : num;
  s_initialEquity : num;
  s_finalEquity : num;
  s_totalProfit : num;
  s_maxWinStreak : nat;
  s_maxLossStreak : nat;
  s_maxDrawdown : num;
  s_maxDrawdownPeriod : string;
  s_maxWinStreakPeriod : string;
  s_maxLossStreakPeriod : string;
  s_equityCurve : list EquityPoint;
  s_monthlyBreakdown : list BucketReport;
  s_weeklyBreakdown : list BucketReport;
  s_totalTrades : nat;
  s_riskRewardRatio : num
}.

(* ===================================================================== *)
(** ** Bucket maps *)
(* ===================================================================== *)

Definition BucketMap : Type := list (string * BucketStats).

(** [m[k]] *)
Fixpoint bucket_lookup (k : string) (m : BucketMap) : option BucketStats :=
  match m with
  | [] => None
  | (k', b) :: m' => if String.eqb k' k then Some b else bucket_lookup k m'
  end.

Definition emptyBucket (k : string) : BucketStats :=
  {| key := k; wins := 0; losses := 0; profitLoss := of_Z 0; trades := 0 |}.

(** [if (!m[k]) { m[k] = { key: k, wins: 0, ... } }] (lines 128-148). *)
Definition bucket_register (k : string) (m : BucketMap) : BucketMap :=
  match bucket_lookup k m with
  | Some _ => m
  | None => m ++ [(k, emptyBucket k)]
  end.

(** In-place mutation of [m[k]]; [None] when [m[k]] is [undefined] (the
    source would throw on [undefined.wins++]). *)
Fixpoint bucket_update (k : string) (f : BucketStats -> BucketStats)
  (m : BucketMap) : option BucketMap :=
  match m with
  | [] => None
  | (k', b) :: m' =>
      if String.eqb k' k then Some ((k', f b) :: m')
      else match bucket_update k f m' with
           | Some m'' => Some ((k', b) :: m'')
           | None => None
           end
  end.

(** [Object.values(m)] *)
Definition bucket_values (m : BucketMap) : list BucketStats := map snd m.

(** The three mutations of a bucket on a win: [wins++],
    [profitLoss += rewardPerTrade], [trades++]. *)
Definition bucket_win (rewardPerTrade : num) (b : BucketStats) : BucketStats :=
  {| key := key b; wins := S (wins b); losses := losses b;
     profitLoss := add (profitLoss b) rewardPerTrade;
     trades := S (trades b) |}.

(** The three mutations of a bucket on a loss: [losses++],
    [profitLoss -= riskPerTrade], [trades++]. *)
Definition bucket_loss (riskPerTrade : num) (b : BucketStats) : BucketStats :=
  {| key := key b; wins := wins b; losses := S (losses b);
     profitLoss := sub (profitLoss b) riskPerTrade;
     trades := S (trades b) |}.

(* ===================================================================== *)
(** ** Running trackers *)
(* ===================================================================== *)

Record Counts : Type := mkCounts {
  totalWins : nat;
  totalLosses : nat;
  totalTrades : nat
}.

Record Streaks : Type := mkStreaks {
  currentWinStreak : nat;
  currentLossStreak : nat;
  maxWinStreak : nat;
  maxLossStreak : nat;
  winStreakStart : option string;
  lossStreakStart : option string;
  maxWinStreakStart : option string;
  maxWinStreakEnd : option string;
  maxLossStreakStart : option string;
  maxLossStreakEnd : option string
}.

Record Drawdown : Type := mkDrawdown {
  peakEquity : num;
  currentDrawdown : num;
  maxDrawdown : num;
  drawdownStart : option string;
  drawdownEnd : option string;
  maxDrawdownStart : option string;
  maxDrawdownEnd : option string
}.

(** The mutable locals of the effect, and the number of [Math.random]
    calls made so far. *)
Record State : Type := mkState {
  runningEquity : num;
  equityCurve : list EquityPoint;
  monthlyStats : BucketMap;
  weeklyStats : BucketMap;
  counts : Counts;
  streaks : Streaks;
  drawdown : Drawdown;
  randomCalls : nat
}.

(** Lines 173-174 / 193-194 and 214: the totals after one trade. *)
Definition count_trade (isWin : bool) (c : Counts) : Counts :=
  {| totalWins := if isWin then S (totalWins c) else totalWins c;
     totalLosses := if isWin then totalLosses c else S (totalLosses c);
     totalTrades := S (totalTrades c) |}.

(** Lines 180-191: streak bookkeeping of a winning trade. *)
Definition streak_win (label : string) (s : Streaks) : Streaks :=
  let winStreakStart' :=
    if Nat.eqb (currentWinStreak s) 0 then Some label else winStreakStart s in
  let currentWinStreak' := S (currentWinStreak s) in
  let isMax := Nat.ltb (maxWinStreak s) currentWinStreak' in
  {| currentWinStreak := currentWinStreak';
     currentLossStreak := 0;
     maxWinStreak := if isMax then currentWinStreak' else maxWinStreak s;
     maxLossStreak := maxLossStreak s;
     winStreakStart := winStreakStart';
     lossStreakStart := lossStreakStart s;
     maxWinStreakStart := if isMax then winStreakStart' else maxWinStreakStart s;
     maxWinStreakEnd := if isMax then Some label else maxWinStreakEnd s;
     maxLossStreakStart := maxLossStreakStart s;
     maxLossStreakEnd := maxLossStreakEnd s |}.

(** Lines 200-211: streak bookkeeping of a losing trade. *)
Definition streak_loss (label : string) (s : Streaks) : Streaks :=
  let lossStreakStart' :=
    if Nat.eqb (currentLossStreak s) 0 then Some label else lossStreakStart s in
  let currentLossStreak' := S (currentLossStreak s) in
  let isMax := Nat.ltb (maxLossStreak s) currentLossStreak' in
  {| currentWinStreak := 0;
     currentLossStreak := currentLossStreak';
     maxWinStreak := maxWinStreak s;
     maxLossStreak := if isMax then currentLossStreak' else maxLossStreak s;
     winStreakStart := winStreakStart s;
     lossStreakStart := lossStreakStart';
     maxWinStreakStart := maxWinStreakStart s;
     maxWinStreakEnd := maxWinStreakEnd s;
     maxLossStreakStart := if isMax then lossStreakStart' else maxLossStreakStart s;
     maxLossStreakEnd := if isMax then Some label else maxLossStreakEnd s |}.

(** [(drawdownAmount / peakEquity) * 100] (lines 225-226). *)
Definition drawdownPercentage (peak dayEquity : num) : num :=
  mul (div (sub peak dayEquity) peak) (of_Z 100).

(** Lines 219-241: peak and drawdown update at the end of a day. *)
Definition updateDrawdown (label : string) (dayEquity : num) (d : Drawdown)
  : Drawdown :=
  if gt dayEquity (peakEquity d) then
    {| peakEquity := dayEquity;
       currentDrawdown := of_Z 0;
       maxDrawdown := maxDrawdown d;
       drawdownStart := None;
       drawdownEnd := drawdownEnd d;
       maxDrawdownStart := maxDrawdownStart d;
       maxDrawdownEnd := maxDrawdownEnd d |}
  else
    let pct := drawdownPercentage (peakEquity d) dayEquity in
    if gt pct (currentDrawdown d) then
      let drawdownStart' :=
        if str_truthy (drawdownStart d) then drawdownStart d else Some label in
      let isMax := gt pct (maxDrawdown d) in
      {| peakEquity := peakEquity d;
         currentDrawdown := pct;
         maxDrawdown := if isMax then pct else maxDrawdown d;
         drawdownStart := drawdownStart';
         drawdownEnd := Some label;
         maxDrawdownStart := if isMax then drawdownStart' else maxDrawdownStart d;
         maxDrawdownEnd := if isMax then Some label else maxDrawdownEnd d |}
    else d.

(* ===================================================================== *)
(** ** The simulation (lines 41-297) *)
(* ===================================================================== *)

Section Simulation.

Variable params : SimulationSettings.
(** The k-th value returned by [Math.random()]. *)
Variable rng : nat -> Qc.

Definition targetWinRate : num := div (Fin (winRate params)) (of_Z 100).
Definition rewardPerTrade : num :=
  mul (Fin (riskPerTrade params)) (Fin (riskRewardRatio params)).
Definition initialEquity : num := Fin (startingEquity params).

(** [Math.random() < targetWinRate] for the call numbered [k]. *)
Definition isWinAt (k : nat) : bool := lt (Fin (rng k)) targetWinRate.

(** Lines 127-149: register the month and week bucket of every date. *)
Definition registerBuckets (dates : list DateInfo) : BucketMap * BucketMap :=
  fold_left
    (fun acc date =>
       (bucket_register (month date) (fst acc),
        bucket_register (week date) (snd acc)))
    dates ([], []).

(** Lines 151-159: the seed of the equity curve. *)
Definition seedCurve (dates : list DateInfo) : list EquityPoint :=
  match dates with
  | [] => []
  | d0 :: _ =>
      [ {| ep_date := str_or (fullDate d0) "Start";
           ep_equity := initialEquity;
           ep_month := str_or (month d0) "Start";
           ep_week := str_or (week d0) "Week 1" |} ]
  end.

(** The locals as they stand when the day loop is entered (lines
    61-64, 101-159). *)
Definition initState (dates : list DateInfo) : State :=
  {| runningEquity := initialEquity;
     equityCurve := seedCurve dates;
     monthlyStats := fst (registerBuckets dates);
     weeklyStats := snd (registerBuckets dates);
     counts := {| totalWins := 0; totalLosses := 0; totalTrades := 0 |};
     streaks := {| currentWinStreak := 0; currentLossStreak := 0;
                   maxWinStreak := 0; maxLossStreak := 0;
                   winStreakStart := None; lossStreakStart := None;
                   maxWinStreakStart := None; maxWinStreakEnd := None;
                   maxLossStreakStart := None; maxLossStreakEnd := None |};
     drawdown := {| peakEquity := initialEquity;
                    currentDrawdown := of_Z 0;
                    maxDrawdown := of_Z 0;
                    drawdownStart := None; drawdownEnd := None;
                    maxDrawdownStart := None; maxDrawdownEnd := None |};
     randomCalls := 0 |}.

(** One iteration of the trade loop (lines 169-216), on the pair of
    [dayEquity] and the other locals. *)
Definition runTrade (date : DateInfo) (ds : num * State)
  : option (num * State) :=
  let dayEquity := fst ds in
  let st := snd ds in
  let isWin := isWinAt (randomCalls st) in
  let mutate :=
    if isWin then bucket_win rewardPerTrade
    else bucket_loss (Fin (riskPerTrade params)) in
  match bucket_update (month date) mutate (monthlyStats st),
        bucket_update (week date) mutate (weeklyStats st) with
  | Some monthly, Some weekly =>
      Some (if isWin then add dayEquity rewardPerTrade
            else sub dayEquity (Fin (riskPerTrade params)),
            {| runningEquity := runningEquity st;
               equityCurve := equityCurve st;
               monthlyStats := monthly;
               weeklyStats := weekly;
               counts := count_trade isWin (counts st);
               streaks := if isWin then streak_win (fullDate date) (streaks st)
                          else streak_loss (fullDate date) (streaks st);
               drawdown := drawdown st;
               randomCalls := S (randomCalls st) |})
  | _, _ => None
  end.

(** [for (let j = 0; j < tradesPerDay; j++)] with [n] iterations left. *)
Fixpoint runTrades (n : nat) (date : DateInfo) (ds : num * State)
  : option (num * State) :=
  match n with
  | O => Some ds
  | S n' =>
      match runTrade date ds with
      | Some ds' => runTrades n' date ds'
      | None => None
      end
  end.

(** Lines 219-250: the end of a day, after its trades. *)
Definition closeDay (date : DateInfo) (ds : num * State) : State :=
  let dayEquity := fst ds in
  let st := snd ds in
  {| runningEquity := dayEquity;
     equityCurve :=
       equityCurve st ++
         [ {| ep_date := fullDate date; ep_equity := dayEquity;
              ep_month := month date; ep_week := week date |} ];
     monthlyStats := monthlyStats st;
     weeklyStats := weeklyStats st;
     counts := counts st;
     streaks := streaks st;
     drawdown := updateDrawdown (fullDate date) dayEquity (drawdown st);
     randomCalls := randomCalls st |}.

(** One iteration of the day loop (lines 162-250). *)
Definition runDay (date : DateInfo) (st : State) : option State :=
  match runTrades (tradesPerDay params) date (runningEquity st, st) with
  | Some ds => Some (closeDay date ds)
  | None => None
  end.

(** [for (let i = 0; i < dates.length; i++)] over the remaining dates. *)
Fixpoint runDays (dates : list DateInfo) (st : State) : option State :=
  match dates with
  | [] => Some st
  | date :: rest =>
      match runDay date st with
      | Some st' => runDays rest st'
      | None => None
      end
  end.

(** [wins / (wins + losses) * 100] *)
Definition winPercentage (w l : nat) : num :=
  mul (div (of_nat w) (of_nat (w + l))) (of_Z 100).

(** [month.wins / (month.wins + month.losses) * 100 || 0] *)
Definition bucketWinRate (b : BucketStats) : num :=
  or (winPercentage (wins b) (losses b)) (of_Z 0).

(** The same rate as the double the source computes: the counters are
    integers, which binary64 holds exactly. *)
Definition bucketWinRate64 (b : BucketStats) : B64.num :=
  B64.or (B64.mul (B64.div (B64.of_nat (wins b))
                           (B64.of_nat (wins b + losses b)))
                  (B64.of_Z 100))
         (B64.of_Z 0).

(** Lines 261-276: one entry of a breakdown list; [toFixed(2)] prints
    the digits of the double. *)
Definition reportBucket (b : BucketStats) : BucketReport :=
  {| stats := b; winRateText := B64.toFixed2 (bucketWinRate64 b) |}.

(** [`${a || 'N/A'} to ${b || 'N/A'}`] *)
Definition period (a b : option string) : string :=
  (opt_or a "N/A" ++ " to " ++ opt_or b "N/A")%string.

(** Lines 253-297: the object handed to [setStats]. *)
Definition summarize (dates : list DateInfo) (st : State) : SimulationStats :=
  let c := counts st in
  let actualWinRate :=
    or (winPercentage (totalWins c) (totalLosses c)) (Fin (winRate params)) in
  let totalProfit := sub (runningEquity st) initialEquity in
  let avgRPerDay :=
    or (div totalProfit
            (mul (Fin (riskPerTrade params)) (of_nat (List.length dates))))
       (of_Z 0) in
  let avgRPerWeek := mul avgRPerDay (of_Z 5) in
  let actualAvgTradesPerDay :=
    or (div (of_nat (totalTrades c)) (of_nat (List.length dates)))
       (of_nat (tradesPerDay params)) in
  {| s_winRate := actualWinRate;
     s_avgRPerDay := avgRPerDay;
     s_avgRPerWeek := avgRPerWeek;
     s_avgTradesPerDay := actualAvgTradesPerDay;
     s_initialEquity := initialEquity;
     s_finalEquity := runningEquity st;
     s_totalProfit := totalProfit;
     s_maxWinStreak := maxWinStreak (streaks st);
     s_maxLossStreak := maxLossStreak (streaks st);
     s_maxDrawdown := maxDrawdown (drawdown st);
     s_maxDrawdownPeriod :=
       period (maxDrawdownStart (drawdown st)) (maxDrawdownEnd (drawdown st));
     s_maxWinStreakPeriod :=
       period (maxWinStreakStart (streaks st)) (maxWinStreakEnd (streaks st));
     s_maxLossStreakPeriod :=
       period (maxLossStreakStart (streaks st)) (maxLossStreakEnd (streaks st));
     s_equityCurve := equityCurve st;
     s_monthlyBreakdown := map reportBucket (bucket_values (monthlyStats st));
     s_weeklyBreakdown := map reportBucket (bucket_values (weeklyStats st));
     s_totalTrades := totalTrades c;
     s_riskRewardRatio := Fin (riskRewardRatio params) |}.

(** The day loop over a calendar, from the initial locals. *)
Definition simulate (dates : list DateInfo) : option State :=
  runDays dates (initState dates).

(** The trading days of the run (line 98). *)
Definition tradingDays : list DateInfo :=
  generateDates (startDate params) (endDate params).

(** The whole effect: the value passed to [setStats], or [None] if the
    run throws. *)
Definition runSimulation : option SimulationStats :=
  match simulate tradingDays with
  | Some st => Some (summarize tradingDays st)
  | None => None
  end.

End Simulation.

(** The number of [b] in a list of outcomes. *)
Definition countOf (b : bool) (l : list bool) : nat :=
  List.length (filter (Bool.eqb b) l).

(* ===================================================================== *)
(** ** The simulation at run time: binary64 amounts and local dates *)
(* ===================================================================== *)

(** The same effect (lines 41-297) with every amount a binary64 number,
    rounded after each operation, and the calendar generated in the time
    zone of the browser. Counters, streaks and labels are as above. *)
Module Runtime.

Record SimulationSettings : Type := mkSettings {
  startDate : Date;
  endDate : Date;
  tradesPerDay : nat;
  winRate : B64.num;
  riskRewardRatio : B64.num;
  riskPerTrade : B64.num;
  startingEquity : B64.num
}.

Record EquityPoint : Type := mkEquityPoint {
  ep_date : string;
  ep_equity : B64.num;
  ep_month : string;
  ep_week : string
}.

Record BucketStats : Type := mkBucket {
  key : string;
  wins : nat;
  losses : nat;
  profitLoss : B64.num;
  trades : nat
}.

Record BucketReport : Type := mkReport {
  stats : BucketStats;
  winRateText : string
}.

Record SimulationStats : Type := mkStats {
  s_winRate : B64.num;
  s_avgRPerDay : B64.num;
  s_avgRPerWeek : B64.num;
  s_avgTradesPerDay : B64.num;
  s_initialEquity : B64.num;
  s_finalEquity : B64.num;
  s_totalProfit : B64.num;
  s_maxWinStreak : nat;
  s_maxLossStreak : nat;
  s_maxDrawdown : B64.num;
  s_maxDrawdownPeriod : string;
  s_maxWinStreakPeriod : string;
  s_maxLossStreakPeriod : string;
  s_equityCurve : list EquityPoint;
  s_monthlyBreakdown : list BucketReport;
  s_weeklyBreakdown : list BucketReport;
  s_totalTrades : nat;
  s_riskRewardRatio : B64.num
}.

Definition BucketMap : Type := list (string * BucketStats).

(** [m[k]] *)
Fixpoint bucket_lookup (k : string) (m : BucketMap) : option BucketStats :=
  match m with
  | [] => None
  | (k', b) :: m' => if String.eqb k' k then Some b else bucket_lookup k m'
  end.

Definition emptyBucket (k : string) : BucketStats :=
  {| key := k; wins := 0; losses := 0; profitLoss := B64.of_Z 0;
     trades := 0 |}.

(** [if (!m[k]) { m[k] = { key: k, wins: 0, ... } }] (lines 128-148). *)
Definition bucket_register (k : string) (m : BucketMap) : BucketMap :=
  match bucket_lookup k m with
  | Some _ => m
  | None => m ++ [(k, emptyBucket k)]
  end.

(** In-place mutation of [m[k]]; [None] when [m[k]] is [undefined]. *)
Fixpoint bucket_update (k : string) (f : BucketStats -> BucketStats)
  (m : BucketMap) : option BucketMap :=
  match m with
  | [] => None
  | (k', b) :: m' =>
      if String.eqb k' k then Some ((k', f b) :: m')
      else match bucket_update k f m' with
           | Some m'' => Some ((k', b) :: m'')
           | None => None
           end
  end.

(** [Object.values(m)] *)
Definition bucket_values (m : BucketMap) : list BucketStats := map snd m.

(** [wins++], [profitLoss += rewardPerTrade], [trades++]. *)
Definition bucket_win (rewardPerTrade : B64.num) (b : BucketStats)
  : BucketStats :=
  {| key := key b; wins := S (wins b); losses := losses b;
     profitLoss := B64.add (profitLoss b) rewardPerTrade;
     trades := S (trades b) |}.

(** [losses++], [profitLoss -= riskPerTrade], [trades++]. *)
Definition bucket_loss (riskPerTrade : B64.num) (b : BucketStats)
  : BucketStats :=
  {| key := key b; wins := wins b; losses := S (losses b);
     profitLoss := B64.sub (profitLoss b) riskPerTrade;
     trades := S (trades b) |}.

Record Drawdown : Type := mkDrawdown {
  peakEquity : B64.num;
  currentDrawdown : B64.num;
  maxDrawdown : B64.num;
  drawdownStart : option string;
  drawdownEnd : option string;
  maxDrawdownStart : option string;
  maxDrawdownEnd : option string
}.

(** The mutable locals of the effect, and the number of [Math.random]
    calls made so far. *)
Record State : Type := mkState {
  runningEquity : B64.num;
  equityCurve : list EquityPoint;
  monthlyStats : BucketMap;
  weeklyStats : BucketMap;
  counts : Counts;
  streaks : Streaks;
  drawdown : Drawdown;
  randomCalls : nat
}.

(** [(drawdownAmount / peakEquity) * 100] (lines 225-226). *)
Definition drawdownPercentage (peak dayEquity : B64.num) : B64.num :=
  B64.mul (B64.div (B64.sub peak dayEquity) peak) (B64.of_Z 100).

(** Lines 219-241: peak and drawdown update at the end of a day. *)
Definition updateDrawdown (label : string) (dayEquity : B64.num)
  (d : Drawdown) : Drawdown :=
  if B64.gt dayEquity (peakEquity d) then
    {| peakEquity := dayEquity;
       currentDrawdown := B64.of_Z 0;
       maxDrawdown := maxDrawdown d;
       drawdownStart := None;
       drawdownEnd := drawdownEnd d;
       maxDrawdownStart := maxDrawdownStart d;
       maxDrawdownEnd := maxDrawdownEnd d |}
  else
    let pct := drawdownPercentage (peakEquity d) dayEquity in
    if B64.gt pct (currentDrawdown d) then
      let drawdownStart' :=
        if str_truthy (drawdownStart d) then drawdownStart d else Some label in
      let isMax := B64.gt pct (maxDrawdown d) in
      {| peakEquity := peakEquity d;
         currentDrawdown := pct;
         maxDrawdown := if isMax then pct else maxDrawdown d;
         drawdownStart := drawdownStart';
         drawdownEnd := Some label;
         maxDrawdownStart := if isMax then drawdownStart' else maxDrawdownStart d;
         maxDrawdownEnd := if isMax then Some label else maxDrawdownEnd d |}
    else d.

Section Simulation.

(** The time zone of the browser. *)
Variable zone : Local.Zone.
Variable params : SimulationSettings.
(** The k-th value returned by [Math.random()]. *)
Variable rng : nat -> B64.num.

Definition targetWinRate : B64.num := B64.div (winRate params) (B64.of_Z 100).
Definition rewardPerTrade : B64.num :=
  B64.mul (riskPerTrade params) (riskRewardRatio params).
Definition initialEquity : B64.num := startingEquity params.

(** [Math.random() < targetWinRate] for the call numbered [k]. *)
Definition isWinAt (k : nat) : bool := B64.lt (rng k) targetWinRate.

(** Lines 127-149: register the month and week bucket of every date. *)
Definition registerBuckets (dates : list DateInfo) : BucketMap * BucketMap :=
  fold_left
    (fun acc date =>
       (bucket_register (month date) (fst acc),
        bucket_register (week date) (snd acc)))
    dates ([], []).

(** Lines 151-159: the seed of the equity curve. *)
Definition seedCurve (dates : list DateInfo) : list EquityPoint :=
  match dates with
  | [] => []
  | d0 :: _ =>
      [ {| ep_date := str_or (fullDate d0) "Start";
           ep_equity := initialEquity;
           ep_month := str_or (month d0) "Start";
           ep_week := str_or (week d0) "Week 1" |} ]
  end.

(** The locals as they stand when the day loop is entered (lines
    61-64, 101-159). *)
Definition initState (dates : list DateInfo) : State :=
  {| runningEquity := initialEquity;
     equityCurve := seedCurve dates;
     monthlyStats := fst (registerBuckets dates);
     weeklyStats := snd (registerBuckets dates);
     counts := {| totalWins := 0; totalLosses := 0; totalTrades := 0 |};
     streaks := {| currentWinStreak := 0; currentLossStreak := 0;
                   maxWinStreak := 0; maxLossStreak := 0;
                   winStreakStart := None; lossStreakStart := None;
                   maxWinStreakStart := None; maxWinStreakEnd := None;
                   maxLossStreakStart := None; maxLossStreakEnd := None |};
     drawdown := {| peakEquity := initialEquity;
                    currentDrawdown := B64.of_Z 0;
                    maxDrawdown := B64.of_Z 0;
                    drawdownStart := None; drawdownEnd := None;
                    maxDrawdownStart := None; maxDrawdownEnd := None |};
     randomCalls := 0 |}.

(** [dayEquity += rewardPerTrade] on a win, [dayEquity -= riskPerTrade]
    on a loss (lines 172 and 192). *)
Definition tradeEquity (isWin : bool) (dayEquity : B64.num) : B64.num :=
  if isWin then B64.add dayEquity rewardPerTrade
  else B64.sub dayEquity (riskPerTrade params).

(** One iteration of the trade loop (lines 169-216), on the pair of
    [dayEquity] and the other locals. *)
Definition runTrade (date : DateInfo) (ds : B64.num * State)
  : option (B64.num * State) :=
  let dayEquity := fst ds in
  let st := snd ds in
  let isWin := isWinAt (randomCalls st) in
  let mutate :=
    if isWin then bucket_win rewardPerTrade
    else bucket_loss (riskPerTrade params) in
  match bucket_update (month date) mutate (monthlyStats st),
        bucket_update (week date) mutate (weeklyStats st) with
  | Some monthly, Some weekly =>
      Some (tradeEquity isWin dayEquity,
            {| runningEquity := runningEquity st;
               equityCurve := equityCurve st;
               monthlyStats := monthly;
               weeklyStats := weekly;
               counts := count_trade isWin (counts st);
               streaks := if isWin then streak_win (fullDate date) (streaks st)
                          else streak_loss (fullDate date) (streaks st);
               drawdown := drawdown st;
               randomCalls := S (randomCalls st) |})
  | _, _ => None
  end.

(** [for (let j = 0; j < tradesPerDay; j++)] with [n] iterations left. *)
Fixpoint runTrades (n : nat) (date : DateInfo) (ds : B64.num * State)
  : option (B64.num * State) :=
  match n with
  | O => Some ds
  | S n' =>
      match runTrade date ds with
      | Some ds' => runTrades n' date ds'
      | None => None
      end
  end.

(** Lines 219-250: the end of a day, after its trades. *)
Definition closeDay (date : DateInfo) (ds : B64.num * State) : State :=
  let dayEquity := fst ds in
  let st := snd ds in
  {| runningEquity := dayEquity;
     equityCurve :=
       equityCurve st ++
         [ {| ep_date := fullDate date; ep_equity := dayEquity;
              ep_month := month date; ep_week := week date |} ];
     monthlyStats := monthlyStats st;
     weeklyStats := weeklyStats st;
     counts := counts st;
     streaks := streaks st;
     drawdown := updateDrawdown (fullDate date) dayEquity (drawdown st);
     randomCalls := randomCalls st |}.

(** One iteration of the day loop (lines 162-250). *)
Definition runDay (date : DateInfo) (st : State) : option State :=
  match runTrades (tradesPerDay params) date (runningEquity st, st) with
  | Some ds => Some (closeDay date ds)
  | None => None
  end.

(** [for (let i = 0; i < dates.length; i++)] over the remaining dates. *)
Fixpoint runDays (dates : list DateInfo) (st : State) : option State :=
  match dates with
  | [] => Some st
  | date :: rest =>
      match runDay date st with
      | Some st' => runDays rest st'
      | None => None
      end
  end.

(** [wins / (wins + losses) * 100] *)
Definition winPercentage (w l : nat) : B64.num :=
  B64.mul (B64.div (B64.of_nat w) (B64.of_nat (w + l))) (B64.of_Z 100).

(** [month.wins / (month.wins + month.losses) * 100 || 0] *)
Definition bucketWinRate (b : BucketStats) : B64.num :=
  B64.or (winPercentage (wins b) (losses b)) (B64.of_Z 0).

(** Lines 261-276: one entry of a breakdown list. *)
Definition reportBucket (b : BucketStats) : BucketReport :=
  {| stats := b; winRateText := B64.toFixed2 (bucketWinRate b) |}.

(** Lines 253-297: the object handed to [setStats]. *)
Definition summarize (dates : list DateInfo) (st : State) : SimulationStats :=
  let c := counts st in
  let actualWinRate :=
    B64.or (winPercentage (totalWins c) (totalLosses c)) (winRate params) in
  let totalProfit := B64.sub (runningEquity st) initialEquity in
  let avgRPerDay :=
    B64.or (B64.div totalProfit
              (B64.mul (riskPerTrade params)
                       (B64.of_nat (List.length dates))))
           (B64.of_Z 0) in
  let avgRPerWeek := B64.mul avgRPerDay (B64.of_Z 5) in
  let actualAvgTradesPerDay :=
    B64.or (B64.div (B64.of_nat (totalTrades c))
                    (B64.of_nat (List.length dates)))
           (B64.of_nat (tradesPerDay params)) in
  {| s_winRate := actualWinRate;
     s_avgRPerDay := avgRPerDay;
     s_avgRPerWeek := avgRPerWeek;
     s_avgTradesPerDay := actualAvgTradesPerDay;
     s_initialEquity := initialEquity;
     s_finalEquity := runningEquity st;
     s_totalProfit := totalProfit;
     s_maxWinStreak := maxWinStreak (streaks st);
     s_maxLossStreak := maxLossStreak (streaks st);
     s_maxDrawdown := maxDrawdown (drawdown st);
     s_maxDrawdownPeriod :=
       period (maxDrawdownStart (drawdown st)) (maxDrawdownEnd (drawdown st));
     s_maxWinStreakPeriod :=
       period (maxWinStreakStart (streaks st)) (maxWinStreakEnd (streaks st));
     s_maxLossStreakPeriod :=
       period (maxLossStreakStart (streaks st)) (maxLossStreakEnd (streaks st));
     s_equityCurve := equityCurve st;
     s_monthlyBreakdown := map reportBucket (bucket_values (monthlyStats st));
     s_weeklyBreakdown := map reportBucket (bucket_values (weeklyStats st));
     s_totalTrades := totalTrades c;
     s_riskRewardRatio := riskRewardRatio params |}.

(** The day loop over a calendar, from the initial locals. *)
Definition simulate (dates : list DateInfo) : option State :=
  runDays dates (initState dates).

(** The trading days of the run (lines 53-54 and 98). *)
Definition tradingDays : option (list DateInfo) :=
  Local.generateDates zone (startDate params) (endDate params).

(** The run over a given calendar: the value passed to [setStats], or
    [None] if the run throws. *)
Definition runOver (dates : list DateInfo) : option SimulationStats :=
  match simulate dates with
  | Some st => Some (summarize dates st)
  | None => None
  end.

(** The whole effect. *)
Definition runSimulation : option SimulationStats :=
  match tradingDays with
  | Some dates => runOver dates
  | None => None
  end.

End Simulation.

(** *** Vocabulary of the run-time properties *)

Definition keysOf (m : BucketMap) : list string := map fst m.

(** Every date of [dates] has its month and week bucket in the maps of
    [st]. *)
Definition keysCover (dates : list DateInfo) (st : State) : Prop :=
  forall d, In d dates ->
    In (month d) (keysOf (monthlyStats st)) /\
    In (week d) (keysOf (weeklyStats st)).

(** The outcomes of the first [n] trades of a run: [true] is a win. *)
Definition outcomes (p : SimulationSettings) (rng : nat -> B64.num)
  (n : nat) : list bool :=
  map (isWinAt p rng) (seq 0 n).

(** The outcomes of the trades of the day numbered [i] (from 0). *)
Definition dayTrades (p : SimulationSettings) (rng : nat -> B64.num)
  (i : nat) : list bool :=
  map (isWinAt p rng) (seq (i * tradesPerDay p) (tradesPerDay p)).

(** An equity after the trades [outs], in order: the reward added for a
    win, the risk subtracted for a loss, each result rounded. *)
Definition accumulate (p : SimulationSettings) (outs : list bool)
  (equity : B64.num) : B64.num :=
  fold_left (fun e isWin => tradeEquity p isWin e) outs equity.

(** The equity after the first [n] trades of a run. *)
Definition equityAfterTrades (p : SimulationSettings)
  (rng : nat -> B64.num) (n : nat) : B64.num :=
  accumulate p (outcomes p rng n) (startingEquity p).

(** [startingEquity + w * (riskPerTrade * riskRewardRatio)
     - l * riskPerTrade], evaluated in binary64. *)
Definition closedForm (p : SimulationSettings) (w l : nat) : B64.num :=
  B64.sub (B64.add (startingEquity p)
                   (B64.mul (B64.of_nat w) (rewardPerTrade p)))
          (B64.mul (B64.of_nat l) (riskPerTrade p)).

(** The same expression on the exact values of the parameters, without
    rounding. *)
Definition closedFormExact (p : SimulationSettings) (w l : nat) : Q :=
  (B64.toQ (startingEquity p)
   + inject_Z (Z.of_nat w)
     * (B64.toQ (riskPerTrade p) * B64.toQ (riskRewardRatio p))
   - inject_Z (Z.of_nat l) * B64.toQ (riskPerTrade p))%Q.

(** Between days, after [n] days: [n * tradesPerDay] trades were made,
    the totals count their outcomes, the running equity is the
    accumulation over them, and the curve holds the equity at the start
    and after each day. *)
Definition afterDays (p : SimulationSettings) (rng : nat -> B64.num)
  (n : nat) (st : State) : Prop :=
  randomCalls st = (n * tradesPerDay p)%nat /\
  totalTrades (counts st) = randomCalls st /\
  totalWins (counts st)
    = countOf true (outcomes p rng (randomCalls st)) /\
  totalLosses (counts st)
    = countOf false (outcomes p rng (randomCalls st)) /\
  runningEquity st = equityAfterTrades p rng (randomCalls st) /\
  map ep_equity (equityCurve st)
    = map (fun j => equityAfterTrades p rng (j * tradesPerDay p))
          (seq 0 (S n)).

(** Within the day numbered [n], after [j] of its trades. *)
Definition afterTrades (p : SimulationSettings) (rng : nat -> B64.num)
  (n j : nat) (ds : B64.num * State) : Prop :=
  randomCalls (snd ds) = (n * tradesPerDay p + j)%nat /\
  totalTrades (counts (snd ds)) = randomCalls (snd ds) /\
  totalWins (counts (snd ds))
    = countOf true (outcomes p rng (randomCalls (snd ds))) /\
  totalLosses (counts (snd ds))
    = countOf false (outcomes p rng (randomCalls (snd ds))) /\
  fst ds = equityAfterTrades p rng (randomCalls (snd ds)) /\
  map ep_equity (equityCurve (snd ds))
    = map (fun j => equityAfterTrades p rng (j * tradesPerDay p))
          (seq 0 (S n)).

(** The peak is positive and the recorded maximum drawdown is a number
    not below zero. *)
Definition peakPositive (d : Drawdown) : Prop :=
  B64.lt (B64.of_Z 0) (peakEquity d) = true /\
  B64.le (B64.of_Z 0) (maxDrawdown d) = true.

(** The parameter ranges of the data model, for numbers the form can
    deliver: finite, the win rate a percentage, positive trades per day,
    risk and ratio. *)
Definition validRanges (p : SimulationSettings) : Prop :=
  B64.is_finite (winRate p) = true /\
  B64.le (B64.of_Z 0) (winRate p) = true /\
  B64.le (winRate p) (B64.of_Z 100) = true /\
  (0 < tradesPerDay p)%nat /\
  B64.is_finite (riskPerTrade p) = true /\
  B64.lt (B64.of_Z 0) (riskPerTrade p) = true /\
  B64.is_finite (riskRewardRatio p) = true /\
  B64.lt (B64.of_Z 0) (riskRewardRatio p) = true /\
  B64.is_finite (startingEquity p) = true.

(** [Math.random] returns values in [0, 1). *)
Definition uniformDraws (rng : nat -> B64.num) : Prop :=
  forall k, B64.le (B64.of_Z 0) (rng k) = true /\
            B64.lt (rng k) (B64.of_Z 1) = true.

(** Amounts that cannot overflow: risk and starting equity are binary64
    numbers between [2^-300] and [2^300], the ratio one of at most
    [2^300]. *)
Definition boundedAmounts (p : SimulationSettings) : Prop :=
  B64.valid (riskPerTrade p) = true /\
  B64.valid (riskRewardRatio p) = true /\
  B64.valid (startingEquity p) = true /\
  B64.le (B64.pow2 (-300)) (riskPerTrade p) = true /\
  B64.le (riskPerTrade p) (B64.pow2 300) = true /\
  B64.le (riskRewardRatio p) (B64.pow2 300) = true /\
  B64.le (B64.pow2 (-300)) (startingEquity p) = true /\
  B64.le (startingEquity p) (B64.pow2 300) = true.

(** No numeric field of a summary is [NaN] or infinite. *)
Definition summaryFinite (s : SimulationStats) : Prop :=
  B64.is_finite (s_winRate s) = true /\
  B64.is_finite (s_avgRPerDay s) = true /\
  B64.is_finite (s_avgRPerWeek s) = true /\
  B64.is_finite (s_avgTradesPerDay s) = true /\
  B64.is_finite (s_initialEquity s) = true /\
  B64.is_finite (s_finalEquity s) = true /\
  B64.is_finite (s_totalProfit s) = true /\
  B64.is_finite (s_maxDrawdown s) = true /\
  B64.is_finite (s_riskRewardRatio s) = true /\
  Forall (fun pt => B64.is_finite (ep_equity pt) = true) (s_equityCurve s) /\
  Forall (fun r => B64.is_finite (bucketWinRate (stats r)) = true /\
                   B64.is_finite (profitLoss (stats r)) = true)
         (s_monthlyBreakdown s ++ s_weeklyBreakdown s).

(** No numeric field of a summary is [NaN]. *)
Definition summaryNumbers (s : SimulationStats) : Prop :=
  s_winRate s <> B64.NaN /\
  s_avgRPerDay s <> B64.NaN /\
  s_avgRPerWeek s <> B64.NaN /\
  s_avgTradesPerDay s <> B64.NaN /\
  s_initialEquity s <> B64.NaN /\
  s_finalEquity s <> B64.NaN /\
  s_totalProfit s <> B64.NaN /\
  s_maxDrawdown s <> B64.NaN /\
  s_riskRewardRatio s <> B64.NaN /\
  Forall (fun pt => ep_equity pt <> B64.NaN) (s_equityCurve s) /\
  Forall (fun r => bucketWinRate (stats r) <> B64.NaN /\
                   profitLoss (stats r) <> B64.NaN)
         (s_monthlyBreakdown s ++ s_weeklyBreakdown s).

(** No amount among the locals is [NaN], and the maximum drawdown is a
    number not below zero. *)
Definition numbersOnly (dayEquity : B64.num) (st : State) : Prop :=
  dayEquity <> B64.NaN /\
  runningEquity st <> B64.NaN /\
  Forall (fun pt => ep_equity pt <> B64.NaN) (equityCurve st) /\
  Forall (fun kb => profitLoss (snd kb) <> B64.NaN) (monthlyStats st) /\
  Forall (fun kb => profitLoss (snd kb) <> B64.NaN) (weeklyStats st) /\
  B64.le (B64.of_Z 0) (maxDrawdown (drawdown st)) = true.

(** A finite number of the format of at most [bound] units of [2^-1074]
    in absolute value. *)
Definition amountWithin (bound : Z) (x : B64.num) : Prop :=
  B64.valid x = true /\ B64.is_finite x = true /\
  Z.abs (B64.units x) <= bound.

(** Every bucket holds a profit within [bound] and at most [k] decided
    trades. *)
Definition bucketsWithin (bound : Z) (k : nat) (m : BucketMap) : Prop :=
  Forall (fun kb => amountWithin bound (profitLoss (snd kb)) /\
                    (wins (snd kb) + losses (snd kb) <= k)%nat) m.

(** A positive amount within [bound], of magnitude at least [lo]. *)
Definition peakWithin (bound lo : Z) (x : B64.num) : Prop :=
  amountWithin bound x /\
  (exists m e, x = S754_finite false m e) /\
  lo <= B64.magnitude x.

(** The locals after [k] trades of a run whose equity starts within [a]
    and moves by at most [step] a trade: every amount is within
    [a + k * step], the peak is positive and the maximum drawdown is
    finite. *)
Definition boundedState (a step lo : Z) (k : nat) (dayEquity : B64.num)
  (st : State) : Prop :=
  randomCalls st = k /\
  (totalWins (counts st) + totalLosses (counts st) = k)%nat /\
  totalTrades (counts st) = k /\
  amountWithin (a + Z.of_nat k * step) dayEquity /\
  amountWithin (a + Z.of_nat k * step) (runningEquity st) /\
  Forall (fun pt => amountWithin (a + Z.of_nat k * step) (ep_equity pt))
         (equityCurve st) /\
  bucketsWithin (Z.of_nat k * step) k (monthlyStats st) /\
  bucketsWithin (Z.of_nat k * step) k (weeklyStats st) /\
  peakWithin (a + Z.of_nat k * step) lo (peakEquity (drawdown st)) /\
  B64.valid (maxDrawdown (drawdown st)) = true /\
  B64.is_finite (maxDrawdown (drawdown st)) = true.

End Runtime.

(* ===================================================================== *)
(** ** Vocabulary of the properties *)
(* ===================================================================== *)

(** [Math.random] returns values in [0, 1). *)
Definition uniformDraws (rng : nat -> Qc) : Prop :=
  forall k, (0 <= rng k)%Qc /\ (rng k < 1)%Qc.

(** The parameter ranges of the data model: win probability in [0, 1]
    (the percentage in [0, 100]), positive trades per day, positive risk
    amount, positive risk:reward ratio, any starting equity. *)
Definition validRanges (p : SimulationSettings) : Prop :=
  (0 <= winRate p)%Qc /\ (winRate p <= Qc_of_Z 100)%Qc /\
  (0 < tradesPerDay p)%nat /\
  (0 < riskPerTrade p)%Qc /\ (0 < riskRewardRatio p)%Qc.

(** The highest equity seen, starting from [start], after the values
    [es] in order. *)
Definition runningPeak (start : num) (es : list num) : num :=
  fold_left (fun peak e => if gt e peak then e else peak) es start.

(** Sum of the [trades] of a list of reported buckets. *)
Definition sumTrades (l : list BucketReport) : nat :=
  fold_right (fun r acc => (trades (stats r) + acc)%nat) 0%nat l.

Definition sumWins (l : list BucketReport) : nat :=
  fold_right (fun r acc => (wins (stats r) + acc)%nat) 0%nat l.

Definition sumLosses (l : list BucketReport) : nat :=
  fold_right (fun r acc => (losses (stats r) + acc)%nat) 0%nat l.

(** The number of dates whose bucket key (taken by [proj]) is [k]. *)
Definition daysWithKey (proj : DateInfo -> string) (k : string)
  (dates : list DateInfo) : nat :=
  List.length (filter (fun d => String.eqb (proj d) k) dates).

(** The keys of a bucket map, in insertion order. *)
Definition keysOf (m : BucketMap) : list string := map fst m.

(** Sum of the [trades] of the buckets of a map. *)
Definition mapTrades (m : BucketMap) : nat :=
  fold_right (fun e acc => (trades (snd e) + acc)%nat) 0%nat m.

(** Registration of a list of keys, in order. *)
Definition registerKeys (ks : list string) (m : BucketMap) : BucketMap :=
  fold_left (fun acc k => bucket_register k acc) ks m.

(** A map as registration leaves it: distinct keys, each bound to the
    empty bucket of that key. *)
Definition freshMap (m : BucketMap) : Prop :=
  NoDup (keysOf m) /\ Forall (fun e => snd e = emptyBucket (fst e)) m.

(** Every date of [dates] has its month and week bucket in the maps of
    [st]. *)
Definition keysCover (dates : list DateInfo) (st : State) : Prop :=
  forall d, In d dates ->
    In (month d) (keysOf (monthlyStats st)) /\
    In (week d) (keysOf (weeklyStats st)).

(** The point appended to the curve at the close of a day. *)
Definition dayPoint (date : DateInfo) (dayEquity : num) : EquityPoint :=
  {| ep_date := fullDate date; ep_equity := dayEquity;
     ep_month := month date; ep_week := week date |}.

(** A bucket whose decided trades add up to its trade count. *)
Definition bucketBalanced (b : BucketStats) : Prop :=
  (wins b + losses b = trades b)%nat.

(** The equity that [w] wins and [l] losses leave. *)
Definition equityAfter (p : SimulationSettings) (w l : nat) : Qc :=
  (startingEquity p + Qc_of_nat w * (riskPerTrade p * riskRewardRatio p)
   - Qc_of_nat l * riskPerTrade p)%Qc.

(** Between trades: every bucket is balanced, each map sums to the
    total trade count, and the decided trades add up to it too. *)
Definition totalsAgree (st : State) : Prop :=
  Forall (fun e => bucketBalanced (snd e)) (monthlyStats st) /\
  Forall (fun e => bucketBalanced (snd e)) (weeklyStats st) /\
  mapTrades (monthlyStats st) = totalTrades (counts st) /\
  mapTrades (weeklyStats st) = totalTrades (counts st) /\
  (totalWins (counts st) + totalLosses (counts st))%nat = totalTrades (counts st).

(** At most one of the two current streaks is running. *)
Definition streaksExclusive (s : Streaks) : Prop :=
  ~ ((0 < currentWinStreak s)%nat /\ (0 < currentLossStreak s)%nat).

(** Between days: the recorded maximum drawdown is a number not below
    zero, and the peak is the highest equity on the curve so far. *)
Definition drawdownSound (p : SimulationSettings) (st : State) : Prop :=
  le (of_Z 0) (maxDrawdown (drawdown st)) = true /\
  peakEquity (drawdown st)
    = runningPeak (initialEquity p) (map ep_equity (equityCurve st)).

(** Within a day: after the days [pre] and [j] trades of the day [d],
    every bucket of [m] is filed under its own key and has counted
    [tpd] trades for each earlier day of its key, plus [j] if [d] has its
    key. [proj] is [month] or [week]. *)
Definition tracksTrades (proj : DateInfo -> string) (tpd : nat)
  (pre : list DateInfo) (d : DateInfo) (j : nat) (m : BucketMap) : Prop :=
  Forall (fun e =>
            key (snd e) = fst e /\
            trades (snd e) =
              (tpd * daysWithKey proj (fst e) pre
               + (if String.eqb (proj d) (fst e) then j else 0))%nat) m.

(** Between days: after the days [pre], every bucket of [m] is filed
    under its own key and has counted [tpd] trades for each day of its
    key. *)
Definition tracksDays (proj : DateInfo -> string) (tpd : nat)
  (pre : list DateInfo) (m : BucketMap) : Prop :=
  Forall (fun e =>
            key (snd e) = fst e /\
            trades (snd e) = (tpd * daysWithKey proj (fst e) pre)%nat) m.

(** Both maps track the days [pre], and their keys are distinct. *)
Definition bucketsTrack (p : SimulationSettings) (pre : list DateInfo)
  (st : State) : Prop :=
  NoDup (keysOf (monthlyStats st)) /\ NoDup (keysOf (weeklyStats st)) /\
  tracksDays month (tradesPerDay p) pre (monthlyStats st) /\
  tracksDays week (tradesPerDay p) pre (weeklyStats st).

(** Between days, with a positive starting equity: every stored amount
    is finite, the peak is a positive finite number and the recorded
    maximum drawdown is finite. *)
Definition finiteState (st : State) : Prop :=
  is_finite (runningEquity st) = true /\
  Forall (fun pt => is_finite (ep_equity pt) = true) (equityCurve st) /\
  Forall (fun e => is_finite (profitLoss (snd e)) = true) (monthlyStats st) /\
  Forall (fun e => is_finite (profitLoss (snd e)) = true) (weeklyStats st) /\
  (exists pk, peakEquity (drawdown st) = Fin pk /\ (0 < pk)%Qc) /\
  is_finite (maxDrawdown (drawdown st)) = true.

(** *** The estimates of the number of trading days *)

(** [Math.round(x)]: the integer nearest to [x], the larger one on a
    tie. *)
Definition js_round (x : Q) : Z := Qfloor (x + (1 # 2))%Q.

(** The estimate computed at the head of the effect and not used
    afterwards ([annual-trading-results.tsx], lines 56-59). At day
    precision [Math.ceil] of the day difference is the difference. *)
Definition approxTradingDays (startDate endDate : Date) : Z :=
  let dayDiff := endDate - startDate in
  let weekendDays := (dayDiff / 7) * 2 in
  Z.max 1 (dayDiff - weekendDays).

(** [isValidDateRange] of the settings form, for two valid dates
    ([trading-simulation-app.tsx], lines 118-128). *)
Definition isValidDateRange (startDate endDate : Date) : bool :=
  startDate <=? endDate.

(** The [tradingDays] estimate of the settings form, for two valid dates
    (lines 131-148). *)
Definition estimatedTradingDays (startDate endDate : Date) : Z :=
  if endDate <? startDate then 0
  else
    let dayDiff := endDate - startDate in
    Z.max 1 (js_round (inject_Z dayDiff / inject_Z 7 * inject_Z 5)%Q).

(** The number of weekdays among [n] consecutive days of which the first
    falls on weekday [a] (0 is Sunday). *)
Definition weekdaysFrom (a : Z) (n : nat) : nat :=
  List.length
    (filter (fun i => negb (((a + Z.of_nat i) mod 7) =? 0)
                      && negb (((a + Z.of_nat i) mod 7) =? 6))
            (seq 0 n)).

(** *** Runs of equal outcomes *)

(** The outcomes of the first [n] trades of a run: [true] is a win. *)
Definition outcomes (p : SimulationSettings) (rng : nat -> Qc) (n : nat)
  : list bool :=
  map (isWinAt p rng) (seq 0 n).

(** The length of the run of [b] that [l] starts with. *)
Fixpoint leadingRun (b : bool) (l : list bool) : nat :=
  match l with
  | [] => 0
  | x :: l' => if Bool.eqb x b then S (leadingRun b l') else 0
  end.

(** The length of the run of [b] that [l] ends with. *)
Definition trailingRun (b : bool) (l : list bool) : nat :=
  leadingRun b (rev l).

(** The length of the longest run of consecutive [b] in [l]. *)
Fixpoint longestRun (b : bool) (l : list bool) : nat :=
  match l with
  | [] => 0
  | _ :: l' => Nat.max (leadingRun b l) (longestRun b l')
  end.

(** [l] holds [n] consecutive [b]. *)
Definition hasRun (b : bool) (n : nat) (l : list bool) : Prop :=
  exists l1 l2, l = l1 ++ repeat b n ++ l2.

(** The streak counters agree with the outcomes drawn so far. *)
Definition streaksFollow (p : SimulationSettings) (rng : nat -> Qc)
  (st : State) : Prop :=
  randomCalls st = totalTrades (counts st) /\
  currentWinStreak (streaks st)
    = trailingRun true (outcomes p rng (randomCalls st)) /\
  currentLossStreak (streaks st)
    = trailingRun false (outcomes p rng (randomCalls st)) /\
  maxWinStreak (streaks st)
    = longestRun true (outcomes p rng (randomCalls st)) /\
  maxLossStreak (streaks st)
    = longestRun false (outcomes p rng (randomCalls st)).

(** *** Wins and losses against the draws *)

(** The totals agree with the outcomes drawn so far. *)
Definition countsFollow (p : SimulationSettings) (rng : nat -> Qc)
  (st : State) : Prop :=
  randomCalls st = totalTrades (counts st) /\
  totalWins (counts st) = countOf true (outcomes p rng (randomCalls st)) /\
  totalLosses (counts st) = countOf false (outcomes p rng (randomCalls st)).

(** *** Wins and losses of the buckets *)

(** Sum of a counter over the buckets of a map. *)
Definition mapSum (g : BucketStats -> nat) (m : BucketMap) : nat :=
  fold_right (fun e acc => (g (snd e) + acc)%nat) 0%nat m.

(** The wins and the losses of each map add up to the totals. *)
Definition winsLossesAgree (st : State) : Prop :=
  mapSum wins (monthlyStats st) = totalWins (counts st) /\
  mapSum losses (monthlyStats st) = totalLosses (counts st) /\
  mapSum wins (weeklyStats st) = totalWins (counts st) /\
  mapSum losses (weeklyStats st) = totalLosses (counts st).

(** A percentage: a finite number from 0 to 100. *)
Definition isPercentage (x : num) : Prop :=
  exists q, x = Fin q /\ (0 <= q)%Qc /\ (q <= Qc_of_Z 100)%Qc.

(** *** Drawdown of every day *)



(** *** Order of the buckets *)

(** The distinct elements of a list of keys, each at the place of its
    first occurrence. *)
Fixpoint firstOccurrences (ks : list string) : list string :=
  match ks with
  | [] => []
  | k :: ks' =>
      k :: filter (fun k' => negb (String.eqb k' k)) (firstOccurrences ks')
  end.

(** [k] is not a key of [m]. *)
Definition isNewKey (m : BucketMap) (k : string) : bool :=
  negb (existsb (String.eqb k) (keysOf m)).

(** *** Periods of the streaks *)

(** [s] is the label of the date [d] of [dates], which is not after day
    [b]. *)
Definition labelledBy (dates : list DateInfo) (b : Z) (d : DateInfo)
  (s : option string) : Prop :=
  In d dates /\ dateObj d <= b /\ s = Some (fullDate d).

(** One pair of streak counters with its labels, by day [b]: a running
    streak has the label of its first day; the best streak has none (and
    is 0) or has the labels of a first and a last day, in this order. *)
Definition streakPeriodOK (dates : list DateInfo) (b : Z)
  (cur best : nat) (start bestStart bestEnd : option string) : Prop :=
  (cur = 0%nat \/ exists d, labelledBy dates b d start) /\
  ((best = 0%nat /\ bestStart = None /\ bestEnd = None) \/
   ((0 < best)%nat /\
    exists d1 d2, labelledBy dates b d1 bestStart /\
                  labelledBy dates b d2 bestEnd /\
                  dateObj d1 <= dateObj d2)).

Definition periodsOK (dates : list DateInfo) (b : Z) (s : Streaks) : Prop :=
  streakPeriodOK dates b (currentWinStreak s) (maxWinStreak s)
    (winStreakStart s) (maxWinStreakStart s) (maxWinStreakEnd s) /\
  streakPeriodOK dates b (currentLossStreak s) (maxLossStreak s)
    (lossStreakStart s) (maxLossStreakStart s) (maxLossStreakEnd s).

(** What a period string of the summary can be for a streak of length
    [best]: not available, or from the label of a trading day to the
    label of the same or a later one. *)
Definition periodOfDays (dates : list DateInfo) (best : nat) (text : string)
  : Prop :=
  (best = 0%nat /\ text = "N/A to N/A"%string) \/
  ((0 < best)%nat /\
   exists d1 d2, In d1 dates /\ In d2 dates /\ dateObj d1 <= dateObj d2 /\
                 text = (fullDate d1 ++ " to " ++ fullDate d2)%string).

(** *** Period of the maximum drawdown *)

(** The labels of the drawdown record, by day [b]: the running drawdown
    has no start label or that of a day; the maximum is 0 without labels,
    or is above 0 with the labels of a first and a last day, in this
    order. *)
Definition drawdownPeriodOK (dates : list DateInfo) (b : Z) (d : Drawdown)
  : Prop :=
  le (of_Z 0) (maxDrawdown d) = true /\
  (drawdownStart d = None \/ exists d0, labelledBy dates b d0 (drawdownStart d)) /\
  ((maxDrawdown d = of_Z 0 /\
    maxDrawdownStart d = None /\ maxDrawdownEnd d = None) \/
   (gt (maxDrawdown d) (of_Z 0) = true /\
    exists d1 d2, labelledBy dates b d1 (maxDrawdownStart d) /\
                  labelledBy dates b d2 (maxDrawdownEnd d) /\
                  dateObj d1 <= dateObj d2)).

(** What the drawdown period of the summary can be for a maximum [m]. *)
Definition drawdownPeriodOfDays (dates : list DateInfo) (m : num)
  (text : string) : Prop :=
  (m = of_Z 0 /\ text = "N/A to N/A"%string) \/
  (gt m (of_Z 0) = true /\
   exists d1 d2, In d1 dates /\ In d2 dates /\ dateObj d1 <= dateObj d2 /\
                 text = (fullDate d1 ++ " to " ++ fullDate d2)%string).

(* ===================================================================== *)
(** ** The settings form and the application shell
       ([trading-simulation-app.tsx]) *)
(* ===================================================================== *)

(** [array.filter((x, index) => f(x, index))], the index counted from
    [i]. *)
Fixpoint filterFrom {A} (f : A -> nat -> bool) (i : nat) (l : list A)
  : list A :=
  match l with
  | [] => []
  | x :: l' =>
      if f x i then x :: filterFrom f (S i) l' else filterFrom f (S i) l'
  end.

Definition filterIndexed {A} (f : A -> nat -> bool) (l : list A) : list A :=
  filterFrom f 0 l.

Section SettingsForm.

(** The form's settings object; the handlers below copy it whole. *)
Variable Settings : Type.

(** [String.prototype.trim] and [JSON.stringify] are taken as given. *)
Variable trim : string -> string.

Record SavedConfig : Type := mkSavedConfig {
  cfg_name : string;
  cfg_settings : Settings;
  cfg_date : string
}.

Variable stringify : list SavedConfig -> string.

(** The state of the settings component that the configuration handlers
    read and write (lines 99-103), and the [tradingSimulationConfigs]
    item of [localStorage] ([None] when absent). *)
Record FormState : Type := mkFormState {
  form_settings : Settings;
  savedConfigs : list SavedConfig;
  showSaveModal : bool;
  showLoadModal : bool;
  configName : string;
  confirmDeleteIndex : option nat;
  storedConfigs : option string
}.

(** [handleSaveSettings] (lines 173-191); [today] is
    [new Date().toLocaleDateString()]. *)
Definition handleSaveSettings (today : string) (st : FormState) : FormState :=
  if String.eqb (trim (configName st)) EmptyString then st
  else
    let newConfig :=
      {| cfg_name := configName st;
         cfg_settings := form_settings st;
         cfg_date := today |} in
    let updatedConfigs := savedConfigs st ++ [newConfig] in
    {| form_settings := form_settings st;
       savedConfigs := updatedConfigs;
       showSaveModal := false;
       showLoadModal := showLoadModal st;
       configName := EmptyString;
       confirmDeleteIndex := confirmDeleteIndex st;
       storedConfigs := Some (stringify updatedConfigs) |}.

(** [handleLoadSettings] (lines 194-198). *)
Definition handleLoadSettings (config : SavedConfig) (st : FormState)
  : FormState :=
  {| form_settings := cfg_settings config;
     savedConfigs := savedConfigs st;
     showSaveModal := showSaveModal st;
     showLoadModal := false;
     configName := configName st;
     confirmDeleteIndex := None;
     storedConfigs := storedConfigs st |}.

(** [handleDeleteConfig] (lines 201-206). *)
Definition handleDeleteConfig (indexToDelete : nat) (st : FormState)
  : FormState :=
  let updatedConfigs :=
    filterIndexed (fun _ index => negb (Nat.eqb index indexToDelete))
                  (savedConfigs st) in
  {| form_settings := form_settings st;
     savedConfigs := updatedConfigs;
     showSaveModal := showSaveModal st;
     showLoadModal := showLoadModal st;
     configName := configName st;
     confirmDeleteIndex := None;
     storedConfigs := Some (stringify updatedConfigs) |}.

(** The user actions on the form. A row of the load dialog, with its
    load and delete buttons, exists for each index below the number of
    saved configurations (lines 514-566); the confirm button belongs to
    the row whose index is pending (lines 521, 535-540). A change of a
    form field replaces the settings (lines 150-156, 165-170). *)
Inductive FormEvent : Type :=
| EvChangeSettings (s : Settings)
| EvOpenSave
| EvCloseSave
| EvTypeName (name : string)
| EvSave (today : string)
| EvOpenLoad
| EvCloseLoad
| EvLoad (index : nat)
| EvAskDelete (index : nat)
| EvCancelDelete
| EvConfirmDelete.

Definition formStep (ev : FormEvent) (st : FormState) : FormState :=
  match ev with
  | EvChangeSettings s =>
      {| form_settings := s; savedConfigs := savedConfigs st;
         showSaveModal := showSaveModal st; showLoadModal := showLoadModal st;
         configName := configName st;
         confirmDeleteIndex := confirmDeleteIndex st;
         storedConfigs := storedConfigs st |}
  | EvOpenSave =>
      {| form_settings := form_settings st; savedConfigs := savedConfigs st;
         showSaveModal := true; showLoadModal := showLoadModal st;
         configName := configName st;
         confirmDeleteIndex := confirmDeleteIndex st;
         storedConfigs := storedConfigs st |}
  | EvCloseSave =>
      {| form_settings := form_settings st; savedConfigs := savedConfigs st;
         showSaveModal := false; showLoadModal := showLoadModal st;
         configName := configName st;
         confirmDeleteIndex := confirmDeleteIndex st;
         storedConfigs := storedConfigs st |}
  | EvTypeName name =>
      {| form_settings := form_settings st; savedConfigs := savedConfigs st;
         showSaveModal := showSaveModal st; showLoadModal := showLoadModal st;
         configName := name;
         confirmDeleteIndex := confirmDeleteIndex st;
         storedConfigs := storedConfigs st |}
  | EvSave today => handleSaveSettings today st
  | EvOpenLoad =>
      {| form_settings := form_settings st; savedConfigs := savedConfigs st;
         showSaveModal := showSaveModal st; showLoadModal := true;
         configName := configName st;
         confirmDeleteIndex := confirmDeleteIndex st;
         storedConfigs := storedConfigs st |}
  | EvCloseLoad =>
      {| form_settings := form_settings st; savedConfigs := savedConfigs st;
         showSaveModal := showSaveModal st; showLoadModal := false;
         configName := configName st;
         confirmDeleteIndex := None;
         storedConfigs := storedConfigs st |}
  | EvLoad index =>
      match nth_error (savedConfigs st) index with
      | Some config => handleLoadSettings config st
      | None => st
      end
  | EvAskDelete index =>
      if Nat.ltb index (List.length (savedConfigs st)) then
        {| form_settings := form_settings st; savedConfigs := savedConfigs st;
           showSaveModal := showSaveModal st;
           showLoadModal := showLoadModal st;
           configName := configName st;
           confirmDeleteIndex := Some index;
           storedConfigs := storedConfigs st |}
      else st
  | EvCancelDelete =>
      {| form_settings := form_settings st; savedConfigs := savedConfigs st;
         showSaveModal := showSaveModal st; showLoadModal := showLoadModal st;
         configName := configName st;
         confirmDeleteIndex := None;
         storedConfigs := storedConfigs st |}
  | EvConfirmDelete =>
      match confirmDeleteIndex st with
      | Some index => handleDeleteConfig index st
      | None => st
      end
  end.

(** The state after a sequence of user actions. *)
Definition formRun (evs : list FormEvent) (st : FormState) : FormState :=
  fold_left (fun s ev => formStep ev s) evs st.

(** The stored item is the serialisation of the list on screen. *)
Definition storedInSync (st : FormState) : Prop :=
  storedConfigs st = Some (stringify (savedConfigs st)).

(** The index pending confirmation, if any, is the index of a saved
    configuration. *)
Definition pendingInRange (st : FormState) : Prop :=
  match confirmDeleteIndex st with
  | Some index => (index < List.length (savedConfigs st))%nat
  | None => True
  end.

(** *** The application shell (lines 6-38) *)

Record AppState : Type := mkAppState {
  showResults : bool;
  simulationParams : option Settings
}.

Definition initialApp : AppState :=
  {| showResults := false; simulationParams := None |}.

(** [handleSettingsSubmit] (lines 10-13). *)
Definition handleSettingsSubmit (s : Settings) (st : AppState) : AppState :=
  {| showResults := true; simulationParams := Some s |}.

(** [handleBackToSettings] (lines 15-17). *)
Definition handleBackToSettings (st : AppState) : AppState :=
  {| showResults := false; simulationParams := simulationParams st |}.

Inductive AppEvent : Type :=
| EvSubmit (s : Settings)
| EvBack.

Definition appStep (ev : AppEvent) (st : AppState) : AppState :=
  match ev with
  | EvSubmit s => handleSettingsSubmit s st
  | EvBack => handleBackToSettings st
  end.

Definition appRun (evs : list AppEvent) (st : AppState) : AppState :=
  fold_left (fun s ev => appStep ev s) evs st.

(** The settings of the last submission among [evs], after [acc]. *)
Definition lastSubmitted (evs : list AppEvent) (acc : option Settings)
  : option Settings :=
  fold_left (fun a ev => match ev with EvSubmit s => Some s | EvBack => a end)
            evs acc.

(** The results view renders the simulation only for settings that are
    present ([simulationParams && ...], line 33). *)
Definition resultsRendered (st : AppState) : option Settings :=
  if showResults st then simulationParams st else None.

End SettingsForm.

Arguments mkSavedConfig {Settings}.
Arguments cfg_name {Settings}.
Arguments cfg_settings {Settings}.
Arguments cfg_date {Settings}.
Arguments form_settings {Settings}.
Arguments savedConfigs {Settings}.
Arguments showSaveModal {Settings}.
Arguments showLoadModal {Settings}.
Arguments configName {Settings}.
Arguments confirmDeleteIndex {Settings}.
Arguments storedConfigs {Settings}.
Arguments showResults {Settings}.
Arguments simulationParams {Settings}.

(** *** A concrete form *)

(** A form whose settings are a number, with two saved configurations
    and the second one pending deletion. *)
Definition demoForm : FormState nat :=
  {| form_settings := 7%nat;
     savedConfigs := [ {| cfg_name := "a"; cfg_settings := 1%nat;
                          cfg_date := "1/1/2025" |};
                       {| cfg_name := "b"; cfg_settings := 2%nat;
                          cfg_date := "1/2/2025" |} ];
     showSaveModal := true;
     showLoadModal := false;
     configName := "c";
     confirmDeleteIndex := Some 1%nat;
     storedConfigs := Some "2"%string |}.

(** Stand-ins for [trim] and [JSON.stringify]: the identity and the
    number of entries. *)
Definition demoTrim (s : string) : string := s.
Definition demoStringify (l : list (SavedConfig nat)) : string :=
  string_of_Z (Z.of_nat (List.length l)).

(** *** Concrete runs *)

Definition jan_1_2025 : Date := days_from_civil 2025 1 1.
Definition jan_10_2025 : Date := days_from_civil 2025 1 10.

(** Saturday 2025-01-04 and Sunday 2025-01-05. *)
Definition jan_4_2025 : Date := days_from_civil 2025 1 4.
Definition jan_5_2025 : Date := days_from_civil 2025 1 5.

(** Saturday 2025-10-25 and Monday 2025-10-27; summer time ends in
    Europe on the Sunday between them. *)
Definition oct_25_2025 : Date := days_from_civil 2025 10 25.
Definition oct_27_2025 : Date := days_from_civil 2025 10 27.

(** The all-losses scenario: 2025-01-01 to 2025-01-10, win rate 0, one
    trade a day, risk 100, ratio 2, starting equity 1000. *)
Definition scenarioAllLosses : SimulationSettings :=
  {| startDate := jan_1_2025; endDate := jan_10_2025;
     tradesPerDay := 1; winRate := Qc_of_Z 0;
     riskRewardRatio := Qc_of_Z 2; riskPerTrade := Qc_of_Z 100;
     startingEquity := Qc_of_Z 1000 |}.

(** A draw of 1/2 at every call. *)
Definition drawHalf : nat -> Qc := fun _ => Q2Qc (1 # 2).

(** A draw of 9/10 at every call. *)
Definition drawNineTenths : nat -> Qc := fun _ => Q2Qc (9 # 10).

(** One trading day (Wednesday 2025-01-01), one trade, target win rate
    50%. *)
Definition oneDayFiftyPercent : SimulationSettings :=
  {| startDate := jan_1_2025; endDate := jan_1_2025;
     tradesPerDay := 1; winRate := Qc_of_Z 50;
     riskRewardRatio := Qc_of_Z 2; riskPerTrade := Qc_of_Z 100;
     startingEquity := Qc_of_Z 1000 |}.

(** Two weeks of January 2025, four trades a day, 55% target. *)
Definition twoWeeks : SimulationSettings :=
  {| startDate := jan_1_2025; endDate := jan_10_2025;
     tradesPerDay := 4; winRate := Qc_of_Z 55;
     riskRewardRatio := Qc_of_Z 1; riskPerTrade := Qc_of_Z 250;
     startingEquity := Qc_of_Z 50000 |}.

(** As [twoWeeks], with a configured win rate of 100%. *)
Definition twoWeeksCertain : SimulationSettings :=
  {| startDate := jan_1_2025; endDate := jan_10_2025;
     tradesPerDay := 4; winRate := Qc_of_Z 100;
     riskRewardRatio := Qc_of_Z 1; riskPerTrade := Qc_of_Z 250;
     startingEquity := Qc_of_Z 50000 |}.

(** *** Concrete runs in binary64 *)

(** A draw of 0.9 at every call. *)
Definition draw64NineTenths : nat -> B64.num := fun _ => B64.decimal 9 1.

(** A draw of 0.1 at the first call and of 0.9 afterwards. *)
Definition draw64WinThenLose : nat -> B64.num :=
  fun k => if Nat.eqb k 0 then B64.decimal 1 1 else B64.decimal 9 1.

(** A draw of 0.9 at the first two calls and of 0.1 afterwards. *)
Definition draw64LoseTwiceThenWin : nat -> B64.num :=
  fun k => if Nat.ltb k 2 then B64.decimal 9 1 else B64.decimal 1 1.

(** One trading day (Wednesday 2025-01-01), three trades, risk 1.1,
    ratio 2, starting equity 1000. *)
Definition threeTrades64 : Runtime.SimulationSettings :=
  {| Runtime.startDate := jan_1_2025; Runtime.endDate := jan_1_2025;
     Runtime.tradesPerDay := 3; Runtime.winRate := B64.of_Z 50;
     Runtime.riskRewardRatio := B64.of_Z 2;
     Runtime.riskPerTrade := B64.decimal 11 1;
     Runtime.startingEquity := B64.of_Z 1000 |}.

(** The weekend of 2025-01-04, two trades a day, risk 100, ratio 2,
    starting equity 1000. *)
Definition weekend64 : Runtime.SimulationSettings :=
  {| Runtime.startDate := jan_4_2025; Runtime.endDate := jan_5_2025;
     Runtime.tradesPerDay := 2; Runtime.winRate := B64.of_Z 50;
     Runtime.riskRewardRatio := B64.of_Z 2;
     Runtime.riskPerTrade := B64.of_Z 100;
     Runtime.startingEquity := B64.of_Z 1000 |}.

(** One trading day, one trade, risk 100, ratio 2, starting equity 0. *)
Definition zeroEquity64 : Runtime.SimulationSettings :=
  {| Runtime.startDate := jan_1_2025; Runtime.endDate := jan_1_2025;
     Runtime.tradesPerDay := 1; Runtime.winRate := B64.of_Z 50;
     Runtime.riskRewardRatio := B64.of_Z 2;
     Runtime.riskPerTrade := B64.of_Z 100;
     Runtime.startingEquity := B64.of_Z 0 |}.

(** One trading day, three trades, risk 1e308, ratio 10, starting equity
    1000. *)
Definition hugeRisk64 : Runtime.SimulationSettings :=
  {| Runtime.startDate := jan_1_2025; Runtime.endDate := jan_1_2025;
     Runtime.tradesPerDay := 3; Runtime.winRate := B64.of_Z 50;
     Runtime.riskRewardRatio := B64.of_Z 10;
     Runtime.riskPerTrade := B64.of_Z (10 ^ 308);
     Runtime.startingEquity := B64.of_Z 1000 |}.

(** One trading day, three trades, risk 1e307, ratio 10, starting equity
    1e308: the reward 1e308 is finite, the sum of starting equity and
    reward is not. *)
Definition largeEquity64 : Runtime.SimulationSettings :=
  {| Runtime.startDate := jan_1_2025; Runtime.endDate := jan_1_2025;
     Runtime.tradesPerDay := 3; Runtime.winRate := B64.of_Z 50;
     Runtime.riskRewardRatio := B64.of_Z 10;
     Runtime.riskPerTrade := B64.of_Z (10 ^ 307);
     Runtime.startingEquity := B64.of_Z (10 ^ 308) |}.

(** Draws of 1/4 at every third call and 3/4 otherwise. *)
Definition drawOneInThree : nat -> Qc :=
  fun k => if Nat.eqb (k mod 3) 0 then Q2Qc (1 # 4) else Q2Qc (3 # 4).

Definition twoWeeksDays : list DateInfo := tradingDays twoWeeks.

(** The third trading day of [twoWeeks]. *)
Definition twoWeeksThirdDay : DateInfo := nth 2 twoWeeksDays (dateInfo_of 0).

(** The locals of the [twoWeeks] run after its first two days. *)
Definition twoWeeksAfterTwoDays : State :=
  match runDays twoWeeks drawOneInThree (firstn 2 twoWeeksDays)
          (initState twoWeeks twoWeeksDays) with
  | Some st => st
  | None => initState twoWeeks twoWeeksDays
  end.

(** The same run, three trades into the third day. *)
Definition twoWeeksMidThirdDay : num * State :=
  match runTrades twoWeeks drawOneInThree 3 twoWeeksThirdDay
          (runningEquity twoWeeksAfterTwoDays, twoWeeksAfterTwoDays) with
  | Some ds => ds
  | None => (runningEquity twoWeeksAfterTwoDays, twoWeeksAfterTwoDays)
  end.

(** The same run at the close of the third day. *)
Definition twoWeeksAfterThreeDays : State :=
  match runDay twoWeeks drawOneInThree twoWeeksThirdDay twoWeeksAfterTwoDays with
  | Some st => st
  | None => twoWeeksAfterTwoDays
  end.

(* ===================================================================== *)
(** * Properties *)
(* ===================================================================== *)

(** ** Numbers *)

Lemma Qc_ltb_true (a b : Qc) : Qc_ltb a b = true <-> (a < b)%Qc.
Proof.
  unfold Qc_ltb. rewrite Qclt_alt.
  destruct (a ?= b)%Qc; split; congruence.
Qed.

Lemma Qc_eqb_true (a b : Qc) : Qc_eqb a b = true <-> a = b.
Proof.
  unfold Qc_eqb. rewrite Qceq_alt.
  destruct (a ?= b)%Qc; split; congruence.
Qed.

Lemma Qc_ltb_irrefl (a : Qc) : Qc_ltb a a = false.
Proof.
  destruct (Qc_ltb a a) eqn:E; [|reflexivity].
  apply Qc_ltb_true in E. exfalso. revert E. apply Qcle_not_lt, Qcle_refl.
Qed.

Lemma Fin_canon (a b : Qc) : (a == b)%Q -> Fin a = Fin b.
Proof. intros H. f_equal. now apply Qc_is_canon. Qed.

Lemma Qc_of_nat_S (n : nat) : Qc_of_nat (S n) = (Qc_of_nat n + 1)%Qc.
Proof.
  unfold Qc_of_nat, Qc_of_Z. apply Qc_is_canon.
  unfold Qcplus, Q2Qc; cbn [this].
  rewrite !Qred_correct. rewrite Nat2Z.inj_succ. unfold Z.succ.
  rewrite inject_Z_plus. reflexivity.
Qed.

Lemma Qc_of_nat_0 : Qc_of_nat 0 = 0%Qc.
Proof. apply Qc_is_canon. reflexivity. Qed.

Lemma Qc_of_nat_pos (n : nat) : (0 < n)%nat -> (0 < Qc_of_nat n)%Qc.
Proof.
  intros H. unfold Qc_of_nat, Qc_of_Z, Qclt.
  change (this (Q2Qc (inject_Z (Z.of_nat n)))) with (Qred (inject_Z (Z.of_nat n))).
  setoid_rewrite Qred_correct. unfold Qlt. simpl. lia.
Qed.

Lemma le_refl_not_nan (x : num) : x <> NaN -> le x x = true.
Proof.
  destruct x; simpl; try congruence. intros _. now rewrite Qc_ltb_irrefl.
Qed.

Lemma gt_le (x y : num) : gt x y = true -> le y x = true.
Proof.
  unfold gt. destruct x, y; simpl; try congruence.
  intros H. apply Qc_ltb_true in H.
  destruct (Qc_ltb q q0) eqn:E; [|reflexivity].
  apply Qc_ltb_true in E. exfalso.
  apply (Qclt_not_le _ _ H). now apply Qclt_le_weak.
Qed.

Lemma le_trans (x y z : num) : le x y = true -> le y z = true -> le x z = true.
Proof.
  destruct x, y, z; simpl; try congruence.
  rewrite !negb_true_iff. intros H1 H2.
  destruct (Qc_ltb q1 q) eqn:E; [|reflexivity].
  apply Qc_ltb_true in E.
  destruct (Qclt_le_dec q0 q) as [L|L].
  - apply Qc_ltb_true in L. congruence.
  - destruct (Qclt_le_dec q1 q0) as [L'|L'].
    + apply Qc_ltb_true in L'. congruence.
    + exfalso. apply (Qclt_not_le _ _ E). eapply Qcle_trans; eauto.
Qed.

Lemma le_not_nan (x y : num) : le x y = true -> y <> NaN.
Proof. destruct x, y; simpl; congruence. Qed.

(** ** The calendar *)

Lemma dateObj_dateInfo_of (d : Date) : dateObj (dateInfo_of d) = d.
Proof. reflexivity. Qed.

Lemma daysOfRange_cons (s e : Date) :
  s <= e -> daysOfRange s e = s :: daysOfRange (s + 1) e.
Proof.
  intros H. unfold daysOfRange.
  replace (Z.to_nat (e - s + 1)) with (S (Z.to_nat (e - (s + 1) + 1))) by lia.
  simpl. rewrite Z.add_0_r. apply (f_equal (cons s)).
  rewrite <- seq_shift, map_map. apply map_ext. intros i. lia.
Qed.

Lemma daysOfRange_nil (s e : Date) : e < s -> daysOfRange s e = [].
Proof.
  intros H. unfold daysOfRange.
  replace (Z.to_nat (e - s + 1)) with 0%nat by lia. reflexivity.
Qed.

(** With enough fuel the loop visits exactly the days of the range and
    keeps the weekdays. *)
Lemma generateDates_loop_days (fuel : nat) :
  forall cur e,
    (Z.to_nat (e - cur + 1) <= fuel)%nat ->
    generateDates_loop fuel cur e =
      map dateInfo_of (filter isWeekday (daysOfRange cur e)).
Proof.
  induction fuel as [|fuel IH]; intros cur e Hfuel.
  - rewrite daysOfRange_nil by lia. reflexivity.
  - simpl. destruct (cur <=? e) eqn:Hle.
    + apply Z.leb_le in Hle. rewrite daysOfRange_cons by assumption.
      rewrite IH by lia. simpl.
      destruct (isWeekday cur); reflexivity.
    + apply Z.leb_gt in Hle. rewrite daysOfRange_nil by assumption.
      reflexivity.
Qed.

(** The loop of [generateDates] ends by its own condition: any larger
    fuel yields the same list. *)
Lemma generateDates_loop_fuel (fuel : nat) (s e : Date) :
  (Z.to_nat (e - s + 1) <= fuel)%nat ->
  generateDates_loop fuel s e = generateDates s e.
Proof.
  intros H. unfold generateDates.
  rewrite !generateDates_loop_days by lia. reflexivity.
Qed.

Lemma generateDates_days (s e : Date) :
  generateDates s e = map dateInfo_of (filter isWeekday (daysOfRange s e)).
Proof. unfold generateDates. apply generateDates_loop_days. lia. Qed.

Lemma daysOfRange_sorted (s e : Date) :
  StronglySorted Z.lt (daysOfRange s e).
Proof.
  unfold daysOfRange. generalize (Z.to_nat (e - s + 1)) as n.
  intros n. revert s. induction n as [|n IH]; intros s.
  - constructor.
  - simpl. constructor.
    + rewrite <- seq_shift, map_map.
      replace (map (fun x => s + Z.of_nat (S x)) (seq 0 n))
        with (map (fun i => (s + 1) + Z.of_nat i) (seq 0 n))
        by (apply map_ext; intros; lia).
      apply IH.
    + apply Forall_forall. intros x Hx. apply in_map_iff in Hx.
      destruct Hx as [i [<- Hi]]. apply in_seq in Hi. lia.
Qed.

Lemma StronglySorted_filter {A} (R : A -> A -> Prop) (f : A -> bool) l :
  StronglySorted R l -> StronglySorted R (filter f l).
Proof.
  induction 1 as [|a l Hs IH Hall]; simpl.
  - constructor.
  - destruct (f a); [|assumption]. constructor; [assumption|].
    apply Forall_forall. intros x Hx. apply filter_In in Hx.
    rewrite Forall_forall in Hall. now apply Hall.
Qed.

Lemma isWeekday_getDay (d : Date) :
  isWeekday d = true <-> getDay d <> 0 /\ getDay d <> 6.
Proof.
  unfold isWeekday. rewrite andb_true_iff, !negb_true_iff, !Z.eqb_neq.
  reflexivity.
Qed.

(** Every generated entry is the record built for its own day, so its
    label is never the empty string. *)
Lemma generateDates_entries (s e : Date) :
  Forall (fun d => d = dateInfo_of (dateObj d)) (generateDates s e).
Proof.
  rewrite generateDates_days. apply Forall_forall. intros d Hd.
  apply in_map_iff in Hd. destruct Hd as [x [<- _]]. reflexivity.
Qed.

Lemma append_space_nonempty (a b : string) :
  String.eqb (a ++ " " ++ b)%string EmptyString = false.
Proof. destruct a; reflexivity. Qed.

Lemma fullDate_nonempty (d : Date) :
  String.eqb (fullDate (dateInfo_of d)) EmptyString = false.
Proof. apply append_space_nonempty. Qed.

Lemma month_nonempty (d : Date) :
  String.eqb (month (dateInfo_of d)) EmptyString = false.
Proof. apply append_space_nonempty. Qed.

(** The calendar at day precision keeps exactly the weekdays of the days
    from start to end (both included) in chronological order. *)
Lemma dayCalendar_weekdays (s e : Date) :
  map dateObj (generateDates s e) = filter isWeekday (daysOfRange s e) /\
  Forall (fun d => getDay (dateObj d) <> 0 /\ getDay (dateObj d) <> 6)
         (generateDates s e) /\
  List.length (generateDates s e) = weekdayCount s e /\
  StronglySorted Z.lt (map dateObj (generateDates s e)) /\
  Forall (fun d => s <= dateObj d <= e) (generateDates s e) /\
  (e < s -> generateDates s e = []).
Proof.
  assert (Hmap : map dateObj (generateDates s e)
                 = filter isWeekday (daysOfRange s e)).
  { rewrite generateDates_days, map_map.
    rewrite (map_ext _ (fun x => x)) by apply dateObj_dateInfo_of.
    apply map_id. }
  split; [exact Hmap|]. split; [|split; [|split; [|split]]].
  - apply Forall_forall. intros d Hd.
    assert (Hin : In (dateObj d) (filter isWeekday (daysOfRange s e))).
    { rewrite <- Hmap. now apply in_map. }
    apply filter_In in Hin. now apply isWeekday_getDay.
  - unfold weekdayCount. rewrite <- Hmap. now rewrite length_map.
  - rewrite Hmap. apply StronglySorted_filter, daysOfRange_sorted.
  - apply Forall_forall. intros d Hd.
    assert (Hin : In (dateObj d) (filter isWeekday (daysOfRange s e))).
    { rewrite <- Hmap. now apply in_map. }
    apply filter_In in Hin. destruct Hin as [Hin _].
    unfold daysOfRange in Hin. apply in_map_iff in Hin.
    destruct Hin as [i [<- Hi]]. apply in_seq in Hi. lia.
  - intros H. rewrite generateDates_days, daysOfRange_nil by assumption.
    reflexivity.
Qed.

(** ** Bucket maps *)

Lemma bucket_lookup_none (k : string) (m : BucketMap) :
  bucket_lookup k m = None <-> ~ In k (keysOf m).
Proof.
  induction m as [|[k' b] m IH]; simpl.
  - tauto.
  - destruct (String.eqb_spec k' k) as [->|Hne].
    + split; [discriminate|]. intros H. exfalso. apply H. now left.
    + rewrite IH. tauto.
Qed.

Lemma bucket_update_keys k f m m' :
  bucket_update k f m = Some m' -> keysOf m' = keysOf m.
Proof.
  revert m'. induction m as [|[k' b] m IH]; simpl; intros m'; [discriminate|].
  destruct (String.eqb k' k).
  - intros [= <-]. reflexivity.
  - destruct (bucket_update k f m) as [m''|]; [|discriminate].
    intros [= <-]. simpl. f_equal. now apply IH.
Qed.

Lemma bucket_update_total k f m :
  In k (keysOf m) -> exists m', bucket_update k f m = Some m'.
Proof.
  induction m as [|[k' b] m IH]; simpl; [tauto|].
  intros H. destruct (String.eqb_spec k' k) as [->|Hne].
  - eauto.
  - destruct IH as [m' ->]; [|eauto]. destruct H; [contradiction|assumption].
Qed.

Lemma bucket_update_mapTrades k f m m' :
  (forall b, trades (f b) = S (trades b)) ->
  bucket_update k f m = Some m' -> mapTrades m' = S (mapTrades m).
Proof.
  intros Hf. revert m'.
  induction m as [|[k' b] m IH]; simpl; intros m'; [discriminate|].
  destruct (String.eqb k' k).
  - intros [= <-]. simpl. now rewrite Hf.
  - destruct (bucket_update k f m) as [m''|]; [|discriminate].
    intros [= <-]. simpl. rewrite (IH m'') by reflexivity. lia.
Qed.

Lemma bucket_update_Forall (P : BucketStats -> Prop) k f m m' :
  (forall b, P b -> P (f b)) ->
  bucket_update k f m = Some m' ->
  Forall (fun e => P (snd e)) m -> Forall (fun e => P (snd e)) m'.
Proof.
  intros Hf. revert m'.
  induction m as [|[k' b] m IH]; simpl; intros m'; [discriminate|].
  destruct (String.eqb k' k).
  - intros [= <-] H. inversion H; subst. constructor; simpl; auto.
  - destruct (bucket_update k f m) as [m''|]; [|discriminate].
    intros [= <-] H. inversion H; subst. constructor; auto.
Qed.

Lemma sumTrades_report (m : BucketMap) :
  sumTrades (map reportBucket (bucket_values m)) = mapTrades m.
Proof.
  unfold bucket_values. induction m as [|e m IH]; simpl; [reflexivity|].
  now rewrite IH.
Qed.

(** *** Registration *)

Lemma registerBuckets_fold (dates : list DateInfo) (a b : BucketMap) :
  fold_left
    (fun acc date =>
       (bucket_register (month date) (fst acc),
        bucket_register (week date) (snd acc)))
    dates (a, b)
  = (registerKeys (map month dates) a, registerKeys (map week dates) b).
Proof.
  revert a b. induction dates as [|d dates IH]; intros a b; simpl.
  - reflexivity.
  - apply IH.
Qed.

Lemma registerBuckets_keys (dates : list DateInfo) :
  registerBuckets dates
  = (registerKeys (map month dates) [], registerKeys (map week dates) []).
Proof. apply registerBuckets_fold. Qed.

Lemma bucket_register_fresh k m : freshMap m -> freshMap (bucket_register k m).
Proof.
  intros [Hnd Hall]. unfold bucket_register.
  destruct (bucket_lookup k m) eqn:E; [now split|].
  apply bucket_lookup_none in E. split.
  - unfold keysOf in *. rewrite map_app. simpl.
    apply NoDup_app; [assumption|repeat constructor; simpl; tauto|].
    intros x Hx [<-|[]]. contradiction.
  - apply Forall_app. split; [assumption|]. repeat constructor.
Qed.

Lemma bucket_register_keys k m k' :
  In k' (keysOf (bucket_register k m)) <-> In k' (keysOf m) \/ k' = k.
Proof.
  unfold bucket_register. destruct (bucket_lookup k m) eqn:E.
  - split; [tauto|]. intros [H| ->]; [assumption|].
    destruct (in_dec string_dec k (keysOf m)) as [Hin|Hout]; [assumption|].
    apply bucket_lookup_none in Hout. congruence.
  - unfold keysOf. rewrite map_app, in_app_iff. simpl. intuition congruence.
Qed.

Lemma registerKeys_fresh ks : forall m, freshMap m -> freshMap (registerKeys ks m).
Proof.
  induction ks as [|k ks IH]; intros m H; simpl; [assumption|].
  apply IH. now apply bucket_register_fresh.
Qed.

Lemma registerKeys_keys ks : forall m k,
  In k (keysOf (registerKeys ks m)) <-> In k (keysOf m) \/ In k ks.
Proof.
  induction ks as [|k0 ks IH]; intros m k; simpl; [tauto|].
  rewrite IH, bucket_register_keys. intuition congruence.
Qed.

Lemma freshMap_nil : freshMap [].
Proof. split; constructor. Qed.

(** ** The run: invariance principles and totality *)

Section RunFacts.

Variable p : SimulationSettings.
Variable rng : nat -> Qc.

(** A property of [dayEquity] and the locals kept by every trade is kept
    by the trade loop. *)
Lemma runTrades_invariant (P : num * State -> Prop) (date : DateInfo) :
  (forall ds ds', P ds -> runTrade p rng date ds = Some ds' -> P ds') ->
  forall n ds ds', P ds -> runTrades p rng n date ds = Some ds' -> P ds'.
Proof.
  intros Hstep. induction n as [|n IH]; simpl; intros ds ds' HP Hrun.
  - now injection Hrun as <-.
  - destruct (runTrade p rng date ds) as [ds1|] eqn:E; [|discriminate].
    eapply IH; [|exact Hrun]. eapply Hstep; eauto.
Qed.

(** A property [I] of the locals between days is kept by a day when the
    property [P] it establishes at the start of the day is kept by the
    trades and gives [I] back at the close of the day. *)
Lemma runDay_invariant (I : State -> Prop) (P : num * State -> Prop)
  (date : DateInfo) :
  (forall st, I st -> P (runningEquity st, st)) ->
  (forall ds ds', P ds -> runTrade p rng date ds = Some ds' -> P ds') ->
  (forall ds, P ds -> I (closeDay date ds)) ->
  forall st st', I st -> runDay p rng date st = Some st' -> I st'.
Proof.
  intros Hin Hstep Hout st st' HI. unfold runDay.
  destruct (runTrades p rng (tradesPerDay p) date (runningEquity st, st))
    as [ds|] eqn:E; [|discriminate].
  intros [= <-]. apply Hout.
  eapply runTrades_invariant; eauto.
Qed.

Lemma runDays_invariant (I : State -> Prop) (dates : list DateInfo) :
  (forall date st st',
      In date dates -> I st -> runDay p rng date st = Some st' -> I st') ->
  forall st st', I st -> runDays p rng dates st = Some st' -> I st'.
Proof.
  induction dates as [|d dates IH]; simpl; intros Hday st st' HI Hrun.
  - now injection Hrun as <-.
  - destruct (runDay p rng d st) as [st1|] eqn:E; [|discriminate].
    eapply IH; [| |exact Hrun].
    + intros date s s' Hd. apply Hday. now right.
    + apply (Hday d st st1); auto.
Qed.

(** The days of a calendar are run in order: the locals after a prefix
    are the ones the rest of the run starts from. *)
Lemma runDays_app (pre post : list DateInfo) (st : State) :
  runDays p rng (pre ++ post) st =
  match runDays p rng pre st with
  | Some st' => runDays p rng post st'
  | None => None
  end.
Proof.
  revert st. induction pre as [|d pre IH]; intros st; simpl; [reflexivity|].
  destruct (runDay p rng d st); [apply IH|reflexivity].
Qed.

(** Likewise for the trades of a day. *)
Lemma runTrades_app (n m : nat) (date : DateInfo) (ds : num * State) :
  runTrades p rng (n + m) date ds =
  match runTrades p rng n date ds with
  | Some ds' => runTrades p rng m date ds'
  | None => None
  end.
Proof.
  revert ds. induction n as [|n IH]; intros ds; simpl; [reflexivity|].
  destruct (runTrade p rng date ds); [apply IH|reflexivity].
Qed.

(** *** Keys are never added or removed by the loops *)

Lemma runTrade_keys date ds ds' :
  runTrade p rng date ds = Some ds' ->
  keysOf (monthlyStats (snd ds')) = keysOf (monthlyStats (snd ds)) /\
  keysOf (weeklyStats (snd ds')) = keysOf (weeklyStats (snd ds)).
Proof.
  unfold runTrade.
  destruct (bucket_update (month date) _ (monthlyStats (snd ds)))
    as [ms|] eqn:Em; [|discriminate].
  destruct (bucket_update (week date) _ (weeklyStats (snd ds)))
    as [ws|] eqn:Ew; [|discriminate].
  intros [= <-]. simpl. split; eapply bucket_update_keys; eauto.
Qed.

Lemma runTrade_total date ds :
  In (month date) (keysOf (monthlyStats (snd ds))) ->
  In (week date) (keysOf (weeklyStats (snd ds))) ->
  exists ds', runTrade p rng date ds = Some ds'.
Proof.
  intros Hm Hw. unfold runTrade.
  destruct (bucket_update_total (month date)
              (if isWinAt p rng (randomCalls (snd ds))
               then bucket_win (rewardPerTrade p)
               else bucket_loss (Fin (riskPerTrade p))) _ Hm) as [ms ->].
  destruct (bucket_update_total (week date)
              (if isWinAt p rng (randomCalls (snd ds))
               then bucket_win (rewardPerTrade p)
               else bucket_loss (Fin (riskPerTrade p))) _ Hw) as [ws ->].
  eauto.
Qed.

Lemma runTrades_total n date : forall ds,
  In (month date) (keysOf (monthlyStats (snd ds))) ->
  In (week date) (keysOf (weeklyStats (snd ds))) ->
  exists ds', runTrades p rng n date ds = Some ds'.
Proof.
  induction n as [|n IH]; intros ds Hm Hw; simpl; [eauto|].
  destruct (runTrade_total date ds Hm Hw) as [ds1 E]. rewrite E.
  destruct (runTrade_keys _ _ _ E) as [Km Kw].
  apply IH; congruence.
Qed.

Lemma runDay_keys date st st' :
  runDay p rng date st = Some st' ->
  keysOf (monthlyStats st') = keysOf (monthlyStats st) /\
  keysOf (weeklyStats st') = keysOf (weeklyStats st).
Proof.
  apply (runDay_invariant
           (fun s => keysOf (monthlyStats s) = keysOf (monthlyStats st) /\
                     keysOf (weeklyStats s) = keysOf (weeklyStats st))
           (fun ds => keysOf (monthlyStats (snd ds)) = keysOf (monthlyStats st) /\
                      keysOf (weeklyStats (snd ds)) = keysOf (weeklyStats st))).
  - auto.
  - intros ds ds' [Hm Hw] E. destruct (runTrade_keys _ _ _ E). split; congruence.
  - auto.
  - auto.
Qed.

Lemma runDays_keys dates st st' :
  runDays p rng dates st = Some st' ->
  keysOf (monthlyStats st') = keysOf (monthlyStats st) /\
  keysOf (weeklyStats st') = keysOf (weeklyStats st).
Proof.
  apply (runDays_invariant
           (fun s => keysOf (monthlyStats s) = keysOf (monthlyStats st) /\
                     keysOf (weeklyStats s) = keysOf (weeklyStats st))).
  - intros date s s' _ [Hm Hw] E. destruct (runDay_keys _ _ _ E).
    split; congruence.
  - auto.
Qed.

Lemma runDay_total date st :
  In (month date) (keysOf (monthlyStats st)) ->
  In (week date) (keysOf (weeklyStats st)) ->
  exists st', runDay p rng date st = Some st'.
Proof.
  intros Hm Hw. unfold runDay.
  destruct (runTrades_total (tradesPerDay p) date (runningEquity st, st) Hm Hw)
    as [ds ->]. eauto.
Qed.

Lemma runDays_total dates : forall st,
  keysCover dates st -> exists st', runDays p rng dates st = Some st'.
Proof.
  induction dates as [|d dates IH]; intros st Hc; simpl; [eauto|].
  destruct (Hc d (or_introl eq_refl)) as [Hm Hw].
  destruct (runDay_total d st Hm Hw) as [st1 E]. rewrite E.
  destruct (runDay_keys _ _ _ E) as [Km Kw].
  apply IH. intros d' Hd'. destruct (Hc d' (or_intror Hd')).
  split; congruence.
Qed.

Lemma initState_fresh dates :
  freshMap (monthlyStats (initState p dates)) /\
  freshMap (weeklyStats (initState p dates)).
Proof.
  simpl. rewrite registerBuckets_keys. simpl.
  split; apply registerKeys_fresh, freshMap_nil.
Qed.

Lemma initState_keys dates k :
  (In k (keysOf (monthlyStats (initState p dates))) <-> In k (map month dates)) /\
  (In k (keysOf (weeklyStats (initState p dates))) <-> In k (map week dates)).
Proof.
  simpl. rewrite registerBuckets_keys. simpl.
  rewrite !registerKeys_keys. simpl. tauto.
Qed.

Lemma initState_cover dates : keysCover dates (initState p dates).
Proof.
  intros d Hd. split; apply initState_keys; now apply in_map.
Qed.

(** The day loop never indexes a missing bucket: every run returns. *)
Lemma simulate_total dates : exists st, simulate p rng dates = Some st.
Proof. apply runDays_total, initState_cover. Qed.

Lemma runSimulation_total :
  exists st, simulate p rng (tradingDays p) = Some st /\
             runSimulation p rng = Some (summarize p (tradingDays p) st).
Proof.
  destruct (simulate_total (tradingDays p)) as [st E].
  exists st. split; [assumption|]. unfold runSimulation. now rewrite E.
Qed.

End RunFacts.

(** ** The equity curve *)

Section CurveFacts.

Variable p : SimulationSettings.
Variable rng : nat -> Qc.

Lemma runTrade_curve date ds ds' :
  runTrade p rng date ds = Some ds' ->
  equityCurve (snd ds') = equityCurve (snd ds).
Proof.
  unfold runTrade.
  destruct (bucket_update (month date) _ _); [|discriminate].
  destruct (bucket_update (week date) _ _); [|discriminate].
  now intros [= <-].
Qed.

Lemma runDay_curve date st st' :
  runDay p rng date st = Some st' ->
  equityCurve st' = equityCurve st ++ [dayPoint date (runningEquity st')].
Proof.
  unfold runDay.
  destruct (runTrades p rng (tradesPerDay p) date (runningEquity st, st))
    as [ds|] eqn:E; [|discriminate].
  assert (Hc : equityCurve (snd ds) = equityCurve st).
  { refine (runTrades_invariant p rng
              (fun x => equityCurve (snd x) = equityCurve st) date
              _ _ (runningEquity st, st) ds eq_refl E).
    intros x x' Hx Hstep. rewrite <- Hx. eapply runTrade_curve; eauto. }
  intros [= <-]. simpl. now rewrite Hc.
Qed.

Lemma runDays_curve_labels dates : forall st st',
  runDays p rng dates st = Some st' ->
  map ep_date (equityCurve st') =
    map ep_date (equityCurve st) ++ map fullDate dates.
Proof.
  induction dates as [|d dates IH]; simpl; intros st st' Hrun.
  - injection Hrun as <-. now rewrite app_nil_r.
  - destruct (runDay p rng d st) as [st1|] eqn:E; [|discriminate].
    rewrite (IH _ _ Hrun), (runDay_curve _ _ _ E), map_app, <- app_assoc.
    reflexivity.
Qed.

Lemma runDays_curve_prefix dates : forall st st',
  runDays p rng dates st = Some st' ->
  exists pts, equityCurve st' = equityCurve st ++ pts.
Proof.
  induction dates as [|d dates IH]; simpl; intros st st' Hrun.
  - injection Hrun as <-. exists []. now rewrite app_nil_r.
  - destruct (runDay p rng d st) as [st1|] eqn:E; [|discriminate].
    destruct (IH _ _ Hrun) as [pts Hpts].
    rewrite (runDay_curve _ _ _ E), <- app_assoc in Hpts. eauto.
Qed.

End CurveFacts.

Lemma seedCurve_tradingDays (p : SimulationSettings) :
  seedCurve p (tradingDays p) =
  match tradingDays p with
  | [] => []
  | d0 :: _ =>
      [ {| ep_date := fullDate d0; ep_equity := Fin (startingEquity p);
           ep_month := month d0; ep_week := str_or (week d0) "Week 1" |} ]
  end.
Proof.
  unfold seedCurve, tradingDays.
  pose proof (generateDates_entries (startDate p) (endDate p)) as H.
  destruct (generateDates (startDate p) (endDate p)) as [|d0 l]; [reflexivity|].
  inversion H as [|? ? Hd0 _]; subst. rewrite Hd0 at 1 2.
  unfold str_or at 1 2. rewrite fullDate_nonempty, month_nonempty.
  rewrite <- Hd0. reflexivity.
Qed.

(** C5. For every run, the equity curve has one point more than there
    are trading days, or none when there is no trading day: its labels
    are the label of the first trading day (the seed) followed by the
    label of every trading day in order, and the seed carries the
    starting equity. *)
Theorem equityCurve_length (p : SimulationSettings) (rng : nat -> Qc) :
  exists s, runSimulation p rng = Some s /\
    List.length (s_equityCurve s) =
      match tradingDays p with
      | [] => 0%nat
      | _ :: _ => S (List.length (tradingDays p))
      end /\
    map ep_date (s_equityCurve s) =
      match tradingDays p with
      | [] => []
      | d0 :: _ => fullDate d0 :: map fullDate (tradingDays p)
      end /\
    match s_equityCurve s with
    | [] => tradingDays p = []
    | pt :: _ => ep_equity pt = Fin (startingEquity p)
    end.
Proof.
  destruct (runSimulation_total p rng) as [st [Hsim Hrun]].
  exists (summarize p (tradingDays p) st). split; [assumption|].
  unfold simulate in Hsim. simpl.
  pose proof (runDays_curve_labels p rng _ _ _ Hsim) as Hlab.
  destruct (runDays_curve_prefix p rng _ _ _ Hsim) as [pts Hpts].
  simpl in Hlab, Hpts. rewrite seedCurve_tradingDays in Hlab, Hpts.
  assert (Hlen : List.length (equityCurve st)
                 = List.length (map ep_date (equityCurve st)))
    by now rewrite length_map.
  destruct (tradingDays p) as [|d0 l] eqn:Hd.
  - simpl in Hlab. rewrite Hlen, Hlab. repeat split.
    destruct (equityCurve st); [reflexivity|discriminate].
  - rewrite Hlen, Hlab. simpl. rewrite length_map. repeat split.
    rewrite Hpts. reflexivity.
Qed.

(** ** Bucket totals *)

Lemma freshMap_balanced (m : BucketMap) :
  freshMap m ->
  Forall (fun e => bucketBalanced (snd e)) m /\ mapTrades m = 0%nat.
Proof.
  intros [_ H]. induction H as [|[k b] m Hb _ IH]; simpl.
  - split; constructor.
  - simpl in Hb. subst b. destruct IH as [IH1 IH2]. split.
    + constructor; [reflexivity|assumption].
    + rewrite IH2. reflexivity.
Qed.

Lemma sumWinsLosses_report (m : BucketMap) :
  Forall (fun e => bucketBalanced (snd e)) m ->
  (sumWins (map reportBucket (bucket_values m))
   + sumLosses (map reportBucket (bucket_values m)))%nat = mapTrades m.
Proof.
  unfold bucket_values. induction 1 as [|e m He _ IH]; simpl; [reflexivity|].
  unfold bucketBalanced in He. lia.
Qed.

Lemma balanced_report (m : BucketMap) :
  Forall (fun e => bucketBalanced (snd e)) m ->
  Forall (fun r => bucketBalanced (stats r)) (map reportBucket (bucket_values m)).
Proof.
  unfold bucket_values. induction 1; simpl; constructor; auto.
Qed.

Section TotalsFacts.

Variable p : SimulationSettings.
Variable rng : nat -> Qc.

Lemma runTrade_totalsAgree date ds ds' :
  totalsAgree (snd ds) -> runTrade p rng date ds = Some ds' ->
  totalsAgree (snd ds').
Proof.
  intros (Hm & Hw & Sm & Sw & Hc). unfold runTrade.
  set (f := if isWinAt p rng (randomCalls (snd ds))
            then bucket_win (rewardPerTrade p)
            else bucket_loss (Fin (riskPerTrade p))).
  assert (Hf1 : forall b, trades (f b) = S (trades b))
    by (intros b; unfold f; destruct (isWinAt _ _ _); reflexivity).
  assert (Hf2 : forall b, bucketBalanced b -> bucketBalanced (f b)).
  { intros b Hb. unfold f, bucketBalanced in *.
    destruct (isWinAt _ _ _); simpl; lia. }
  destruct (bucket_update (month date) f (monthlyStats (snd ds)))
    as [ms|] eqn:Em; [|discriminate].
  destruct (bucket_update (week date) f (weeklyStats (snd ds)))
    as [ws|] eqn:Ew; [|discriminate].
  intros [= <-]. unfold totalsAgree. simpl.
  rewrite (bucket_update_mapTrades _ _ _ _ Hf1 Em).
  rewrite (bucket_update_mapTrades _ _ _ _ Hf1 Ew).
  repeat split.
  - eapply bucket_update_Forall; eauto.
  - eapply bucket_update_Forall; eauto.
  - congruence.
  - congruence.
  - destruct (isWinAt _ _ _); lia.
Qed.

Lemma simulate_totalsAgree dates st :
  simulate p rng dates = Some st -> totalsAgree st.
Proof.
  unfold simulate.
  refine (runDays_invariant p rng totalsAgree dates _ (initState p dates) st _).
  - intros date s s' _.
    apply (runDay_invariant p rng totalsAgree (fun ds => totalsAgree (snd ds))).
    + auto.
    + intros ds ds'. apply runTrade_totalsAgree.
    + auto.
  - destruct (initState_fresh p dates) as [Fm Fw].
    destruct (freshMap_balanced _ Fm) as [Bm Zm].
    destruct (freshMap_balanced _ Fw) as [Bw Zw].
    unfold totalsAgree. rewrite Zm, Zw. simpl. auto.
Qed.

End TotalsFacts.

(** C4. For every run, each monthly and each weekly bucket of the output
    has [wins + losses = trades]; the trades of the monthly buckets sum
    to the total trade count of the summary, and so do, independently,
    the trades of the weekly buckets (and the wins plus the losses of
    either list). *)
Theorem bucket_trade_counts (p : SimulationSettings) (rng : nat -> Qc) :
  exists s, runSimulation p rng = Some s /\
    Forall (fun r => (wins (stats r) + losses (stats r))%nat = trades (stats r))
           (s_monthlyBreakdown s) /\
    Forall (fun r => (wins (stats r) + losses (stats r))%nat = trades (stats r))
           (s_weeklyBreakdown s) /\
    sumTrades (s_monthlyBreakdown s) = s_totalTrades s /\
    sumTrades (s_weeklyBreakdown s) = s_totalTrades s /\
    (sumWins (s_monthlyBreakdown s) + sumLosses (s_monthlyBreakdown s))%nat
      = s_totalTrades s /\
    (sumWins (s_weeklyBreakdown s) + sumLosses (s_weeklyBreakdown s))%nat
      = s_totalTrades s.
Proof.
  destruct (runSimulation_total p rng) as [st [Hsim Hrun]].
  exists (summarize p (tradingDays p) st). split; [assumption|].
  destruct (simulate_totalsAgree p rng _ _ Hsim) as (Hm & Hw & Sm & Sw & _).
  simpl. rewrite !sumTrades_report, !sumWinsLosses_report by assumption.
  repeat split; try assumption; now apply balanced_report.
Qed.

(** ** Final equity *)

Section EquityFacts.

Variable p : SimulationSettings.
Variable rng : nat -> Qc.

Lemma rewardPerTrade_value :
  rewardPerTrade p = Fin (riskPerTrade p * riskRewardRatio p)%Qc.
Proof. reflexivity. Qed.

Lemma runTrade_equity date ds ds' :
  fst ds = Fin (equityAfter p (totalWins (counts (snd ds)))
                            (totalLosses (counts (snd ds)))) ->
  runTrade p rng date ds = Some ds' ->
  fst ds' = Fin (equityAfter p (totalWins (counts (snd ds')))
                              (totalLosses (counts (snd ds')))).
Proof.
  intros He. unfold runTrade.
  destruct (bucket_update (month date) _ _); [|discriminate].
  destruct (bucket_update (week date) _ _); [|discriminate].
  intros [= <-]. simpl. rewrite He, rewardPerTrade_value.
  destruct (isWinAt p rng (randomCalls (snd ds))); simpl; f_equal;
    unfold equityAfter; rewrite Qc_of_nat_S; ring.
Qed.

Lemma simulate_equity dates st :
  simulate p rng dates = Some st ->
  runningEquity st = Fin (equityAfter p (totalWins (counts st))
                                       (totalLosses (counts st))).
Proof.
  unfold simulate.
  refine (runDays_invariant p rng
            (fun s => runningEquity s
                      = Fin (equityAfter p (totalWins (counts s))
                                           (totalLosses (counts s))))
            dates _ (initState p dates) st _).
  - intros date s s' _.
    apply (runDay_invariant p rng
             (fun s => runningEquity s
                       = Fin (equityAfter p (totalWins (counts s))
                                            (totalLosses (counts s))))
             (fun ds => fst ds
                        = Fin (equityAfter p (totalWins (counts (snd ds)))
                                             (totalLosses (counts (snd ds)))))).
    + auto.
    + intros ds ds'. apply runTrade_equity.
    + auto.
  - simpl. unfold initialEquity, equityAfter. f_equal.
    rewrite Qc_of_nat_0. ring.
Qed.

End EquityFacts.

(** ** Streaks *)

Section StreakFacts.

Variable p : SimulationSettings.
Variable rng : nat -> Qc.

(** What one trade does to the streak counters. *)
Lemma runTrade_streaks date ds ds' :
  runTrade p rng date ds = Some ds' ->
  if isWinAt p rng (randomCalls (snd ds))
  then currentLossStreak (streaks (snd ds')) = 0%nat /\
       currentWinStreak (streaks (snd ds'))
       = S (currentWinStreak (streaks (snd ds)))
  else currentWinStreak (streaks (snd ds')) = 0%nat /\
       currentLossStreak (streaks (snd ds'))
       = S (currentLossStreak (streaks (snd ds))).
Proof.
  unfold runTrade.
  destruct (bucket_update (month date) _ _); [|discriminate].
  destruct (bucket_update (week date) _ _); [|discriminate].
  intros [= <-]. simpl.
  destruct (isWinAt p rng (randomCalls (snd ds))); simpl; auto.
Qed.

Lemma runTrade_exclusive date ds ds' :
  runTrade p rng date ds = Some ds' -> streaksExclusive (streaks (snd ds')).
Proof.
  intros H. apply runTrade_streaks in H. unfold streaksExclusive.
  destruct (isWinAt p rng (randomCalls (snd ds))); lia.
Qed.

Lemma runTrades_exclusive n date ds ds' :
  streaksExclusive (streaks (snd ds)) ->
  runTrades p rng n date ds = Some ds' ->
  streaksExclusive (streaks (snd ds')).
Proof.
  apply (runTrades_invariant p rng
           (fun x => streaksExclusive (streaks (snd x)))).
  intros x x' _. apply runTrade_exclusive.
Qed.

Lemma runDays_exclusive dates st st' :
  streaksExclusive (streaks st) ->
  runDays p rng dates st = Some st' ->
  streaksExclusive (streaks st').
Proof.
  apply (runDays_invariant p rng (fun s => streaksExclusive (streaks s))).
  intros date s s' _.
  apply (runDay_invariant p rng
           (fun s => streaksExclusive (streaks s))
           (fun x => streaksExclusive (streaks (snd x)))); auto.
  intros x x' _. apply runTrade_exclusive.
Qed.

Lemma initState_exclusive dates : streaksExclusive (streaks (initState p dates)).
Proof. unfold streaksExclusive. simpl. lia. Qed.

End StreakFacts.

(** C7. At every point of the trade-by-trade pass (after any number of
    whole days and any number [j] of trades of the next day), the
    current win streak and the current loss streak are not both greater
    than 0; the next trade, if it wins, sets the loss streak to 0 and
    extends the win streak, and if it loses, sets the win streak to 0
    and extends the loss streak. *)
Theorem streaks_exclusive (p : SimulationSettings) (rng : nat -> Qc)
  (dates pre post : list DateInfo) (date : DateInfo) (j : nat)
  (st : State) (ds : num * State) :
  dates = pre ++ date :: post ->
  (j <= tradesPerDay p)%nat ->
  runDays p rng pre (initState p dates) = Some st ->
  runTrades p rng j date (runningEquity st, st) = Some ds ->
  ~ ((0 < currentWinStreak (streaks (snd ds)))%nat /\
     (0 < currentLossStreak (streaks (snd ds)))%nat) /\
  forall ds', runTrade p rng date ds = Some ds' ->
    if lt (Fin (rng (randomCalls (snd ds)))) (targetWinRate p)
    then currentLossStreak (streaks (snd ds')) = 0%nat /\
         currentWinStreak (streaks (snd ds'))
         = S (currentWinStreak (streaks (snd ds)))
    else currentWinStreak (streaks (snd ds')) = 0%nat /\
         currentLossStreak (streaks (snd ds'))
         = S (currentLossStreak (streaks (snd ds))).
Proof.
  intros _ _ Hdays Htrades. split.
  - eapply runTrades_exclusive; [|exact Htrades]. simpl.
    eapply runDays_exclusive; [|exact Hdays]. apply initState_exclusive.
  - intros ds'. apply runTrade_streaks.
Qed.

(** The [twoWeeks] run, three trades into its third day. *)
Lemma streaks_exclusive_witness :
  ~ ((0 < currentWinStreak (streaks (snd twoWeeksMidThirdDay)))%nat /\
     (0 < currentLossStreak (streaks (snd twoWeeksMidThirdDay)))%nat).
Proof.
  refine (proj1 (streaks_exclusive twoWeeks drawOneInThree twoWeeksDays
                   (firstn 2 twoWeeksDays) (skipn 3 twoWeeksDays)
                   twoWeeksThirdDay 3
                   twoWeeksAfterTwoDays twoWeeksMidThirdDay _ _ _ _)).
  - vm_compute; reflexivity.
  - vm_compute; lia.
  - vm_compute; reflexivity.
  - vm_compute; reflexivity.
Defined.

(** ** Drawdown *)

Lemma gt_irrefl (x : num) : gt x x = false.
Proof. unfold gt. destruct x; simpl; auto using Qc_ltb_irrefl. Qed.

Lemma runningPeak_snoc (start : num) (es : list num) (e : num) :
  runningPeak start (es ++ [e]) =
  if gt e (runningPeak start es) then e else runningPeak start es.
Proof. unfold runningPeak. now rewrite fold_left_app. Qed.

(** The peak after the update is the higher of the old peak and the
    equity of the day. *)
Lemma updateDrawdown_peak label e d :
  peakEquity (updateDrawdown label e d) =
  if gt e (peakEquity d) then e else peakEquity d.
Proof.
  unfold updateDrawdown. destruct (gt e (peakEquity d)); [reflexivity|].
  destruct (gt _ (currentDrawdown d)); reflexivity.
Qed.

(** The maximum drawdown never decreases, stays at or above zero, and
    changes only to a drawdown, measured against the peak, that is
    strictly above the previous maximum. *)
Lemma updateDrawdown_max label e d :
  le (of_Z 0) (maxDrawdown d) = true ->
  le (maxDrawdown d) (maxDrawdown (updateDrawdown label e d)) = true /\
  le (of_Z 0) (maxDrawdown (updateDrawdown label e d)) = true /\
  (maxDrawdown (updateDrawdown label e d) <> maxDrawdown d ->
   gt e (peakEquity d) = false /\
   maxDrawdown (updateDrawdown label e d)
     = drawdownPercentage (peakEquity d) e /\
   gt (drawdownPercentage (peakEquity d) e) (maxDrawdown d) = true).
Proof.
  intros H0.
  assert (Hrefl : le (maxDrawdown d) (maxDrawdown d) = true)
    by (apply le_refl_not_nan; eapply le_not_nan; eauto).
  unfold updateDrawdown.
  destruct (gt e (peakEquity d)) eqn:Epk; cbn [maxDrawdown].
  - split; [assumption|]. split; [assumption|]. congruence.
  - destruct (gt (drawdownPercentage (peakEquity d) e) (currentDrawdown d))
      eqn:Ecur; cbn [maxDrawdown].
    + destruct (gt (drawdownPercentage (peakEquity d) e) (maxDrawdown d))
        eqn:Emax.
      * pose proof (gt_le _ _ Emax) as Hle.
        split; [assumption|]. split; [eapply le_trans; eauto|]. auto.
      * split; [assumption|]. split; [assumption|]. congruence.
    + split; [assumption|]. split; [assumption|]. congruence.
Qed.

Section DrawdownFacts.

Variable p : SimulationSettings.
Variable rng : nat -> Qc.

Lemma runTrade_drawdown date ds ds' :
  runTrade p rng date ds = Some ds' -> drawdown (snd ds') = drawdown (snd ds).
Proof.
  unfold runTrade.
  destruct (bucket_update (month date) _ _); [|discriminate].
  destruct (bucket_update (week date) _ _); [|discriminate].
  now intros [= <-].
Qed.

(** The drawdown record after a day is the update of the record before
    it with the equity the day ends at. *)
Lemma runDay_drawdown date st st' :
  runDay p rng date st = Some st' ->
  drawdown st' = updateDrawdown (fullDate date) (runningEquity st') (drawdown st).
Proof.
  unfold runDay.
  destruct (runTrades p rng (tradesPerDay p) date (runningEquity st, st))
    as [ds|] eqn:E; [|discriminate].
  assert (Hd : drawdown (snd ds) = drawdown st).
  { refine (runTrades_invariant p rng
              (fun x => drawdown (snd x) = drawdown st) date
              _ _ (runningEquity st, st) ds eq_refl E).
    intros x x' Hx Hstep. rewrite <- Hx. eapply runTrade_drawdown; eauto. }
  intros [= <-]. simpl. now rewrite Hd.
Qed.

Lemma runDay_drawdownSound date st st' :
  drawdownSound p st -> runDay p rng date st = Some st' -> drawdownSound p st'.
Proof.
  intros [H0 Hpk] Hday. unfold drawdownSound.
  rewrite (runDay_drawdown _ _ _ Hday), (runDay_curve _ _ _ _ _ Hday).
  split.
  - now apply updateDrawdown_max.
  - rewrite updateDrawdown_peak, map_app.
    change (map ep_equity [dayPoint date (runningEquity st')])
      with [runningEquity st'].
    rewrite runningPeak_snoc, <- Hpk. reflexivity.
Qed.

Lemma initState_drawdownSound dates : drawdownSound p (initState p dates).
Proof.
  split; [reflexivity|]. destruct dates as [|d0 l]; [reflexivity|].
  change (peakEquity (drawdown (initState p (d0 :: l)))) with (initialEquity p).
  change (map ep_equity (equityCurve (initState p (d0 :: l))))
    with ([] ++ [initialEquity p]).
  rewrite runningPeak_snoc. now rewrite gt_irrefl.
Qed.

Lemma runDays_drawdownSound dates st st' :
  drawdownSound p st -> runDays p rng dates st = Some st' -> drawdownSound p st'.
Proof.
  apply (runDays_invariant p rng (drawdownSound p)).
  intros date s s' _. apply runDay_drawdownSound.
Qed.

End DrawdownFacts.

(** C3. Over the day-by-day pass the recorded maximum drawdown never
    decreases and is never below 0: for the locals [st] before any day
    of the run and [st'] after it, [0 <= maxDrawdown st <= maxDrawdown
    st']; the peak the day's drawdown is measured against is the highest
    equity on the curve so far; and the record changes on that day only
    to the day's drawdown percentage against that peak, and only when
    that percentage is strictly greater than the previous maximum. *)
Theorem maxDrawdown_monotone (p : SimulationSettings) (rng : nat -> Qc)
  (dates pre post : list DateInfo) (date : DateInfo) (st st' : State) :
  dates = pre ++ date :: post ->
  runDays p rng pre (initState p dates) = Some st ->
  runDay p rng date st = Some st' ->
  le (of_Z 0) (maxDrawdown (drawdown st)) = true /\
  le (maxDrawdown (drawdown st)) (maxDrawdown (drawdown st')) = true /\
  le (of_Z 0) (maxDrawdown (drawdown st')) = true /\
  peakEquity (drawdown st)
    = runningPeak (Fin (startingEquity p)) (map ep_equity (equityCurve st)) /\
  (maxDrawdown (drawdown st') <> maxDrawdown (drawdown st) ->
   gt (runningEquity st') (peakEquity (drawdown st)) = false /\
   maxDrawdown (drawdown st')
     = drawdownPercentage (peakEquity (drawdown st)) (runningEquity st') /\
   gt (drawdownPercentage (peakEquity (drawdown st)) (runningEquity st'))
      (maxDrawdown (drawdown st)) = true).
Proof.
  intros _ Hdays Hday.
  destruct (runDays_drawdownSound p rng _ _ _
              (initState_drawdownSound p dates) Hdays) as [H0 Hpk].
  rewrite (runDay_drawdown _ _ _ _ _ Hday).
  destruct (updateDrawdown_max (fullDate date) (runningEquity st')
              (drawdown st) H0) as (Hmono & H0' & Hchange).
  repeat split; auto; now apply Hchange.
Qed.

(** The [twoWeeks] run, across its third day. *)
Lemma maxDrawdown_monotone_witness :
  le (maxDrawdown (drawdown twoWeeksAfterTwoDays))
     (maxDrawdown (drawdown twoWeeksAfterThreeDays)) = true.
Proof.
  refine (proj1 (proj2 (maxDrawdown_monotone twoWeeks drawOneInThree
                          twoWeeksDays
                          (firstn 2 twoWeeksDays) (skipn 3 twoWeeksDays)
                          twoWeeksThirdDay
                          twoWeeksAfterTwoDays twoWeeksAfterThreeDays
                          _ _ _))).
  - vm_compute; reflexivity.
  - vm_compute; reflexivity.
  - vm_compute; reflexivity.
Defined.

(** ** Buckets and the trading days of their key *)

Lemma bucket_update_map k f m m' :
  NoDup (keysOf m) ->
  bucket_update k f m = Some m' ->
  m' = map (fun e => if String.eqb (fst e) k then (fst e, f (snd e)) else e) m.
Proof.
  revert m'. induction m as [|[k0 b] m IH]; simpl; intros m' Hnd;
    [discriminate|].
  inversion Hnd as [|? ? Hout Hnd']; subst.
  destruct (String.eqb_spec k0 k) as [->|Hne].
  - intros [= <-]. f_equal. symmetry.
    erewrite map_ext_in; [apply map_id|].
    intros [k1 b1] Hin. simpl.
    destruct (String.eqb_spec k1 k) as [->|]; [|reflexivity].
    exfalso. apply Hout. change k with (fst (k, b1)). now apply in_map.
  - destruct (bucket_update k f m) as [m''|]; [|discriminate].
    intros [= <-]. f_equal. now apply IH.
Qed.

Lemma daysWithKey_app proj k pre post :
  daysWithKey proj k (pre ++ post)
  = (daysWithKey proj k pre + daysWithKey proj k post)%nat.
Proof. unfold daysWithKey. now rewrite filter_app, length_app. Qed.

Lemma daysWithKey_pos proj k dates :
  In k (map proj dates) -> (1 <= daysWithKey proj k dates)%nat.
Proof.
  intros H. apply in_map_iff in H. destruct H as [d [<- Hd]].
  unfold daysWithKey.
  assert (Hin : In d (filter (fun d' => String.eqb (proj d') (proj d)) dates))
    by (apply filter_In; split; [assumption|apply String.eqb_refl]).
  destruct (filter _ dates); [contradiction|simpl; lia].
Qed.

Lemma tracksTrades_start proj tpd pre d m :
  tracksDays proj tpd pre m -> tracksTrades proj tpd pre d 0 m.
Proof.
  unfold tracksDays, tracksTrades. apply Forall_impl.
  intros e [Hk Ht]. split; [assumption|].
  destruct (String.eqb (proj d) (fst e)); lia.
Qed.

Lemma tracksTrades_close proj tpd pre d m :
  tracksTrades proj tpd pre d tpd m -> tracksDays proj tpd (pre ++ [d]) m.
Proof.
  unfold tracksDays, tracksTrades. apply Forall_impl.
  intros e [Hk Ht]. split; [assumption|].
  rewrite daysWithKey_app, Ht. unfold daysWithKey at 3. simpl.
  destruct (String.eqb (proj d) (fst e)); simpl; lia.
Qed.

Lemma tracksTrades_step proj tpd pre d j f m m' :
  (forall b, key (f b) = key b /\ trades (f b) = S (trades b)) ->
  NoDup (keysOf m) ->
  bucket_update (proj d) f m = Some m' ->
  tracksTrades proj tpd pre d j m -> tracksTrades proj tpd pre d (S j) m'.
Proof.
  intros Hf Hnd Hup Htr. rewrite (bucket_update_map _ _ _ _ Hnd Hup).
  unfold tracksTrades in *. apply Forall_map.
  revert Htr. apply Forall_impl. intros [k b] [Hk Ht]. simpl in *.
  rewrite (String.eqb_sym k (proj d)).
  destruct (String.eqb (proj d) k) eqn:E; simpl; rewrite E.
  - destruct (Hf b) as [-> ->]. split; [assumption|lia].
  - split; [assumption|lia].
Qed.

Section TrackingFacts.

Variable p : SimulationSettings.
Variable rng : nat -> Qc.

Lemma mutate_keeps_key (w : bool) (b : BucketStats) :
  key ((if w then bucket_win (rewardPerTrade p)
        else bucket_loss (Fin (riskPerTrade p))) b) = key b /\
  trades ((if w then bucket_win (rewardPerTrade p)
           else bucket_loss (Fin (riskPerTrade p))) b) = S (trades b).
Proof. destruct w; split; reflexivity. Qed.

Lemma runTrades_tracks pre date n : forall j ds ds',
  NoDup (keysOf (monthlyStats (snd ds))) ->
  NoDup (keysOf (weeklyStats (snd ds))) ->
  tracksTrades month (tradesPerDay p) pre date j (monthlyStats (snd ds)) ->
  tracksTrades week (tradesPerDay p) pre date j (weeklyStats (snd ds)) ->
  runTrades p rng n date ds = Some ds' ->
  tracksTrades month (tradesPerDay p) pre date (j + n) (monthlyStats (snd ds')) /\
  tracksTrades week (tradesPerDay p) pre date (j + n) (weeklyStats (snd ds')).
Proof.
  induction n as [|n IH]; simpl; intros j ds ds' Nm Nw Tm Tw Hrun.
  - injection Hrun as <-. rewrite Nat.add_0_r. now split.
  - destruct (runTrade p rng date ds) as [ds1|] eqn:E; [|discriminate].
    destruct (runTrade_keys _ _ _ _ _ E) as [Km Kw].
    rewrite <- Nat.add_succ_comm.
    assert (Hstep :
      tracksTrades month (tradesPerDay p) pre date (S j) (monthlyStats (snd ds1)) /\
      tracksTrades week (tradesPerDay p) pre date (S j) (weeklyStats (snd ds1))).
    { clear IH Hrun Km Kw. unfold runTrade in E.
      destruct (bucket_update (month date) _ (monthlyStats (snd ds)))
        as [ms|] eqn:Em; [|discriminate].
      destruct (bucket_update (week date) _ (weeklyStats (snd ds)))
        as [ws|] eqn:Ew; [|discriminate].
      injection E as <-. simpl. split.
      - exact (tracksTrades_step month _ _ _ _ _ _ _
                 (mutate_keeps_key _) Nm Em Tm).
      - exact (tracksTrades_step week _ _ _ _ _ _ _
                 (mutate_keeps_key _) Nw Ew Tw). }
    destruct Hstep as [Tm1 Tw1].
    apply (IH (S j) ds1 ds'); auto.
    + now rewrite Km.
    + now rewrite Kw.
Qed.

Lemma runDay_tracks pre date st st' :
  bucketsTrack p pre st -> runDay p rng date st = Some st' ->
  bucketsTrack p (pre ++ [date]) st'.
Proof.
  intros (Nm & Nw & Tm & Tw) Hday.
  destruct (runDay_keys _ _ _ _ _ Hday) as [Km Kw].
  unfold runDay in Hday.
  destruct (runTrades p rng (tradesPerDay p) date (runningEquity st, st))
    as [ds|] eqn:E; [|discriminate].
  injection Hday as <-.
  destruct (runTrades_tracks pre date (tradesPerDay p) 0
              (runningEquity st, st) ds Nm Nw
              (tracksTrades_start _ _ _ date _ Tm)
              (tracksTrades_start _ _ _ date _ Tw) E) as [Tm' Tw'].
  simpl in *. unfold bucketsTrack. simpl.
  repeat split; try congruence; now apply tracksTrades_close.
Qed.

Lemma runDays_tracks rest : forall pre st st',
  bucketsTrack p pre st -> runDays p rng rest st = Some st' ->
  bucketsTrack p (pre ++ rest) st'.
Proof.
  induction rest as [|d rest IH]; simpl; intros pre st st' Hpre Hrun.
  - injection Hrun as <-. now rewrite app_nil_r.
  - destruct (runDay p rng d st) as [st1|] eqn:E; [|discriminate].
    replace (pre ++ d :: rest) with ((pre ++ [d]) ++ rest)
      by (rewrite <- app_assoc; reflexivity).
    eapply IH; [|exact Hrun]. eapply runDay_tracks; eauto.
Qed.

Lemma freshMap_tracks proj m : freshMap m -> tracksDays proj (tradesPerDay p) [] m.
Proof.
  intros [_ H]. unfold tracksDays. revert H. apply Forall_impl.
  intros [k b] Hb. simpl in *. subst b. simpl. split; [reflexivity|].
  unfold daysWithKey. simpl. lia.
Qed.

Lemma simulate_tracks dates st :
  simulate p rng dates = Some st -> bucketsTrack p dates st.
Proof.
  intros H. apply (runDays_tracks dates [] (initState p dates) st); [|exact H].
  destruct (initState_fresh p dates) as [Fm Fw].
  repeat split; try apply Fm; try apply Fw; now apply freshMap_tracks.
Qed.

End TrackingFacts.

Lemma Qc_eqb_false_pos (q : Qc) : (0 < q)%Qc -> Qc_eqb q 0 = false.
Proof.
  intros H. destruct (Qc_eqb q 0) eqn:E; [|reflexivity].
  apply Qc_eqb_true in E. subst q. exfalso.
  revert H. apply Qcle_not_lt, Qcle_refl.
Qed.

Lemma div_finite (a b : Qc) :
  Qc_eqb b 0 = false -> div (Fin a) (Fin b) = Fin (a / b)%Qc.
Proof. intros H. unfold div. now rewrite H. Qed.

(** With a decided trade the percentage is a quotient by a non-zero
    count: no [0 / 0]. *)
Lemma winPercentage_decided (w l : nat) :
  (0 < w + l)%nat ->
  winPercentage w l = Fin (Qc_of_nat w / Qc_of_nat (w + l) * Qc_of_Z 100)%Qc.
Proof.
  intros H. unfold winPercentage, of_nat.
  rewrite div_finite by (apply Qc_eqb_false_pos, Qc_of_nat_pos, H).
  reflexivity.
Qed.

Lemma tracked_reports proj (p : SimulationSettings) (dates : list DateInfo)
  (m : BucketMap) :
  (forall k, In k (keysOf m) -> In k (map proj dates)) ->
  tracksDays proj (tradesPerDay p) dates m ->
  Forall (fun r =>
            (1 <= daysWithKey proj (key (stats r)) dates)%nat /\
            trades (stats r)
            = (tradesPerDay p * daysWithKey proj (key (stats r)) dates)%nat)
         (map reportBucket (bucket_values m)).
Proof.
  intros Hkeys Htr. unfold bucket_values. rewrite map_map.
  apply Forall_map. unfold tracksDays in Htr.
  rewrite Forall_forall in *. intros e He. simpl.
  destruct (Htr e He) as [Hk Ht]. rewrite Hk. split; [|assumption].
  apply daysWithKey_pos, Hkeys. unfold keysOf. now apply in_map.
Qed.

(** C10. For every run, every monthly and every weekly bucket of the
    output has at least one trading day of its key and has [trades]
    equal to [tradesPerDay] times the number of trading days of its key;
    so, with a positive [tradesPerDay], no reported bucket has zero
    trades or zero decided trades, and its win percentage is a quotient
    by a non-zero count (the value for "no decided trades" is never
    needed). *)
Theorem buckets_cover_trading_days (p : SimulationSettings) (rng : nat -> Qc) :
  exists s, runSimulation p rng = Some s /\
    Forall (fun r =>
              (1 <= daysWithKey month (key (stats r)) (tradingDays p))%nat /\
              trades (stats r)
              = (tradesPerDay p
                 * daysWithKey month (key (stats r)) (tradingDays p))%nat)
           (s_monthlyBreakdown s) /\
    Forall (fun r =>
              (1 <= daysWithKey week (key (stats r)) (tradingDays p))%nat /\
              trades (stats r)
              = (tradesPerDay p
                 * daysWithKey week (key (stats r)) (tradingDays p))%nat)
           (s_weeklyBreakdown s) /\
    ((0 < tradesPerDay p)%nat ->
     Forall (fun r =>
               (0 < trades (stats r))%nat /\
               (0 < wins (stats r) + losses (stats r))%nat /\
               is_finite (winPercentage (wins (stats r)) (losses (stats r)))
               = true)
            (s_monthlyBreakdown s ++ s_weeklyBreakdown s)).
Proof.
  destruct (runSimulation_total p rng) as [st [Hsim Hrun]].
  exists (summarize p (tradingDays p) st). split; [assumption|].
  destruct (simulate_tracks p rng _ _ Hsim) as (_ & _ & Tm & Tw).
  destruct (simulate_totalsAgree p rng _ _ Hsim) as (Bm & Bw & _).
  destruct (runDays_keys p rng _ _ _ Hsim) as [Km Kw].
  assert (Hm := tracked_reports month p (tradingDays p) (monthlyStats st)).
  assert (Hw := tracked_reports week p (tradingDays p) (weeklyStats st)).
  simpl.
  assert (Hm' : Forall (fun r =>
              (1 <= daysWithKey month (key (stats r)) (tradingDays p))%nat /\
              trades (stats r)
              = (tradesPerDay p
                 * daysWithKey month (key (stats r)) (tradingDays p))%nat)
            (map reportBucket (bucket_values (monthlyStats st)))).
  { apply Hm; [|assumption]. intros k Hk. rewrite Km in Hk.
    now apply (initState_keys p (tradingDays p) k). }
  assert (Hw' : Forall (fun r =>
              (1 <= daysWithKey week (key (stats r)) (tradingDays p))%nat /\
              trades (stats r)
              = (tradesPerDay p
                 * daysWithKey week (key (stats r)) (tradingDays p))%nat)
            (map reportBucket (bucket_values (weeklyStats st)))).
  { apply Hw; [|assumption]. intros k Hk. rewrite Kw in Hk.
    now apply (initState_keys p (tradingDays p) k). }
  split; [exact Hm'|]. split; [exact Hw'|].
  intros Hpos. apply Forall_app.
  apply balanced_report in Bm. apply balanced_report in Bw.
  rewrite Forall_forall in Bm, Bw, Hm', Hw'.
  assert (Hgen : forall (r : BucketReport) (c : nat),
             (1 <= c)%nat -> trades (stats r) = (tradesPerDay p * c)%nat ->
             bucketBalanced (stats r) ->
             (0 < trades (stats r))%nat /\
             (0 < wins (stats r) + losses (stats r))%nat /\
             is_finite (winPercentage (wins (stats r)) (losses (stats r)))
             = true).
  { intros r c Hc Ht Hb. unfold bucketBalanced in Hb.
    assert (0 < trades (stats r))%nat by (rewrite Ht; nia).
    split; [assumption|]. split; [lia|].
    rewrite winPercentage_decided by lia. reflexivity. }
  split; apply Forall_forall; intros r Hr.
  - destruct (Hm' r Hr). eapply Hgen; eauto.
  - destruct (Hw' r Hr). eapply Hgen; eauto.
Qed.

(** The [twoWeeks] run: four trades a day. *)
Lemma buckets_cover_trading_days_witness :
  exists s, runSimulation twoWeeks drawOneInThree = Some s /\
    Forall (fun r => (0 < trades (stats r))%nat)
           (s_monthlyBreakdown s ++ s_weeklyBreakdown s).
Proof.
  destruct (buckets_cover_trading_days twoWeeks drawOneInThree)
    as [s (Hrun & _ & _ & Hpos)].
  exists s. split; [exact Hrun|].
  assert (H : (0 < tradesPerDay twoWeeks)%nat) by (vm_compute; lia).
  specialize (Hpos H). revert Hpos. apply Forall_impl. tauto.
Defined.

(** ** The run depends on the draws only through the outcomes *)

Section OutcomeFacts.

Variable p : SimulationSettings.
Variables rng1 rng2 : nat -> Qc.
Hypothesis same_outcomes : forall k, isWinAt p rng1 k = isWinAt p rng2 k.

Lemma runTrade_outcomes date ds :
  runTrade p rng1 date ds = runTrade p rng2 date ds.
Proof. unfold runTrade. now rewrite same_outcomes. Qed.

Lemma runTrades_outcomes n date : forall ds,
  runTrades p rng1 n date ds = runTrades p rng2 n date ds.
Proof.
  induction n as [|n IH]; intros ds; simpl; [reflexivity|].
  rewrite runTrade_outcomes. destruct (runTrade p rng2 date ds); auto.
Qed.

Lemma runDay_outcomes date st : runDay p rng1 date st = runDay p rng2 date st.
Proof. unfold runDay. now rewrite runTrades_outcomes. Qed.

Lemma runDays_outcomes dates : forall st,
  runDays p rng1 dates st = runDays p rng2 dates st.
Proof.
  induction dates as [|d dates IH]; intros st; simpl; [reflexivity|].
  rewrite runDay_outcomes. destruct (runDay p rng2 d st); auto.
Qed.

Lemma runSimulation_outcomes : runSimulation p rng1 = runSimulation p rng2.
Proof. unfold runSimulation, simulate. now rewrite runDays_outcomes. Qed.

End OutcomeFacts.

Lemma targetWinRate_zero_loses (p : SimulationSettings) (rng : nat -> Qc) :
  targetWinRate p = Fin 0%Qc -> uniformDraws rng ->
  forall k, isWinAt p rng k = false.
Proof.
  intros Ht Hu k. unfold isWinAt. rewrite Ht. simpl.
  destruct (Qc_ltb (rng k) 0) eqn:E; [|reflexivity].
  apply Qc_ltb_true in E. destruct (Hu k) as [H0 _].
  exfalso. exact (Qcle_not_lt _ _ H0 E).
Qed.

Lemma scenarioAllLosses_target : targetWinRate scenarioAllLosses = Fin 0%Qc.
Proof. apply Fin_canon. reflexivity. Qed.

Lemma drawHalf_uniform : uniformDraws drawHalf.
Proof. intros k. split; reflexivity || discriminate. Qed.

(** C8. In the run from 2025-01-01 to 2025-01-10 with win rate 0, one
    trade a day, risk 100, ratio 2 and starting equity 1000, whatever
    the draws in [0, 1): no draw is strictly below the win probability
    0, so every trade loses; there are 8 trading days and 8 trades; the
    final equity is 200, the maximum drawdown 80 (percent), the longest
    win streak 0 and the longest loss streak 8. *)
Theorem scenario_all_losses (rng : nat -> Qc) :
  uniformDraws rng ->
  (forall k, lt (Fin (rng k)) (targetWinRate scenarioAllLosses) = false) /\
  List.length (tradingDays scenarioAllLosses) = 8%nat /\
  exists s, runSimulation scenarioAllLosses rng = Some s /\
    s_totalTrades s = 8%nat /\
    s_finalEquity s = of_Z 200 /\
    s_maxDrawdown s = of_Z 80 /\
    s_maxWinStreak s = 0%nat /\
    s_maxLossStreak s = 8%nat.
Proof.
  intros Hu.
  assert (Hlose : forall k, isWinAt scenarioAllLosses rng k = false)
    by (apply targetWinRate_zero_loses;
        [apply scenarioAllLosses_target|assumption]).
  split; [exact Hlose|]. split; [reflexivity|].
  rewrite (runSimulation_outcomes scenarioAllLosses rng drawHalf).
  - eexists. split; [vm_compute; reflexivity|].
    cbn [s_totalTrades s_finalEquity s_maxDrawdown s_maxWinStreak
         s_maxLossStreak].
    repeat split; apply Fin_canon; reflexivity.
  - intros k. rewrite Hlose. symmetry.
    apply targetWinRate_zero_loses;
      [apply scenarioAllLosses_target|apply drawHalf_uniform].
Qed.

(** The scenario with a draw of 1/2 at every call. *)
Lemma scenario_all_losses_witness :
  exists s, runSimulation scenarioAllLosses drawHalf = Some s /\
    s_finalEquity s = of_Z 200 /\ s_maxDrawdown s = of_Z 80.
Proof.
  assert (Hu : uniformDraws drawHalf)
    by (intros k; split; [discriminate|reflexivity]).
  destruct (scenario_all_losses drawHalf Hu)
    as (_ & _ & s & Hrun & _ & Hfin & Hdd & _).
  exists s. repeat split; assumption.
Defined.

(** ** Finiteness of the summary *)


Lemma drawNineTenths_uniform : uniformDraws drawNineTenths.
Proof. intros k. split; reflexivity || discriminate. Qed.

(** C2, counterexample. In binary64, with parameters in the stated
    ranges and draws in [0, 1), on one trading day (UTC):
    with a starting equity of 0 and a losing trade the day ends below a
    peak of 0, the drawdown percentage is [100 / 0 * 100] and the
    summary's maximum drawdown is [Infinity];
    with a risk of 1e308 and a ratio of 10 the reward [1e308 * 10]
    overflows to [Infinity], and after a win the final equity, the total
    profit and the averages per day and per week are [Infinity];
    after two losses, which overflow to [-Infinity], and a win the final
    equity and the total profit are [-Infinity + Infinity], [NaN]. *)
Lemma summary_not_finite_in_ranges :
  Runtime.validRanges zeroEquity64 /\
  Runtime.validRanges hugeRisk64 /\
  Runtime.uniformDraws draw64NineTenths /\
  Runtime.uniformDraws draw64WinThenLose /\
  Runtime.uniformDraws draw64LoseTwiceThenWin /\
  (exists s,
     Runtime.runSimulation Local.utc zeroEquity64 draw64NineTenths = Some s /\
     Runtime.s_maxDrawdown s = B64.PInf) /\
  (exists s,
     Runtime.runSimulation Local.utc hugeRisk64 draw64WinThenLose = Some s /\
     Runtime.s_finalEquity s = B64.PInf /\
     Runtime.s_totalProfit s = B64.PInf /\
     Runtime.s_avgRPerDay s = B64.PInf /\
     Runtime.s_avgRPerWeek s = B64.PInf) /\
  (exists s,
     Runtime.runSimulation Local.utc hugeRisk64 draw64LoseTwiceThenWin
       = Some s /\
     Runtime.s_finalEquity s = B64.NaN /\
     Runtime.s_totalProfit s = B64.NaN).
Proof.
  split; [unfold Runtime.validRanges; repeat split; vm_compute; lia|].
  split; [unfold Runtime.validRanges; repeat split; vm_compute; lia|].
  split; [intros k; split; reflexivity|].
  split; [intros [|k]; split; reflexivity|].
  split; [intros [|[|k]]; split; reflexivity|].
  split; [|split]; eexists; (split; [vm_compute; reflexivity|]);
    repeat split.
Qed.

(** ** The realized win rate *)

Lemma winPercentage_no_wins (l : nat) : truthy (winPercentage 0 l) = false.
Proof.
  destruct l as [|l]; [reflexivity|].
  rewrite winPercentage_decided by lia. unfold truthy.
  rewrite Qc_of_nat_0. unfold Qcdiv. rewrite !Qcmult_0_l. reflexivity.
Qed.

Lemma winPercentage_some_wins (w l : nat) :
  (0 < w)%nat -> truthy (winPercentage w l) = true.
Proof.
  intros Hw. rewrite winPercentage_decided by lia. unfold truthy.
  apply negb_true_iff.
  destruct (Qc_eqb (Qc_of_nat w / Qc_of_nat (w + l) * Qc_of_Z 100) 0)
    eqn:E; [|reflexivity].
  exfalso. apply Qc_eqb_true in E.
  assert (Hx : Qc_of_nat (w + l) <> 0%Qc).
  { intros H0. assert (Hp := Qc_of_nat_pos (w + l)). rewrite H0 in Hp.
    revert Hp. intros Hp. apply (Qcle_not_lt 0 0 (Qcle_refl 0)). apply Hp. lia. }
  assert (Hwq : Qc_of_nat w <> 0%Qc).
  { intros H0. assert (Hp := Qc_of_nat_pos w Hw). rewrite H0 in Hp.
    exact (Qcle_not_lt 0 0 (Qcle_refl 0) Hp). }
  destruct (Qcmult_integral _ _ E) as [Hq|H100].
  - apply Hwq. rewrite <- (Qcmult_div_r (Qc_of_nat w) _ Hx), Hq. ring.
  - assert (Hne : Qc_eqb (Qc_of_Z 100) 0 = false) by reflexivity.
    rewrite H100 in Hne. discriminate Hne.
Qed.

(** The realized win rate of a summary: the configured rate whenever no
    trade was won (also when some were lost), the percentage of wins
    otherwise. *)
Lemma realized_winRate_cases (p : SimulationSettings)
  (dates : list DateInfo) (st : State) :
  s_winRate (summarize p dates st) =
  if Nat.eqb (totalWins (counts st)) 0 then Fin (winRate p)
  else winPercentage (totalWins (counts st)) (totalLosses (counts st)).
Proof.
  simpl. unfold or. destruct (totalWins (counts st)) as [|w] eqn:E.
  - now rewrite winPercentage_no_wins.
  - rewrite winPercentage_some_wins by lia. reflexivity.
Qed.

(** C1. The run of one trading day with one trade, a configured win
    rate of 50 and a draw of 9/10 decides one trade, a loss:
    [totalWins / (totalWins + totalLosses) * 100] is 0, and the summary
    reports a realized win rate of 50, the configured target, not 0. *)
Theorem winRate_all_losses_reports_target :
  uniformDraws drawNineTenths /\
  exists st s,
    simulate oneDayFiftyPercent drawNineTenths (tradingDays oneDayFiftyPercent)
      = Some st /\
    runSimulation oneDayFiftyPercent drawNineTenths = Some s /\
    totalWins (counts st) = 0%nat /\
    totalLosses (counts st) = 1%nat /\
    winPercentage (totalWins (counts st)) (totalLosses (counts st)) = of_Z 0 /\
    s_winRate s = Fin (winRate oneDayFiftyPercent) /\
    s_winRate s = of_Z 50 /\
    s_winRate s <> of_Z 0.
Proof.
  split; [apply drawNineTenths_uniform|].
  eexists. eexists. split; [vm_compute; reflexivity|].
  split; [vm_compute; reflexivity|].
  cbn [counts totalWins totalLosses s_winRate].
  split; [reflexivity|]. split; [reflexivity|].
  split; [apply Fin_canon; reflexivity|].
  split; [reflexivity|]. split; [reflexivity|].
  intros H. injection H as H. discriminate H.
Qed.

(* ===================================================================== *)
(** * Further properties of the calendar *)
(* ===================================================================== *)

Lemma map_seq_offset {A} (g : nat -> A) (a n : nat) :
  map g (seq a n) = map (fun i => g (a + i)%nat) (seq 0 n).
Proof.
  revert a. induction n as [|n IH]; intros a; simpl; [reflexivity|].
  rewrite Nat.add_0_r. apply (f_equal (cons (g a))).
  rewrite IH, <- seq_shift, map_map. apply map_ext. intros i.
  f_equal. lia.
Qed.

Lemma daysOfRange_split (s m e : Z) :
  s <= m + 1 -> m <= e ->
  daysOfRange s e = daysOfRange s m ++ daysOfRange (m + 1) e.
Proof.
  intros H1 H2. unfold daysOfRange.
  replace (Z.to_nat (e - s + 1))
    with (Z.to_nat (m - s + 1) + Z.to_nat (e - (m + 1) + 1))%nat by lia.
  rewrite seq_app, map_app. apply (f_equal (app _)).
  rewrite Nat.add_0_l, map_seq_offset. apply map_ext. intros i. lia.
Qed.

(** The day calendar of a range is that of its two pieces. *)
Lemma dayCalendar_split (s m e : Date) :
  s <= m + 1 -> m <= e ->
  generateDates s e = generateDates s m ++ generateDates (m + 1) e.
Proof.
  intros H1 H2. rewrite !generateDates_days.
  rewrite (daysOfRange_split s m e H1 H2), filter_app, map_app.
  reflexivity.
Qed.

(** *** Weekdays repeat with period seven *)

Lemma generateDates_length (s e : Z) :
  List.length (generateDates s e) = weekdayCount s e.
Proof. rewrite generateDates_days, length_map. reflexivity. Qed.

Lemma getDay_shift (x c : Z) : getDay (x + c) = (getDay x + c) mod 7.
Proof.
  unfold getDay. rewrite Zplus_mod_idemp_l. f_equal. lia.
Qed.

Lemma getDay_range (x : Z) : 0 <= getDay x < 7.
Proof. unfold getDay. apply Z.mod_pos_bound. lia. Qed.

Lemma filter_seq_offset (f : nat -> bool) (a n : nat) :
  List.length (filter f (seq a n))
  = List.length (filter (fun i => f (a + i)%nat) (seq 0 n)).
Proof.
  revert f a. induction n as [|n IH]; intros f a; simpl; [reflexivity|].
  rewrite Nat.add_0_r.
  assert (Htail : List.length (filter f (seq (S a) n))
                  = List.length (filter (fun i => f (a + i)%nat) (seq 1 n))).
  { rewrite (IH f (S a)), (IH (fun i => f (a + i)%nat) 1%nat). f_equal.
    apply filter_ext. intros i. f_equal. lia. }
  destruct (f a); simpl; now rewrite Htail.
Qed.

Lemma weekdayCount_from (s e : Z) :
  weekdayCount s e = weekdaysFrom (getDay s) (Z.to_nat (e - s + 1)).
Proof.
  unfold weekdayCount, weekdaysFrom, daysOfRange.
  generalize (seq 0 (Z.to_nat (e - s + 1))) as l.
  induction l as [|i l IH]; simpl; [reflexivity|].
  unfold isWeekday at 1. rewrite getDay_shift.
  destruct (negb ((getDay s + Z.of_nat i) mod 7 =? 0)
            && negb ((getDay s + Z.of_nat i) mod 7 =? 6)); simpl;
    now rewrite IH.
Qed.

(** Any seven consecutive days hold five weekdays. *)
Lemma weekdays_in_week (z : Z) :
  List.length
    (filter (fun i => negb (((z + Z.of_nat i) mod 7) =? 0)
                      && negb (((z + Z.of_nat i) mod 7) =? 6))
            (seq 0 7)) = 5%nat.
Proof.
  assert (Hs : forall c, (z + c) mod 7 = (z mod 7 + c) mod 7)
    by (intros c; now rewrite Zplus_mod_idemp_l).
  cbn [seq filter Z.of_nat]. rewrite !Hs.
  assert (Hr : 0 <= z mod 7 < 7) by (apply Z.mod_pos_bound; lia).
  generalize dependent (z mod 7). intros r _ Hr.
  assert (Hcases : r = 0 \/ r = 1 \/ r = 2 \/ r = 3 \/ r = 4 \/ r = 5 \/ r = 6)
    by lia.
  destruct Hcases as [->|[->|[->|[->|[->|[->| ->]]]]]]; reflexivity.
Qed.

Lemma weekdaysFrom_week (a : Z) (n : nat) :
  weekdaysFrom a (n + 7) = (weekdaysFrom a n + 5)%nat.
Proof.
  unfold weekdaysFrom. rewrite seq_app, filter_app, length_app.
  f_equal. rewrite Nat.add_0_l, filter_seq_offset.
  erewrite filter_ext; [apply (weekdays_in_week (a + Z.of_nat n))|].
  intros i. cbv beta. now rewrite Nat2Z.inj_add, Z.add_assoc.
Qed.

(** Seven more days are five more weekdays. *)
Lemma dayCalendar_week (s e : Date) :
  s <= e + 1 ->
  List.length (generateDates s (e + 7))
  = (List.length (generateDates s e) + 5)%nat.
Proof.
  intros H. rewrite !generateDates_length, !weekdayCount_from.
  replace (Z.to_nat (e + 7 - s + 1)) with (Z.to_nat (e - s + 1) + 7)%nat
    by lia.
  apply weekdaysFrom_week.
Qed.

Lemma weekdaysFrom_mono (a : Z) (n k : nat) :
  (weekdaysFrom a n <= weekdaysFrom a (n + k))%nat.
Proof.
  unfold weekdaysFrom. rewrite seq_app, filter_app, length_app. lia.
Qed.

Lemma weekdays_in_three (z : Z) : (1 <= weekdaysFrom z 3)%nat.
Proof.
  unfold weekdaysFrom.
  assert (Hs : forall c, (z + c) mod 7 = (z mod 7 + c) mod 7)
    by (intros c; now rewrite Zplus_mod_idemp_l).
  cbn [seq filter Z.of_nat]. rewrite !Hs.
  assert (Hr : 0 <= z mod 7 < 7) by (apply Z.mod_pos_bound; lia).
  generalize dependent (z mod 7). intros r _ Hr.
  assert (Hcases : r = 0 \/ r = 1 \/ r = 2 \/ r = 3 \/ r = 4 \/ r = 5 \/ r = 6)
    by lia.
  destruct Hcases as [->|[->|[->|[->|[->|[->| ->]]]]]]; simpl; lia.
Qed.

(** Three consecutive days hold a weekday. *)
Lemma dayCalendar_three_days (s e : Date) :
  s + 2 <= e -> (1 <= List.length (generateDates s e))%nat.
Proof.
  intros H. rewrite generateDates_length, weekdayCount_from.
  replace (Z.to_nat (e - s + 1)) with (3 + Z.to_nat (e - s - 2))%nat by lia.
  eapply Nat.le_trans; [apply (weekdays_in_three (getDay s))|].
  apply weekdaysFrom_mono.
Qed.

(** *** The estimates against the calendar *)

(** A count that grows by five a week stays within the bounds that hold
    over the first eight day differences. *)
Lemma weekly_bound (f : Z -> Z) (lo hi : Z) :
  (forall d, 1 <= d -> f (d + 7) = f d + 5) ->
  (forall a d, 0 <= a < 7 -> 0 <= d <= 7 ->
     Z.of_nat (weekdaysFrom a (Z.to_nat (d + 1))) + lo <= f d
     <= Z.of_nat (weekdaysFrom a (Z.to_nat (d + 1))) + hi) ->
  forall a d, 0 <= a < 7 -> 0 <= d ->
     Z.of_nat (weekdaysFrom a (Z.to_nat (d + 1))) + lo <= f d
     <= Z.of_nat (weekdaysFrom a (Z.to_nat (d + 1))) + hi.
Proof.
  intros Hstep Hbase a d Ha Hd.
  assert (Hall : forall n : nat, forall d', 0 <= d' < 7 * Z.of_nat n + 8 ->
            Z.of_nat (weekdaysFrom a (Z.to_nat (d' + 1))) + lo <= f d'
            <= Z.of_nat (weekdaysFrom a (Z.to_nat (d' + 1))) + hi).
  { induction n as [|n IH]; intros d' Hd'.
    - apply Hbase; lia.
    - destruct (Z_le_gt_dec d' 7) as [Hsmall|Hbig]; [apply Hbase; lia|].
      replace d' with ((d' - 7) + 7) by lia.
      rewrite Hstep by lia.
      replace (Z.to_nat (d' - 7 + 7 + 1))
        with (Z.to_nat (d' - 7 + 1) + 7)%nat by lia.
      rewrite weekdaysFrom_week.
      assert (Hprev := IH (d' - 7) ltac:(lia)). lia. }
  apply (Hall (Z.to_nat d)). lia.
Qed.

Lemma js_round_fifths (d : Z) :
  js_round (inject_Z d / inject_Z 7 * inject_Z 5)%Q = (10 * d + 7) / 14.
Proof.
  unfold js_round.
  assert (H : (inject_Z d / inject_Z 7 * inject_Z 5 + (1 # 2)
               == (10 * d + 7) # 14)%Q).
  { unfold Qeq, Qdiv, Qmult, Qplus, Qinv, inject_Z. cbn [Qnum Qden].
    change (Z.pos (1 * 7 * 1)) with 7. change (Z.pos (1 * 7 * 1 * 2)) with 14.
    lia. }
  rewrite H. reflexivity.
Qed.

Lemma estimate_base :
  forallb (fun a =>
    forallb (fun d =>
      let c := Z.of_nat (weekdaysFrom (Z.of_nat a) (S d)) in
      let f := Z.max 1 ((10 * Z.of_nat d + 7) / 14) in
      let g := Z.max 1 (Z.of_nat d - Z.of_nat d / 7 * 2) in
      (c - 2 <=? f) && (f <=? c + 1) && (c - 1 <=? g) && (g <=? c + 1))
      (seq 0 8)) (seq 0 7) = true.
Proof. vm_compute. reflexivity. Qed.

Lemma estimate_base_at (a d : Z) :
  0 <= a < 7 -> 0 <= d <= 7 ->
  let c := Z.of_nat (weekdaysFrom a (Z.to_nat (d + 1))) in
  (c - 2 <= Z.max 1 ((10 * d + 7) / 14) <= c + 1) /\
  (c - 1 <= Z.max 1 (d - d / 7 * 2) <= c + 1).
Proof.
  intros Ha Hd.
  pose proof estimate_base as H. rewrite forallb_forall in H.
  specialize (H (Z.to_nat a)). rewrite forallb_forall in H.
  specialize (H ltac:(apply in_seq; lia) (Z.to_nat d) ltac:(apply in_seq; lia)).
  cbv zeta in H. rewrite !Z2Nat.id in H by lia.
  replace (S (Z.to_nat d)) with (Z.to_nat (d + 1)) in H by lia.
  rewrite !andb_true_iff, !Z.leb_le in H. cbv zeta. lia.
Qed.

(** X4. The trading-day estimate the settings form displays is 0 for a
    range the form rejects; for a range it accepts the estimate is at
    least 1 and differs from the number of trading days the simulation
    really runs by at most two below and one above
    ([tradingDays] and [isValidDateRange] of the settings form,
    [trading-simulation-app.tsx] lines 118-148, against
    [generateDates]). *)
Theorem estimatedTradingDays_bounds (s e : Date) :
  (isValidDateRange s e = false -> estimatedTradingDays s e = 0) /\
  (isValidDateRange s e = true ->
   1 <= estimatedTradingDays s e /\
   Z.of_nat (List.length (generateDates s e)) - 2 <= estimatedTradingDays s e
   <= Z.of_nat (List.length (generateDates s e)) + 1).
Proof.
  unfold isValidDateRange, estimatedTradingDays. split; intros Hv.
  - apply Z.leb_gt in Hv. apply Z.ltb_lt in Hv. now rewrite Hv.
  - apply Z.leb_le in Hv.
    assert (Hlt : (e <? s) = false) by (apply Z.ltb_ge; lia).
    rewrite Hlt. cbv zeta. rewrite js_round_fifths.
    split; [lia|].
    rewrite generateDates_length, weekdayCount_from.
    pose proof (weekly_bound (fun d => Z.max 1 ((10 * d + 7) / 14)) (-2) 1)
      as Hb.
    cbv beta in Hb.
    assert (Hgoal := Hb
      ltac:(intros d Hd;
            replace (10 * (d + 7) + 7) with ((10 * d + 7) + 5 * 14) by lia;
            rewrite Z.div_add by lia;
            assert (1 <= (10 * d + 7) / 14)
              by (apply Z.div_le_lower_bound; lia);
            lia)
      ltac:(intros a d Ha Hd;
            destruct (estimate_base_at a d Ha Hd) as [H1 _];
            cbv zeta in H1; lia)
      (getDay s) (e - s) (getDay_range s) ltac:(lia)).
    lia.
Qed.

(** The ten days from 2025-01-01: eight trading days, estimate six. *)
Lemma estimatedTradingDays_bounds_witness :
  estimatedTradingDays jan_10_2025 jan_1_2025 = 0 /\
  1 <= estimatedTradingDays jan_1_2025 jan_10_2025.
Proof.
  split.
  - apply (estimatedTradingDays_bounds jan_10_2025 jan_1_2025). reflexivity.
  - apply (estimatedTradingDays_bounds jan_1_2025 jan_10_2025). reflexivity.
Defined.

(** The estimate of lines 56-59 against the day calendar. *)
Lemma dayCalendar_approx (s e : Date) :
  s <= e ->
  1 <= approxTradingDays s e /\
  Z.of_nat (List.length (generateDates s e)) - 1 <= approxTradingDays s e
  <= Z.of_nat (List.length (generateDates s e)) + 1.
Proof.
  intros Hv. unfold approxTradingDays. cbv zeta. split; [lia|].
  rewrite generateDates_length, weekdayCount_from.
  pose proof (weekly_bound (fun d => Z.max 1 (d - d / 7 * 2)) (-1) 1) as Hb.
  cbv beta in Hb.
  assert (Hgoal := Hb
    ltac:(intros d Hd; Z.div_mod_to_equations; lia)
    ltac:(intros a d Ha Hd;
          destruct (estimate_base_at a d Ha Hd) as [_ H2];
          cbv zeta in H2; lia)
    (getDay s) (e - s) (getDay_range s) ltac:(lia)).
  lia.
Qed.

(* ===================================================================== *)
(** * Further properties of the simulation *)
(* ===================================================================== *)

(** ** Streaks are the runs of the outcome sequence *)

Lemma rev_repeat {A} (x : A) (n : nat) : rev (repeat x n) = repeat x n.
Proof.
  induction n as [|n IH]; simpl; [reflexivity|].
  rewrite IH. clear IH. induction n as [|n IH]; simpl; [reflexivity|].
  now rewrite IH.
Qed.

Lemma leadingRun_repeat (b : bool) (n : nat) (l : list bool) :
  (n <= leadingRun b (repeat b n ++ l))%nat.
Proof.
  induction n as [|n IH]; simpl; [lia|].
  rewrite Bool.eqb_reflx. lia.
Qed.

Lemma leadingRun_split (b : bool) (l : list bool) :
  exists rest, l = repeat b (leadingRun b l) ++ rest.
Proof.
  induction l as [|x l [rest IH]]; simpl; [now exists []|].
  destruct (Bool.eqb x b) eqn:E.
  - apply Bool.eqb_prop in E. subst x. exists rest. simpl. now rewrite <- IH.
  - now exists (x :: l).
Qed.

Lemma trailingRun_snoc (b : bool) (l : list bool) (x : bool) :
  trailingRun b (l ++ [x])
  = if Bool.eqb x b then S (trailingRun b l) else 0%nat.
Proof. unfold trailingRun. now rewrite rev_unit. Qed.

Lemma hasRun_trailing (b : bool) (l : list bool) :
  hasRun b (trailingRun b l) l.
Proof.
  unfold trailingRun. destruct (leadingRun_split b (rev l)) as [rest H].
  exists (rev rest), []. rewrite app_nil_r, <- (rev_repeat b), <- rev_app_distr.
  rewrite <- H. now rewrite rev_involutive.
Qed.

Lemma hasRun_snoc (b : bool) (n : nat) (l : list bool) (x : bool) :
  hasRun b n (l ++ [x]) ->
  hasRun b n l \/ (n <= trailingRun b (l ++ [x]))%nat.
Proof.
  intros (l1 & l2 & H).
  destruct l2 as [|z l2].
  - right. unfold trailingRun. rewrite H, app_nil_r.
    rewrite rev_app_distr, rev_repeat. apply leadingRun_repeat.
  - destruct (@exists_last _ (z :: l2)) as (l2' & y & E); [discriminate|].
    left. rewrite E, !app_assoc in H. apply app_inj_tail in H.
    destruct H as [H _]. exists l1, l2'. now rewrite app_assoc.
Qed.

Lemma hasRun_extend (b : bool) (n : nat) (l : list bool) (x : bool) :
  hasRun b n l -> hasRun b n (l ++ [x]).
Proof.
  intros (l1 & l2 & ->). exists l1, (l2 ++ [x]). now rewrite <- !app_assoc.
Qed.

(** [longestRun] is the length of a run of the list, and no run is
    longer. *)
Lemma longestRun_spec (b : bool) (l : list bool) :
  hasRun b (longestRun b l) l /\
  forall n, hasRun b n l -> (n <= longestRun b l)%nat.
Proof.
  induction l as [|a l [IH1 IH2]].
  - split; [now exists [], []|].
    intros n (l1 & l2 & H). destruct l1; [|discriminate].
    destruct n; [simpl; lia|discriminate].
  - split.
    + cbn [longestRun].
      destruct (Nat.max_spec (leadingRun b (a :: l)) (longestRun b l))
        as [[_ ->]|[_ ->]].
      * destruct IH1 as (l1 & l2 & H). exists (a :: l1), l2.
        simpl. now rewrite <- H.
      * destruct (leadingRun_split b (a :: l)) as [rest H].
        now exists [], rest.
    + intros n (l1 & l2 & H). cbn [longestRun].
      destruct l1 as [|a' l1].
      * simpl in H. rewrite H.
        pose proof (leadingRun_repeat b n l2). lia.
      * injection H as _ H.
        assert (n <= longestRun b l)%nat by (apply IH2; now exists l1, l2).
        lia.
Qed.

Lemma longestRun_snoc (b : bool) (l : list bool) (x : bool) :
  longestRun b (l ++ [x])
  = Nat.max (longestRun b l) (trailingRun b (l ++ [x])).
Proof.
  destruct (longestRun_spec b (l ++ [x])) as [H1 H2].
  destruct (longestRun_spec b l) as [G1 G2].
  apply Nat.le_antisymm.
  - destruct (hasRun_snoc _ _ _ _ H1) as [H|H].
    + apply G2 in H. lia.
    + lia.
  - apply Nat.max_lub.
    + apply H2. now apply hasRun_extend.
    + apply H2. apply hasRun_trailing.
Qed.

Lemma outcomes_S p rng n :
  outcomes p rng (S n) = outcomes p rng n ++ [isWinAt p rng n].
Proof. unfold outcomes. now rewrite seq_S, map_app. Qed.

Section StreakRunFacts.

Variable p : SimulationSettings.
Variable rng : nat -> Qc.

Lemma runTrade_streaksFollow date ds ds' :
  streaksFollow p rng (snd ds) -> runTrade p rng date ds = Some ds' ->
  streaksFollow p rng (snd ds').
Proof.
  intros (Hc & Hw & Hl & Hmw & Hml). unfold runTrade.
  destruct (bucket_update (month date) _ _); [|discriminate].
  destruct (bucket_update (week date) _ _); [|discriminate].
  intros [= <-]. unfold streaksFollow. cbn [snd randomCalls counts streaks].
  rewrite outcomes_S, !longestRun_snoc, !trailingRun_snoc.
  destruct (isWinAt p rng (randomCalls (snd ds))); simpl;
    rewrite <- ?Hw, <- ?Hl, <- ?Hmw, <- ?Hml, ?Nat.max_0_r;
    (split; [congruence|]); repeat split;
    try (destruct (Nat.ltb_spec (maxWinStreak (streaks (snd ds)))
                                (S (currentWinStreak (streaks (snd ds))))); lia);
    try (destruct (Nat.ltb_spec (maxLossStreak (streaks (snd ds)))
                                (S (currentLossStreak (streaks (snd ds))))); lia).
Qed.

Lemma simulate_streaksFollow dates st :
  simulate p rng dates = Some st -> streaksFollow p rng st.
Proof.
  unfold simulate.
  refine (runDays_invariant p rng (streaksFollow p rng) dates _
            (initState p dates) st _).
  - intros date s s' _.
    apply (runDay_invariant p rng (streaksFollow p rng)
             (fun ds => streaksFollow p rng (snd ds))); auto.
    intros ds ds'. apply runTrade_streaksFollow.
  - repeat split.
Qed.

End StreakRunFacts.

(** X6. The longest win streak of the summary is the length of the
    longest run of consecutive winning draws among the trades of the run,
    and the longest loss streak that of the longest run of consecutive
    losing draws: a run of that length occurs and no longer one does;
    streaks run on across days (streak bookkeeping, lines 180-211, and
    the summary, lines 286-287). *)
Theorem maxStreaks_longest_runs (p : SimulationSettings) (rng : nat -> Qc) :
  exists s, runSimulation p rng = Some s /\
    s_maxWinStreak s = longestRun true (outcomes p rng (s_totalTrades s)) /\
    s_maxLossStreak s = longestRun false (outcomes p rng (s_totalTrades s)) /\
    hasRun true (s_maxWinStreak s) (outcomes p rng (s_totalTrades s)) /\
    hasRun false (s_maxLossStreak s) (outcomes p rng (s_totalTrades s)) /\
    (forall n, hasRun true n (outcomes p rng (s_totalTrades s)) ->
               (n <= s_maxWinStreak s)%nat) /\
    (forall n, hasRun false n (outcomes p rng (s_totalTrades s)) ->
               (n <= s_maxLossStreak s)%nat).
Proof.
  destruct (runSimulation_total p rng) as [st [Hsim Hrun]].
  exists (summarize p (tradingDays p) st). split; [assumption|].
  destruct (simulate_streaksFollow p rng _ _ Hsim) as (Hc & _ & _ & Hw & Hl).
  simpl. rewrite <- Hc, Hw, Hl.
  destruct (longestRun_spec true (outcomes p rng (randomCalls st))).
  destruct (longestRun_spec false (outcomes p rng (randomCalls st))).
  repeat split; assumption.
Qed.

(** The [twoWeeks] run starts with a win. *)
Lemma maxStreaks_longest_runs_witness :
  exists s, runSimulation twoWeeks drawOneInThree = Some s /\
            (1 <= s_maxWinStreak s)%nat.
Proof.
  destruct (maxStreaks_longest_runs twoWeeks drawOneInThree)
    as (s & Hrun & _ & _ & _ & _ & Hall & _).
  exists s. split; [exact Hrun|]. apply Hall.
  vm_compute in Hrun. injection Hrun as <-.
  exists [], (tl (outcomes twoWeeks drawOneInThree 32)).
  vm_compute. reflexivity.
Defined.

(** ** The number of trades *)

Lemma Qc_of_nat_mul (a b : nat) :
  Qc_of_nat (a * b) = (Qc_of_nat a * Qc_of_nat b)%Qc.
Proof.
  unfold Qc_of_nat, Qc_of_Z. apply Qc_is_canon.
  unfold Qcmult, Q2Qc; cbn [this].
  rewrite !Qred_correct, Nat2Z.inj_mul, inject_Z_mult. reflexivity.
Qed.

Lemma Qc_of_nat_add (a b : nat) :
  Qc_of_nat (a + b) = (Qc_of_nat a + Qc_of_nat b)%Qc.
Proof.
  unfold Qc_of_nat, Qc_of_Z. apply Qc_is_canon.
  unfold Qcplus, Q2Qc; cbn [this].
  rewrite !Qred_correct, Nat2Z.inj_add, inject_Z_plus. reflexivity.
Qed.

Lemma Qc_of_nat_nonzero (n : nat) : (0 < n)%nat -> Qc_of_nat n <> 0%Qc.
Proof.
  intros H E. apply Qc_of_nat_pos in H. rewrite E in H.
  exact (Qcle_not_lt 0 0 (Qcle_refl 0) H).
Qed.

Section CountFacts.

Variable p : SimulationSettings.
Variable rng : nat -> Qc.

Lemma runTrades_count n date : forall ds ds',
  runTrades p rng n date ds = Some ds' ->
  totalTrades (counts (snd ds')) = (totalTrades (counts (snd ds)) + n)%nat.
Proof.
  induction n as [|n IH]; simpl; intros ds ds' H.
  - injection H as <-. lia.
  - destruct (runTrade p rng date ds) as [ds1|] eqn:E; [|discriminate].
    rewrite (IH _ _ H). unfold runTrade in E.
    destruct (bucket_update (month date) _ _); [|discriminate].
    destruct (bucket_update (week date) _ _); [|discriminate].
    injection E as <-. simpl. lia.
Qed.

Lemma runDay_count date st st' :
  runDay p rng date st = Some st' ->
  totalTrades (counts st')
  = (totalTrades (counts st) + tradesPerDay p)%nat.
Proof.
  unfold runDay.
  destruct (runTrades p rng (tradesPerDay p) date (runningEquity st, st))
    as [ds|] eqn:E; [|discriminate].
  intros [= <-]. simpl. apply (runTrades_count _ _ _ _ E).
Qed.

Lemma runDays_count dates : forall st st',
  runDays p rng dates st = Some st' ->
  totalTrades (counts st')
  = (totalTrades (counts st) + tradesPerDay p * List.length dates)%nat.
Proof.
  induction dates as [|d dates IH]; simpl; intros st st' H.
  - injection H as <-. lia.
  - destruct (runDay p rng d st) as [st1|] eqn:E; [|discriminate].
    rewrite (IH _ _ H), (runDay_count _ _ _ E). lia.
Qed.

End CountFacts.

(** X7. Every run makes [tradesPerDay] trades on each trading day and
    one [Math.random] draw per trade: the total trade count of the
    summary is [tradesPerDay] times the number of trading days, and the
    reported average of trades per day is always the configured
    [tradesPerDay] (trade loop, lines 161-217; summary, lines 258 and
    282). *)
Theorem totalTrades_per_day (p : SimulationSettings) (rng : nat -> Qc) :
  exists st s,
    simulate p rng (tradingDays p) = Some st /\
    runSimulation p rng = Some s /\
    s_totalTrades s = (tradesPerDay p * List.length (tradingDays p))%nat /\
    randomCalls st = s_totalTrades s /\
    s_avgTradesPerDay s = of_nat (tradesPerDay p).
Proof.
  destruct (runSimulation_total p rng) as [st [Hsim Hrun]].
  exists st, (summarize p (tradingDays p) st).
  split; [assumption|]. split; [assumption|].
  pose proof (runDays_count p rng _ _ _ Hsim) as Hcount. simpl in Hcount.
  destruct (simulate_streaksFollow p rng _ _ Hsim) as (Hc & _).
  unfold summarize. cbn [s_totalTrades s_avgTradesPerDay].
  split; [exact Hcount|]. split; [exact Hc|].
  rewrite Hcount.
  destruct (List.length (tradingDays p)) as [|n] eqn:Hn.
  - rewrite Nat.mul_0_r. reflexivity.
  - unfold of_nat at 1 2.
    rewrite div_finite by (apply Qc_eqb_false_pos, Qc_of_nat_pos; lia).
    rewrite Qc_of_nat_mul, Qcdiv_mult_l by (apply Qc_of_nat_nonzero; lia).
    unfold or, of_nat. destruct (truthy (Fin (Qc_of_nat (tradesPerDay p))));
      reflexivity.
Qed.

(** ** Wins and losses of the buckets *)

Lemma bucket_update_mapSum (g : BucketStats -> nat) (delta : nat) k f m m' :
  (forall b, g (f b) = (g b + delta)%nat) ->
  bucket_update k f m = Some m' -> mapSum g m' = (mapSum g m + delta)%nat.
Proof.
  intros Hf. revert m'.
  induction m as [|[k' b] m IH]; simpl; intros m'; [discriminate|].
  destruct (String.eqb k' k).
  - intros [= <-]. simpl. rewrite Hf. lia.
  - destruct (bucket_update k f m) as [m''|]; [|discriminate].
    intros [= <-]. simpl. rewrite (IH m'') by reflexivity. lia.
Qed.

Lemma sumWins_report (m : BucketMap) :
  sumWins (map reportBucket (bucket_values m)) = mapSum wins m.
Proof.
  unfold bucket_values. induction m as [|e m IH]; simpl; [reflexivity|].
  now rewrite IH.
Qed.

Lemma sumLosses_report (m : BucketMap) :
  sumLosses (map reportBucket (bucket_values m)) = mapSum losses m.
Proof.
  unfold bucket_values. induction m as [|e m IH]; simpl; [reflexivity|].
  now rewrite IH.
Qed.

Section BucketCountFacts.

Variable p : SimulationSettings.
Variable rng : nat -> Qc.

Lemma runTrade_winsLossesAgree date ds ds' :
  winsLossesAgree (snd ds) -> runTrade p rng date ds = Some ds' ->
  winsLossesAgree (snd ds').
Proof.
  intros (Wm & Lm & Ww & Lw). unfold runTrade.
  set (w := isWinAt p rng (randomCalls (snd ds))).
  set (f := if w then bucket_win (rewardPerTrade p)
            else bucket_loss (Fin (riskPerTrade p))).
  assert (Hwins : forall b, wins (f b) = (wins b + (if w then 1 else 0))%nat)
    by (intros b; unfold f; destruct w; simpl; lia).
  assert (Hlosses : forall b,
             losses (f b) = (losses b + (if w then 0 else 1))%nat)
    by (intros b; unfold f; destruct w; simpl; lia).
  destruct (bucket_update (month date) f (monthlyStats (snd ds)))
    as [ms|] eqn:Em; [|discriminate].
  destruct (bucket_update (week date) f (weeklyStats (snd ds)))
    as [ws|] eqn:Ew; [|discriminate].
  intros [= <-]. unfold winsLossesAgree. simpl.
  rewrite (bucket_update_mapSum wins _ _ _ _ _ Hwins Em).
  rewrite (bucket_update_mapSum losses _ _ _ _ _ Hlosses Em).
  rewrite (bucket_update_mapSum wins _ _ _ _ _ Hwins Ew).
  rewrite (bucket_update_mapSum losses _ _ _ _ _ Hlosses Ew).
  destruct w; simpl; lia.
Qed.

Lemma freshMap_counts (m : BucketMap) :
  freshMap m -> mapSum wins m = 0%nat /\ mapSum losses m = 0%nat.
Proof.
  intros [_ H]. induction H as [|[k b] m Hb _ IH]; simpl.
  - now split.
  - simpl in Hb. subst b. destruct IH as (-> & ->). now split.
Qed.

Lemma simulate_winsLossesAgree dates st :
  simulate p rng dates = Some st -> winsLossesAgree st.
Proof.
  unfold simulate.
  refine (runDays_invariant p rng winsLossesAgree dates _
            (initState p dates) st _).
  - intros date s s' _.
    apply (runDay_invariant p rng winsLossesAgree
             (fun ds => winsLossesAgree (snd ds))); auto.
    intros ds ds'. apply runTrade_winsLossesAgree.
  - destruct (initState_fresh p dates) as [Fm Fw].
    destruct (freshMap_counts _ Fm) as (Wm & Lm).
    destruct (freshMap_counts _ Fw) as (Ww & Lw).
    unfold winsLossesAgree. rewrite Wm, Lm, Ww, Lw.
    repeat split.
Qed.

End BucketCountFacts.

(** X8. In every run the wins of the monthly buckets add up to the
    total of wins, as do the wins of the weekly buckets, and likewise
    for the losses: every trade is counted once in the bucket of its
    month and once in the bucket of its week (lines 173-176 and
    193-196). *)
Theorem bucket_win_loss_totals (p : SimulationSettings) (rng : nat -> Qc) :
  exists st s,
    simulate p rng (tradingDays p) = Some st /\
    runSimulation p rng = Some s /\
    sumWins (s_monthlyBreakdown s) = totalWins (counts st) /\
    sumLosses (s_monthlyBreakdown s) = totalLosses (counts st) /\
    sumWins (s_weeklyBreakdown s) = totalWins (counts st) /\
    sumLosses (s_weeklyBreakdown s) = totalLosses (counts st).
Proof.
  destruct (runSimulation_total p rng) as [st [Hsim Hrun]].
  exists st, (summarize p (tradingDays p) st).
  split; [assumption|]. split; [assumption|].
  destruct (simulate_winsLossesAgree p rng _ _ Hsim)
    as (Wm & Lm & Ww & Lw).
  simpl. rewrite !sumWins_report, !sumLosses_report.
  repeat split; assumption.
Qed.

(** ** Win rates are percentages *)

Lemma Qc_of_nat_le (a b : nat) :
  (a <= b)%nat -> (Qc_of_nat a <= Qc_of_nat b)%Qc.
Proof.
  intros H. unfold Qc_of_nat, Qc_of_Z, Qcle, Q2Qc; cbn [this].
  rewrite !Qred_correct. rewrite <- Zle_Qle. lia.
Qed.

Lemma Qc_div_mul_cancel (a b : Qc) : b <> 0%Qc -> (a / b * b)%Qc = a.
Proof. intros H. rewrite Qcmult_comm. now apply Qcmult_div_r. Qed.

Lemma winPercentage_percentage (w l : nat) :
  (0 < w + l)%nat -> isPercentage (winPercentage w l).
Proof.
  intros H. rewrite winPercentage_decided by assumption.
  eexists. split; [reflexivity|].
  assert (Hb : (0 < Qc_of_nat (w + l))%Qc) by now apply Qc_of_nat_pos.
  assert (Hnz : Qc_of_nat (w + l) <> 0%Qc) by now apply Qc_of_nat_nonzero.
  assert (Ha : (0 <= Qc_of_nat w)%Qc)
    by (rewrite <- Qc_of_nat_0; apply Qc_of_nat_le; lia).
  assert (Hab : (Qc_of_nat w <= Qc_of_nat (w + l))%Qc)
    by (apply Qc_of_nat_le; lia).
  assert (H0 : (0 <= Qc_of_nat w / Qc_of_nat (w + l))%Qc).
  { apply (Qcmult_lt_0_le_reg_r _ _ _ Hb).
    now rewrite Qcmult_0_l, Qc_div_mul_cancel. }
  assert (H1 : (Qc_of_nat w / Qc_of_nat (w + l) <= 1)%Qc).
  { apply (Qcmult_lt_0_le_reg_r _ _ _ Hb).
    now rewrite Qcmult_1_l, Qc_div_mul_cancel. }
  assert (H100 : (0 <= Qc_of_Z 100)%Qc) by discriminate.
  split.
  - rewrite <- (Qcmult_0_l (Qc_of_Z 100)). now apply Qcmult_le_compat_r.
  - rewrite <- (Qcmult_1_l (Qc_of_Z 100)) at 2. now apply Qcmult_le_compat_r.
Qed.

Lemma or_percentage (w l : nat) (y : num) :
  isPercentage y -> isPercentage (or (winPercentage w l) y).
Proof.
  intros Hy. destruct (Nat.eq_dec (w + l) 0) as [Hz|Hnz].
  - assert (w = 0%nat) by lia. assert (l = 0%nat) by lia. subst.
    exact Hy.
  - unfold or. destruct (truthy (winPercentage w l)); [|exact Hy].
    apply winPercentage_percentage. lia.
Qed.

(** X9. With a configured win rate from 0 to 100, the realized win rate
    of the summary and the win rate of every monthly and weekly bucket
    are finite numbers from 0 to 100 (summary, line 254; breakdowns,
    lines 261-276). *)
Theorem winRates_are_percentages (p : SimulationSettings) (rng : nat -> Qc) :
  (0 <= winRate p)%Qc -> (winRate p <= Qc_of_Z 100)%Qc ->
  exists s, runSimulation p rng = Some s /\
    isPercentage (s_winRate s) /\
    Forall (fun r => isPercentage (bucketWinRate (stats r)))
           (s_monthlyBreakdown s ++ s_weeklyBreakdown s).
Proof.
  intros Hlo Hhi.
  destruct (runSimulation_total p rng) as [st [Hsim Hrun]].
  exists (summarize p (tradingDays p) st). split; [assumption|].
  split.
  - simpl. apply or_percentage. exists (winRate p). auto.
  - apply Forall_forall. intros r _. unfold bucketWinRate.
    apply or_percentage. exists (Qc_of_Z 0).
    repeat split; discriminate.
Qed.

(** The [twoWeeks] run: configured rate 55. *)
Lemma winRates_are_percentages_witness :
  exists s, runSimulation twoWeeks drawOneInThree = Some s /\
            isPercentage (s_winRate s).
Proof.
  assert (Hlo : (0 <= winRate twoWeeks)%Qc) by discriminate.
  assert (Hhi : (winRate twoWeeks <= Qc_of_Z 100)%Qc) by discriminate.
  destruct (winRates_are_percentages twoWeeks drawOneInThree Hlo Hhi)
    as (s & Hrun & Hpct & _).
  exists s. split; assumption.
Defined.

(** ** The maximum drawdown is the largest drawdown of the curve *)







Section DrawdownMaxFacts.

Variable p : SimulationSettings.
Variable rng : nat -> Qc.






End DrawdownMaxFacts.



(** ** Order of the buckets *)

Lemma filter_filter {A} (f g : A -> bool) (l : list A) :
  filter f (filter g l) = filter (fun x => g x && f x) l.
Proof.
  induction l as [|x l IH]; simpl; [reflexivity|].
  destruct (g x); simpl; [destruct (f x)|]; now rewrite IH.
Qed.

Lemma isNewKey_lookup (m : BucketMap) (k : string) :
  isNewKey m k = match bucket_lookup k m with Some _ => false | None => true end.
Proof.
  unfold isNewKey, keysOf. induction m as [|[k' b] m IH]; simpl; [reflexivity|].
  rewrite (String.eqb_sym k k'). destruct (String.eqb k' k); simpl; auto.
Qed.

Lemma registerKeys_order (ks : list string) : forall m,
  keysOf (registerKeys ks m)
  = keysOf m ++ filter (isNewKey m) (firstOccurrences ks).
Proof.
  induction ks as [|k ks IH]; intros m; simpl.
  - now rewrite app_nil_r.
  - rewrite IH. unfold bucket_register. rewrite (isNewKey_lookup m k).
    destruct (bucket_lookup k m) eqn:E.
    + f_equal. rewrite filter_filter. apply filter_ext_in. intros x _.
      destruct (String.eqb_spec x k) as [->|Hne]; simpl; [|reflexivity].
      now rewrite isNewKey_lookup, E.
    + unfold keysOf at 1. rewrite map_app. simpl. rewrite <- app_assoc.
      simpl. do 2 f_equal. rewrite filter_filter. apply filter_ext.
      intros x. unfold isNewKey, keysOf. rewrite map_app, existsb_app.
      simpl. rewrite orb_false_r, negb_orb, andb_comm. reflexivity.
Qed.

Lemma filter_true {A} (l : list A) : filter (fun _ => true) l = l.
Proof. induction l as [|x l IH]; simpl; [reflexivity|now rewrite IH]. Qed.

Lemma initState_key_order (p : SimulationSettings) (dates : list DateInfo) :
  keysOf (monthlyStats (initState p dates))
    = firstOccurrences (map month dates) /\
  keysOf (weeklyStats (initState p dates))
    = firstOccurrences (map week dates).
Proof.
  simpl. rewrite registerBuckets_keys. simpl.
  rewrite !registerKeys_order. simpl. unfold isNewKey. simpl.
  now rewrite !filter_true.
Qed.

Lemma report_keys (proj : DateInfo -> string) (tpd : nat)
  (dates : list DateInfo) (m : BucketMap) :
  tracksDays proj tpd dates m ->
  map (fun r => key (stats r)) (map reportBucket (bucket_values m)) = keysOf m.
Proof.
  unfold tracksDays, bucket_values, keysOf. rewrite !map_map.
  intros H. apply map_ext_in. intros e He.
  rewrite Forall_forall in H. simpl. now apply H.
Qed.

(** X11. The monthly and the weekly breakdown list one bucket per
    distinct month key (week key) of the trading days, in the order in
    which the keys first occur in the calendar, each under its own key
    (bucket registration, lines 127-149; [Object.values], lines 261 and
    270). *)
Theorem breakdown_order (p : SimulationSettings) (rng : nat -> Qc) :
  exists s, runSimulation p rng = Some s /\
    map (fun r => key (stats r)) (s_monthlyBreakdown s)
      = firstOccurrences (map month (tradingDays p)) /\
    map (fun r => key (stats r)) (s_weeklyBreakdown s)
      = firstOccurrences (map week (tradingDays p)) /\
    NoDup (map (fun r => key (stats r)) (s_monthlyBreakdown s)) /\
    NoDup (map (fun r => key (stats r)) (s_weeklyBreakdown s)).
Proof.
  destruct (runSimulation_total p rng) as [st [Hsim Hrun]].
  exists (summarize p (tradingDays p) st). split; [assumption|].
  destruct (simulate_tracks p rng _ _ Hsim) as (Nm & Nw & Tm & Tw).
  destruct (runDays_keys p rng _ _ _ Hsim) as [Km Kw].
  destruct (initState_key_order p (tradingDays p)) as [Om Ow].
  simpl. rewrite (report_keys _ _ _ _ Tm), (report_keys _ _ _ _ Tw).
  repeat split; try assumption; congruence.
Qed.

(** ** Periods of the longest streaks *)

Lemma labelledBy_later dates b b' d s :
  b <= b' -> labelledBy dates b d s -> labelledBy dates b' d s.
Proof. intros Hb (Hin & Hle & Hs). repeat split; auto. lia. Qed.

Lemma streakPeriodOK_later dates b b' cur best start bs be :
  b <= b' ->
  streakPeriodOK dates b cur best start bs be ->
  streakPeriodOK dates b' cur best start bs be.
Proof.
  intros Hb [Hcur Hbest]. split.
  - destruct Hcur as [Hz|[d Hd]]; [now left|right].
    exists d. eapply labelledBy_later; eauto.
  - destruct Hbest as [Hz|(Hpos & d1 & d2 & H1 & H2 & Hle)]; [now left|right].
    split; [assumption|]. exists d1, d2.
    split; [eapply labelledBy_later; eauto|].
    split; [eapply labelledBy_later; eauto|assumption].
Qed.

(** A streak that the trade of day [d] extends. *)
Lemma streakPeriodOK_extend dates (d : DateInfo) cur best start bs be :
  In d dates ->
  streakPeriodOK dates (dateObj d) cur best start bs be ->
  let start' := if Nat.eqb cur 0 then Some (fullDate d) else start in
  let isMax := Nat.ltb best (S cur) in
  streakPeriodOK dates (dateObj d) (S cur)
    (if isMax then S cur else best) start'
    (if isMax then start' else bs)
    (if isMax then Some (fullDate d) else be).
Proof.
  intros Hin [Hcur Hbest]. cbv zeta.
  assert (Hd : labelledBy dates (dateObj d) d (Some (fullDate d)))
    by (repeat split; [assumption|lia]).
  assert (Hstart : exists d0,
             labelledBy dates (dateObj d) d0
               (if Nat.eqb cur 0 then Some (fullDate d) else start)).
  { destruct cur as [|cur]; simpl; [eauto|].
    destruct Hcur as [Hz|Hex]; [discriminate|exact Hex]. }
  split; [right; exact Hstart|].
  destruct (Nat.ltb_spec best (S cur)) as [Hlt|Hge].
  - right. split; [lia|]. destruct Hstart as [d0 Hd0].
    exists d0, d. split; [exact Hd0|]. split; [exact Hd|].
    destruct Hd0 as (_ & Hle & _). exact Hle.
  - destruct Hbest as [(Hz & _)|Hpos]; [lia|]. right. exact Hpos.
Qed.

(** A streak that the trade resets. *)
Lemma streakPeriodOK_reset dates b cur best start bs be :
  streakPeriodOK dates b cur best start bs be ->
  streakPeriodOK dates b 0 best start bs be.
Proof. intros [_ Hbest]. split; [now left|assumption]. Qed.

Lemma sorted_by_dateObj (l : list DateInfo) :
  StronglySorted Z.lt (map dateObj l) ->
  StronglySorted (fun x y => dateObj x < dateObj y) l.
Proof.
  induction l as [|a l IH]; simpl; intros H; [constructor|].
  inversion H as [|? ? Hs Hall]; subst. constructor; [now apply IH|].
  rewrite Forall_forall in *. intros x Hx. apply Hall. now apply in_map.
Qed.

Lemma generateDates_sorted (s e : Z) :
  StronglySorted (fun x y => dateObj x < dateObj y) (generateDates s e).
Proof.
  apply sorted_by_dateObj. rewrite generateDates_days, map_map.
  rewrite (map_ext _ (fun x => x)) by apply dateObj_dateInfo_of.
  rewrite map_id. apply StronglySorted_filter, daysOfRange_sorted.
Qed.

Section PeriodFacts.

Variable p : SimulationSettings.
Variable rng : nat -> Qc.
Variable dates : list DateInfo.

Lemma runTrade_periodsOK date ds ds' :
  In date dates ->
  periodsOK dates (dateObj date) (streaks (snd ds)) ->
  runTrade p rng date ds = Some ds' ->
  periodsOK dates (dateObj date) (streaks (snd ds')).
Proof.
  intros Hin [Hw Hl]. unfold runTrade.
  destruct (bucket_update (month date) _ _); [|discriminate].
  destruct (bucket_update (week date) _ _); [|discriminate].
  intros [= <-]. cbn [snd streaks].
  destruct (isWinAt p rng (randomCalls (snd ds))); split;
    cbn [streak_win streak_loss currentWinStreak maxWinStreak winStreakStart
         maxWinStreakStart maxWinStreakEnd currentLossStreak maxLossStreak
         lossStreakStart maxLossStreakStart maxLossStreakEnd].
  - now apply (streakPeriodOK_extend dates date).
  - eapply streakPeriodOK_reset; eassumption.
  - eapply streakPeriodOK_reset; eassumption.
  - now apply (streakPeriodOK_extend dates date).
Qed.

Lemma runDay_periodsOK date st st' (b : Z) :
  In date dates -> b <= dateObj date ->
  periodsOK dates b (streaks st) ->
  runDay p rng date st = Some st' ->
  periodsOK dates (dateObj date) (streaks st').
Proof.
  intros Hin Hb [Hw Hl].
  apply (runDay_invariant p rng
           (fun s => periodsOK dates (dateObj date) (streaks s))
           (fun ds => periodsOK dates (dateObj date) (streaks (snd ds)))).
  - auto.
  - intros ds ds'. now apply runTrade_periodsOK.
  - auto.
  - split; eapply streakPeriodOK_later; eauto.
Qed.

Lemma runDays_periodsOK rest : forall (b : Z) st st',
  incl rest dates ->
  StronglySorted (fun x y => dateObj x < dateObj y) rest ->
  Forall (fun d => b <= dateObj d) rest ->
  periodsOK dates b (streaks st) ->
  runDays p rng rest st = Some st' ->
  exists b', periodsOK dates b' (streaks st').
Proof.
  induction rest as [|d rest IH]; simpl; intros b st st' Hincl Hs Hb Hinv Hrun.
  - injection Hrun as <-. eauto.
  - destruct (runDay p rng d st) as [st1|] eqn:E; [|discriminate].
    inversion Hs as [|? ? Hs' Hall]; subst.
    inversion Hb as [|? ? Hbd _]; subst.
    apply (IH (dateObj d) st1 st'); auto.
    + intros x Hx. apply Hincl. now right.
    + revert Hall. apply Forall_impl. intros x Hx. lia.
    + eapply runDay_periodsOK; eauto. apply Hincl. now left.
Qed.

End PeriodFacts.

Lemma period_of_labels (dates : list DateInfo) (b : Z) (best : nat)
  (bs be : option string) :
  Forall (fun d => String.eqb (fullDate d) EmptyString = false) dates ->
  (best = 0%nat /\ bs = None /\ be = None) \/
  ((0 < best)%nat /\
   exists d1 d2, labelledBy dates b d1 bs /\ labelledBy dates b d2 be /\
                 dateObj d1 <= dateObj d2) ->
  periodOfDays dates best (period bs be).
Proof.
  intros Hne [(-> & -> & ->)|(Hpos & d1 & d2 & H1 & H2 & Hle)].
  - left. split; reflexivity.
  - right. split; [assumption|]. exists d1, d2.
    destruct H1 as (I1 & _ & ->). destruct H2 as (I2 & _ & ->).
    rewrite Forall_forall in Hne.
    repeat split; try assumption.
    unfold period, opt_or, str_or. now rewrite (Hne _ I1), (Hne _ I2).
Qed.

Lemma tradingDays_labels (p : SimulationSettings) :
  Forall (fun d => String.eqb (fullDate d) EmptyString = false)
         (tradingDays p).
Proof.
  pose proof (generateDates_entries (startDate p) (endDate p)) as H.
  unfold tradingDays. revert H. apply Forall_impl.
  intros d ->. apply fullDate_nonempty.
Qed.

(** X13. The period shown for the longest win streak is "N/A to N/A"
    when the longest win streak is 0, and otherwise runs from the label
    of one trading day of the run to the label of the same or a later
    trading day; likewise for the longest loss streak (streak labels,
    lines 110-115, 181-190 and 201-210; period strings, lines 290-291). *)
Theorem streak_periods (p : SimulationSettings) (rng : nat -> Qc) :
  exists s, runSimulation p rng = Some s /\
    periodOfDays (tradingDays p) (s_maxWinStreak s) (s_maxWinStreakPeriod s) /\
    periodOfDays (tradingDays p) (s_maxLossStreak s) (s_maxLossStreakPeriod s).
Proof.
  destruct (runSimulation_total p rng) as [st [Hsim Hrun]].
  exists (summarize p (tradingDays p) st). split; [assumption|].
  unfold simulate in Hsim.
  assert (Hinit : periodsOK (tradingDays p) (startDate p)
                    (streaks (initState p (tradingDays p)))).
  { split; (split; [now left|left; repeat split]). }
  assert (Hbound : Forall (fun d => startDate p <= dateObj d) (tradingDays p)).
  { unfold tradingDays. rewrite generateDates_days.
    apply Forall_forall. intros d Hd. apply in_map_iff in Hd.
    destruct Hd as [x [<- Hx]]. apply filter_In in Hx. destruct Hx as [Hx _].
    unfold daysOfRange in Hx. apply in_map_iff in Hx.
    destruct Hx as [i [<- _]]. simpl. lia. }
  destruct (runDays_periodsOK p rng (tradingDays p) (tradingDays p)
              (startDate p) _ _ (incl_refl _)
              (generateDates_sorted _ _) Hbound Hinit Hsim)
    as [b [[_ Hw] [_ Hl]]].
  simpl. split; eapply period_of_labels; eauto using tradingDays_labels.
Qed.

(** ** Period of the maximum drawdown *)

Lemma gt_above_zero (x m : num) :
  le (of_Z 0) m = true -> gt x m = true -> gt x (of_Z 0) = true.
Proof.
  unfold gt, of_Z. destruct x, m; simpl; try congruence.
  rewrite negb_true_iff. intros H1 H2.
  destruct (Qc_ltb (Qc_of_Z 0) q) eqn:E; [reflexivity|].
  apply Qc_ltb_true in H2.
  destruct (Qclt_le_dec (Qc_of_Z 0) q) as [L|L].
  - apply Qc_ltb_true in L. congruence.
  - destruct (Qclt_le_dec q0 (Qc_of_Z 0)) as [L'|L'].
    + apply Qc_ltb_true in L'. congruence.
    + exfalso. apply (Qclt_not_le _ _ H2). eapply Qcle_trans; eauto.
Qed.

Lemma updateDrawdown_periodOK dates (date : DateInfo) (e : num) (d : Drawdown) :
  In date dates ->
  String.eqb (fullDate date) EmptyString = false ->
  Forall (fun x => String.eqb (fullDate x) EmptyString = false) dates ->
  drawdownPeriodOK dates (dateObj date) d ->
  drawdownPeriodOK dates (dateObj date) (updateDrawdown (fullDate date) e d).
Proof.
  intros Hin Hne Hall (H0 & Hstart & Hmax).
  assert (Hd : labelledBy dates (dateObj date) date (Some (fullDate date)))
    by (repeat split; [assumption|lia]).
  unfold updateDrawdown.
  destruct (gt e (peakEquity d)).
  - split; [exact H0|]. split; [now left|exact Hmax].
  - destruct (gt (drawdownPercentage (peakEquity d) e) (currentDrawdown d));
      [|split; [exact H0|split; assumption]].
    assert (Hstart' : exists d0,
               labelledBy dates (dateObj date) d0
                 (if str_truthy (drawdownStart d) then drawdownStart d
                  else Some (fullDate date))).
    { destruct Hstart as [->|[d0 Hd0]]; [simpl; eauto|].
      destruct Hd0 as (I0 & L0 & E0). rewrite E0. simpl.
      rewrite Forall_forall in Hall. rewrite (Hall _ I0). simpl.
      exists d0. repeat split; assumption. }
    cbn [maxDrawdown drawdownStart maxDrawdownStart maxDrawdownEnd].
    destruct (gt (drawdownPercentage (peakEquity d) e) (maxDrawdown d))
      eqn:Emax.
    + split; [eapply le_trans; [exact H0|now apply gt_le]|].
      split; [right; exact Hstart'|]. right.
      split; [eapply gt_above_zero; eauto|].
      destruct Hstart' as [d0 Hd0]. exists d0, date.
      split; [exact Hd0|]. split; [exact Hd|].
      destruct Hd0 as (_ & Hle & _). exact Hle.
    + split; [exact H0|]. split; [right; exact Hstart'|exact Hmax].
Qed.

Lemma drawdownPeriodOK_later dates b b' d :
  b <= b' -> drawdownPeriodOK dates b d -> drawdownPeriodOK dates b' d.
Proof.
  intros Hb (H0 & Hstart & Hmax). split; [exact H0|]. split.
  - destruct Hstart as [Hn|[d0 Hd0]]; [now left|right].
    exists d0. eapply labelledBy_later; eauto.
  - destruct Hmax as [Hz|(Hpos & d1 & d2 & H1 & H2 & Hle)]; [now left|right].
    split; [assumption|]. exists d1, d2.
    split; [eapply labelledBy_later; eauto|].
    split; [eapply labelledBy_later; eauto|assumption].
Qed.

Section DrawdownPeriodFacts.

Variable p : SimulationSettings.
Variable rng : nat -> Qc.
Variable dates : list DateInfo.
Hypothesis labels_nonempty :
  Forall (fun x => String.eqb (fullDate x) EmptyString = false) dates.

Lemma runDays_drawdownPeriodOK rest : forall (b : Z) st st',
  incl rest dates ->
  StronglySorted (fun x y => dateObj x < dateObj y) rest ->
  Forall (fun d => b <= dateObj d) rest ->
  drawdownPeriodOK dates b (drawdown st) ->
  runDays p rng rest st = Some st' ->
  exists b', drawdownPeriodOK dates b' (drawdown st').
Proof.
  induction rest as [|d rest IH]; simpl; intros b st st' Hincl Hs Hb Hinv Hrun.
  - injection Hrun as <-. eauto.
  - destruct (runDay p rng d st) as [st1|] eqn:E; [|discriminate].
    inversion Hs as [|? ? Hs' Hall]; subst.
    inversion Hb as [|? ? Hbd _]; subst.
    assert (Hd : In d dates) by (apply Hincl; now left).
    apply (IH (dateObj d) st1 st'); auto.
    + intros x Hx. apply Hincl. now right.
    + revert Hall. apply Forall_impl. intros x Hx. lia.
    + rewrite (runDay_drawdown p rng _ _ _ E).
      apply updateDrawdown_periodOK; auto.
      * rewrite Forall_forall in labels_nonempty. now apply labels_nonempty.
      * eapply drawdownPeriodOK_later; eauto.
Qed.

End DrawdownPeriodFacts.

(** X14. The period shown for the maximum drawdown is "N/A to N/A" when
    the maximum drawdown is 0, and otherwise (the maximum is above 0)
    runs from the label of one trading day of the run to the label of
    the same or a later trading day (drawdown labels, lines 121-124 and
    228-239; period string, line 289). *)
Theorem drawdown_period (p : SimulationSettings) (rng : nat -> Qc) :
  exists s, runSimulation p rng = Some s /\
    drawdownPeriodOfDays (tradingDays p) (s_maxDrawdown s)
      (s_maxDrawdownPeriod s).
Proof.
  destruct (runSimulation_total p rng) as [st [Hsim Hrun]].
  exists (summarize p (tradingDays p) st). split; [assumption|].
  unfold simulate in Hsim.
  assert (Hinit : drawdownPeriodOK (tradingDays p) (startDate p)
                    (drawdown (initState p (tradingDays p)))).
  { split; [reflexivity|]. split; [now left|]. left. repeat split. }
  assert (Hbound : Forall (fun d => startDate p <= dateObj d) (tradingDays p)).
  { unfold tradingDays. rewrite generateDates_days.
    apply Forall_forall. intros d Hd. apply in_map_iff in Hd.
    destruct Hd as [x [<- Hx]]. apply filter_In in Hx. destruct Hx as [Hx _].
    unfold daysOfRange in Hx. apply in_map_iff in Hx.
    destruct Hx as [i [<- _]]. simpl. lia. }
  destruct (runDays_drawdownPeriodOK p rng (tradingDays p)
              (tradingDays_labels p) (tradingDays p)
              (startDate p) _ _ (incl_refl _)
              (generateDates_sorted _ _) Hbound Hinit Hsim)
    as [b (_ & _ & Hmax)].
  simpl. destruct Hmax as [(-> & -> & ->)|(Hpos & d1 & d2 & H1 & H2 & Hle)].
  - left. split; reflexivity.
  - right. split; [assumption|]. exists d1, d2.
    destruct H1 as (I1 & _ & ->). destruct H2 as (I2 & _ & ->).
    pose proof (tradingDays_labels p) as Hne. rewrite Forall_forall in Hne.
    repeat split; try assumption.
    unfold period, opt_or, str_or. now rewrite (Hne _ I1), (Hne _ I2).
Qed.

(* ===================================================================== *)
(** * Properties of the settings form and the application shell *)
(* ===================================================================== *)

Lemma filterFrom_skip {A} (l : list A) : forall (i j : nat),
  (i < j)%nat ->
  filterFrom (fun _ index => negb (Nat.eqb index i)) j l = l.
Proof.
  induction l as [|x l IH]; intros i j H; simpl; [reflexivity|].
  destruct (Nat.eqb_spec j i) as [->|_]; [lia|]. simpl.
  now rewrite IH by lia.
Qed.

Lemma filterFrom_cut {A} (l : list A) : forall (i j : nat),
  (j <= i)%nat ->
  filterFrom (fun _ index => negb (Nat.eqb index i)) j l
  = firstn (i - j) l ++ skipn (S (i - j)) l.
Proof.
  induction l as [|x l IH]; intros i j H; simpl.
  - now rewrite firstn_nil.
  - destruct (Nat.eqb_spec j i) as [->|Hne]; simpl.
    + rewrite Nat.sub_diag. simpl. apply filterFrom_skip. lia.
    + rewrite IH by lia.
      replace (i - j)%nat with (S (i - S j)) by lia. reflexivity.
Qed.

Lemma deleteConfig_cut (Settings : Type)
  (stringify : list (SavedConfig Settings) -> string) (i : nat)
  (st : FormState Settings) :
  savedConfigs (handleDeleteConfig Settings stringify i st)
    = firstn i (savedConfigs st) ++ skipn (S i) (savedConfigs st) /\
  confirmDeleteIndex (handleDeleteConfig Settings stringify i st) = None.
Proof.
  unfold handleDeleteConfig, filterIndexed.
  cbn [savedConfigs confirmDeleteIndex]. split; [|reflexivity].
  rewrite filterFrom_cut by lia. now rewrite Nat.sub_0_r.
Qed.

Section FormFacts.

Variable Settings : Type.
Variable trim : string -> string.
Variable stringify : list (SavedConfig Settings) -> string.

(** X15. Deleting a saved configuration removes the entry at the given
    index and nothing else: the entries before it and after it stay, in
    order; an index at or beyond the end of the list removes nothing.
    The stored item becomes the serialisation of the new list and the
    pending confirmation is cleared ([handleDeleteConfig], lines
    201-206). *)
Theorem handleDeleteConfig_removes_index (i k : nat)
  (st : FormState Settings) :
  savedConfigs (handleDeleteConfig Settings stringify i st)
    = firstn i (savedConfigs st) ++ skipn (S i) (savedConfigs st) /\
  savedConfigs
    (handleDeleteConfig Settings stringify
       (List.length (savedConfigs st) + k) st)
    = savedConfigs st /\
  storedConfigs (handleDeleteConfig Settings stringify i st)
    = Some (stringify
              (firstn i (savedConfigs st) ++ skipn (S i) (savedConfigs st))) /\
  confirmDeleteIndex (handleDeleteConfig Settings stringify i st) = None /\
  form_settings (handleDeleteConfig Settings stringify i st)
    = form_settings st.
Proof.
  assert (Hcut : forall n,
    filterIndexed (fun (_ : SavedConfig Settings) index =>
                     negb (Nat.eqb index n)) (savedConfigs st)
    = firstn n (savedConfigs st) ++ skipn (S n) (savedConfigs st)).
  { intros n. unfold filterIndexed. rewrite filterFrom_cut by lia.
    now rewrite Nat.sub_0_r. }
  unfold handleDeleteConfig. cbn [savedConfigs storedConfigs
    confirmDeleteIndex form_settings].
  split; [apply Hcut|]. split.
  - rewrite Hcut, firstn_all2 by lia. rewrite skipn_all2 by lia.
    apply app_nil_r.
  - rewrite Hcut. repeat split.
Qed.

(** X16. Saving under a name that is not blank appends one
    configuration holding the current settings; deleting the entry just
    appended gives back the previous list, and loading it gives back the
    settings that were saved, whatever the form holds by then. With a
    blank name, saving changes nothing ([handleSaveSettings], lines
    173-191; [handleLoadSettings], lines 194-198; [handleDeleteConfig],
    lines 201-206). *)
Theorem handleSaveSettings_round_trip (today : string)
  (st : FormState Settings) :
  (trim (configName st) = EmptyString ->
   handleSaveSettings Settings trim stringify today st = st) /\
  (trim (configName st) <> EmptyString ->
   let st1 := handleSaveSettings Settings trim stringify today st in
   let saved := {| cfg_name := configName st;
                   cfg_settings := form_settings st;
                   cfg_date := today |} in
   savedConfigs st1 = savedConfigs st ++ [saved] /\
   nth_error (savedConfigs st1) (List.length (savedConfigs st)) = Some saved /\
   savedConfigs
     (handleDeleteConfig Settings stringify
        (List.length (savedConfigs st)) st1) = savedConfigs st /\
   (forall st2 : FormState Settings,
      form_settings (handleLoadSettings Settings saved st2)
      = form_settings st) /\
   showSaveModal st1 = false /\ configName st1 = EmptyString).
Proof.
  unfold handleSaveSettings. split; intros H.
  - now rewrite H, String.eqb_refl.
  - apply String.eqb_neq in H. rewrite H. cbv zeta.
    cbn [savedConfigs showSaveModal configName].
    split; [reflexivity|]. split.
    { rewrite nth_error_app2 by lia. now rewrite Nat.sub_diag. }
    split; [|repeat split].
    unfold handleDeleteConfig, filterIndexed. cbn [savedConfigs].
    rewrite filterFrom_cut by lia. rewrite Nat.sub_0_r.
    rewrite firstn_app, Nat.sub_diag, firstn_all. cbn [firstn].
    rewrite app_nil_r.
    rewrite skipn_all2; [|rewrite length_app; simpl; lia].
    apply app_nil_r.
Qed.

End FormFacts.

(** Saving "c" on the demo form. *)
Lemma handleSaveSettings_round_trip_witness :
  List.length
    (savedConfigs (handleSaveSettings nat demoTrim demoStringify
                     "1/3/2025" demoForm)) = 3%nat.
Proof.
  destruct (handleSaveSettings_round_trip nat demoTrim demoStringify
              "1/3/2025" demoForm) as [_ H].
  destruct H as (Hsaved & _); [vm_compute; discriminate|].
  rewrite Hsaved. reflexivity.
Defined.

Section FormRunFacts.

Variable Settings : Type.
Variable trim : string -> string.
Variable stringify : list (SavedConfig Settings) -> string.

Lemma formStep_storedInSync (ev : FormEvent Settings)
  (st : FormState Settings) :
  storedInSync Settings stringify st ->
  storedInSync Settings stringify (formStep Settings trim stringify ev st).
Proof.
  unfold storedInSync. intros H. destruct ev; simpl; try assumption.
  - unfold handleSaveSettings.
    destruct (String.eqb (trim (configName st)) EmptyString);
      [assumption|reflexivity].
  - destruct (nth_error (savedConfigs st) index); assumption.
  - destruct (Nat.ltb index (List.length (savedConfigs st))); assumption.
  - destruct (confirmDeleteIndex st); [reflexivity|assumption].
Qed.

Lemma formStep_pendingInRange (ev : FormEvent Settings)
  (st : FormState Settings) :
  pendingInRange Settings st ->
  pendingInRange Settings (formStep Settings trim stringify ev st).
Proof.
  unfold pendingInRange. intros H. destruct ev; simpl; try assumption;
    try exact I.
  - unfold handleSaveSettings.
    destruct (String.eqb (trim (configName st)) EmptyString);
      [assumption|]. simpl.
    destruct (confirmDeleteIndex st); [|exact I].
    rewrite length_app. simpl. lia.
  - destruct (nth_error (savedConfigs st) index); [exact I|assumption].
  - destruct (Nat.ltb_spec index (List.length (savedConfigs st)));
      [assumption|assumption].
  - destruct (confirmDeleteIndex st) eqn:E; [exact I|].
    rewrite E. exact I.
Qed.

(** X17. Once the stored item is the serialisation of the list of saved
    configurations, it stays so through every sequence of user actions
    on the form; and every deletion, and every save under a name that is
    not blank, makes it so (the [localStorage.setItem] calls of
    [handleSaveSettings] and [handleDeleteConfig], lines 182-186 and
    202-204, against all state updates of the component). *)
Theorem stored_configs_in_sync (evs : list (FormEvent Settings))
  (st : FormState Settings) (i : nat) (today : string) :
  (storedInSync Settings stringify st ->
   storedInSync Settings stringify (formRun Settings trim stringify evs st)) /\
  storedInSync Settings stringify (handleDeleteConfig Settings stringify i st) /\
  (trim (configName st) <> EmptyString ->
   storedInSync Settings stringify
     (handleSaveSettings Settings trim stringify today st)).
Proof.
  split; [|split].
  - revert st. unfold formRun.
    induction evs as [|ev evs IH]; intros st H; simpl; [assumption|].
    apply IH. now apply formStep_storedInSync.
  - reflexivity.
  - intros H. apply String.eqb_neq in H.
    unfold storedInSync, handleSaveSettings. now rewrite H.
Qed.

(** X18. The index pending a delete confirmation always names an
    existing saved configuration, through every sequence of user actions;
    so confirming a deletion removes exactly one configuration, the one
    at the pending index, and clears the pending index (the
    [confirmDeleteIndex] state, lines 101, 194-206 and 504-583). *)
Theorem pending_delete_in_range (evs : list (FormEvent Settings))
  (st : FormState Settings) :
  pendingInRange Settings st ->
  let st' := formRun Settings trim stringify evs st in
  pendingInRange Settings st' /\
  forall index, confirmDeleteIndex st' = Some index ->
    let st'' := formStep Settings trim stringify (EvConfirmDelete Settings) st' in
    S (List.length (savedConfigs st'')) = List.length (savedConfigs st') /\
    savedConfigs st''
      = firstn index (savedConfigs st') ++ skipn (S index) (savedConfigs st') /\
    confirmDeleteIndex st'' = None.
Proof.
  intros H. cbv zeta.
  assert (Hrun : pendingInRange Settings
                   (formRun Settings trim stringify evs st)).
  { revert st H. unfold formRun.
    induction evs as [|ev evs IH]; intros st H; simpl; [assumption|].
    apply IH. now apply formStep_pendingInRange. }
  split; [exact Hrun|]. intros index Hidx.
  unfold pendingInRange in Hrun. rewrite Hidx in Hrun.
  cbn [formStep]. rewrite Hidx.
  destruct (deleteConfig_cut Settings stringify index
              (formRun Settings trim stringify evs st)) as [Hcut Hnone].
  rewrite Hcut. split; [|split; [reflexivity|exact Hnone]].
  rewrite length_app, firstn_length_le, length_skipn by lia. lia.
Qed.

End FormRunFacts.

(** Two actions on the demo form, whose stored item is in step with its
    list. *)
Lemma stored_configs_in_sync_witness :
  storedInSync nat demoStringify
    (formRun nat demoTrim demoStringify
       [EvOpenLoad nat; EvConfirmDelete nat] demoForm) /\
  storedInSync nat demoStringify
    (handleSaveSettings nat demoTrim demoStringify "1/3/2025" demoForm).
Proof.
  destruct (stored_configs_in_sync nat demoTrim demoStringify
              [EvOpenLoad nat; EvConfirmDelete nat] demoForm 0%nat
              "1/3/2025") as (Hrun & _ & Hsave).
  split.
  - apply Hrun. vm_compute. reflexivity.
  - apply Hsave. vm_compute. discriminate.
Defined.

(** Asking to delete the first configuration of the demo form, then
    confirming. *)
Lemma pending_delete_in_range_witness :
  List.length
    (savedConfigs
       (formStep nat demoTrim demoStringify (EvConfirmDelete nat)
          (formRun nat demoTrim demoStringify
             [EvOpenLoad nat; EvAskDelete nat 0%nat] demoForm))) = 1%nat.
Proof.
  destruct (pending_delete_in_range nat demoTrim demoStringify
              [EvOpenLoad nat; EvAskDelete nat 0%nat] demoForm) as [_ H].
  - vm_compute. reflexivity.
  - destruct (H 0%nat) as (Hlen & _); [vm_compute; reflexivity|].
    apply eq_add_S. rewrite Hlen. vm_compute. reflexivity.
Defined.

Section AppFacts.

Variable Settings : Type.

Lemma appRun_params (evs : list (AppEvent Settings))
  (st : AppState Settings) :
  simulationParams (appRun Settings evs st)
    = lastSubmitted Settings evs (simulationParams st).
Proof.
  revert st. unfold appRun, lastSubmitted.
  induction evs as [|ev evs IH]; intros st; simpl; [reflexivity|].
  rewrite IH. now destruct ev.
Qed.

Lemma appRun_shown (evs : list (AppEvent Settings))
  (st : AppState Settings) :
  (showResults st = true -> simulationParams st <> None) ->
  showResults (appRun Settings evs st) = true ->
  simulationParams (appRun Settings evs st) <> None.
Proof.
  revert st. unfold appRun.
  induction evs as [|ev evs IH]; intros st H; simpl; [assumption|].
  apply IH. destruct ev; simpl; discriminate.
Qed.

(** X19. After any sequence of submissions and returns to the settings,
    starting from the initial state, the stored parameters are those of
    the last submission; whenever the results view is shown the
    simulation is rendered, for the settings of the last submission (the
    guard [simulationParams && ...] of line 33 never hides it); and a
    return to the settings keeps the parameters
    ([handleSettingsSubmit], [handleBackToSettings], lines 6-38). *)
Theorem results_shown_for_last_submission (evs : list (AppEvent Settings)) :
  let st := appRun Settings evs (initialApp Settings) in
  simulationParams st = lastSubmitted Settings evs None /\
  (showResults st = true ->
   exists s, resultsRendered Settings st = Some s /\
             lastSubmitted Settings evs None = Some s) /\
  simulationParams (appRun Settings (evs ++ [EvBack Settings])
                      (initialApp Settings))
    = simulationParams st.
Proof.
  cbv zeta.
  pose proof (appRun_params evs (initialApp Settings)) as Hp.
  cbn [initialApp simulationParams] in Hp.
  split; [exact Hp|split].
  - intros Hshow.
    pose proof (appRun_shown evs (initialApp Settings)) as Hs.
    cbn [initialApp showResults] in Hs.
    specialize (Hs ltac:(discriminate) Hshow).
    unfold resultsRendered. rewrite Hshow. rewrite <- Hp.
    destruct (simulationParams
                (appRun Settings evs (initialApp Settings))) as [s|];
      [|congruence].
    exists s. now split.
  - unfold appRun. rewrite fold_left_app. reflexivity.
Qed.

End AppFacts.

(** Two submissions with a return to the settings between them. *)
Lemma results_shown_for_last_submission_witness :
  resultsRendered nat
    (appRun nat [EvSubmit nat 1%nat; EvBack nat; EvSubmit nat 2%nat]
       (initialApp nat)) = Some 2%nat.
Proof.
  destruct (results_shown_for_last_submission nat
              [EvSubmit nat 1%nat; EvBack nat; EvSubmit nat 2%nat])
    as (_ & H & _).
  destruct H as (s & Hr & Hl); [vm_compute; reflexivity|].
  rewrite Hr. rewrite <- Hl. vm_compute. reflexivity.
Defined.

(* ===================================================================== *)
(** * Further properties of the simulation *)
(* ===================================================================== *)

(** ** Average R per day and per week *)

(** ** Wins and losses against the draws *)

Lemma countOf_snoc (b x : bool) (l : list bool) :
  countOf b (l ++ [x])
  = (countOf b l + if Bool.eqb b x then 1 else 0)%nat.
Proof.
  unfold countOf. rewrite filter_app, length_app. simpl.
  now destruct (Bool.eqb b x).
Qed.

Lemma countOf_total (l : list bool) :
  (countOf true l + countOf false l)%nat = List.length l.
Proof.
  unfold countOf. induction l as [|[|] l IH]; simpl; lia.
Qed.

Lemma countOf_repeat (b : bool) (n : nat) :
  countOf b (repeat b n) = n /\ countOf (negb b) (repeat b n) = 0%nat.
Proof.
  unfold countOf. induction n as [|n [IH1 IH2]]; [now split|].
  destruct b; simpl in *; rewrite ?IH1, ?IH2; now split.
Qed.

Lemma longestRun_repeat (b : bool) (n : nat) :
  longestRun b (repeat b n) = n /\ longestRun (negb b) (repeat b n) = 0%nat.
Proof.
  induction n as [|n [IH1 IH2]]; [now split|].
  cbn [repeat longestRun]. rewrite IH1, IH2. split.
  - pose proof (leadingRun_repeat b (S n) []) as Hle.
    rewrite app_nil_r in Hle. cbn [repeat] in Hle.
    assert (Hub : (leadingRun b (b :: repeat b n) <= S n)%nat).
    { clear. cbn [leadingRun]. rewrite Bool.eqb_reflx.
      apply le_n_S. induction n as [|n IH]; simpl; [lia|].
      rewrite Bool.eqb_reflx. lia. }
    lia.
  - cbn [leadingRun]. now destruct b.
Qed.

Lemma outcomes_constant p rng (b : bool) (n : nat) :
  (forall k, isWinAt p rng k = b) -> outcomes p rng n = repeat b n.
Proof.
  intros H. induction n as [|n IH]; [reflexivity|].
  rewrite outcomes_S, IH, H. clear.
  induction n as [|n IH]; [reflexivity|].
  cbn [repeat app]. rewrite IH. reflexivity.
Qed.

Section DrawFacts.

Variable p : SimulationSettings.
Variable rng : nat -> Qc.

Lemma runTrade_countsFollow date ds ds' :
  countsFollow p rng (snd ds) -> runTrade p rng date ds = Some ds' ->
  countsFollow p rng (snd ds').
Proof.
  intros (Hc & Hw & Hl). unfold runTrade.
  destruct (bucket_update (month date) _ _); [|discriminate].
  destruct (bucket_update (week date) _ _); [|discriminate].
  intros E. injection E as <-.
  unfold countsFollow.
  cbn [snd randomCalls counts count_trade totalTrades totalWins totalLosses].
  rewrite outcomes_S, !countOf_snoc, <- Hw, <- Hl, Hc.
  destruct (isWinAt p rng (totalTrades (counts (snd ds)))); simpl;
    repeat split; lia.
Qed.

Lemma simulate_countsFollow dates st :
  simulate p rng dates = Some st -> countsFollow p rng st.
Proof.
  unfold simulate.
  refine (runDays_invariant p rng (countsFollow p rng) dates _
            (initState p dates) st _).
  - intros date s s' _.
    apply (runDay_invariant p rng (countsFollow p rng)
             (fun ds => countsFollow p rng (snd ds))); auto.
    intros ds ds'. apply runTrade_countsFollow.
  - repeat split.
Qed.

End DrawFacts.

(** X21. In every run the trade numbered [k] (from 0, in the order of
    the calls of [Math.random]) wins exactly when its draw is below
    [winRate / 100]: the total of wins is the number of such draws among
    the first [totalTrades] draws, the total of losses the number of the
    others, and every draw counts once (lines 169-216, 254). *)
Theorem wins_count_draws (p : SimulationSettings) (rng : nat -> Qc) :
  exists st s,
    simulate p rng (tradingDays p) = Some st /\
    runSimulation p rng = Some s /\
    totalWins (counts st)
      = countOf true (outcomes p rng (s_totalTrades s)) /\
    totalLosses (counts st)
      = countOf false (outcomes p rng (s_totalTrades s)) /\
    List.length (outcomes p rng (s_totalTrades s)) = s_totalTrades s /\
    s_winRate s
      = or (winPercentage (countOf true (outcomes p rng (s_totalTrades s)))
              (countOf false (outcomes p rng (s_totalTrades s))))
           (Fin (winRate p)).
Proof.
  destruct (runSimulation_total p rng) as [st [Hsim Hrun]].
  exists st, (summarize p (tradingDays p) st).
  split; [assumption|]. split; [assumption|].
  destruct (simulate_countsFollow p rng _ _ Hsim) as (Hc & Hw & Hl).
  unfold summarize. cbn [s_totalTrades s_winRate].
  rewrite <- Hc, <- Hw, <- Hl.
  split; [reflexivity|]. split; [reflexivity|]. split; [|reflexivity].
  unfold outcomes. now rewrite length_map, length_seq.
Qed.

(** ** Certain outcomes *)

Lemma targetWinRate_value (p : SimulationSettings) :
  targetWinRate p = Fin (winRate p / Qc_of_Z 100)%Qc.
Proof. unfold targetWinRate, of_Z. now apply div_finite. Qed.

Lemma winRate_full_wins (p : SimulationSettings) (rng : nat -> Qc) :
  (Qc_of_Z 100 <= winRate p)%Qc -> uniformDraws rng ->
  forall k, isWinAt p rng k = true.
Proof.
  intros Hw Hu k. unfold isWinAt. rewrite targetWinRate_value.
  cbn [lt]. apply Qc_ltb_true. destruct (Hu k) as [_ H1].
  apply (Qclt_le_trans _ 1 _ H1).
  assert (H100 : (1 = Qc_of_Z 100 / Qc_of_Z 100)%Qc)
    by (apply Qc_is_canon; reflexivity).
  rewrite H100 at 1. unfold Qcdiv.
  apply Qcmult_le_compat_r; [assumption|discriminate].
Qed.

Lemma winRate_none_loses (p : SimulationSettings) (rng : nat -> Qc) :
  (winRate p <= 0)%Qc -> uniformDraws rng ->
  forall k, isWinAt p rng k = false.
Proof.
  intros Hw Hu k. unfold isWinAt. rewrite targetWinRate_value.
  cbn [lt]. destruct (Qc_ltb (rng k) (winRate p / Qc_of_Z 100)) eqn:E;
    [|reflexivity].
  apply Qc_ltb_true in E. destruct (Hu k) as [H0 _]. exfalso.
  assert (Hle : (winRate p / Qc_of_Z 100 <= 0)%Qc).
  { assert (H0' : (0 = 0 / Qc_of_Z 100)%Qc)
      by (apply Qc_is_canon; reflexivity).
    rewrite H0' at 1. unfold Qcdiv.
    apply Qcmult_le_compat_r; [assumption|discriminate]. }
  exact (Qcle_not_lt _ _ (Qcle_trans _ _ _ Hle H0) E).
Qed.

(** X22. With draws in [0, 1): a configured win rate of 100 or more
    makes every trade a win, so the total of wins and the longest win
    streak are the number of trades and the total of losses and the
    longest loss streak are 0; a configured win rate of 0 or less makes
    every trade a loss, so the total of losses and the longest loss
    streak are the number of trades and the total of wins and the
    longest win streak are 0 (lines 45, 170-211). *)
Theorem certain_outcomes (p : SimulationSettings) (rng : nat -> Qc) :
  uniformDraws rng ->
  exists st s,
    simulate p rng (tradingDays p) = Some st /\
    runSimulation p rng = Some s /\
    ((Qc_of_Z 100 <= winRate p)%Qc ->
     totalWins (counts st) = s_totalTrades s /\
     totalLosses (counts st) = 0%nat /\
     s_maxWinStreak s = s_totalTrades s /\
     s_maxLossStreak s = 0%nat) /\
    ((winRate p <= 0)%Qc ->
     totalLosses (counts st) = s_totalTrades s /\
     totalWins (counts st) = 0%nat /\
     s_maxLossStreak s = s_totalTrades s /\
     s_maxWinStreak s = 0%nat).
Proof.
  intros Hu.
  destruct (runSimulation_total p rng) as [st [Hsim Hrun]].
  exists st, (summarize p (tradingDays p) st).
  split; [assumption|]. split; [assumption|].
  destruct (simulate_countsFollow p rng _ _ Hsim) as (Hc & Hw & Hl).
  destruct (simulate_streaksFollow p rng _ _ Hsim)
    as (_ & _ & _ & Hmw & Hml).
  unfold summarize.
  cbn [s_maxWinStreak s_maxLossStreak s_totalTrades].
  rewrite Hmw, Hml, Hw, Hl, Hc.
  split; intros Hrate.
  - rewrite (outcomes_constant p rng true)
      by now apply winRate_full_wins.
    destruct (longestRun_repeat true (totalTrades (counts st))) as [R1 R2].
    destruct (countOf_repeat true (totalTrades (counts st))) as [K1 K2].
    cbn [negb] in R2, K2. rewrite R1, R2, K1, K2. repeat split.
  - rewrite (outcomes_constant p rng false)
      by now apply winRate_none_loses.
    destruct (longestRun_repeat false (totalTrades (counts st))) as [R1 R2].
    destruct (countOf_repeat false (totalTrades (counts st))) as [K1 K2].
    cbn [negb] in R2, K2. rewrite R1, R2, K1, K2. repeat split.
Qed.

(** The [twoWeeksCertain] run with a draw of 9/10 at every call: 32
    wins in a row. *)
Lemma certain_outcomes_witness :
  exists s, runSimulation twoWeeksCertain drawNineTenths = Some s /\
            s_maxWinStreak s = 32%nat /\
            s_maxLossStreak s = 0%nat.
Proof.
  assert (Hu : uniformDraws drawNineTenths)
    by (intros k; split; [discriminate|reflexivity]).
  destruct (certain_outcomes twoWeeksCertain drawNineTenths Hu)
    as (st & s & _ & Hrun & Hwin & _).
  exists s. split; [exact Hrun|].
  destruct Hwin as (_ & _ & Hw & Hl); [vm_compute; discriminate|].
  split; [|exact Hl]. rewrite Hw.
  vm_compute in Hrun. injection Hrun as <-. reflexivity.
Defined.

(* ===================================================================== *)
(** * The calendar in the local time zone *)
(* ===================================================================== *)

(** ** Zones without transitions, at or east of Greenwich *)

Section FixedZone.

Variable zone : Local.Zone.
Hypothesis Hzone : Local.fixedEast zone.

Lemma fixed_LocalTime (t : Z) :
  Local.LocalTime zone t = t + Local.baseOffset zone.
Proof.
  destruct Hzone as [Htr _].
  unfold Local.LocalTime, Local.offsetAtUtc. now rewrite Htr.
Qed.

Lemma fixed_UTC (tl : Z) : Local.UTC zone tl = tl - Local.baseOffset zone.
Proof.
  destruct Hzone as [Htr _].
  unfold Local.UTC, Local.offsetAtLocal. now rewrite Htr.
Qed.

Lemma fixed_nextDay (d : Date) :
  Local.nextDay zone (Local.parseDate d) = Local.parseDate (d + 1).
Proof.
  unfold Local.nextDay. rewrite fixed_LocalTime, fixed_UTC.
  unfold Local.parseDate, Local.msPerDay. lia.
Qed.

Lemma fixed_localDay (d : Date) :
  Local.localDay zone (Local.parseDate d) = d.
Proof.
  destruct Hzone as [_ Hoff].
  unfold Local.localDay. rewrite fixed_LocalTime.
  unfold Local.parseDate, Local.msPerDay in *.
  symmetry. apply (Z.div_unique _ _ d (Local.baseOffset zone)); lia.
Qed.

Lemma fixed_isWeekday (d : Date) :
  Local.isWeekday zone (Local.parseDate d) = isWeekday d.
Proof.
  unfold Local.isWeekday, Local.getDay, isWeekday, getDay.
  now rewrite fixed_localDay.
Qed.

(** On a weekday the week number computed from the time values is the
    one computed from the day numbers: the part of a day by which local
    midnight precedes midnight UTC is lost in the ceiling, which only a
    Saturday would reach. *)
Lemma fixed_weekNumber (d : Date) :
  isWeekday d = true ->
  Local.weekNumber zone (Local.parseDate d)
  = let first := days_from_civil (constructorYear (getFullYear d)) 1 1 in
    ceil_div7 (d - first + getDay first + 1).
Proof.
  intros Hw. destruct Hzone as [_ Hoff].
  unfold Local.weekNumber, Local.getFullYear, Local.firstDayOfYear.
  rewrite fixed_localDay. fold (getFullYear d).
  set (first := days_from_civil (constructorYear (getFullYear d)) 1 1).
  cbv zeta. unfold Local.getDay.
  assert (Hfirst : Local.localDay zone (Local.UTC zone (first * Local.msPerDay))
                   = first).
  { unfold Local.localDay. rewrite fixed_LocalTime, fixed_UTC.
    replace (first * Local.msPerDay - Local.baseOffset zone
             + Local.baseOffset zone) with (first * Local.msPerDay) by lia.
    apply Z.div_mul. discriminate. }
  rewrite Hfirst, fixed_UTC.
  apply isWeekday_getDay in Hw. unfold getDay in Hw.
  unfold ceil_div7, getDay, Local.parseDate, Local.msPerDay in *.
  Z.div_mod_to_equations. lia.
Qed.

Lemma fixed_dateInfo_of (d : Date) :
  isWeekday d = true ->
  Local.dateInfo_of zone (Local.parseDate d) = Local.atMidnight (dateInfo_of d).
Proof.
  intros Hw. unfold Local.dateInfo_of, Local.atMidnight, dateInfo_of.
  cbv zeta. rewrite (fixed_weekNumber d Hw).
  unfold Local.monthShort, Local.getDate, Local.getFullYear.
  rewrite fixed_localDay. reflexivity.
Qed.

(** With enough fuel the loop visits midnight UTC of every day of the
    range and keeps the weekdays. *)
Lemma fixed_loop_days (fuel : nat) :
  forall cur e,
    (Z.to_nat (e - cur + 1) < fuel)%nat ->
    Local.generateDates_loop zone fuel (Local.parseDate cur)
      (Local.parseDate e)
    = Some (map Local.atMidnight
              (map dateInfo_of (filter isWeekday (daysOfRange cur e)))).
Proof.
  induction fuel as [|fuel IH]; intros cur e Hfuel; [lia|].
  cbn [Local.generateDates_loop].
  assert (Hcmp : (Local.parseDate cur <=? Local.parseDate e) = (cur <=? e)).
  { unfold Local.parseDate, Local.msPerDay.
    destruct (cur <=? e) eqn:E.
    - apply Z.leb_le in E. apply Z.leb_le. lia.
    - apply Z.leb_gt in E. apply Z.leb_gt. lia. }
  rewrite Hcmp. destruct (cur <=? e) eqn:Hle.
  - apply Z.leb_le in Hle. rewrite fixed_nextDay, IH by lia.
    rewrite (daysOfRange_cons cur e Hle). cbn [filter].
    rewrite fixed_isWeekday.
    destruct (isWeekday cur) eqn:Hw; [|reflexivity].
    rewrite (fixed_dateInfo_of cur Hw). reflexivity.
  - apply Z.leb_gt in Hle. rewrite daysOfRange_nil by assumption.
    reflexivity.
Qed.

Lemma fixed_generateDates (s e : Date) :
  Local.generateDates zone s e
  = Some (map Local.atMidnight (generateDates s e)).
Proof.
  unfold Local.generateDates. rewrite fixed_loop_days by lia.
  now rewrite generateDates_days.
Qed.

End FixedZone.

(** X23. In a time zone whose offset is constant and lies between 0 and
    24 hours east of Greenwich (UTC, Asia/Tokyo, ...), [generateDates]
    returns, and keeps exactly the weekdays of the days from start to
    end, both included, in chronological order: each entry is midnight
    UTC of its day and carries the labels of that day, no entry falls on
    a Saturday or Sunday of local time, the length is the count of
    weekdays in the range, and the result is empty when the end
    precedes the start (lines 53-54 and 67-96). *)
Theorem generateDates_fixed_zone (zone : Local.Zone) (s e : Date) :
  Local.fixedEast zone ->
  exists l,
    Local.generateDates zone s e = Some l /\
    l = map Local.atMidnight (generateDates s e) /\
    map dateObj l = map Local.parseDate (filter isWeekday (daysOfRange s e)) /\
    Forall (fun d => Local.getDay zone (dateObj d) <> 0 /\
                     Local.getDay zone (dateObj d) <> 6) l /\
    List.length l = weekdayCount s e /\
    StronglySorted Z.lt (map dateObj l) /\
    (e < s -> l = []).
Proof.
  intros Hzone. exists (map Local.atMidnight (generateDates s e)).
  destruct (dayCalendar_weekdays s e) as (Hmap & Hwd & Hlen & Hsorted & _ & Hnil).
  split; [now apply fixed_generateDates|]. split; [reflexivity|].
  assert (Hobj : map dateObj (map Local.atMidnight (generateDates s e))
                 = map Local.parseDate (filter isWeekday (daysOfRange s e)))
    by (rewrite <- Hmap, !map_map; reflexivity).
  split; [exact Hobj|]. split; [|split; [|split]].
  - apply Forall_forall. intros d Hd. apply in_map_iff in Hd.
    destruct Hd as (d' & <- & Hd').
    rewrite Forall_forall in Hwd. specialize (Hwd d' Hd').
    unfold Local.getDay, Local.atMidnight. cbn [dateObj].
    rewrite (fixed_localDay zone Hzone). exact Hwd.
  - rewrite length_map. exact Hlen.
  - rewrite Hobj, <- Hmap. clear - Hsorted.
    induction (map dateObj (generateDates s e)) as [|x l IH];
      [constructor|].
    inversion Hsorted as [|? ? Hs Hall]; subst. cbn [map]. constructor.
    + now apply IH.
    + apply Forall_forall. intros y Hy. apply in_map_iff in Hy.
      destruct Hy as (y' & <- & Hy'). rewrite Forall_forall in Hall.
      specialize (Hall y' Hy'). unfold Local.parseDate, Local.msPerDay. lia.
  - intros Hlt. now rewrite (Hnil Hlt).
Qed.

(** In Tokyo, the ten days from 2025-01-01 hold eight trading days. *)
Lemma generateDates_fixed_zone_witness :
  exists l, Local.generateDates Local.tokyo jan_1_2025 jan_10_2025 = Some l /\
            List.length l = 8%nat.
Proof.
  destruct (generateDates_fixed_zone Local.tokyo jan_1_2025 jan_10_2025)
    as (l & Hgen & _ & _ & _ & Hlen & _).
  - split; [reflexivity|split; [vm_compute; discriminate|reflexivity]].
  - exists l. split; [exact Hgen|]. rewrite Hlen. reflexivity.
Defined.

(** ** In every time zone *)

Lemma loop_entries (zone : Local.Zone) (fuel : nat) :
  forall cur e l,
    Local.generateDates_loop zone fuel cur e = Some l ->
    Forall (fun d =>
              (exists k, dateObj d = Nat.iter k (Local.nextDay zone) cur) /\
              dateObj d <= e /\
              Local.isWeekday zone (dateObj d) = true /\
              d = Local.dateInfo_of zone (dateObj d)) l.
Proof.
  induction fuel as [|fuel IH]; intros cur e l; cbn [Local.generateDates_loop];
    [discriminate|].
  destruct (cur <=? e) eqn:Hle; [|intros [= <-]; constructor].
  apply Z.leb_le in Hle.
  destruct (Local.generateDates_loop zone fuel (Local.nextDay zone cur) e)
    as [rest|] eqn:Hrest; [|discriminate].
  intros [= <-]. apply Forall_app. split.
  - destruct (Local.isWeekday zone cur) eqn:Hw; [|constructor].
    constructor; [|constructor]. cbn [Local.dateInfo_of dateObj].
    split; [now exists 0%nat|]. repeat split; assumption.
  - specialize (IH _ _ _ Hrest). revert IH. apply Forall_impl.
    intros d ([k Hk] & Hd). split; [|exact Hd].
    exists (S k). now rewrite Nat.iter_succ_r.
Qed.

(** X24. In every time zone: a range whose end precedes its start
    yields no entry; and every entry of a calendar that [generateDates]
    returns is one of the instants the walk visits from midnight UTC of
    the start date in steps of [setDate(getDate() + 1)], is not after
    midnight UTC of the end date, falls on a weekday of local time and
    carries the labels of its local date (lines 53-54 and 67-96). *)
Theorem generateDates_any_zone (zone : Local.Zone) (s e : Date) :
  (e < s -> Local.generateDates zone s e = Some []) /\
  forall l, Local.generateDates zone s e = Some l ->
    Forall (fun d =>
              (exists k, dateObj d
                         = Nat.iter k (Local.nextDay zone)
                                    (Local.parseDate s)) /\
              dateObj d <= Local.parseDate e /\
              Local.getDay zone (dateObj d) <> 0 /\
              Local.getDay zone (dateObj d) <> 6 /\
              d = Local.dateInfo_of zone (dateObj d)) l.
Proof.
  split.
  - intros Hlt. unfold Local.generateDates. cbn [Local.generateDates_loop].
    assert (Hcmp : (Local.parseDate s <=? Local.parseDate e) = false)
      by (apply Z.leb_gt; unfold Local.parseDate, Local.msPerDay; lia).
    now rewrite Hcmp.
  - intros l Hl. apply loop_entries in Hl. revert Hl. apply Forall_impl.
    intros d (Hk & Hle & Hw & Hd).
    unfold Local.isWeekday in Hw.
    rewrite andb_true_iff, !negb_true_iff, !Z.eqb_neq in Hw.
    repeat split; tauto.
Qed.

(** The Friday that New York yields for the weekend of 2025-01-04. *)
Lemma generateDates_any_zone_witness :
  Local.generateDates Local.newYork jan_5_2025 jan_4_2025 = Some [] /\
  Forall (fun d => Local.getDay Local.newYork (dateObj d) <> 6)
         [Local.dateInfo_of Local.newYork (Local.parseDate jan_4_2025)].
Proof.
  destruct (generateDates_any_zone Local.newYork jan_5_2025 jan_4_2025)
    as [Hempty _].
  destruct (generateDates_any_zone Local.newYork jan_4_2025 jan_5_2025)
    as [_ Hall].
  split; [apply Hempty; reflexivity|].
  specialize (Hall _ ltac:(vm_compute; reflexivity)).
  revert Hall. apply Forall_impl. tauto.
Defined.

(** C6. The claim does not hold of the calendar the code generates
    outside such zones. In New York the range from Saturday 2025-01-04
    to Sunday 2025-01-05, which holds no weekday, yields one entry: the
    start, midnight UTC of the Saturday, is Friday evening in local
    time, so the entry is kept and labelled "Jan 3 2025". In Berlin the
    range from Saturday 2025-10-25 to Monday 2025-10-27, which holds one
    weekday, yields no entry: the walk keeps the local time 02:00, which
    after the end of summer time on the Sunday is 01:00 UTC of the
    Monday, after the end date (midnight UTC). *)
Theorem generateDates_local_days :
  weekdayCount jan_4_2025 jan_5_2025 = 0%nat /\
  (exists d,
     Local.generateDates Local.newYork jan_4_2025 jan_5_2025 = Some [d] /\
     fullDate d = "Jan 3 2025"%string /\
     dateObj d = Local.parseDate jan_4_2025 /\
     Local.getDay Local.newYork (dateObj d) = 5) /\
  weekdayCount oct_25_2025 oct_27_2025 = 1%nat /\
  Local.generateDates Local.berlin oct_25_2025 oct_27_2025 = Some [] /\
  Local.nextDay Local.berlin
    (Local.nextDay Local.berlin (Local.parseDate oct_25_2025))
  = Local.parseDate oct_27_2025 + Local.msPerHour.
Proof.
  split; [reflexivity|].
  split; [eexists; split; [vm_compute; reflexivity|repeat split]|].
  split; [reflexivity|]. split; vm_compute; reflexivity.
Qed.

(** ** Further properties of the calendar in such zones *)

(** X1. In a zone of constant offset between 0 and 24 hours east of
    Greenwich, a range can be generated in two pieces: the trading days
    from [s] to [e] are those from [s] to [m] followed by those from
    [m + 1] to [e], for every cut [m] with [s <= m + 1] and [m <= e]
    ([generateDates], lines 67-96). *)
Theorem generateDates_split (zone : Local.Zone) (s m e : Date) :
  Local.fixedEast zone -> s <= m + 1 -> m <= e ->
  exists l1 l2,
    Local.generateDates zone s m = Some l1 /\
    Local.generateDates zone (m + 1) e = Some l2 /\
    Local.generateDates zone s e = Some (l1 ++ l2).
Proof.
  intros Hzone H1 H2.
  exists (map Local.atMidnight (generateDates s m)),
         (map Local.atMidnight (generateDates (m + 1) e)).
  rewrite !(fixed_generateDates zone Hzone).
  split; [reflexivity|]. split; [reflexivity|].
  now rewrite (dayCalendar_split s m e H1 H2), map_app.
Qed.

(** The first ten days of January 2025 in Tokyo, cut after the Friday. *)
Lemma generateDates_split_witness :
  exists l1 l2,
    Local.generateDates Local.tokyo jan_1_2025 (jan_1_2025 + 2) = Some l1 /\
    Local.generateDates Local.tokyo (jan_1_2025 + 2 + 1) jan_10_2025
      = Some l2 /\
    Local.generateDates Local.tokyo jan_1_2025 jan_10_2025 = Some (l1 ++ l2).
Proof.
  refine (generateDates_split Local.tokyo jan_1_2025 (jan_1_2025 + 2)
            jan_10_2025 _ _ _).
  - split; [reflexivity|split; [vm_compute; discriminate|reflexivity]].
  - vm_compute; discriminate.
  - vm_compute; discriminate.
Defined.

(** X2. In such a zone, extending a range by seven days adds exactly
    five trading days, whatever the weekday the range starts or ends on
    ([generateDates], lines 67-96). *)
Theorem generateDates_week (zone : Local.Zone) (s e : Date) :
  Local.fixedEast zone -> s <= e + 1 ->
  exists l l',
    Local.generateDates zone s e = Some l /\
    Local.generateDates zone s (e + 7) = Some l' /\
    List.length l' = (List.length l + 5)%nat.
Proof.
  intros Hzone H.
  exists (map Local.atMidnight (generateDates s e)),
         (map Local.atMidnight (generateDates s (e + 7))).
  rewrite !(fixed_generateDates zone Hzone).
  split; [reflexivity|]. split; [reflexivity|].
  rewrite !length_map. now apply dayCalendar_week.
Qed.

(** January 2025 in UTC: ten days against seventeen. *)
Lemma generateDates_week_witness :
  exists l l',
    Local.generateDates Local.utc jan_1_2025 jan_10_2025 = Some l /\
    Local.generateDates Local.utc jan_1_2025 (jan_10_2025 + 7) = Some l' /\
    List.length l' = (List.length l + 5)%nat.
Proof.
  refine (generateDates_week Local.utc jan_1_2025 jan_10_2025 _ _).
  - split; [reflexivity|split; [vm_compute; discriminate|reflexivity]].
  - vm_compute; discriminate.
Defined.

(** X3. In such a zone, a range of at least three days always holds a
    trading day: the calendar of a run whose end date is two or more
    days after its start date is not empty ([generateDates], lines
    67-96). *)
Theorem generateDates_three_days (zone : Local.Zone) (s e : Date) :
  Local.fixedEast zone -> s + 2 <= e ->
  exists l, Local.generateDates zone s e = Some l /\
            (1 <= List.length l)%nat.
Proof.
  intros Hzone H. exists (map Local.atMidnight (generateDates s e)).
  rewrite (fixed_generateDates zone Hzone). split; [reflexivity|].
  rewrite length_map. now apply dayCalendar_three_days.
Qed.

(** A Saturday to the Monday after it, in UTC. *)
Lemma generateDates_three_days_witness :
  exists l,
    Local.generateDates Local.utc jan_4_2025 (jan_4_2025 + 2) = Some l /\
    (1 <= List.length l)%nat.
Proof.
  refine (generateDates_three_days Local.utc jan_4_2025 (jan_4_2025 + 2) _ _).
  - split; [reflexivity|split; [vm_compute; discriminate|reflexivity]].
  - vm_compute; discriminate.
Defined.

(** X5. In such a zone, the approximate number of trading days computed
    at the head of the simulation effect is, for a range that does not
    end before it starts, at least 1 and within one of the number of
    trading days the run has ([approxTradingDays], lines 56-59, against
    [generateDates]). *)
Theorem approxTradingDays_bounds (zone : Local.Zone) (s e : Date) :
  Local.fixedEast zone -> s <= e ->
  exists l,
    Local.generateDates zone s e = Some l /\
    1 <= approxTradingDays s e /\
    Z.of_nat (List.length l) - 1 <= approxTradingDays s e
    <= Z.of_nat (List.length l) + 1.
Proof.
  intros Hzone H. exists (map Local.atMidnight (generateDates s e)).
  rewrite (fixed_generateDates zone Hzone). split; [reflexivity|].
  rewrite length_map. now apply dayCalendar_approx.
Qed.

(** The ten days from 2025-01-01 in Tokyo. *)
Lemma approxTradingDays_bounds_witness :
  exists l,
    Local.generateDates Local.tokyo jan_1_2025 jan_10_2025 = Some l /\
    1 <= approxTradingDays jan_1_2025 jan_10_2025.
Proof.
  destruct (approxTradingDays_bounds Local.tokyo jan_1_2025 jan_10_2025)
    as (l & Hgen & Hone & _).
  - split; [reflexivity|split; [vm_compute; discriminate|reflexivity]].
  - vm_compute; discriminate.
  - exists l. split; assumption.
Defined.

(* ===================================================================== *)
(** * The run in binary64 *)
(* ===================================================================== *)

(** ** Bucket maps *)

Lemma rt_bucket_lookup_none (k : string) (m : Runtime.BucketMap) :
  Runtime.bucket_lookup k m = None <-> ~ In k (Runtime.keysOf m).
Proof.
  induction m as [|[k' b] m IH]; simpl.
  - tauto.
  - destruct (String.eqb_spec k' k) as [->|Hne].
    + split; [discriminate|]. intros H. exfalso. apply H. now left.
    + rewrite IH. tauto.
Qed.

Lemma rt_bucket_update_keys k f m m' :
  Runtime.bucket_update k f m = Some m' ->
  Runtime.keysOf m' = Runtime.keysOf m.
Proof.
  revert m'. induction m as [|[k' b] m IH]; simpl; intros m'; [discriminate|].
  destruct (String.eqb k' k).
  - intros [= <-]. reflexivity.
  - destruct (Runtime.bucket_update k f m) as [m''|]; [|discriminate].
    intros [= <-]. simpl. f_equal. now apply IH.
Qed.

Lemma rt_bucket_update_total k f m :
  In k (Runtime.keysOf m) -> exists m', Runtime.bucket_update k f m = Some m'.
Proof.
  induction m as [|[k' b] m IH]; simpl; [tauto|].
  intros H. destruct (String.eqb_spec k' k) as [->|Hne].
  - eauto.
  - destruct IH as [m' ->]; [|eauto]. destruct H; [contradiction|assumption].
Qed.

Lemma rt_bucket_register_keys k m k' :
  In k' (Runtime.keysOf (Runtime.bucket_register k m))
  <-> In k' (Runtime.keysOf m) \/ k' = k.
Proof.
  unfold Runtime.bucket_register.
  destruct (Runtime.bucket_lookup k m) eqn:E.
  - split; [tauto|]. intros [H| ->]; [assumption|].
    destruct (in_dec string_dec k (Runtime.keysOf m)) as [Hin|Hout];
      [assumption|].
    apply rt_bucket_lookup_none in Hout. congruence.
  - unfold Runtime.keysOf. rewrite map_app, in_app_iff. simpl.
    intuition congruence.
Qed.

(** Registration keeps the keys already there and adds those of the
    dates. *)
Lemma rt_registerBuckets_keys (dates : list DateInfo) :
  forall (a b : Runtime.BucketMap) k,
    let r := fold_left
               (fun acc date =>
                  (Runtime.bucket_register (month date) (fst acc),
                   Runtime.bucket_register (week date) (snd acc)))
               dates (a, b) in
    (In k (Runtime.keysOf (fst r))
     <-> In k (Runtime.keysOf a) \/ In k (map month dates)) /\
    (In k (Runtime.keysOf (snd r))
     <-> In k (Runtime.keysOf b) \/ In k (map week dates)).
Proof.
  induction dates as [|d dates IH]; intros a b k; cbn [fold_left map].
  - simpl. tauto.
  - cbv zeta in IH |- *.
    destruct (IH (Runtime.bucket_register (month d) a)
                 (Runtime.bucket_register (week d) b) k) as [Hm Hw].
    cbn [fst snd] in *. rewrite Hm, Hw, !rt_bucket_register_keys.
    simpl. intuition congruence.
Qed.

(** ** Totality of the run *)

Section RuntimeFacts.

Variable p : Runtime.SimulationSettings.
Variable rng : nat -> B64.num.

Lemma rt_runTrade_keys date ds ds' :
  Runtime.runTrade p rng date ds = Some ds' ->
  Runtime.keysOf (Runtime.monthlyStats (snd ds'))
    = Runtime.keysOf (Runtime.monthlyStats (snd ds)) /\
  Runtime.keysOf (Runtime.weeklyStats (snd ds'))
    = Runtime.keysOf (Runtime.weeklyStats (snd ds)).
Proof.
  unfold Runtime.runTrade.
  destruct (Runtime.bucket_update (month date) _
              (Runtime.monthlyStats (snd ds))) as [ms|] eqn:Em;
    [|discriminate].
  destruct (Runtime.bucket_update (week date) _
              (Runtime.weeklyStats (snd ds))) as [ws|] eqn:Ew;
    [|discriminate].
  intros [= <-]. simpl. split; eapply rt_bucket_update_keys; eauto.
Qed.

Lemma rt_runTrade_total date ds :
  In (month date) (Runtime.keysOf (Runtime.monthlyStats (snd ds))) ->
  In (week date) (Runtime.keysOf (Runtime.weeklyStats (snd ds))) ->
  exists ds', Runtime.runTrade p rng date ds = Some ds'.
Proof.
  intros Hm Hw. unfold Runtime.runTrade.
  destruct (rt_bucket_update_total (month date)
              (if Runtime.isWinAt p rng (Runtime.randomCalls (snd ds))
               then Runtime.bucket_win (Runtime.rewardPerTrade p)
               else Runtime.bucket_loss (Runtime.riskPerTrade p)) _ Hm)
    as [ms ->].
  destruct (rt_bucket_update_total (week date)
              (if Runtime.isWinAt p rng (Runtime.randomCalls (snd ds))
               then Runtime.bucket_win (Runtime.rewardPerTrade p)
               else Runtime.bucket_loss (Runtime.riskPerTrade p)) _ Hw)
    as [ws ->].
  eauto.
Qed.

Lemma rt_equityAfterTrades_S (n : nat) :
  Runtime.equityAfterTrades p rng (S n)
  = Runtime.tradeEquity p (Runtime.isWinAt p rng n)
      (Runtime.equityAfterTrades p rng n).
Proof.
  unfold Runtime.equityAfterTrades, Runtime.accumulate, Runtime.outcomes.
  rewrite seq_S, map_app, fold_left_app. reflexivity.
Qed.

(** One trade moves [afterTrades] from [j] to [j + 1]. *)
Lemma rt_runTrade_step date n j ds ds' :
  Runtime.afterTrades p rng n j ds ->
  Runtime.runTrade p rng date ds = Some ds' ->
  Runtime.afterTrades p rng n (S j) ds'.
Proof.
  intros (Hc & Ht & Hw & Hl & He & Hcurve). unfold Runtime.runTrade.
  destruct (Runtime.bucket_update (month date) _ _); [|discriminate].
  destruct (Runtime.bucket_update (week date) _ _); [|discriminate].
  intros [= <-]. unfold Runtime.afterTrades.
  cbn [fst snd Runtime.randomCalls Runtime.counts Runtime.equityCurve
       count_trade totalTrades totalWins totalLosses].
  rewrite rt_equityAfterTrades_S, <- He.
  unfold Runtime.outcomes. rewrite seq_S, map_app. cbn [map Nat.add].
  rewrite !countOf_snoc.
  fold (Runtime.outcomes p rng (Runtime.randomCalls (snd ds))).
  rewrite <- Hw, <- Hl.
  split; [lia|]. split; [lia|].
  split; [|split; [|split; [reflexivity|exact Hcurve]]];
    destruct (Runtime.isWinAt p rng (Runtime.randomCalls (snd ds)));
    simpl; lia.
Qed.

(** The trades of a day, from its start. *)
Lemma rt_runTrades_steps date n : forall k j ds,
  In (month date) (Runtime.keysOf (Runtime.monthlyStats (snd ds))) ->
  In (week date) (Runtime.keysOf (Runtime.weeklyStats (snd ds))) ->
  Runtime.afterTrades p rng n j ds ->
  exists ds',
    Runtime.runTrades p rng k date ds = Some ds' /\
    Runtime.afterTrades p rng n (j + k) ds' /\
    Runtime.keysOf (Runtime.monthlyStats (snd ds'))
      = Runtime.keysOf (Runtime.monthlyStats (snd ds)) /\
    Runtime.keysOf (Runtime.weeklyStats (snd ds'))
      = Runtime.keysOf (Runtime.weeklyStats (snd ds)).
Proof.
  induction k as [|k IH]; intros j ds Hm Hw Hinv; cbn [Runtime.runTrades].
  - exists ds. rewrite Nat.add_0_r. auto.
  - destruct (rt_runTrade_total date ds Hm Hw) as [ds1 E]. rewrite E.
    destruct (rt_runTrade_keys _ _ _ E) as [Km Kw].
    destruct (IH (S j) ds1) as (ds' & Hrun & Hinv' & Km' & Kw').
    + now rewrite Km.
    + now rewrite Kw.
    + eapply rt_runTrade_step; eauto.
    + exists ds'. split; [exact Hrun|].
      split; [now rewrite <- Nat.add_succ_comm|]. split; congruence.
Qed.

(** One day moves [afterDays] from [n] to [n + 1]. *)
Lemma rt_runDay_step date n st :
  In (month date) (Runtime.keysOf (Runtime.monthlyStats st)) ->
  In (week date) (Runtime.keysOf (Runtime.weeklyStats st)) ->
  Runtime.afterDays p rng n st ->
  exists st',
    Runtime.runDay p rng date st = Some st' /\
    Runtime.afterDays p rng (S n) st' /\
    Runtime.keysOf (Runtime.monthlyStats st')
      = Runtime.keysOf (Runtime.monthlyStats st) /\
    Runtime.keysOf (Runtime.weeklyStats st')
      = Runtime.keysOf (Runtime.weeklyStats st).
Proof.
  intros Hm Hw (Hc & Ht & Hwn & Hls & He & Hcurve). unfold Runtime.runDay.
  destruct (rt_runTrades_steps date n (Runtime.tradesPerDay p) 0
              (Runtime.runningEquity st, st) Hm Hw)
    as (ds & Hrun & (Hc' & Ht' & Hwn' & Hls' & He' & Hcurve') & Km & Kw).
  { unfold Runtime.afterTrades. cbn [fst snd].
    rewrite Nat.add_0_r. repeat split; assumption. }
  rewrite Hrun. exists (Runtime.closeDay date ds).
  split; [reflexivity|]. cbn [snd] in Km, Kw.
  split; [|split; assumption].
  unfold Runtime.afterDays, Runtime.closeDay.
  cbn [Runtime.randomCalls Runtime.counts Runtime.runningEquity
       Runtime.equityCurve].
  assert (Hcalls : Runtime.randomCalls (snd ds)
                   = (S n * Runtime.tradesPerDay p)%nat) by (rewrite Hc'; lia).
  split; [exact Hcalls|]. split; [exact Ht'|]. split; [exact Hwn'|].
  split; [exact Hls'|]. split; [exact He'|].
  rewrite map_app, Hcurve'. cbn [map Runtime.ep_equity].
  rewrite (seq_S (S n) 0), map_app. cbn [map Nat.add].
  now rewrite He', Hcalls.
Qed.

Lemma rt_runDays_steps dates : forall n st,
  Runtime.keysCover dates st ->
  Runtime.afterDays p rng n st ->
  exists st',
    Runtime.runDays p rng dates st = Some st' /\
    Runtime.afterDays p rng (n + List.length dates) st'.
Proof.
  induction dates as [|d dates IH]; intros n st Hcover Hinv;
    cbn [Runtime.runDays List.length].
  - exists st. rewrite Nat.add_0_r. auto.
  - destruct (Hcover d (or_introl eq_refl)) as [Hm Hw].
    destruct (rt_runDay_step d n st Hm Hw Hinv)
      as (st1 & E & Hinv1 & Km & Kw).
    rewrite E. destruct (IH (S n) st1) as (st' & Hrun & Hinv').
    + intros d' Hd'. destruct (Hcover d' (or_intror Hd')).
      split; congruence.
    + exact Hinv1.
    + exists st'. split; [exact Hrun|]. now rewrite <- Nat.add_succ_comm.
Qed.

Lemma rt_initState_cover dates :
  Runtime.keysCover dates (Runtime.initState p dates).
Proof.
  intros d Hd. unfold Runtime.initState, Runtime.registerBuckets.
  cbn [Runtime.monthlyStats Runtime.weeklyStats].
  destruct (rt_registerBuckets_keys dates [] [] (month d)) as [Hm _].
  destruct (rt_registerBuckets_keys dates [] [] (week d)) as [_ Hw].
  cbv zeta in Hm, Hw. split.
  - apply Hm. right. now apply in_map.
  - apply Hw. right. now apply in_map.
Qed.

(** Every run over a non-empty calendar returns, in the state
    [afterDays] describes. *)
Lemma rt_simulate_steps d0 dates :
  exists st,
    Runtime.simulate p rng (d0 :: dates) = Some st /\
    Runtime.afterDays p rng (List.length (d0 :: dates)) st.
Proof.
  unfold Runtime.simulate.
  destruct (rt_runDays_steps (d0 :: dates) 0
              (Runtime.initState p (d0 :: dates)))
    as (st & Hrun & Hinv).
  - apply rt_initState_cover.
  - unfold Runtime.afterDays, Runtime.initState.
    cbn [Runtime.randomCalls Runtime.counts Runtime.runningEquity
         Runtime.equityCurve Runtime.seedCurve totalTrades totalWins
         totalLosses map seq Runtime.ep_equity].
    repeat split.
  - exists st. split; [exact Hrun|exact Hinv].
Qed.

End RuntimeFacts.

(** ** The final equity *)

Lemma rt_accumulate_app (p : Runtime.SimulationSettings)
  (rng : nat -> B64.num) (a b : nat) :
  Runtime.equityAfterTrades p rng (a + b)
  = Runtime.accumulate p (map (Runtime.isWinAt p rng) (seq a b))
      (Runtime.equityAfterTrades p rng a).
Proof.
  unfold Runtime.equityAfterTrades, Runtime.accumulate, Runtime.outcomes.
  now rewrite seq_app, map_app, fold_left_app.
Qed.

Lemma rt_outcomes_length (p : Runtime.SimulationSettings)
  (rng : nat -> B64.num) (n : nat) :
  List.length (Runtime.outcomes p rng n) = n.
Proof. unfold Runtime.outcomes. now rewrite length_map, length_seq. Qed.

(** C9, amended. For every run of the effect in binary64, over any
    calendar: the run returns; the final equity is the starting equity
    with, for each trade in the order of the draws, the reward
    ([riskPerTrade * riskRewardRatio]) added for a win or [riskPerTrade]
    subtracted for a loss, each sum rounded; the reward is added
    [totalWins] times and the risk subtracted [totalLosses] times, on
    [totalWins + totalLosses = totalTrades] trades;
    [totalProfit = finalEquity - initialEquity]; and the last point of a
    non-empty equity curve carries exactly the final equity. *)
Theorem finalEquity_accumulated (p : Runtime.SimulationSettings)
  (rng : nat -> B64.num) (dates : list DateInfo) :
  exists st s,
    Runtime.simulate p rng dates = Some st /\
    Runtime.runOver p rng dates = Some s /\
    Runtime.s_totalTrades s
      = (List.length dates * Runtime.tradesPerDay p)%nat /\
    Runtime.s_finalEquity s
      = Runtime.accumulate p
          (Runtime.outcomes p rng (Runtime.s_totalTrades s))
          (Runtime.startingEquity p) /\
    totalWins (Runtime.counts st)
      = countOf true (Runtime.outcomes p rng (Runtime.s_totalTrades s)) /\
    totalLosses (Runtime.counts st)
      = countOf false (Runtime.outcomes p rng (Runtime.s_totalTrades s)) /\
    (totalWins (Runtime.counts st) + totalLosses (Runtime.counts st))%nat
      = Runtime.s_totalTrades s /\
    Runtime.s_initialEquity s = Runtime.startingEquity p /\
    Runtime.s_totalProfit s
      = B64.sub (Runtime.s_finalEquity s) (Runtime.s_initialEquity s) /\
    (Runtime.s_equityCurve s = [] \/
     exists pts pt, Runtime.s_equityCurve s = pts ++ [pt] /\
                    Runtime.ep_equity pt = Runtime.s_finalEquity s).
Proof.
  destruct dates as [|d0 dates].
  - exists (Runtime.initState p []), (Runtime.summarize p [] (Runtime.initState p [])).
    repeat split. now left.
  - destruct (rt_simulate_steps p rng d0 dates)
      as (st & Hsim & Hc & Ht & Hw & Hl & He & Hcurve).
    exists st, (Runtime.summarize p (d0 :: dates) st).
    split; [exact Hsim|].
    split; [unfold Runtime.runOver; now rewrite Hsim|].
    unfold Runtime.summarize.
    cbn [Runtime.s_totalTrades Runtime.s_finalEquity Runtime.s_initialEquity
         Runtime.s_totalProfit Runtime.s_equityCurve].
    rewrite Ht.
    split; [exact Hc|]. split; [exact He|]. split; [exact Hw|].
    split; [exact Hl|].
    split; [rewrite Hw, Hl, countOf_total; apply rt_outcomes_length|].
    split; [reflexivity|]. split; [reflexivity|]. right.
    rewrite seq_S, map_app in Hcurve. cbn [map Nat.add] in Hcurve.
    destruct (@exists_last _ (Runtime.equityCurve st)) as (pts & pt & Epts).
    { intros E. rewrite E in Hcurve. symmetry in Hcurve.
      apply app_eq_nil in Hcurve. destruct Hcurve as [_ Hcurve].
      discriminate Hcurve. }
    exists pts, pt. split; [exact Epts|].
    rewrite Epts, map_app in Hcurve. cbn [map] in Hcurve.
    apply app_inj_tail in Hcurve. destruct Hcurve as [_ Hpt].
    rewrite Hpt, He, Hc. reflexivity.
Qed.

(** C9, counterexample. One trading day (UTC), three losing trades of
    risk 1.1 from a starting equity of 1000: the final equity is
    [1000 - 1.1 - 1.1 - 1.1] rounded after each subtraction, which is
    neither [1000 + 0 * (1.1 * 2) - 3 * 1.1] evaluated in binary64 nor
    the exact value of that expression. *)
Lemma finalEquity_closed_form_rounds :
  exists dates st s,
    Runtime.tradingDays Local.utc threeTrades64 = Some dates /\
    Runtime.simulate threeTrades64 draw64NineTenths dates = Some st /\
    Runtime.runSimulation Local.utc threeTrades64 draw64NineTenths = Some s /\
    totalWins (Runtime.counts st) = 0%nat /\
    totalLosses (Runtime.counts st) = 3%nat /\
    Runtime.s_finalEquity s <> Runtime.closedForm threeTrades64 0 3 /\
    ~ (B64.toQ (Runtime.s_finalEquity s)
       == Runtime.closedFormExact threeTrades64 0 3)%Q.
Proof.
  eexists. eexists. eexists.
  split; [vm_compute; reflexivity|].
  split; [vm_compute; reflexivity|].
  split; [vm_compute; reflexivity|].
  split; [reflexivity|]. split; [reflexivity|].
  split; vm_compute; discriminate.
Qed.

(** ** The equity curve, day by day *)

Lemma nth_error_map_seq {A} (f : nat -> A) (m i : nat) (x : A) :
  nth_error (map f (seq 0 m)) i = Some x -> x = f i.
Proof.
  intros H.
  assert (Hi : (i < m)%nat).
  { assert (Hlen : List.length (map f (seq 0 m)) = m)
      by now rewrite length_map, length_seq.
    rewrite <- Hlen. apply nth_error_Some. congruence. }
  apply (nth_error_nth _ _ (f 0%nat)) in H.
  rewrite map_nth, seq_nth in H by assumption. now subst x.
Qed.

(** X12. Each point of the equity curve follows the point before it by
    one day of trades: the equity of point [i + 1] is that of point [i]
    with the trades of day [i] applied in order, the reward added for a
    win and the risk subtracted for a loss, each sum rounded in binary64
    (lines 161-250). *)
Theorem equityCurve_daily_steps (p : Runtime.SimulationSettings)
  (rng : nat -> B64.num) (dates : list DateInfo) :
  exists s, Runtime.runOver p rng dates = Some s /\
    forall i a b,
      nth_error (Runtime.s_equityCurve s) i = Some a ->
      nth_error (Runtime.s_equityCurve s) (S i) = Some b ->
      Runtime.ep_equity b
      = Runtime.accumulate p (Runtime.dayTrades p rng i)
          (Runtime.ep_equity a).
Proof.
  destruct dates as [|d0 dates].
  - exists (Runtime.summarize p [] (Runtime.initState p [])).
    split; [reflexivity|]. intros [|i] a b H; discriminate H.
  - destruct (rt_simulate_steps p rng d0 dates)
      as (st & Hsim & _ & _ & _ & _ & _ & Hcurve).
    exists (Runtime.summarize p (d0 :: dates) st).
    split; [unfold Runtime.runOver; now rewrite Hsim|].
    cbn [Runtime.summarize Runtime.s_equityCurve]. intros i a b Ha Hb.
    apply (map_nth_error Runtime.ep_equity) in Ha, Hb.
    rewrite Hcurve in Ha, Hb.
    apply nth_error_map_seq in Ha, Hb. rewrite Ha, Hb.
    unfold Runtime.dayTrades. rewrite <- rt_accumulate_app.
    f_equal. simpl. lia.
Qed.

(** The day of [threeTrades64]: the second point is the first less 1.1
    three times over. *)
Lemma equityCurve_daily_steps_witness :
  exists s a b,
    Runtime.runOver threeTrades64 draw64NineTenths
      (generateDates jan_1_2025 jan_1_2025) = Some s /\
    nth_error (Runtime.s_equityCurve s) 1 = Some b /\
    Runtime.ep_equity a = B64.of_Z 1000 /\
    Runtime.ep_equity b
    = B64.sub (B64.sub (B64.sub (Runtime.ep_equity a) (B64.decimal 11 1))
                       (B64.decimal 11 1)) (B64.decimal 11 1).
Proof.
  destruct (equityCurve_daily_steps threeTrades64 draw64NineTenths
              (generateDates jan_1_2025 jan_1_2025)) as (s & Hrun & Hstep).
  assert (Hs := Hrun). vm_compute in Hs. injection Hs as Hs.
  assert (Ha : exists a, nth_error (Runtime.s_equityCurve s) 0 = Some a /\
                         Runtime.ep_equity a = B64.of_Z 1000)
    by (rewrite <- Hs; eexists; split; reflexivity).
  assert (Hb : exists b, nth_error (Runtime.s_equityCurve s) 1 = Some b)
    by (rewrite <- Hs; eexists; reflexivity).
  destruct Ha as (a & Ha & Hstart). destruct Hb as (b & Hb).
  exists s, a, b. split; [exact Hrun|]. split; [exact Hb|].
  split; [exact Hstart|].
  rewrite (Hstep 0%nat a b Ha Hb). reflexivity.
Defined.

(** ** The fallbacks of the summary in binary64 *)

Lemma b64_sub_self (x : B64.num) :
  B64.is_finite x = true -> B64.sub x x = S754_zero false.
Proof.
  destruct x as [[|]| |  |s m e]; try discriminate; intros _;
    try reflexivity.
  unfold B64.sub, SFsub. rewrite Z.sub_diag. reflexivity.
Qed.

Lemma b64_mul_zero (x : B64.num) :
  B64.is_finite x = true -> B64.lt (B64.of_Z 0) x = true ->
  B64.mul x (B64.of_nat 0) = S754_zero false.
Proof.
  destruct x as [[|]| |  |[|] m e]; try discriminate; reflexivity.
Qed.

(** X20. In binary64, for parameters in the stated ranges, a run whose
    range holds no trading day returns the starting equity and the
    fallback of every rate: the configured win rate, 0 for the averages
    per day and per week (the [0 / 0] of line 256), the configured
    trades per day, and a total profit and a maximum drawdown of 0
    (lines 254-258). *)
Theorem no_trading_day_fallbacks (zone : Local.Zone)
  (p : Runtime.SimulationSettings) (rng : nat -> B64.num) :
  Runtime.validRanges p ->
  Runtime.tradingDays zone p = Some [] ->
  exists s,
    Runtime.runSimulation zone p rng = Some s /\
    Runtime.s_totalTrades s = 0%nat /\
    Runtime.s_winRate s = Runtime.winRate p /\
    Runtime.s_avgRPerDay s = B64.of_Z 0 /\
    Runtime.s_avgRPerWeek s = B64.of_Z 0 /\
    Runtime.s_avgTradesPerDay s = B64.of_nat (Runtime.tradesPerDay p) /\
    Runtime.s_finalEquity s = Runtime.startingEquity p /\
    Runtime.s_totalProfit s = B64.of_Z 0 /\
    Runtime.s_maxDrawdown s = B64.of_Z 0.
Proof.
  intros (_ & _ & _ & _ & Frisk & Prisk & _ & _ & Fstart) Hdays.
  exists (Runtime.summarize p [] (Runtime.initState p [])).
  split; [unfold Runtime.runSimulation; rewrite Hdays; reflexivity|].
  unfold Runtime.summarize, Runtime.initState, Runtime.initialEquity.
  cbn [Runtime.s_totalTrades Runtime.s_winRate Runtime.s_avgRPerDay
       Runtime.s_avgRPerWeek Runtime.s_avgTradesPerDay Runtime.s_finalEquity
       Runtime.s_totalProfit Runtime.s_maxDrawdown Runtime.counts
       Runtime.runningEquity Runtime.drawdown Runtime.maxDrawdown
       totalWins totalLosses totalTrades List.length].
  rewrite (b64_sub_self _ Fstart), (b64_mul_zero _ Frisk Prisk).
  repeat split.
Qed.

(** A weekend in UTC. *)
Lemma no_trading_day_fallbacks_witness :
  exists s,
    Runtime.runSimulation Local.utc weekend64 draw64NineTenths = Some s /\
    Runtime.s_avgRPerDay s = B64.of_Z 0 /\
    Runtime.s_winRate s = B64.of_Z 50.
Proof.
  destruct (no_trading_day_fallbacks Local.utc weekend64 draw64NineTenths)
    as (s & Hrun & _ & Hrate & Hday & _).
  - unfold Runtime.validRanges. repeat split; vm_compute; lia.
  - vm_compute. reflexivity.
  - exists s. split; [exact Hrun|]. split; [exact Hday|]. exact Hrate.
Defined.

(** ** The divisor of the drawdown percentage *)

Lemma b64_lt_pos_trans (a b : B64.num) :
  B64.lt (B64.of_Z 0) a = true -> B64.lt a b = true ->
  B64.lt (B64.of_Z 0) b = true.
Proof.
  destruct a as [[|]|[|]| |[|] ma ea], b as [[|]|[|]| |[|] mb eb];
    try discriminate; try reflexivity.
Qed.

Lemma b64_le_nonneg_trans (a b : B64.num) :
  B64.le (B64.of_Z 0) a = true -> B64.lt a b = true ->
  B64.le (B64.of_Z 0) b = true.
Proof.
  destruct a as [[|]|[|]| |[|] ma ea], b as [[|]|[|]| |[|] mb eb];
    try discriminate; try reflexivity.
Qed.

Lemma b64_le_not_nan (a b : B64.num) : B64.le a b = true -> b <> B64.NaN.
Proof.
  destruct a as [[|]|[|]| |[|] ma ea], b as [[|]|[|]| |[|] mb eb];
    try discriminate; intros _ H; discriminate H.
Qed.

Lemma rt_updateDrawdown_positive label dayEquity (d : Runtime.Drawdown) :
  Runtime.peakPositive d -> Runtime.peakPositive (Runtime.updateDrawdown label dayEquity d).
Proof.
  intros [Hpeak Hmax]. unfold Runtime.updateDrawdown, Runtime.peakPositive.
  destruct (B64.gt dayEquity (Runtime.peakEquity d)) eqn:Hgt.
  - cbn [Runtime.peakEquity Runtime.maxDrawdown]. split; [|exact Hmax].
    exact (b64_lt_pos_trans _ _ Hpeak Hgt).
  - cbv zeta.
    destruct (B64.gt (Runtime.drawdownPercentage (Runtime.peakEquity d)
                        dayEquity) (Runtime.currentDrawdown d));
      [|now split].
    cbn [Runtime.peakEquity Runtime.maxDrawdown]. split; [exact Hpeak|].
    destruct (B64.gt (Runtime.drawdownPercentage (Runtime.peakEquity d)
                        dayEquity) (Runtime.maxDrawdown d)) eqn:Hm;
      [|exact Hmax].
    exact (b64_le_nonneg_trans _ _ Hmax Hm).
Qed.

Section RuntimeDrawdown.

Variable p : Runtime.SimulationSettings.
Variable rng : nat -> B64.num.

Lemma rt_runTrade_drawdown date ds ds' :
  Runtime.runTrade p rng date ds = Some ds' ->
  Runtime.drawdown (snd ds') = Runtime.drawdown (snd ds).
Proof.
  unfold Runtime.runTrade.
  destruct (Runtime.bucket_update (month date) _ _); [|discriminate].
  destruct (Runtime.bucket_update (week date) _ _); [|discriminate].
  intros [= <-]. reflexivity.
Qed.

Lemma rt_runTrades_drawdown date n : forall ds,
  In (month date) (Runtime.keysOf (Runtime.monthlyStats (snd ds))) ->
  In (week date) (Runtime.keysOf (Runtime.weeklyStats (snd ds))) ->
  exists ds',
    Runtime.runTrades p rng n date ds = Some ds' /\
    Runtime.drawdown (snd ds') = Runtime.drawdown (snd ds) /\
    Runtime.keysOf (Runtime.monthlyStats (snd ds'))
      = Runtime.keysOf (Runtime.monthlyStats (snd ds)) /\
    Runtime.keysOf (Runtime.weeklyStats (snd ds'))
      = Runtime.keysOf (Runtime.weeklyStats (snd ds)).
Proof.
  induction n as [|n IH]; intros ds Hm Hw; cbn [Runtime.runTrades].
  - exists ds. auto.
  - destruct (rt_runTrade_total p rng date ds Hm Hw) as [ds1 E]. rewrite E.
    destruct (rt_runTrade_keys p rng _ _ _ E) as [Km Kw].
    pose proof (rt_runTrade_drawdown _ _ _ E) as Hd.
    destruct (IH ds1) as (ds' & Hrun & Hd' & Km' & Kw').
    + now rewrite Km.
    + now rewrite Kw.
    + exists ds'. split; [exact Hrun|]. repeat split; congruence.
Qed.

Lemma rt_runDays_positive dates : forall st,
  Runtime.keysCover dates st ->
  Runtime.peakPositive (Runtime.drawdown st) ->
  exists st',
    Runtime.runDays p rng dates st = Some st' /\
    Runtime.peakPositive (Runtime.drawdown st').
Proof.
  induction dates as [|d dates IH]; intros st Hcover Hpos;
    cbn [Runtime.runDays].
  - exists st. auto.
  - destruct (Hcover d (or_introl eq_refl)) as [Hm Hw].
    unfold Runtime.runDay.
    destruct (rt_runTrades_drawdown d (Runtime.tradesPerDay p)
                (Runtime.runningEquity st, st) Hm Hw)
      as (ds & Hrun & Hd & Km & Kw).
    rewrite Hrun. cbn [snd] in Hd, Km, Kw.
    apply IH.
    + intros d' Hd'. destruct (Hcover d' (or_intror Hd')).
      unfold Runtime.closeDay.
      cbn [Runtime.monthlyStats Runtime.weeklyStats]. split; congruence.
    + unfold Runtime.closeDay. cbn [Runtime.drawdown]. rewrite Hd.
      now apply rt_updateDrawdown_positive.
Qed.

End RuntimeDrawdown.

(** X25. In binary64, with a positive starting equity: at the start of
    every day of every run the peak equity is positive, so the drawdown
    percentage of line 226 never divides by zero, and the maximum
    drawdown recorded so far is neither negative nor [NaN] (lines
    219-241). *)
Theorem drawdown_divisor_positive (p : Runtime.SimulationSettings)
  (rng : nat -> B64.num) (done rest : list DateInfo) :
  B64.lt (B64.of_Z 0) (Runtime.startingEquity p) = true ->
  exists st,
    Runtime.runDays p rng done (Runtime.initState p (done ++ rest))
      = Some st /\
    B64.lt (B64.of_Z 0) (Runtime.peakEquity (Runtime.drawdown st)) = true /\
    B64.le (B64.of_Z 0) (Runtime.maxDrawdown (Runtime.drawdown st)) = true /\
    Runtime.maxDrawdown (Runtime.drawdown st) <> B64.NaN.
Proof.
  intros Hpos.
  destruct (rt_runDays_positive p rng done
              (Runtime.initState p (done ++ rest)))
    as (st & Hrun & Hpeak & Hmax).
  - intros d Hd. apply (rt_initState_cover p (done ++ rest)).
    apply in_or_app. now left.
  - split; [exact Hpos|reflexivity].
  - exists st. split; [exact Hrun|]. split; [exact Hpeak|].
    split; [exact Hmax|]. exact (b64_le_not_nan _ _ Hmax).
Qed.

(** The day of [threeTrades64], three losses: the peak stays 1000. *)
Lemma drawdown_divisor_positive_witness :
  exists st,
    Runtime.runDays threeTrades64 draw64NineTenths
      (generateDates jan_1_2025 jan_1_2025)
      (Runtime.initState threeTrades64
         (generateDates jan_1_2025 jan_1_2025 ++ []))
    = Some st /\
    Runtime.peakEquity (Runtime.drawdown st) = B64.of_Z 1000.
Proof.
  destruct (drawdown_divisor_positive threeTrades64 draw64NineTenths
              (generateDates jan_1_2025 jan_1_2025) [])
    as (st & Hrun & _); [reflexivity|].
  exists st. split; [exact Hrun|].
  vm_compute in Hrun. injection Hrun as <-. reflexivity.
Defined.

(* ===================================================================== *)
(** ** Binary floating-point rounding *)

Lemma pow2_pos (k : Z) : 0 <= k -> 0 < 2 ^ k.
Proof. intros. apply Z.pow_pos_nonneg; lia. Qed.

Lemma pow2_split (a b : Z) : 0 <= a -> 0 <= b -> 2 ^ (a + b) = 2 ^ a * 2 ^ b.
Proof. intros. apply Z.pow_add_r; assumption. Qed.

Lemma pow2_le (a b : Z) : a <= b -> 2 ^ a <= 2 ^ b.
Proof. intros. apply Z.pow_le_mono_r; lia. Qed.

Lemma pow2_lt (a b : Z) : 0 <= b -> a < b -> 2 ^ a < 2 ^ b.
Proof. intros. apply Z.pow_lt_mono_r; lia. Qed.

Lemma digits2_pos_size (p : positive) : digits2_pos p = Pos.size p.
Proof. induction p; cbn [digits2_pos Pos.size]; congruence. Qed.

Lemma Zdigits2_log2 (m : Z) : 0 < m -> Zdigits2 m = Z.log2 m + 1.
Proof.
  destruct m as [|p|p]; try lia. intros _. cbn [Zdigits2].
  destruct p; cbn [digits2_pos Z.log2]; rewrite ?digits2_pos_size; lia.
Qed.

Lemma Zdigits2_nonneg (m : Z) : 0 <= Zdigits2 m.
Proof. destruct m; cbn [Zdigits2]; lia. Qed.

Lemma Zdigits2_pos (m : Z) : 0 < m -> 0 < Zdigits2 m.
Proof. destruct m; cbn [Zdigits2]; lia. Qed.

Lemma Zdigits2_spec (m : Z) :
  0 < m -> 2 ^ (Zdigits2 m - 1) <= m < 2 ^ Zdigits2 m.
Proof.
  intros H. rewrite (Zdigits2_log2 m H).
  replace (Z.log2 m + 1 - 1) with (Z.log2 m) by lia.
  apply (Z.log2_spec m H).
Qed.

Lemma Zdigits2_le (m k : Z) : 0 <= m -> 0 <= k -> m < 2 ^ k -> Zdigits2 m <= k.
Proof.
  intros Hm Hk H. destruct (Z.eq_dec m 0) as [->|Hne]; [cbn; lia|].
  rewrite Zdigits2_log2 by lia.
  apply (Z.log2_lt_pow2 m k) in H; lia.
Qed.

Lemma Zdigits2_gt (m k : Z) : 0 < m -> 2 ^ k <= m -> k < Zdigits2 m.
Proof.
  intros Hm H. rewrite Zdigits2_log2 by lia.
  apply (Z.log2_le_pow2 m k) in H; lia.
Qed.

Lemma Zdigits2_mono (a b : Z) : 0 <= a -> a <= b -> Zdigits2 a <= Zdigits2 b.
Proof.
  intros Ha Hab. destruct (Z.eq_dec a 0) as [->|Hne].
  - apply Zdigits2_nonneg.
  - rewrite !Zdigits2_log2 by lia. pose proof (Z.log2_le_mono a b Hab). lia.
Qed.

Lemma Zdigits2_mul_pow2 (m k : Z) :
  0 < m -> 0 <= k -> Zdigits2 (m * 2 ^ k) = Zdigits2 m + k.
Proof.
  intros Hm Hk. pose proof (pow2_pos k Hk).
  rewrite !Zdigits2_log2 by nia. rewrite Z.log2_mul_pow2 by lia. lia.
Qed.

Lemma Zdigits2_div_pow2 (m k : Z) :
  0 < m -> 0 <= k -> k < Zdigits2 m -> Zdigits2 (m / 2 ^ k) = Zdigits2 m - k.
Proof.
  intros Hm Hk Hlt. pose proof (pow2_pos k Hk).
  assert (Hq : 0 < m / 2 ^ k).
  { apply Z.div_str_pos. split; [lia|].
    destruct (Zdigits2_spec m Hm) as [Hlo _].
    pose proof (pow2_le k (Zdigits2 m - 1)). lia. }
  rewrite !Zdigits2_log2 by lia.
  rewrite <- Z.shiftr_div_pow2 by lia.
  rewrite Z.log2_shiftr by lia.
  rewrite Zdigits2_log2 in Hlt by lia. lia.
Qed.

Lemma Zdigits2_succ (m : Z) : 0 <= m -> Zdigits2 (m + 1) <= Zdigits2 m + 1.
Proof.
  intros Hm. destruct (Z.eq_dec m 0) as [->|Hne]; [cbn; lia|].
  rewrite !Zdigits2_log2 by lia.
  pose proof (Z.log2_succ_le m). unfold Z.succ in *. lia.
Qed.

Lemma Zdigits2_mul (a b : Z) :
  0 < a -> 0 < b ->
  Zdigits2 a + Zdigits2 b - 1 <= Zdigits2 (a * b) <= Zdigits2 a + Zdigits2 b.
Proof.
  intros Ha Hb. rewrite !Zdigits2_log2 by nia.
  pose proof (Z.log2_mul_below a b Ha Hb).
  pose proof (Z.log2_mul_above a b). lia.
Qed.

Lemma iter_xO_pow2 (m d : positive) :
  Z.pos (Pos.iter xO m d) = Z.pos m * 2 ^ Z.pos d.
Proof.
  induction d as [|d IH] using Pos.peano_ind.
  - cbn [Pos.iter]. rewrite Z.pow_1_r. lia.
  - rewrite Pos.iter_succ, Pos2Z.inj_xO, IH, Pos2Z.inj_succ.
    unfold Z.succ. rewrite pow2_split by lia. rewrite Z.pow_1_r. lia.
Qed.

Lemma shr_1_m (r : shr_record) :
  0 <= shr_m r -> shr_m (shr_1 r) = shr_m r / 2.
Proof.
  destruct r as [m rb sb]. cbn [shr_m]. intros Hm.
  rewrite <- Z.div2_div.
  destruct m as [|[p|p|]|p]; try lia; reflexivity.
Qed.

Lemma iter_pos_shr_m (p : positive) : forall r,
  0 <= shr_m r -> shr_m (iter_pos shr_1 p r) = shr_m r / 2 ^ Z.pos p.
Proof.
  induction p as [p IH|p IH|]; intros r Hr; cbn [iter_pos].
  - assert (H1 : 0 <= shr_m (shr_1 r)).
    { rewrite shr_1_m by assumption. apply Z.div_pos; lia. }
    assert (H2 : 0 <= shr_m (iter_pos shr_1 p (shr_1 r))).
    { rewrite IH by assumption. apply Z.div_pos; [lia|apply pow2_pos; lia]. }
    rewrite IH, IH, shr_1_m by assumption.
    pose proof (pow2_pos (Z.pos p) ltac:(lia)).
    rewrite !Z.div_div by lia.
    f_equal.
    replace (Z.pos p~1) with (1 + Z.pos p + Z.pos p) by lia.
    rewrite !pow2_split by lia. rewrite Z.pow_1_r. lia.
  - assert (H2 : 0 <= shr_m (iter_pos shr_1 p r)).
    { rewrite IH by assumption. apply Z.div_pos; [lia|apply pow2_pos; lia]. }
    rewrite IH, IH by assumption.
    pose proof (pow2_pos (Z.pos p) ltac:(lia)).
    rewrite !Z.div_div by lia.
    f_equal.
    replace (Z.pos p~0) with (Z.pos p + Z.pos p) by lia.
    rewrite !pow2_split by lia. lia.
  - rewrite shr_1_m by assumption. rewrite Z.pow_1_r. reflexivity.
Qed.

Lemma shr_m_of_loc (m : Z) (l : location) : shr_m (shr_record_of_loc m l) = m.
Proof. destruct l as [|[| |]]; reflexivity. Qed.

Lemma round_nearest_even_bounds (m : Z) (l : location) :
  m <= round_nearest_even m l <= m + 1.
Proof.
  unfold round_nearest_even. destruct l as [|[| |]]; try lia.
  destruct (Z.even m); lia.
Qed.

Section Rounding.

Variables prec emax : Z.
Hypothesis Hprec : 0 < prec.
Hypothesis Hemax : prec < emax.

Lemma fexp_ge_emin (e : Z) : emin prec emax <= fexp prec emax e.
Proof. unfold fexp. lia. Qed.

Lemma fexp_mono (a b : Z) : a <= b -> fexp prec emax a <= fexp prec emax b.
Proof. unfold fexp. lia. Qed.

(** One right shift to the exponent of the format. *)
Lemma shr_fexp_spec (m e : Z) (l : location) :
  0 <= m ->
  let n := fexp prec emax (Zdigits2 m + e) - e in
  let r := shr_fexp prec emax m e l in
  (n <= 0 /\ shr_m (fst r) = m /\ snd r = e) \/
  (0 < n /\ shr_m (fst r) = m / 2 ^ n /\ snd r = e + n).
Proof.
  intros Hm n r. unfold r, shr_fexp, shr. fold n.
  destruct n as [|p|p] eqn:En.
  - left. cbn [fst snd]. rewrite shr_m_of_loc. lia.
  - right. cbn [fst snd]. rewrite iter_pos_shr_m by (rewrite shr_m_of_loc; lia).
    rewrite shr_m_of_loc. lia.
  - left. cbn [fst snd]. rewrite shr_m_of_loc. lia.
Qed.

(** The result of rounding [mx * 2^ex], for a mantissa that is not
    shorter than the format asks. *)
Lemma binary_round_aux_spec (sx : bool) (mx ex : Z) (lx : location) :
  0 <= mx -> ex <= fexp prec emax (Zdigits2 mx + ex) ->
  exists m3 e3,
    0 <= m3 /\
    binary_round_aux prec emax sx mx ex lx
    = match m3 with
      | Z0 => S754_zero sx
      | Zpos m => if e3 <=? emax - prec then S754_finite sx m e3
                  else S754_infinity sx
      | Zneg _ => S754_nan
      end /\
    ex <= e3 /\
    (0 < m3 -> fexp prec emax (Zdigits2 m3 + e3) = e3) /\
    m3 * 2 ^ (e3 - ex)
      <= mx + 2 ^ (fexp prec emax (Zdigits2 mx + ex) - ex) /\
    (0 < m3 ->
     Zdigits2 m3 + e3 <= Z.max (Zdigits2 mx + ex) (emin prec emax) + 1) /\
    (emin prec emax < Zdigits2 mx + ex ->
     0 < m3 /\ Zdigits2 mx + ex <= Zdigits2 m3 + e3).
Proof.
  intros Hm Hn.
  set (d := Zdigits2 mx) in *.
  set (n1 := fexp prec emax (d + ex) - ex).
  assert (Hn1 : 0 <= n1) by (unfold n1; lia).
  pose proof (Zdigits2_nonneg mx) as Hd. fold d in Hd.
  unfold binary_round_aux.
  pose proof (shr_fexp_spec mx ex lx Hm) as S1. cbv zeta in S1. fold d n1 in S1.
  destruct (shr_fexp prec emax mx ex lx) as [r1 e1]. cbn [fst snd] in S1.
  set (m1 := shr_m r1) in *.
  assert (Hm1 : m1 = mx / 2 ^ n1 /\ e1 = ex + n1).
  { destruct S1 as [(H0 & -> & ->)|(H0 & -> & ->)].
    - assert (n1 = 0) as -> by lia. rewrite Z.pow_0_r, Z.div_1_r. lia.
    - lia. }
  clear S1. destruct Hm1 as [Em1 Ee1].
  pose proof (pow2_pos n1 Hn1) as Hp1.
  assert (Hm1nn : 0 <= m1) by (rewrite Em1; apply Z.div_pos; lia).
  assert (Hm1le : m1 * 2 ^ n1 <= mx).
  { rewrite Em1. pose proof (Z.mul_div_le mx (2 ^ n1) Hp1). lia. }
  set (m2 := round_nearest_even m1 (loc_of_shr_record r1)).
  pose proof (round_nearest_even_bounds m1 (loc_of_shr_record r1)) as Hm2.
  fold m2 in Hm2.
  assert (Hm2nn : 0 <= m2) by lia.
  pose proof (shr_fexp_spec m2 e1 loc_Exact Hm2nn) as S2. cbv zeta in S2.
  destruct (shr_fexp prec emax m2 e1 loc_Exact) as [r2 e2]. cbn [fst snd] in S2.
  set (D2 := Zdigits2 m2) in S2 |- *.
  set (n2 := fexp prec emax (D2 + e1) - e1) in S2 |- *.
  exists (shr_m r2), e2.
  (* digits of m1 and m2 *)
  assert (Hcases :
    (d <= n1 /\ m1 = 0 /\ e1 = emin prec emax /\ d + ex <= emin prec emax
     /\ 0 <= D2 <= 1) \/
    (n1 < d /\ 0 < m1 /\ Zdigits2 m1 = d - n1
     /\ Zdigits2 m1 <= D2 <= Zdigits2 m1 + 1)).
  { destruct (Z_le_gt_dec d n1) as [Hle|Hgt].
    - left. assert (m1 = 0).
      { rewrite Em1. apply Z.div_small. split; [lia|].
        destruct (Z.eq_dec mx 0) as [->|Hne]; [lia|].
        destruct (Zdigits2_spec mx ltac:(lia)) as [_ Hhi]. fold d in Hhi.
        pose proof (pow2_le d n1 Hle). lia. }
      assert (D2 <= 1).
      { unfold D2. apply Zdigits2_le; [lia|lia|]. rewrite Z.pow_1_r. lia. }
      pose proof (Zdigits2_nonneg m2).
      unfold D2, n1, fexp in *. lia.
    - right. assert (Hmx : 0 < mx).
      { destruct (Z.eq_dec mx 0) as [E|Hne]; [|lia].
        unfold d in Hgt. rewrite E in Hgt. cbn in Hgt. lia. }
      assert (Hd1 : Zdigits2 m1 = d - n1).
      { rewrite Em1. apply Zdigits2_div_pow2; lia. }
      assert (0 < m1).
      { destruct (Z.eq_dec m1 0) as [E|Hne]; [|lia].
        rewrite E in Hd1. cbn in Hd1. lia. }
      pose proof (Zdigits2_mono m1 m2 Hm1nn ltac:(lia)).
      pose proof (Zdigits2_succ m1 Hm1nn).
      pose proof (Zdigits2_mono m2 (m1 + 1) Hm2nn ltac:(lia)).
      unfold D2. lia. }
  assert (Hn2 : n2 <= 1 /\ (0 < n2 -> 1 < D2)).
  { unfold n2, n1, fexp, emin in *. destruct Hcases as [H|H]; lia. }
  assert (Hm3 : (n2 <= 0 /\ shr_m r2 = m2 /\ e2 = e1) \/
                (n2 = 1 /\ shr_m r2 = m2 / 2 /\ e2 = e1 + 1)).
  { destruct S2 as [S2|(H0 & S2 & S2')]; [left; exact S2|right].
    assert (n2 = 1) as E by lia. rewrite E in *.
    rewrite Z.pow_1_r in S2. lia. }
  clear S2.
  split.
  { destruct Hm3 as [(_ & -> & _)|(_ & -> & _)]; [lia|].
    apply Z.div_pos; lia. }
  split; [reflexivity|].
  split; [destruct Hm3 as [H|H]; lia|].
  (* the digits of the result *)
  assert (Hd3 : 0 < shr_m r2 -> Zdigits2 (shr_m r2) + e2 = D2 + e1).
  { intros Hpos. destruct Hm3 as [(_ & E & ->)|(En2 & E & ->)].
    - rewrite E. reflexivity.
    - rewrite E. rewrite <- (Z.pow_1_r 2) at 1.
      rewrite Zdigits2_div_pow2; fold D2; lia. }
  split.
  { intros Hpos. rewrite (Hd3 Hpos).
    destruct Hm3 as [(Hle & E & ->)|(En2 & E & ->)].
    - fold n2. assert (fexp prec emax (D2 + e1) <= e1) by (unfold n2 in Hle; lia).
      assert (e1 <= fexp prec emax (D2 + e1)); [|lia].
      destruct Hcases as [(_ & _ & -> & _)|(Hlt & Hpos1 & Hd1 & HD2)].
      + apply fexp_ge_emin.
      + transitivity (fexp prec emax (Zdigits2 m1 + e1)).
        * rewrite Hd1, Ee1. unfold n1. replace (d - (fexp prec emax (d + ex) - ex) + (ex + (fexp prec emax (d + ex) - ex))) with (d + ex) by lia. lia.
        * apply fexp_mono. lia.
    - unfold n2 in En2. lia. }
  split.
  { assert (Hv2 : m2 * 2 ^ n1 <= mx + 2 ^ n1) by nia.
    destruct Hm3 as [(_ & -> & ->)|(_ & -> & ->)].
    - replace (e1 - ex) with n1 by lia. exact Hv2.
    - replace (e1 + 1 - ex) with (1 + n1) by lia.
      rewrite pow2_split by lia. rewrite Z.pow_1_r.
      pose proof (Z.mul_div_le m2 2 ltac:(lia)). nia. }
  split.
  { intros Hpos. rewrite (Hd3 Hpos).
    destruct Hcases as [H|H]; unfold n1 in *; lia. }
  intros Hmag.
  destruct Hcases as [H|(Hlt & Hpos1 & Hd1 & HD2)]; [lia|].
  assert (Hpos : 0 < shr_m r2).
  { destruct Hm3 as [(_ & -> & _)|(En2 & -> & _)]; [lia|].
    apply Z.div_str_pos. split; [lia|].
    destruct Hn2 as [_ Hn2]. specialize (Hn2 ltac:(lia)).
    destruct (Z_lt_le_dec m2 2) as [Hlt2|]; [|lia].
    assert (D2 <= 1); [|lia].
    unfold D2. apply Zdigits2_le; [lia|lia|]. rewrite Z.pow_1_r. lia. }
  split; [exact Hpos|]. rewrite (Hd3 Hpos). unfold n1 in *. lia.
Qed.

Lemma bounded_spec (m : positive) (e : Z) :
  bounded prec emax m e = true <->
  fexp prec emax (Z.pos (digits2_pos m) + e) = e /\ e <= emax - prec.
Proof.
  unfold bounded, canonical_mantissa.
  rewrite andb_true_iff, Z.eqb_eq, Z.leb_le. reflexivity.
Qed.

(** The three outcomes of a rounding: underflow to zero, overflow, or a
    number of the format within one unit in the last place of the exact
    value. *)
Lemma binary_round_aux_result (sx : bool) (mx ex : Z) (lx : location) :
  0 <= mx -> ex <= fexp prec emax (Zdigits2 mx + ex) ->
  let r := binary_round_aux prec emax sx mx ex lx in
  (r = S754_zero sx /\ Zdigits2 mx + ex <= emin prec emax) \/
  (r = S754_infinity sx /\ emax <= Zdigits2 mx + ex) \/
  (exists m e,
     r = S754_finite sx m e /\ bounded prec emax m e = true /\
     ex <= e /\
     Z.pos m * 2 ^ (e - ex)
       <= mx + 2 ^ (fexp prec emax (Zdigits2 mx + ex) - ex) /\
     Z.pos (digits2_pos m) + e
       <= Z.max (Zdigits2 mx + ex) (emin prec emax) + 1 /\
     (emin prec emax < Zdigits2 mx + ex ->
      Zdigits2 mx + ex <= Z.pos (digits2_pos m) + e)).
Proof.
  intros Hm Hn r.
  destruct (binary_round_aux_spec sx mx ex lx Hm Hn)
    as (m3 & e3 & Hm3 & Er & He & Hcan & Hval & Hmag & Hlow).
  fold r in Er.
  destruct m3 as [|m|m]; [| |lia].
  - left. split; [exact Er|].
    destruct (Z_lt_le_dec (emin prec emax) (Zdigits2 mx + ex)) as [H|H];
      [|exact H].
    destruct (Hlow H). lia.
  - specialize (Hcan ltac:(lia)). specialize (Hmag ltac:(lia)).
    cbn [Zdigits2] in Hcan, Hmag, Hlow.
    destruct (e3 <=? emax - prec) eqn:Ele.
    + right. right. exists m, e3. apply Z.leb_le in Ele.
      split; [exact Er|]. split; [apply bounded_spec; auto|].
      split; [exact He|]. split; [exact Hval|]. split; [exact Hmag|].
      intros H. apply (Hlow H).
    + right. left. split; [exact Er|]. apply Z.leb_gt in Ele.
      unfold fexp, emin in *. lia.
Qed.

Lemma shl_align_spec (mx : positive) (ex ex' : Z) :
  let r := shl_align mx ex ex' in
  snd r = Z.min ex ex' /\
  Z.pos (fst r) = Z.pos mx * 2 ^ (ex - snd r).
Proof.
  unfold shl_align. destruct (ex' - ex) as [|d|d] eqn:E; cbn [fst snd].
  - split; [lia|]. rewrite Z.sub_diag, Z.pow_0_r. lia.
  - split; [lia|]. rewrite Z.sub_diag, Z.pow_0_r. lia.
  - split; [lia|]. rewrite iter_xO_pow2. f_equal. f_equal. lia.
Qed.

(** Rounding of [mx * 2^ex], with the value in units of [2^b]. *)
Lemma binary_round_result (sx : bool) (mx : positive) (ex b : Z) :
  b <= ex -> b <= emin prec emax ->
  let r := binary_round prec emax sx mx ex in
  let mag := Z.pos (digits2_pos mx) + ex in
  (r = S754_zero sx /\ mag <= emin prec emax) \/
  (r = S754_infinity sx /\ emax <= mag) \/
  (exists m e,
     r = S754_finite sx m e /\ bounded prec emax m e = true /\
     Z.pos m * 2 ^ (e - b)
       <= Z.pos mx * 2 ^ (ex - b) + 2 ^ (fexp prec emax mag - b) /\
     Z.pos (digits2_pos m) + e <= Z.max mag (emin prec emax) + 1 /\
     (emin prec emax < mag -> mag <= Z.pos (digits2_pos m) + e)).
Proof.
  intros Hb Hb' r mag. unfold r, binary_round.
  pose proof (shl_align_spec mx ex (fexp prec emax mag)) as Hs.
  fold mag. cbv zeta in Hs.
  destruct (shl_align mx ex (fexp prec emax mag)) as [mz ez].
  cbn [fst snd] in Hs. destruct Hs as [Eez Emz].
  assert (Hez : ez <= ex) by lia.
  assert (Hdz : Zdigits2 (Z.pos mz) + ez = mag).
  { rewrite Emz. rewrite Zdigits2_mul_pow2 by lia. cbn [Zdigits2].
    unfold mag. lia. }
  pose proof (fexp_ge_emin mag) as Hfe.
  assert (Hn : ez <= fexp prec emax (Zdigits2 (Z.pos mz) + ez))
    by (rewrite Hdz; lia).
  destruct (binary_round_aux_result sx (Z.pos mz) ez loc_Exact
              ltac:(lia) Hn) as [H|[H|H]]; rewrite Hdz in H.
  - left. exact H.
  - right. left. exact H.
  - right. right. destruct H as (m & e & Er & Hbd & He & Hval & Hmag & Hlow).
    exists m, e. split; [exact Er|]. split; [exact Hbd|].
    split; [|split; assumption].
    assert (Hbz : b <= ez) by lia.
    replace (e - b) with ((e - ez) + (ez - b)) by lia.
    replace (ex - b) with ((ex - ez) + (ez - b)) by lia.
    replace (fexp prec emax mag - b)
      with ((fexp prec emax mag - ez) + (ez - b)) by lia.
    rewrite !pow2_split by lia.
    pose proof (pow2_pos (ez - b) ltac:(lia)).
    rewrite Emz in Hval. nia.
Qed.

End Rounding.

(** ** Binary64 operations on numbers of the format *)

Lemma b64_prec_pos : 0 < B64.prec.
Proof. reflexivity. Qed.

Lemma b64_prec_lt_emax : B64.prec < B64.emax.
Proof. reflexivity. Qed.

Lemma b64_emin : emin B64.prec B64.emax = -1074.
Proof. reflexivity. Qed.

Lemma b64_fexp (k : Z) : fexp B64.prec B64.emax k = Z.max (k - 53) (-1074).
Proof. reflexivity. Qed.

Lemma b64_valid_finite (s : bool) (m : positive) (e : Z) :
  B64.valid (S754_finite s m e) = true <->
  Z.max (Z.pos (digits2_pos m) + e - 53) (-1074) = e /\ e <= 971.
Proof.
  unfold B64.valid. cbn [valid_binary].
  rewrite (bounded_spec B64.prec B64.emax). rewrite b64_fexp.
  unfold B64.prec, B64.emax. lia.
Qed.

Lemma b64_sub_add_opp (x y : B64.num) : B64.sub x y = B64.add x (SFopp y).
Proof.
  unfold B64.sub, B64.add.
  destruct x as [[|]|[|]| |sx mx ex], y as [[|]|[|]| |sy my ey];
    try reflexivity.
  cbn [SFsub SFadd SFopp]. f_equal.
  destruct sx, sy; cbn [cond_Zopp negb]; lia.
Qed.

Lemma b64_valid_opp (x : B64.num) : B64.valid (SFopp x) = B64.valid x.
Proof. destruct x; reflexivity. Qed.

Lemma b64_finite_opp (x : B64.num) : B64.is_finite (SFopp x) = B64.is_finite x.
Proof. destruct x; reflexivity. Qed.

Lemma b64_units_opp (x : B64.num) : B64.units (SFopp x) = - B64.units x.
Proof.
  destruct x as [s|s| |s m e]; try reflexivity.
  cbn [SFopp B64.units]. destruct s; cbn [negb cond_Zopp]; lia.
Qed.

Lemma b64_magnitude_opp (x : B64.num) : B64.magnitude (SFopp x) = B64.magnitude x.
Proof. destruct x; reflexivity. Qed.

Lemma abs_cond_Zopp (s : bool) (z : Z) : Z.abs (cond_Zopp s z) = Z.abs z.
Proof. destruct s; cbn [cond_Zopp]; lia. Qed.

(** The magnitude bounds the value. *)
Lemma b64_units_magnitude (s : bool) (m : positive) (e : Z) :
  -1074 <= e ->
  2 ^ (B64.magnitude (S754_finite s m e) - 1 + 1074)
    <= Z.abs (B64.units (S754_finite s m e))
    < 2 ^ (B64.magnitude (S754_finite s m e) + 1074).
Proof.
  intros He. cbn [B64.magnitude B64.units]. rewrite abs_cond_Zopp.
  pose proof (Zdigits2_spec (Z.pos m) ltac:(lia)) as [Hlo Hhi].
  cbn [Zdigits2] in Hlo, Hhi.
  set (d := Z.pos (digits2_pos m)) in *.
  assert (0 < d) by (unfold d; lia).
  pose proof (pow2_pos (e + 1074) ltac:(lia)) as Hp.
  rewrite Z.abs_eq by (apply Z.mul_nonneg_nonneg; lia).
  replace (d + e - 1 + 1074) with ((d - 1) + (e + 1074)) by lia.
  replace (d + e + 1074) with (d + (e + 1074)) by lia.
  rewrite (pow2_split (d - 1) (e + 1074)), (pow2_split d (e + 1074)) by lia.
  split; [apply Z.mul_le_mono_nonneg_r|apply Z.mul_lt_mono_pos_r]; lia.
Qed.

(** A value below [2^K] has a magnitude of at most [K]. *)
Lemma b64_magnitude_le (s : bool) (m : positive) (e K : Z) :
  -1074 <= e ->
  Z.abs (B64.units (S754_finite s m e)) < 2 ^ (K + 1074) ->
  B64.magnitude (S754_finite s m e) <= K.
Proof.
  intros He H.
  destruct (b64_units_magnitude s m e He) as [Hlo _].
  set (g := B64.magnitude (S754_finite s m e)) in *.
  destruct (Z_le_gt_dec g K) as [|Hgt]; [assumption|].
  pose proof (pow2_le (K + 1074) (g - 1 + 1074) ltac:(lia)). lia.
Qed.

Lemma b64_valid_emin (s : bool) (m : positive) (e : Z) :
  B64.valid (S754_finite s m e) = true -> -1074 <= e <= 971.
Proof. rewrite b64_valid_finite. lia. Qed.

(** Rounding an integer multiple of [2^e]. *)
Lemma b64_normalize_spec (z e : Z) :
  -1074 <= e ->
  let r := binary_normalize B64.prec B64.emax z e false in
  B64.valid r = true /\
  r <> B64.NaN /\
  forall K, -1021 <= K <= 1023 ->
    Z.abs z * 2 ^ (e + 1074) < 2 ^ (K + 1074) ->
    B64.is_finite r = true /\
    Z.abs (B64.units r) <= Z.abs z * 2 ^ (e + 1074) + 2 ^ (K + 1021).
Proof.
  intros He r.
  assert (Hround : forall s p,
    let r := binary_round B64.prec B64.emax s p e in
    B64.valid r = true /\ r <> B64.NaN /\
    forall K, -1021 <= K <= 1023 ->
      Z.pos p * 2 ^ (e + 1074) < 2 ^ (K + 1074) ->
      B64.is_finite r = true /\
      Z.abs (B64.units r) <= Z.pos p * 2 ^ (e + 1074) + 2 ^ (K + 1021)).
  { intros s p r0.
    pose proof (binary_round_result B64.prec B64.emax b64_prec_pos
                  b64_prec_lt_emax s p e (-1074) He
                  ltac:(rewrite b64_emin; lia)) as H.
    cbv zeta in H. fold r0 in H. rewrite b64_emin in H.
    set (g := Z.pos (digits2_pos p) + e) in *.
    destruct H as [[-> Hg]|[[-> Hg]|(m & e' & -> & Hbd & Hval & Hmag & Hlow)]].
    - split; [reflexivity|]. split; [discriminate|].
      intros K HK Hlt. split; [reflexivity|]. cbn [B64.units].
      pose proof (pow2_pos (K + 1021) ltac:(lia)).
      pose proof (pow2_pos (e + 1074) ltac:(lia)). nia.
    - split; [reflexivity|]. split; [discriminate|].
      intros K HK Hlt. exfalso.
      assert (g <= K); [|unfold B64.emax in Hg; lia].
      apply (b64_magnitude_le false p e K He).
      cbn [B64.units cond_Zopp].
      pose proof (pow2_pos (e + 1074) ltac:(lia)).
      rewrite Z.abs_eq by (apply Z.mul_nonneg_nonneg; lia). exact Hlt.
    - split; [exact Hbd|]. split; [discriminate|].
      intros K HK Hlt. split; [reflexivity|].
      cbn [B64.units]. rewrite abs_cond_Zopp.
      assert (He' : -1074 <= e').
      { apply (b64_valid_emin s m e'). exact Hbd. }
      pose proof (pow2_pos (e' + 1074) ltac:(lia)).
      rewrite Z.abs_eq by (apply Z.mul_nonneg_nonneg; lia).
      replace (e' - -1074) with (e' + 1074) in Hval by lia.
      replace (e - -1074) with (e + 1074) in Hval by lia.
      assert (Hg : g <= K).
      { apply (b64_magnitude_le false p e K He).
        cbn [B64.units cond_Zopp].
        pose proof (pow2_pos (e + 1074) ltac:(lia)).
        rewrite Z.abs_eq by (apply Z.mul_nonneg_nonneg; lia). exact Hlt. }
      rewrite b64_fexp in Hval.
      pose proof (pow2_le (Z.max (g - 53) (-1074) - -1074) (K + 1021)
                    ltac:(lia)).
      lia. }
  unfold r, binary_normalize. destruct z as [|p|p].
  - split; [reflexivity|]. split; [discriminate|].
    intros K HK _. split; [reflexivity|]. cbn [B64.units].
    pose proof (pow2_pos (K + 1021) ltac:(lia)). lia.
  - apply Hround.
  - apply Hround.
Qed.

(** The sum of two numbers of the format: finite while the exact sum is
    below [2^K], and then within [2^(K-53)] of it. *)
Lemma b64_add_spec (a b : B64.num) :
  B64.valid a = true -> B64.valid b = true ->
  B64.is_finite a = true -> B64.is_finite b = true ->
  B64.valid (B64.add a b) = true /\
  B64.add a b <> B64.NaN /\
  forall K, -1021 <= K <= 1023 ->
    Z.abs (B64.units a + B64.units b) < 2 ^ (K + 1074) ->
    B64.is_finite (B64.add a b) = true /\
    Z.abs (B64.units (B64.add a b))
      <= Z.abs (B64.units a + B64.units b) + 2 ^ (K + 1021).
Proof.
  intros Va Vb Fa Fb.
  destruct a as [sa|sa| |sa ma ea]; try discriminate Fa;
    destruct b as [sb|sb| |sb mb eb]; try discriminate Fb.
  - split; [destruct sa, sb; reflexivity|].
    split; [destruct sa, sb; discriminate|].
    intros K HK _. pose proof (pow2_pos (K + 1021) ltac:(lia)).
    split; destruct sa, sb; cbn; lia.
  - split; [exact Vb|]. split; [discriminate|].
    intros K HK _. pose proof (pow2_pos (K + 1021) ltac:(lia)).
    split; [reflexivity|]. change (B64.units (S754_zero sa)) with 0.
    change (B64.add (S754_zero sa) (S754_finite sb mb eb))
      with (S754_finite sb mb eb).
    rewrite Z.add_0_l. lia.
  - split; [exact Va|]. split; [discriminate|].
    intros K HK _. pose proof (pow2_pos (K + 1021) ltac:(lia)).
    split; [reflexivity|]. change (B64.units (S754_zero sb)) with 0.
    change (B64.add (S754_finite sa ma ea) (S754_zero sb))
      with (S754_finite sa ma ea).
    rewrite Z.add_0_r. lia.
  - pose proof (b64_valid_emin _ _ _ Va) as Hea.
    pose proof (b64_valid_emin _ _ _ Vb) as Heb.
    unfold B64.add. cbn [SFadd]. cbv zeta.
    set (ez := Z.min ea eb).
    pose proof (shl_align_spec ma ea ez) as Ha.
    pose proof (shl_align_spec mb eb ez) as Hb.
    cbv zeta in Ha, Hb. destruct Ha as [Hsa Hma], Hb as [Hsb Hmb].
    rewrite Hsa in Hma. rewrite Hsb in Hmb.
    replace (Z.min ea ez) with ez in Hma by (unfold ez; lia).
    replace (Z.min eb ez) with ez in Hmb by (unfold ez; lia).
    set (Ma := Z.pos (fst (shl_align ma ea ez))) in *.
    set (Mb := Z.pos (fst (shl_align mb eb ez))) in *.
    set (z := cond_Zopp sa Ma + cond_Zopp sb Mb).
    assert (Hz : B64.units (S754_finite sa ma ea)
                 + B64.units (S754_finite sb mb eb)
                 = z * 2 ^ (ez + 1074)).
    { cbn [B64.units]. unfold z. rewrite Hma, Hmb.
      replace (ea + 1074) with ((ea - ez) + (ez + 1074)) by lia.
      replace (eb + 1074) with ((eb - ez) + (ez + 1074)) by lia.
      rewrite (pow2_split (ea - ez) (ez + 1074)),
        (pow2_split (eb - ez) (ez + 1074)) by (unfold ez; lia).
      destruct sa, sb; cbn [cond_Zopp]; lia. }
    rewrite Hz.
    pose proof (pow2_pos (ez + 1074) ltac:(unfold ez; lia)) as Hp.
    rewrite Z.abs_mul, (Z.abs_eq (2 ^ (ez + 1074))) by lia.
    apply (b64_normalize_spec z ez). unfold ez. lia.
Qed.

(** The product of two numbers of the format. *)
Lemma b64_mul_spec (a b : B64.num) :
  B64.valid a = true -> B64.valid b = true ->
  B64.is_finite a = true -> B64.is_finite b = true ->
  B64.valid (B64.mul a b) = true /\
  B64.mul a b <> B64.NaN /\
  (B64.magnitude a + B64.magnitude b <= 1023 ->
   B64.is_finite (B64.mul a b) = true) /\
  (B64.nonzero (B64.mul a b) = true ->
   B64.is_finite (B64.mul a b) = true ->
   B64.magnitude (B64.mul a b)
     <= Z.max (B64.magnitude a + B64.magnitude b) (-1074) + 1) /\
  (B64.nonzero a = true -> B64.nonzero b = true ->
   -1072 <= B64.magnitude a + B64.magnitude b ->
   B64.nonzero (B64.mul a b) = true /\
   (B64.is_finite (B64.mul a b) = true ->
    B64.magnitude a + B64.magnitude b - 1 <= B64.magnitude (B64.mul a b))).
Proof.
  intros Va Vb Fa Fb.
  destruct a as [sa|sa| |sa ma ea]; try discriminate Fa;
    destruct b as [sb|sb| |sb mb eb]; try discriminate Fb;
    try (split; [reflexivity|]; split; [discriminate|];
         split; [reflexivity|]; split; [intros H; discriminate H|];
         intros H1 H2; discriminate).
  unfold B64.mul. cbn [SFmul].
  pose proof Va as Ha. pose proof Vb as Hb.
  rewrite b64_valid_finite in Ha, Hb.
  cbn [B64.magnitude B64.nonzero].
  set (da := Z.pos (digits2_pos ma)) in *.
  set (db := Z.pos (digits2_pos mb)) in *.
  assert (Hda : 0 < da) by (unfold da; lia).
  assert (Hdb : 0 < db) by (unfold db; lia).
  pose proof (Zdigits2_mul (Z.pos ma) (Z.pos mb) ltac:(lia) ltac:(lia)) as Hd.
  cbn [Zdigits2] in Hd. fold da db in Hd.
  change (Z.pos ma * Z.pos mb) with (Z.pos (ma * mb)) in Hd.
  cbn [Zdigits2] in Hd.
  set (d := Z.pos (digits2_pos (ma * mb))) in *.
  assert (Hn : ea + eb <= fexp B64.prec B64.emax
                            (Zdigits2 (Z.pos (ma * mb)) + (ea + eb))).
  { rewrite b64_fexp. cbn [Zdigits2]. fold d. lia. }
  destruct (binary_round_aux_result B64.prec B64.emax b64_prec_pos
              b64_prec_lt_emax (xorb sa sb) (Z.pos (ma * mb)) (ea + eb)
              loc_Exact ltac:(lia) Hn)
    as [[-> Hg]|[[-> Hg]|(m & e & -> & Hbd & He & _ & Hmag & Hlow)]];
    rewrite ?b64_emin in *; cbn [Zdigits2] in *.
  - fold d in Hg.
    split; [reflexivity|]. split; [discriminate|].
    split; [reflexivity|]. split; [intros H; discriminate H|].
    intros _ _ H. lia.
  - fold d in Hg. unfold B64.emax in Hg.
    split; [reflexivity|]. split; [discriminate|].
    split; [intros H; lia|]. split; [intros _ H; discriminate H|].
    intros _ _ _. split; [reflexivity|]. intros H; discriminate H.
  - fold d in Hmag, Hlow.
    split; [exact Hbd|]. split; [discriminate|].
    split; [reflexivity|]. cbn [B64.magnitude B64.is_finite].
    split; [intros _ _; lia|].
    intros _ _ H. split; [reflexivity|]. intros _. lia.
Qed.

(** The quotient of two numbers of the format, by one that is not zero. *)
Lemma b64_div_spec (a b : B64.num) :
  B64.valid a = true -> B64.valid b = true ->
  B64.is_finite a = true -> B64.is_finite b = true ->
  B64.nonzero b = true ->
  B64.valid (B64.div a b) = true /\
  B64.div a b <> B64.NaN /\
  (B64.nonzero a = false -> B64.nonzero (B64.div a b) = false) /\
  (B64.magnitude a - B64.magnitude b + 1 <= 1023 ->
   B64.is_finite (B64.div a b) = true) /\
  (B64.nonzero (B64.div a b) = true ->
   B64.is_finite (B64.div a b) = true ->
   B64.magnitude (B64.div a b)
     <= Z.max (B64.magnitude a - B64.magnitude b + 1) (-1074) + 1).
Proof.
  intros Va Vb Fa Fb Nb.
  destruct b as [sb|sb| |sb mb eb]; try discriminate Fb; try discriminate Nb.
  destruct a as [sa|sa| |sa ma ea]; try discriminate Fa.
  { split; [reflexivity|]. split; [discriminate|].
    split; [reflexivity|]. split; [reflexivity|]. intros H; discriminate H. }
  unfold B64.div. cbn [SFdiv]. unfold SFdiv_core_binary. cbv zeta.
  cbn [Zdigits2 B64.magnitude B64.nonzero].
  pose proof Va as Ha. pose proof Vb as Hb.
  rewrite b64_valid_finite in Ha, Hb.
  set (d1 := Z.pos (digits2_pos ma)) in *.
  set (d2 := Z.pos (digits2_pos mb)) in *.
  assert (Hd1 : 0 < d1) by (unfold d1; lia).
  assert (Hd2 : 0 < d2) by (unfold d2; lia).
  set (e' := Z.min (fexp B64.prec B64.emax (d1 + ea - (d2 + eb))) (ea - eb)).
  set (s := ea - eb - e').
  assert (Hs : 0 <= s) by (unfold s, e'; lia).
  set (m' := match s with
             | 0 => Z.pos ma
             | Z.pos _ => Z.shiftl (Z.pos ma) s
             | Z.neg _ => 0
             end).
  assert (Em' : m' = Z.pos ma * 2 ^ s).
  { unfold m'. destruct s as [|p|p] eqn:Es; [rewrite Z.pow_0_r; lia| |lia].
    apply Z.shiftl_mul_pow2. lia. }
  pose proof (pow2_pos s Hs) as Hps.
  assert (Hm' : 0 < m') by (rewrite Em'; nia).
  pose proof (Zdigits2_spec (Z.pos ma) ltac:(lia)) as [Halo Hahi].
  pose proof (Zdigits2_spec (Z.pos mb) ltac:(lia)) as [Hblo Hbhi].
  cbn [Zdigits2] in Halo, Hahi, Hblo, Hbhi. fold d1 in Halo, Hahi.
  fold d2 in Hblo, Hbhi.
  assert (Eq : fst (Z.div_eucl m' (Z.pos mb)) = m' / Z.pos mb) by reflexivity.
  destruct (Z.div_eucl m' (Z.pos mb)) as [q r]. cbn [fst] in Eq.
  assert (Hq : 0 <= q) by (rewrite Eq; apply Z.div_pos; lia).
  (* the quotient is below 2^(d1 + s - d2 + 1) *)
  assert (Hqhi : 0 < q -> Zdigits2 q + e' <= d1 + ea - (d2 + eb) + 1).
  { intros Hpos.
    assert (Hk : 0 <= d1 + s - d2 + 1).
    { destruct (Z_le_gt_dec 0 (d1 + s - d2 + 1)) as [|Hneg]; [assumption|].
      exfalso. assert (m' < Z.pos mb).
      { rewrite Em'. pose proof (pow2_le (d1 + s) (d2 - 1) ltac:(lia)).
        rewrite pow2_split in H by lia. nia. }
      rewrite Eq, Z.div_small in Hpos by lia. lia. }
    assert (q < 2 ^ (d1 + s - d2 + 1)).
    { rewrite Eq. apply Z.div_lt_upper_bound; [lia|].
      assert (2 ^ (d1 + s) <= Z.pos mb * 2 ^ (d1 + s - d2 + 1)).
      { replace (d1 + s) with ((d2 - 1) + (d1 + s - d2 + 1)) at 1 by lia.
        rewrite pow2_split by lia.
        pose proof (pow2_pos (d1 + s - d2 + 1) Hk). nia. }
      rewrite Em'. rewrite pow2_split in H by lia. nia. }
    pose proof (Zdigits2_le q (d1 + s - d2 + 1) Hq Hk H).
    unfold s in *. lia. }
  (* the quotient has the digits of the format *)
  assert (Hn : e' <= fexp B64.prec B64.emax (Zdigits2 q + e')).
  { destruct (Z_le_gt_dec e' (-1074)) as [Hle|Hgt].
    - pose proof (fexp_ge_emin B64.prec B64.emax (Zdigits2 q + e')).
      rewrite b64_emin in H. lia.
    - assert (He' : e' <= d1 + ea - (d2 + eb) - 53).
      { unfold e' in *. rewrite b64_fexp in *. lia. }
      assert (Hk : 0 <= d1 + s - d2 - 1) by (unfold s; lia).
      assert (2 ^ (d1 + s - d2 - 1) <= q).
      { rewrite Eq. apply Z.div_le_lower_bound; [lia|].
        assert (Z.pos mb * 2 ^ (d1 + s - d2 - 1) <= 2 ^ (d1 - 1 + s)).
        { replace (d1 - 1 + s) with (d2 + (d1 + s - d2 - 1)) by lia.
          rewrite pow2_split by lia.
          pose proof (pow2_pos (d1 + s - d2 - 1) Hk). nia. }
        rewrite Em'. rewrite pow2_split in H by lia. nia. }
      assert (0 < q) by (pose proof (pow2_pos _ Hk); lia).
      pose proof (Zdigits2_gt q (d1 + s - d2 - 1) H0 H).
      transitivity (fexp B64.prec B64.emax (d1 + ea - (d2 + eb))).
      + unfold e'. lia.
      + apply fexp_mono. unfold s in *. lia. }
  assert (Hq0 : q = 0 -> e' <= -1074).
  { intros ->. cbn [Zdigits2] in Hn. rewrite b64_fexp in Hn. lia. }
  destruct (binary_round_aux_result B64.prec B64.emax b64_prec_pos
              b64_prec_lt_emax (xorb sa sb) q e'
              (new_location (Z.pos mb) r) Hq Hn)
    as [[-> Hg]|[[-> Hg]|(m & e & -> & Hbd & He & _ & Hmag & _)]];
    rewrite ?b64_emin in *.
  - split; [reflexivity|]. split; [discriminate|].
    split; [intros H; discriminate H|]. split; [reflexivity|].
    intros H; discriminate H.
  - unfold B64.emax in Hg. split; [reflexivity|]. split; [discriminate|].
    split; [intros H; discriminate H|].
    split; [|intros _ H; discriminate H].
    intros H. exfalso.
    destruct (Z.eq_dec q 0) as [E0|Hne].
    + specialize (Hq0 E0). rewrite E0 in Hg. cbn [Zdigits2] in Hg. lia.
    + specialize (Hqhi ltac:(lia)). lia.
  - split; [exact Hbd|]. split; [discriminate|].
    split; [intros H; discriminate H|]. split; [reflexivity|].
    intros _ _. cbn [B64.magnitude].
    destruct (Z.eq_dec q 0) as [E0|Hne].
    + specialize (Hq0 E0). rewrite E0 in Hmag. cbn [Zdigits2] in Hmag. lia.
    + specialize (Hqhi ltac:(lia)). lia.
Qed.

(** The double nearest to an integer below [2^1023] that is not zero. *)
Lemma b64_of_Z_spec (z : Z) :
  z <> 0 -> Z.abs z < 2 ^ 1023 ->
  B64.valid (B64.of_Z z) = true /\
  B64.is_finite (B64.of_Z z) = true /\
  B64.nonzero (B64.of_Z z) = true /\
  Zdigits2 z <= B64.magnitude (B64.of_Z z) <= Zdigits2 z + 1.
Proof.
  intros Hz Hlt.
  assert (Hround : forall s p, Z.pos p < 2 ^ 1023 ->
    let r := binary_round B64.prec B64.emax s p 0 in
    B64.valid r = true /\ B64.is_finite r = true /\ B64.nonzero r = true /\
    Z.pos (digits2_pos p) <= B64.magnitude r <= Z.pos (digits2_pos p) + 1).
  { intros s p Hp r.
    pose proof (binary_round_result B64.prec B64.emax b64_prec_pos
                  b64_prec_lt_emax s p 0 (-1074) ltac:(lia)
                  ltac:(rewrite b64_emin; lia)) as H.
    cbv zeta in H. fold r in H. rewrite b64_emin in H.
    rewrite Z.add_0_r in H.
    pose proof (Zdigits2_le (Z.pos p) 1023 ltac:(lia) ltac:(lia) Hp) as Hd.
    cbn [Zdigits2] in Hd.
    destruct H as [[-> Hg]|[[-> Hg]|(m & e & -> & Hbd & _ & Hmag & Hlow)]].
    - lia.
    - unfold B64.emax in Hg. lia.
    - split; [exact Hbd|]. split; [reflexivity|]. split; [reflexivity|].
      cbn [B64.magnitude]. lia. }
  unfold B64.of_Z, binary_normalize. destruct z as [|p|p]; [lia| |].
  - apply Hround. lia.
  - apply Hround. lia.
Qed.

Lemma b64_lt_le (a b : B64.num) : B64.lt a b = true -> B64.le a b = true.
Proof.
  unfold B64.lt, B64.le, SFltb, SFleb.
  destruct (SFcompare a b) as [[| |]|]; congruence.
Qed.

(** Among positive numbers of the format the order follows the
    magnitudes. *)
Lemma b64_le_magnitude (ma : positive) (ea : Z) (mb : positive) (eb : Z) :
  B64.valid (S754_finite false ma ea) = true ->
  B64.valid (S754_finite false mb eb) = true ->
  B64.le (S754_finite false ma ea) (S754_finite false mb eb) = true ->
  B64.magnitude (S754_finite false ma ea)
    <= B64.magnitude (S754_finite false mb eb).
Proof.
  rewrite !b64_valid_finite. intros Ha Hb.
  unfold B64.le, SFleb. cbn [SFcompare B64.magnitude].
  destruct (Z.compare_spec ea eb) as [E|Hlt|Hgt].
  - subst eb. intros H.
    assert (Hle : (ma <= mb)%positive).
    { unfold Pos.le. change (Pos.compare ma mb)
        with (Pos.compare_cont Eq ma mb).
      destruct (Pos.compare_cont Eq ma mb); congruence. }
    pose proof (Zdigits2_mono (Z.pos ma) (Z.pos mb) ltac:(lia) ltac:(lia)) as Hd.
    cbn [Zdigits2] in Hd. lia.
  - intros _. lia.
  - intros H. discriminate H.
Qed.

(** A finite number that a positive one is not above is positive. *)
Lemma b64_le_positive (ma : positive) (ea : Z) (x : B64.num) :
  B64.le (S754_finite false ma ea) x = true -> B64.is_finite x = true ->
  exists m e, x = S754_finite false m e.
Proof.
  destruct x as [s|s| |[|] m e]; try discriminate; eauto.
Qed.

Lemma b64_pos_cases (x : B64.num) :
  B64.lt (B64.of_Z 0) x = true -> B64.is_finite x = true ->
  exists m e, x = S754_finite false m e.
Proof.
  destruct x as [s|s| |[|] m e]; try discriminate; eauto.
Qed.

(** ** Amounts that cannot overflow *)

Lemma amountWithin_mono (b b' : Z) (x : B64.num) :
  b <= b' -> Runtime.amountWithin b x -> Runtime.amountWithin b' x.
Proof. intros Hb (Hv & Hf & Hu). repeat split; try assumption. lia. Qed.

(** A number within a bound below [2^K] is zero or of magnitude at most
    [K]. *)
Lemma amountWithin_magnitude (b K : Z) (x : B64.num) :
  Runtime.amountWithin b x -> b < 2 ^ (K + 1074) ->
  B64.nonzero x = true -> B64.magnitude x <= K.
Proof.
  intros (Hv & Hf & Hu) Hb Hnz.
  destruct x as [s|s| |s m e]; try discriminate.
  apply b64_magnitude_le; [|lia].
  apply (b64_valid_emin s m e Hv).
Qed.

Lemma b64_nonzero_false (x : B64.num) :
  B64.nonzero x = false -> B64.is_finite x = true /\ B64.units x = 0.
Proof. destruct x; try discriminate. intros _. split; reflexivity. Qed.

(** [wins / (wins + losses) * 100] is finite once a trade was decided,
    for counts below [2^60]. *)
Lemma winPercentage_finite (w l : nat) :
  (0 < w + l)%nat -> Z.of_nat (w + l) < 2 ^ 60 ->
  B64.is_finite (Runtime.winPercentage w l) = true.
Proof.
  intros Hpos Hlt. unfold Runtime.winPercentage, B64.of_nat.
  assert (H60 : 2 ^ 60 < 2 ^ 1023) by (apply pow2_lt; lia).
  destruct (b64_of_Z_spec (Z.of_nat (w + l)) ltac:(lia) ltac:(lia))
    as (Vt & Ft & Nt & Mt).
  pose proof (Zdigits2_le (Z.of_nat (w + l)) 60 ltac:(lia) ltac:(lia) Hlt).
  pose proof (Zdigits2_pos (Z.of_nat (w + l)) ltac:(lia)).
  set (t := B64.of_Z (Z.of_nat (w + l))) in *.
  assert (Hw : B64.valid (B64.of_Z (Z.of_nat w)) = true /\
               B64.is_finite (B64.of_Z (Z.of_nat w)) = true /\
               (B64.nonzero (B64.of_Z (Z.of_nat w)) = true ->
                B64.magnitude (B64.of_Z (Z.of_nat w)) <= 61)).
  { destruct w as [|w];
      [split; [reflexivity|split; [reflexivity|intros H1; vm_compute in H1; discriminate H1]]|].
    destruct (b64_of_Z_spec (Z.of_nat (S w)) ltac:(lia) ltac:(lia))
      as (Vw & Fw & Nw & Mw).
    pose proof (Zdigits2_le (Z.of_nat (S w)) 60 ltac:(lia) ltac:(lia)
                  ltac:(lia)).
    repeat split; try assumption. intros _. lia. }
  destruct Hw as (Vw & Fw & Mw).
  set (x := B64.of_Z (Z.of_nat w)) in *.
  destruct (b64_div_spec x t Vw Vt Fw Ft Nt) as (Vq & Nq & Zq & Fq & Mq).
  assert (Fq' : B64.is_finite (B64.div x t) = true).
  { destruct (B64.nonzero x) eqn:Ex.
    - apply Fq. specialize (Mw eq_refl). lia.
    - apply b64_nonzero_false. now apply Zq. }
  assert (V100 : B64.valid (B64.of_Z 100) = true) by reflexivity.
  destruct (b64_mul_spec (B64.div x t) (B64.of_Z 100) Vq V100 Fq' eq_refl)
    as (_ & _ & Fm & _).
  apply Fm. change (B64.magnitude (B64.of_Z 100)) with 7.
  destruct (B64.nonzero (B64.div x t)) eqn:Eq.
  - specialize (Mq eq_refl Fq').
    destruct (B64.nonzero x) eqn:Ex.
    + specialize (Mw eq_refl). lia.
    + discriminate (Zq eq_refl).
  - destruct (B64.div x t); discriminate.
Qed.

Lemma b64_or_finite (x y : B64.num) :
  (B64.truthy x = true -> B64.is_finite x = true) ->
  B64.is_finite y = true -> B64.is_finite (B64.or x y) = true.
Proof. unfold B64.or. destruct (B64.truthy x); auto. Qed.

Lemma b64_truthy_nonzero (x : B64.num) :
  B64.truthy x = true -> B64.nonzero x = true.
Proof. destruct x; try discriminate; reflexivity. Qed.

Lemma rt_bucket_update_Forall (P Q : Runtime.BucketStats -> Prop) k f m m' :
  Runtime.bucket_update k f m = Some m' ->
  (forall b, P b -> Q (f b)) -> (forall b, P b -> Q b) ->
  Forall (fun kb => P (snd kb)) m -> Forall (fun kb => Q (snd kb)) m'.
Proof.
  intros E Hf Hkeep. revert m' E.
  induction m as [|[k' b] m IH]; cbn [Runtime.bucket_update]; intros m' E H;
    [discriminate|].
  inversion H as [|? ? Hb Hm]; subst.
  destruct (String.eqb k' k).
  - injection E as <-. constructor; [apply Hf, Hb|].
    eapply Forall_impl; [|exact Hm]. intros kb. apply Hkeep.
  - destruct (Runtime.bucket_update k f m) as [m''|]; [|discriminate].
    injection E as <-. constructor; [apply Hkeep, Hb|]. now apply IH.
Qed.

Lemma rt_registerBuckets_within (dates : list DateInfo) :
  forall a b : Runtime.BucketMap,
    Runtime.bucketsWithin 0 0 a -> Runtime.bucketsWithin 0 0 b ->
    let r := fold_left
               (fun acc date =>
                  (Runtime.bucket_register (month date) (fst acc),
                   Runtime.bucket_register (week date) (snd acc)))
               dates (a, b) in
    Runtime.bucketsWithin 0 0 (fst r) /\ Runtime.bucketsWithin 0 0 (snd r).
Proof.
  assert (Hreg : forall k m, Runtime.bucketsWithin 0 0 m ->
                 Runtime.bucketsWithin 0 0 (Runtime.bucket_register k m)).
  { intros k m Hm. unfold Runtime.bucket_register.
    destruct (Runtime.bucket_lookup k m); [exact Hm|].
    apply Forall_app. split; [exact Hm|]. constructor; [|constructor].
    cbn [snd Runtime.emptyBucket Runtime.profitLoss Runtime.wins
         Runtime.losses].
    split; [split; [reflexivity|split; [reflexivity|cbn; lia]]|lia]. }
  induction dates as [|d dates IH]; intros a b Ha Hb; cbn [fold_left].
  - split; assumption.
  - apply IH; cbn [fst snd]; now apply Hreg.
Qed.

Lemma of_nat_finite (n : nat) :
  Z.of_nat n < 2 ^ 60 ->
  B64.valid (B64.of_nat n) = true /\
  B64.is_finite (B64.of_nat n) = true /\
  (B64.nonzero (B64.of_nat n) = true -> 1 <= B64.magnitude (B64.of_nat n) <= 61) /\
  ((0 < n)%nat -> B64.nonzero (B64.of_nat n) = true).
Proof.
  intros Hn. unfold B64.of_nat. destruct n as [|n].
  - split; [reflexivity|]. split; [reflexivity|].
    split; [intros H; vm_compute in H; discriminate H|lia].
  - assert (H60 : 2 ^ 60 < 2 ^ 1023) by (apply pow2_lt; lia).
    destruct (b64_of_Z_spec (Z.of_nat (Datatypes.S n)) ltac:(lia) ltac:(lia))
      as (V & F & Nz & M).
    pose proof (Zdigits2_le (Z.of_nat (Datatypes.S n)) 60 ltac:(lia)
                  ltac:(lia) Hn).
    pose proof (Zdigits2_pos (Z.of_nat (Datatypes.S n)) ltac:(lia)).
    split; [exact V|]. split; [exact F|].
    split; [intros _; lia|intros _; exact Nz].
Qed.

Lemma bucketWinRate_finite (b : Runtime.BucketStats) :
  Z.of_nat (Runtime.wins b + Runtime.losses b) < 2 ^ 60 ->
  B64.is_finite (Runtime.bucketWinRate b) = true.
Proof.
  intros Hlt. unfold Runtime.bucketWinRate.
  apply b64_or_finite; [|reflexivity]. intros Ht.
  destruct (Nat.eq_dec (Runtime.wins b + Runtime.losses b) 0) as [E0|Hne].
  - assert (Runtime.wins b = 0%nat) as Ew by lia.
    assert (Runtime.losses b = 0%nat) as El by lia.
    rewrite Ew, El in Ht. vm_compute in Ht. discriminate Ht.
  - apply winPercentage_finite; [lia|exact Hlt].
Qed.

Section BoundedRun.

Variable p : Runtime.SimulationSettings.
Variable rng : nat -> B64.num.
Variables a move step lo K : Z.
Variable N : nat.

Hypothesis HK : -1021 <= K <= 1021.
Hypothesis Ha : 0 <= a.
Hypothesis Hstep : step = move + 2 ^ (K + 1021).
Hypothesis Hreward : Runtime.amountWithin move (Runtime.rewardPerTrade p).
Hypothesis Hrisk : Runtime.amountWithin move (Runtime.riskPerTrade p).
Hypothesis Hbound : a + Z.of_nat N * step < 2 ^ (K + 1074).
Hypothesis Hlo : -1000 <= lo /\ K - lo <= 1000.

Lemma bounded_step_pos : 0 <= move /\ 0 < step.
Proof.
  destruct Hreward as (_ & _ & H).
  pose proof (pow2_pos (K + 1021) ltac:(lia)). lia.
Qed.

Lemma bounded_le (a0 : Z) (k : nat) :
  a0 <= a -> (k <= N)%nat ->
  a0 + Z.of_nat k * step <= a + Z.of_nat N * step.
Proof.
  intros H0 Hk. destruct bounded_step_pos as [_ Hs].
  assert (Z.of_nat k * step <= Z.of_nat N * step)
    by (apply Z.mul_le_mono_nonneg_r; lia).
  lia.
Qed.

(** One trade moves an amount by at most [step]. *)
Lemma tradeEquity_within (a0 : Z) (k : nat) (isWin : bool) (e : B64.num) :
  0 <= a0 <= a -> (k < N)%nat ->
  Runtime.amountWithin (a0 + Z.of_nat k * step) e ->
  Runtime.amountWithin (a0 + Z.of_nat (Datatypes.S k) * step)
    (Runtime.tradeEquity p isWin e).
Proof.
  intros H0 Hk (Ve & Fe & Ue).
  destruct bounded_step_pos as [HS Hs].
  pose proof (bounded_le a0 (Datatypes.S k) ltac:(lia) ltac:(lia)) as Hle.
  rewrite Nat2Z.inj_succ in *. unfold Z.succ in *.
  assert (Hadd : forall y, Runtime.amountWithin move y ->
            Runtime.amountWithin (a0 + (Z.of_nat k + 1) * step) (B64.add e y)).
  { intros y (Vy & Fy & Uy).
    destruct (b64_add_spec e y Ve Vy Fe Fy) as (Vr & _ & Hr).
    destruct (Hr K ltac:(lia)) as [Fr Ur]; [lia|].
    repeat split; try assumption. lia. }
  unfold Runtime.tradeEquity. destruct isWin.
  - apply Hadd. exact Hreward.
  - rewrite b64_sub_add_opp. apply Hadd.
    destruct Hrisk as (Vy & Fy & Uy). repeat split.
    + now rewrite b64_valid_opp.
    + now rewrite b64_finite_opp.
    + rewrite b64_units_opp. lia.
Qed.

Lemma amountWithin_step (a0 : Z) (k : nat) (x : B64.num) :
  Runtime.amountWithin (a0 + Z.of_nat k * step) x ->
  Runtime.amountWithin (a0 + Z.of_nat (Datatypes.S k) * step) x.
Proof.
  apply amountWithin_mono. destruct bounded_step_pos as [_ Hs]. lia.
Qed.

Lemma bucketsWithin_trade (k : nat) (isWin : bool) key m m' :
  (k < N)%nat ->
  Runtime.bucket_update key
    (if isWin then Runtime.bucket_win (Runtime.rewardPerTrade p)
     else Runtime.bucket_loss (Runtime.riskPerTrade p)) m = Some m' ->
  Runtime.bucketsWithin (Z.of_nat k * step) k m ->
  Runtime.bucketsWithin (Z.of_nat (Datatypes.S k) * step) (Datatypes.S k) m'.
Proof.
  intros Hk E Hm. unfold Runtime.bucketsWithin in *.
  refine (rt_bucket_update_Forall
            (fun b => Runtime.amountWithin (Z.of_nat k * step)
                        (Runtime.profitLoss b) /\
                      (Runtime.wins b + Runtime.losses b <= k)%nat)
            (fun b => Runtime.amountWithin
                        (Z.of_nat (Datatypes.S k) * step)
                        (Runtime.profitLoss b) /\
                      (Runtime.wins b + Runtime.losses b
                       <= Datatypes.S k)%nat)
            _ _ _ _ E _ _ Hm).
  - intros b [Hb Hc].
    pose proof (tradeEquity_within 0 k isWin (Runtime.profitLoss b)
                  ltac:(lia) Hk Hb) as H.
    destruct isWin; cbn [Runtime.bucket_win Runtime.bucket_loss
                         Runtime.profitLoss Runtime.wins Runtime.losses];
      (split; [exact H|lia]).
  - intros b [Hb Hc]. split; [|lia].
    apply (amountWithin_step 0 k). exact Hb.
Qed.

Lemma peakWithin_step (k : nat) (x : B64.num) :
  Runtime.peakWithin (a + Z.of_nat k * step) lo x ->
  Runtime.peakWithin (a + Z.of_nat (Datatypes.S k) * step) lo x.
Proof.
  intros (H1 & H2 & H3). split; [|split; assumption].
  now apply amountWithin_step.
Qed.

(** One trade keeps the locals within the bounds. *)
Lemma runTrade_bounded date (k : nat) (e : B64.num) (st : Runtime.State) :
  (k < N)%nat ->
  In (month date) (Runtime.keysOf (Runtime.monthlyStats st)) ->
  In (week date) (Runtime.keysOf (Runtime.weeklyStats st)) ->
  Runtime.boundedState a step lo k e st ->
  exists e' st',
    Runtime.runTrade p rng date (e, st) = Some (e', st') /\
    Runtime.boundedState a step lo (Datatypes.S k) e' st' /\
    Runtime.keysOf (Runtime.monthlyStats st')
      = Runtime.keysOf (Runtime.monthlyStats st) /\
    Runtime.keysOf (Runtime.weeklyStats st')
      = Runtime.keysOf (Runtime.weeklyStats st).
Proof.
  intros Hk Hm Hw (Hc & Hwl & Ht & He & Hr & Hcurve & Hms & Hws & Hpk & Hv & Hf).
  destruct (rt_runTrade_total p rng date (e, st) Hm Hw) as [[e' st'] E].
  exists e', st'. split; [exact E|].
  destruct (rt_runTrade_keys p rng date _ _ E) as [Km Kw].
  cbn [snd] in Km, Kw. split; [|split; assumption].
  unfold Runtime.runTrade in E. cbn [fst snd] in E.
  destruct (Runtime.bucket_update (month date) _ (Runtime.monthlyStats st))
    as [ms|] eqn:Ems; [|discriminate].
  destruct (Runtime.bucket_update (week date) _ (Runtime.weeklyStats st))
    as [ws|] eqn:Ews; [|discriminate].
  injection E as <- <-.
  unfold Runtime.boundedState.
  cbn [Runtime.randomCalls Runtime.counts Runtime.runningEquity
       Runtime.equityCurve Runtime.monthlyStats Runtime.weeklyStats
       Runtime.drawdown count_trade totalWins totalLosses totalTrades].
  split; [lia|].
  split; [destruct (Runtime.isWinAt p rng (Runtime.randomCalls st)); lia|].
  split; [lia|].
  split; [apply tradeEquity_within; [lia|assumption|assumption]|].
  split; [now apply amountWithin_step|].
  split; [eapply Forall_impl; [|exact Hcurve]; intros pt;
          apply amountWithin_step|].
  split; [exact (bucketsWithin_trade k _ _ _ _ Hk Ems Hms)|].
  split; [exact (bucketsWithin_trade k _ _ _ _ Hk Ews Hws)|].
  split; [now apply peakWithin_step|]. split; assumption.
Qed.

Lemma runTrades_bounded date (n : nat) : forall (k : nat) e st,
  (k + n <= N)%nat ->
  In (month date) (Runtime.keysOf (Runtime.monthlyStats st)) ->
  In (week date) (Runtime.keysOf (Runtime.weeklyStats st)) ->
  Runtime.boundedState a step lo k e st ->
  exists e' st',
    Runtime.runTrades p rng n date (e, st) = Some (e', st') /\
    Runtime.boundedState a step lo (k + n) e' st' /\
    Runtime.keysOf (Runtime.monthlyStats st')
      = Runtime.keysOf (Runtime.monthlyStats st) /\
    Runtime.keysOf (Runtime.weeklyStats st')
      = Runtime.keysOf (Runtime.weeklyStats st).
Proof.
  induction n as [|n IH]; intros k e st Hk Hm Hw Hinv;
    cbn [Runtime.runTrades].
  - exists e, st. rewrite Nat.add_0_r. auto.
  - destruct (runTrade_bounded date k e st ltac:(lia) Hm Hw Hinv)
      as (e1 & st1 & E & Hinv1 & Km & Kw).
    rewrite E.
    destruct (IH (Datatypes.S k) e1 st1 ltac:(lia)) as (e' & st' & E' & Hinv' & Km' & Kw').
    + now rewrite Km.
    + now rewrite Kw.
    + exact Hinv1.
    + exists e', st'. split; [exact E'|].
      replace (k + Datatypes.S n)%nat with (Datatypes.S k + n)%nat by lia.
      split; [exact Hinv'|]. split; congruence.
Qed.

(** A difference of two amounts within the bounds. *)
Lemma sub_within (B : Z) (x y : B64.num) :
  B <= a + Z.of_nat N * step ->
  Runtime.amountWithin B x -> Runtime.amountWithin B y ->
  B64.valid (B64.sub x y) = true /\
  B64.is_finite (B64.sub x y) = true /\
  (B64.nonzero (B64.sub x y) = true ->
   B64.magnitude (B64.sub x y) <= K + 2).
Proof.
  intros HB (Vx & Fx & Ux) (Vy & Fy & Uy).
  rewrite b64_sub_add_opp.
  destruct (b64_add_spec x (SFopp y) Vx ltac:(now rewrite b64_valid_opp)
              Fx ltac:(now rewrite b64_finite_opp)) as (Vr & _ & Hr).
  rewrite b64_units_opp in Hr.
  assert (H2 : 2 ^ (K + 1 + 1074) = 2 * 2 ^ (K + 1074)).
  { replace (K + 1 + 1074) with (1 + (K + 1074)) by lia.
    rewrite pow2_split by lia. rewrite Z.pow_1_r. reflexivity. }
  destruct (Hr (K + 1) ltac:(lia)) as [Fr Ur]; [lia|].
  split; [exact Vr|]. split; [exact Fr|]. intros Hnz.
  apply (amountWithin_magnitude (2 ^ (K + 2 + 1074) - 1)); [|lia|exact Hnz].
  split; [exact Vr|]. split; [exact Fr|].
  assert (H3 : 2 ^ (K + 2 + 1074) = 4 * 2 ^ (K + 1074)).
  { replace (K + 2 + 1074) with (2 + (K + 1074)) by lia.
    rewrite pow2_split by lia. reflexivity. }
  assert (H4 : 2 ^ (K + 1 + 1021) < 2 ^ (K + 1074)) by (apply pow2_lt; lia).
  lia.
Qed.

(** A quotient of a difference of amounts by an amount of magnitude at
    least [lo]. *)
Lemma quotient_within (d y : B64.num) :
  B64.valid d = true -> B64.is_finite d = true ->
  (B64.nonzero d = true -> B64.magnitude d <= K + 2) ->
  B64.valid y = true -> B64.is_finite y = true -> B64.nonzero y = true ->
  lo <= B64.magnitude y ->
  B64.valid (B64.div d y) = true /\
  B64.is_finite (B64.div d y) = true /\
  (B64.nonzero (B64.div d y) = true -> B64.magnitude (B64.div d y) <= 1004).
Proof.
  intros Vd Fd Md Vy Fy Ny My.
  destruct (b64_div_spec d y Vd Vy Fd Fy Ny) as (Vq & _ & Zq & Fq & Mq).
  split; [exact Vq|].
  destruct (B64.nonzero d) eqn:Ed.
  - specialize (Md eq_refl).
    assert (Fq' : B64.is_finite (B64.div d y) = true) by (apply Fq; lia).
    split; [exact Fq'|]. intros Hnz. specialize (Mq Hnz Fq'). lia.
  - specialize (Zq eq_refl). split; [now apply b64_nonzero_false|].
    intros Hnz. congruence.
Qed.

(** A multiple by a small constant of such a quotient. *)
Lemma multiple_finite (q c : B64.num) :
  B64.valid q = true -> B64.is_finite q = true ->
  (B64.nonzero q = true -> B64.magnitude q <= 1004) ->
  B64.valid c = true -> B64.is_finite c = true -> B64.magnitude c <= 10 ->
  B64.valid (B64.mul q c) = true /\ B64.is_finite (B64.mul q c) = true.
Proof.
  intros Vq Fq Mq Vc Fc Mc.
  destruct (b64_mul_spec q c Vq Vc Fq Fc) as (Vm & _ & Fm & _).
  split; [exact Vm|]. apply Fm.
  destruct (B64.nonzero q) eqn:Eq.
  - specialize (Mq eq_refl). lia.
  - destruct q; try discriminate. cbn [B64.magnitude]. lia.
Qed.

Lemma rt_drawdownPercentage_finite (B : Z) (peak e : B64.num) :
  B <= a + Z.of_nat N * step ->
  Runtime.peakWithin B lo peak -> Runtime.amountWithin B e ->
  B64.valid (Runtime.drawdownPercentage peak e) = true /\
  B64.is_finite (Runtime.drawdownPercentage peak e) = true.
Proof.
  intros HB (Hpk & (m & e0 & Epk) & Mpk) He.
  unfold Runtime.drawdownPercentage.
  destruct (sub_within B peak e HB Hpk He) as (Vd & Fd & Md).
  destruct Hpk as (Vp & Fp & _).
  destruct (quotient_within (B64.sub peak e) peak Vd Fd Md Vp Fp
              ltac:(rewrite Epk; reflexivity) Mpk) as (Vq & Fq & Mq).
  apply multiple_finite; try assumption; try reflexivity.
  cbv. discriminate.
Qed.

(** The end-of-day update keeps the peak positive and the maximum
    drawdown finite. *)
Lemma updateDrawdown_bounded (B : Z) label (e : B64.num)
  (d : Runtime.Drawdown) :
  B <= a + Z.of_nat N * step ->
  Runtime.amountWithin B e ->
  Runtime.peakWithin B lo (Runtime.peakEquity d) ->
  B64.valid (Runtime.maxDrawdown d) = true ->
  B64.is_finite (Runtime.maxDrawdown d) = true ->
  Runtime.peakWithin B lo
    (Runtime.peakEquity (Runtime.updateDrawdown label e d)) /\
  B64.valid (Runtime.maxDrawdown (Runtime.updateDrawdown label e d)) = true /\
  B64.is_finite (Runtime.maxDrawdown (Runtime.updateDrawdown label e d))
    = true.
Proof.
  intros HB He Hpk Vm Fm.
  destruct (rt_drawdownPercentage_finite B _ e HB Hpk He) as [Vpct Fpct].
  unfold Runtime.updateDrawdown.
  destruct (B64.gt e (Runtime.peakEquity d)) eqn:Hgt.
  - cbn [Runtime.peakEquity Runtime.maxDrawdown].
    split; [|split; assumption].
    destruct Hpk as ((Vp & Fp & Up) & (m & e0 & Epk) & Mpk).
    unfold B64.gt in Hgt. apply b64_lt_le in Hgt. rewrite Epk in *.
    destruct He as (Ve & Fe & Ue).
    destruct (b64_le_positive m e0 e Hgt Fe) as (m' & e' & ->).
    split; [repeat split; assumption|]. split; [eauto|].
    pose proof (b64_le_magnitude m e0 m' e' Vp Ve Hgt). lia.
  - cbv zeta.
    destruct (B64.gt (Runtime.drawdownPercentage (Runtime.peakEquity d) e)
                (Runtime.currentDrawdown d)); [|auto].
    cbn [Runtime.peakEquity Runtime.maxDrawdown].
    split; [exact Hpk|].
    destruct (B64.gt (Runtime.drawdownPercentage (Runtime.peakEquity d) e)
                (Runtime.maxDrawdown d)); auto.
Qed.

Lemma boundedState_le (k : nat) : (k <= N)%nat ->
  a + Z.of_nat k * step <= a + Z.of_nat N * step.
Proof. intros Hk. apply bounded_le; lia. Qed.

(** The end of a day keeps the locals within the bounds. *)
Lemma closeDay_bounded date (k : nat) (e : B64.num) (st : Runtime.State) :
  (k <= N)%nat ->
  Runtime.boundedState a step lo k e st ->
  Runtime.boundedState a step lo k e (Runtime.closeDay date (e, st)).
Proof.
  intros Hk (Hc & Hwl & Ht & He & Hr & Hcurve & Hms & Hws & Hpk & Hv & Hf).
  destruct (updateDrawdown_bounded _ (fullDate date) e (Runtime.drawdown st)
              (boundedState_le k Hk) He Hpk Hv Hf) as (Hpk' & Hv' & Hf').
  unfold Runtime.boundedState, Runtime.closeDay.
  cbn [fst snd Runtime.randomCalls Runtime.counts Runtime.runningEquity
       Runtime.equityCurve Runtime.monthlyStats Runtime.weeklyStats
       Runtime.drawdown].
  repeat (split; [assumption|]).
  split; [|repeat (split; [assumption|]); assumption].
  apply Forall_app. split; [assumption|].
  constructor; [exact He|constructor].
Qed.

Lemma runDay_bounded date (k : nat) (st : Runtime.State) :
  (k + Runtime.tradesPerDay p <= N)%nat ->
  In (month date) (Runtime.keysOf (Runtime.monthlyStats st)) ->
  In (week date) (Runtime.keysOf (Runtime.weeklyStats st)) ->
  Runtime.boundedState a step lo k (Runtime.runningEquity st) st ->
  exists st',
    Runtime.runDay p rng date st = Some st' /\
    Runtime.boundedState a step lo (k + Runtime.tradesPerDay p)
      (Runtime.runningEquity st') st' /\
    Runtime.keysOf (Runtime.monthlyStats st')
      = Runtime.keysOf (Runtime.monthlyStats st) /\
    Runtime.keysOf (Runtime.weeklyStats st')
      = Runtime.keysOf (Runtime.weeklyStats st).
Proof.
  intros Hk Hm Hw Hinv. unfold Runtime.runDay.
  destruct (runTrades_bounded date (Runtime.tradesPerDay p) k _ st Hk Hm Hw
              Hinv) as (e' & st' & E & Hinv' & Km & Kw).
  rewrite E. exists (Runtime.closeDay date (e', st')).
  split; [reflexivity|]. split; [|split; assumption].
  now apply closeDay_bounded.
Qed.

Lemma runDays_bounded dates : forall (k : nat) st,
  (k + List.length dates * Runtime.tradesPerDay p <= N)%nat ->
  Runtime.keysCover dates st ->
  Runtime.boundedState a step lo k (Runtime.runningEquity st) st ->
  exists st',
    Runtime.runDays p rng dates st = Some st' /\
    Runtime.boundedState a step lo
      (k + List.length dates * Runtime.tradesPerDay p)
      (Runtime.runningEquity st') st'.
Proof.
  induction dates as [|d dates IH]; intros k st Hk Hcover Hinv;
    cbn [Runtime.runDays List.length].
  - exists st. cbn [Nat.mul]. rewrite Nat.add_0_r. auto.
  - cbn [List.length Nat.mul] in Hk.
    destruct (Hcover d (or_introl eq_refl)) as [Hm Hw].
    destruct (runDay_bounded d k st ltac:(lia) Hm Hw Hinv)
      as (st1 & E & Hinv1 & Km & Kw).
    rewrite E.
    destruct (IH (k + Runtime.tradesPerDay p)%nat st1 ltac:(lia))
      as (st' & E' & Hinv').
    + intros d' Hd'. destruct (Hcover d' (or_intror Hd')).
      split; congruence.
    + exact Hinv1.
    + exists st'. split; [exact E'|].
      replace (k + Datatypes.S (List.length dates)
                   * Runtime.tradesPerDay p)%nat
        with (k + Runtime.tradesPerDay p
              + List.length dates * Runtime.tradesPerDay p)%nat by lia.
      exact Hinv'.
Qed.

Lemma initState_bounded dates :
  Runtime.peakWithin a lo (Runtime.startingEquity p) ->
  Runtime.boundedState a step lo 0 (Runtime.startingEquity p)
    (Runtime.initState p dates).
Proof.
  intros Hpk. pose proof Hpk as (Hst & _).
  unfold Runtime.boundedState, Runtime.initState.
  cbn [Runtime.randomCalls Runtime.counts Runtime.runningEquity
       Runtime.equityCurve Runtime.monthlyStats Runtime.weeklyStats
       Runtime.drawdown Runtime.peakEquity Runtime.maxDrawdown
       totalWins totalLosses totalTrades].
  change (Z.of_nat 0 * step) with 0. rewrite Z.add_0_r.
  unfold Runtime.initialEquity.
  split; [reflexivity|]. split; [reflexivity|]. split; [reflexivity|].
  split; [exact Hst|]. split; [exact Hst|].
  split.
  { unfold Runtime.seedCurve. destruct dates; constructor;
      [exact Hst|constructor]. }
  destruct (rt_registerBuckets_within dates [] [] ltac:(constructor)
              ltac:(constructor)) as [Hm Hw].
  split; [exact Hm|]. split; [exact Hw|]. split; [exact Hpk|].
  split; reflexivity.
Qed.

(** The summary of a run over at least one day whose locals are within
    the bounds. *)
Lemma summarize_finite d0 dates (st : Runtime.State) :
  let k := (List.length (d0 :: dates) * Runtime.tradesPerDay p)%nat in
  (k <= N)%nat -> Z.of_nat N < 2 ^ 60 ->
  (0 < Runtime.tradesPerDay p)%nat ->
  Runtime.boundedState a step lo k (Runtime.runningEquity st) st ->
  B64.is_finite (Runtime.winRate p) = true ->
  B64.is_finite (Runtime.riskRewardRatio p) = true ->
  B64.nonzero (Runtime.riskPerTrade p) = true ->
  lo <= B64.magnitude (Runtime.riskPerTrade p) <= 900 ->
  Runtime.peakWithin a lo (Runtime.startingEquity p) ->
  Runtime.summaryFinite (Runtime.summarize p (d0 :: dates) st).
Proof.
  intros k Hk HN Htpd
    (Hc & Hwl & Ht & He & Hr & Hcurve & Hms & Hws & Hpk & Hv & Hf)
    Fwr Fratio Nrisk Mrisk Hstart.
  destruct bounded_step_pos as [HS Hs].
  set (len := List.length (d0 :: dates)) in *.
  assert (Hlen : (0 < len <= k)%nat).
  { unfold len. cbn [List.length]. unfold k, len. cbn [List.length]. nia. }
  destruct (of_nat_finite len ltac:(lia)) as (VL & FL & ML & NL).
  specialize (NL ltac:(lia)). specialize (ML NL).
  destruct Hrisk as (Vrisk & Frisk & _).
  (* the divisor of the average per day *)
  destruct (b64_mul_spec (Runtime.riskPerTrade p) (B64.of_nat len)
              Vrisk VL Frisk FL) as (VD & _ & FD & _ & ND).
  specialize (FD ltac:(lia)).
  destruct (ND Nrisk NL ltac:(lia)) as [ND' MD]. specialize (MD FD).
  (* the total profit *)
  assert (HB : a + Z.of_nat k * step <= a + Z.of_nat N * step)
    by (apply boundedState_le; exact Hk).
  destruct Hstart as (Hst & Hst2 & Hst3).
  assert (Hst' : Runtime.amountWithin (a + Z.of_nat k * step)
                   (Runtime.startingEquity p)).
  { eapply amountWithin_mono; [|exact Hst]. nia. }
  destruct (sub_within _ (Runtime.runningEquity st)
              (Runtime.startingEquity p) HB Hr Hst') as (VP & FP & MP).
  destruct (quotient_within _ _ VP FP MP VD FD ND' ltac:(lia))
    as (Vq & Fq & Mq).
  unfold Runtime.summaryFinite, Runtime.summarize.
  cbn [Runtime.s_winRate Runtime.s_avgRPerDay Runtime.s_avgRPerWeek
       Runtime.s_avgTradesPerDay Runtime.s_initialEquity
       Runtime.s_finalEquity Runtime.s_totalProfit Runtime.s_maxDrawdown
       Runtime.s_riskRewardRatio Runtime.s_equityCurve
       Runtime.s_monthlyBreakdown Runtime.s_weeklyBreakdown].
  unfold Runtime.initialEquity. fold len.
  split.
  { apply b64_or_finite; [|exact Fwr]. intros Htr.
    destruct (Nat.eq_dec (totalWins (Runtime.counts st)
                          + totalLosses (Runtime.counts st)) 0) as [E0|Hne].
    - assert (totalWins (Runtime.counts st) = 0%nat) as Ew by lia.
      assert (totalLosses (Runtime.counts st) = 0%nat) as El by lia.
      rewrite Ew, El in Htr. vm_compute in Htr. discriminate Htr.
    - apply winPercentage_finite; lia. }
  split.
  { apply b64_or_finite; [intros _; exact Fq|reflexivity]. }
  split.
  { unfold B64.or.
    destruct (B64.truthy (B64.div _ _)); [|reflexivity].
    apply (multiple_finite _ (B64.of_Z 5)); try assumption;
      try reflexivity. cbv. discriminate. }
  split.
  { destruct (of_nat_finite (Runtime.tradesPerDay p) ltac:(lia))
      as (_ & Ftpd & _).
    apply b64_or_finite; [intros _|exact Ftpd].
    destruct (of_nat_finite (totalTrades (Runtime.counts st)) ltac:(lia))
      as (VT & FT & MT & _).
    destruct (b64_div_spec _ _ VT VL FT FL NL) as (_ & _ & ZT & FT' & _).
    destruct (B64.nonzero (B64.of_nat (totalTrades (Runtime.counts st))))
      eqn:ET.
    - apply FT'. specialize (MT eq_refl). lia.
    - apply b64_nonzero_false. now apply ZT. }
  split; [apply Hst|].
  split; [apply Hr|].
  split; [exact FP|].
  split; [exact Hf|].
  split; [exact Fratio|].
  split.
  { eapply Forall_impl; [|exact Hcurve]. intros pt H. apply H. }
  assert (Hrep : forall m, Runtime.bucketsWithin (Z.of_nat k * step) k m ->
    Forall (fun r => B64.is_finite (Runtime.bucketWinRate (Runtime.stats r))
                     = true /\
                     B64.is_finite (Runtime.profitLoss (Runtime.stats r))
                     = true)
           (map Runtime.reportBucket (Runtime.bucket_values m))).
  { intros m Hm. unfold Runtime.bucket_values. rewrite map_map.
    apply Forall_map. eapply Forall_impl; [|exact Hm].
    intros [key b] [Hb Hcount]. cbn [snd Runtime.reportBucket Runtime.stats] in *.
    split; [apply bucketWinRate_finite; lia|apply Hb]. }
  apply Forall_app. split; apply Hrep; assumption.
Qed.

End BoundedRun.

(** A positive binary64 number of at most [2^300] has a magnitude of at
    most 301. *)
Lemma b64_below_pow2_300 (x : B64.num) :
  B64.valid x = true -> B64.is_finite x = true ->
  B64.lt (B64.of_Z 0) x = true ->
  B64.le x (B64.pow2 300) = true ->
  B64.nonzero x = true /\ B64.magnitude x <= 301 /\
  Z.abs (B64.units x) < 2 ^ 1375.
Proof.
  intros Vx Fx Hpos Hle.
  destruct (b64_pos_cases x Hpos Fx) as (m & e & ->).
  split; [reflexivity|].
  assert (Vp : B64.valid (B64.pow2 300) = true) by reflexivity.
  pose proof (b64_le_magnitude m e _ _ Vx Vp Hle) as Hm.
  change (B64.magnitude (S754_finite false (2 ^ 52) (300 - 52))) with 301 in Hm.
  split; [exact Hm|].
  pose proof (b64_valid_emin false m e Vx) as He.
  destruct (b64_units_magnitude false m e ltac:(lia)) as [_ Hhi].
  pose proof (pow2_le (B64.magnitude (S754_finite false m e) + 1074) 1375
                ltac:(lia)).
  lia.
Qed.

(** A binary64 number of at least [2^-300] is positive, of magnitude at
    least -299. *)
Lemma b64_above_pow2_m300 (x : B64.num) :
  B64.valid x = true -> B64.is_finite x = true ->
  B64.le (B64.pow2 (-300)) x = true ->
  B64.lt (B64.of_Z 0) x = true /\
  (exists m e, x = S754_finite false m e) /\ -299 <= B64.magnitude x.
Proof.
  intros Vx Fx Hle.
  destruct (b64_le_positive _ _ x Hle Fx) as (m & e & ->).
  split; [reflexivity|]. split; [eauto|].
  assert (Vp : B64.valid (B64.pow2 (-300)) = true) by reflexivity.
  pose proof (b64_le_magnitude _ _ m e Vp Vx Hle) as Hm.
  change (B64.magnitude (S754_finite false (2 ^ 52) (-300 - 52)))
    with (-299) in Hm.
  exact Hm.
Qed.

Lemma bounded_run_constants (n : Z) :
  0 <= n <= 2 ^ 50 ->
  2 ^ 1375 + n * (2 ^ 1677 + 2 ^ (660 + 1021)) < 2 ^ (660 + 1074).
Proof.
  intros Hn.
  assert (H : 2 ^ 1375 + 2 ^ 50 * (2 ^ 1677 + 2 ^ (660 + 1021))
              < 2 ^ (660 + 1074)) by (vm_compute; reflexivity).
  assert (n * (2 ^ 1677 + 2 ^ (660 + 1021))
          <= 2 ^ 50 * (2 ^ 1677 + 2 ^ (660 + 1021))).
  { apply Z.mul_le_mono_nonneg_r; [|lia].
    pose proof (pow2_pos 1677 ltac:(lia)).
    pose proof (pow2_pos (660 + 1021) ltac:(lia)). lia. }
  lia.
Qed.

(** The summary of a run without trading day. *)
Lemma summarize_empty (p : Runtime.SimulationSettings) :
  Runtime.validRanges p ->
  Z.of_nat (Runtime.tradesPerDay p) < 2 ^ 60 ->
  let s := Runtime.summarize p [] (Runtime.initState p []) in
  Runtime.summaryFinite s /\
  Runtime.s_winRate s = Runtime.winRate p /\
  Runtime.s_avgRPerDay s = B64.of_Z 0 /\
  Runtime.s_avgRPerWeek s = B64.of_Z 0 /\
  Runtime.s_avgTradesPerDay s = B64.of_nat (Runtime.tradesPerDay p).
Proof.
  intros (Fwr & _ & _ & _ & Frisk & Prisk & Fratio & _ & Fstart) Htpd s.
  assert (Eday : Runtime.s_avgRPerDay s = B64.of_Z 0).
  { unfold s, Runtime.summarize.
    cbn [Runtime.s_avgRPerDay Runtime.initState Runtime.runningEquity
         List.length].
    unfold Runtime.initialEquity.
    rewrite (b64_sub_self _ Fstart), (b64_mul_zero _ Frisk Prisk).
    reflexivity. }
  assert (Eweek : Runtime.s_avgRPerWeek s = B64.of_Z 0).
  { change (Runtime.s_avgRPerWeek s)
      with (B64.mul (Runtime.s_avgRPerDay s) (B64.of_Z 5)).
    rewrite Eday. reflexivity. }
  assert (Etrades : Runtime.s_avgTradesPerDay s
                    = B64.of_nat (Runtime.tradesPerDay p)) by reflexivity.
  assert (Ewin : Runtime.s_winRate s = Runtime.winRate p) by reflexivity.
  split; [|auto].
  unfold Runtime.summaryFinite. rewrite Ewin, Eday, Eweek, Etrades.
  split; [exact Fwr|]. split; [reflexivity|]. split; [reflexivity|].
  split; [apply (of_nat_finite _ Htpd)|].
  split; [exact Fstart|]. split; [exact Fstart|].
  split.
  { change (Runtime.s_totalProfit s)
      with (B64.sub (Runtime.startingEquity p) (Runtime.startingEquity p)).
    rewrite (b64_sub_self _ Fstart). reflexivity. }
  split; [reflexivity|]. split; [exact Fratio|].
  split; constructor.
Qed.

(** C2, amended. In binary64, for every run with parameters in the
    stated ranges whose risk and starting equity are between [2^-300]
    and [2^300] and whose ratio is at most [2^300], over a calendar of
    at most [2^30] days with at most [2^20] trades a day: the run
    returns and no numeric field of its summary is [NaN] or infinite;
    the realized win rate is the configured one when no trade was
    decided, and the averages per day and per week are 0 and the trades
    per day the configured count when there is no trading day. *)
Theorem summary_finite_bounded_amounts (p : Runtime.SimulationSettings)
  (rng : nat -> B64.num) (dates : list DateInfo) :
  Runtime.validRanges p -> Runtime.boundedAmounts p ->
  Z.of_nat (List.length dates) <= 2 ^ 30 ->
  Z.of_nat (Runtime.tradesPerDay p) <= 2 ^ 20 ->
  exists st s,
    Runtime.simulate p rng dates = Some st /\
    Runtime.runOver p rng dates = Some s /\
    Runtime.summaryFinite s /\
    ((totalWins (Runtime.counts st) + totalLosses (Runtime.counts st)
      = 0)%nat -> Runtime.s_winRate s = Runtime.winRate p) /\
    (dates = [] ->
     Runtime.s_avgRPerDay s = B64.of_Z 0 /\
     Runtime.s_avgRPerWeek s = B64.of_Z 0 /\
     Runtime.s_avgTradesPerDay s = B64.of_nat (Runtime.tradesPerDay p)).
Proof.
  intros Hranges Hamounts Hdays Htrades.
  assert (Htpd60 : Z.of_nat (Runtime.tradesPerDay p) < 2 ^ 60).
  { assert (2 ^ 20 < 2 ^ 60) by (apply pow2_lt; lia). lia. }
  destruct dates as [|d0 dates].
  { exists (Runtime.initState p []),
      (Runtime.summarize p [] (Runtime.initState p [])).
    destruct (summarize_empty p Hranges Htpd60) as (Hfin & Ewin & Efall).
    split; [reflexivity|]. split; [reflexivity|]. split; [exact Hfin|].
    split; [intros _; exact Ewin|intros _; exact Efall]. }
  pose proof Hranges
    as (Fwr & _ & _ & Htpd & Frisk & Prisk & Fratio & Pratio & Fstart).
  destruct Hamounts as (Vrisk & Vratio & Vstart & Lrisk & Urisk & Uratio
                        & Lstart & Ustart).
  destruct (b64_below_pow2_300 _ Vrisk Frisk Prisk Urisk)
    as (Nrisk & Mrisk & Urisk').
  destruct (b64_below_pow2_300 _ Vratio Fratio Pratio Uratio)
    as (Nratio & Mratio & _).
  destruct (b64_above_pow2_m300 _ Vrisk Frisk Lrisk) as (_ & _ & Mrisk').
  destruct (b64_above_pow2_m300 _ Vstart Fstart Lstart)
    as (Pstart & Sstart & Mstart').
  destruct (b64_below_pow2_300 _ Vstart Fstart Pstart Ustart)
    as (_ & _ & Ustart').
  set (N := (List.length (d0 :: dates) * Runtime.tradesPerDay p)%nat).
  assert (HN : 0 <= Z.of_nat N <= 2 ^ 50).
  { unfold N. rewrite Nat2Z.inj_mul.
    change (2 ^ 50) with (2 ^ 30 * 2 ^ 20). split; [lia|].
    apply Z.mul_le_mono_nonneg; lia. }
  assert (Hreward : Runtime.amountWithin (2 ^ 1677)
                      (Runtime.rewardPerTrade p)).
  { unfold Runtime.rewardPerTrade.
    destruct (b64_mul_spec _ _ Vrisk Vratio Frisk Fratio)
      as (VR & _ & FR & MR & _).
    specialize (FR ltac:(lia)). split; [exact VR|]. split; [exact FR|].
    destruct (B64.mul (Runtime.riskPerTrade p) (Runtime.riskRewardRatio p))
      as [s|s| |s m e] eqn:ER; try discriminate FR.
    - cbn [B64.units]. pose proof (pow2_pos 1677 ltac:(lia)). lia.
    - specialize (MR eq_refl eq_refl).
      pose proof (b64_valid_emin s m e VR) as He.
      destruct (b64_units_magnitude s m e ltac:(lia)) as [_ Hhi].
      pose proof (pow2_le (B64.magnitude (S754_finite s m e) + 1074) 1677
                    ltac:(lia)).
      lia. }
  assert (Hrisk : Runtime.amountWithin (2 ^ 1677) (Runtime.riskPerTrade p)).
  { split; [exact Vrisk|]. split; [exact Frisk|].
    pose proof (pow2_le 1375 1677 ltac:(lia)). lia. }
  assert (Hstart : Runtime.peakWithin (2 ^ 1375) (-299)
                     (Runtime.startingEquity p)).
  { split; [|split; assumption]. repeat split; try assumption. lia. }
  pose proof (bounded_run_constants (Z.of_nat N) HN) as Hbound.
  assert (H60 : Z.of_nat N < 2 ^ 60).
  { assert (2 ^ 50 < 2 ^ 60) by (apply pow2_lt; lia). lia. }
  destruct (runDays_bounded p rng (2 ^ 1375) (2 ^ 1677)
              (2 ^ 1677 + 2 ^ (660 + 1021)) (-299) 660 N
              ltac:(lia) ltac:(apply Z.lt_le_incl, pow2_pos; lia) eq_refl
              Hreward Hrisk Hbound ltac:(lia)
              (d0 :: dates) 0%nat (Runtime.initState p (d0 :: dates)))
    as (st & Hrun & Hinv).
  - unfold N. lia.
  - apply rt_initState_cover.
  - apply (initState_bounded p (2 ^ 1375) (2 ^ 1677 + 2 ^ (660 + 1021))
             (-299) (d0 :: dates) Hstart).
  - exists st, (Runtime.summarize p (d0 :: dates) st).
    split; [exact Hrun|].
    split; [unfold Runtime.runOver, Runtime.simulate; now rewrite Hrun|].
    split.
    + apply (summarize_finite p (2 ^ 1375) (2 ^ 1677)
               (2 ^ 1677 + 2 ^ (660 + 1021)) (-299) 660 N
               ltac:(lia) eq_refl
               Hreward Hrisk Hbound ltac:(lia) d0 dates st);
        try assumption; try lia.
    + split; [|intros H; discriminate H].
      intros Hzero. unfold Runtime.summarize. cbn [Runtime.s_winRate].
      assert (totalWins (Runtime.counts st) = 0%nat) as -> by lia.
      assert (totalLosses (Runtime.counts st) = 0%nat) as -> by lia.
      reflexivity.
Qed.

(** The day of [threeTrades64]: risk 1.1, ratio 2, starting equity 1000,
    three trades. *)
Lemma summary_finite_bounded_amounts_witness :
  exists s,
    Runtime.runOver threeTrades64 draw64NineTenths
      (generateDates jan_1_2025 jan_1_2025) = Some s /\
    Runtime.summaryFinite s.
Proof.
  destruct (summary_finite_bounded_amounts threeTrades64 draw64NineTenths
              (generateDates jan_1_2025 jan_1_2025))
    as (st & s & _ & Hrun & Hfin & _).
  - unfold Runtime.validRanges. repeat split; try reflexivity.
    vm_compute. lia.
  - unfold Runtime.boundedAmounts. repeat split; reflexivity.
  - vm_compute. discriminate.
  - vm_compute. discriminate.
  - exists s. split; assumption.
Defined.

(** ** No [NaN] without an overflow of the reward *)

(** A rounding never yields [NaN]. *)
Lemma binary_round_aux_not_nan (sx : bool) (mx ex : Z) (lx : location) :
  0 <= mx -> binary_round_aux B64.prec B64.emax sx mx ex lx <> S754_nan.
Proof.
  intros Hm. unfold binary_round_aux.
  pose proof (shr_fexp_spec B64.prec B64.emax mx ex lx Hm) as S1.
  cbv zeta in S1.
  destruct (shr_fexp B64.prec B64.emax mx ex lx) as [r1 e1].
  cbn [fst snd] in S1.
  assert (H1 : 0 <= shr_m r1).
  { destruct S1 as [(_ & -> & _)|(Hn & -> & _)]; [exact Hm|].
    apply Z.div_pos; [exact Hm|apply pow2_pos; lia]. }
  pose proof (round_nearest_even_bounds (shr_m r1) (loc_of_shr_record r1))
    as H2.
  set (m2 := round_nearest_even (shr_m r1) (loc_of_shr_record r1)) in *.
  pose proof (shr_fexp_spec B64.prec B64.emax m2 e1 loc_Exact ltac:(lia))
    as S2.
  cbv zeta in S2.
  destruct (shr_fexp B64.prec B64.emax m2 e1 loc_Exact) as [r2 e2].
  cbn [fst snd] in S2.
  assert (H3 : 0 <= shr_m r2).
  { destruct S2 as [(_ & -> & _)|(Hn & -> & _)]; [lia|].
    apply Z.div_pos; [lia|apply pow2_pos; lia]. }
  destruct (shr_m r2) as [|m|m]; [discriminate| |lia].
  destruct (e2 <=? B64.emax - B64.prec); discriminate.
Qed.

Lemma binary_normalize_not_nan (z e : Z) :
  binary_normalize B64.prec B64.emax z e false <> S754_nan.
Proof.
  unfold binary_normalize, binary_round.
  destruct z as [|m|m]; [discriminate| |];
    destruct (shl_align m e _) as [mz ez];
    apply binary_round_aux_not_nan; lia.
Qed.

(** [x + y] is a number when [x] is one and [y] is finite. *)
Lemma b64_add_not_nan (x y : B64.num) :
  x <> B64.NaN -> B64.is_finite y = true -> B64.add x y <> B64.NaN.
Proof.
  intros Hx Hy. unfold B64.add.
  destruct x as [sx|sx| |sx mx ex]; [| |contradiction|];
    destruct y as [sy|sy| |sy my ey]; try discriminate Hy;
    try (destruct sx, sy; discriminate).
  cbn [SFadd]. apply binary_normalize_not_nan.
Qed.

Lemma b64_sub_not_nan (x y : B64.num) :
  x <> B64.NaN -> B64.is_finite y = true -> B64.sub x y <> B64.NaN.
Proof.
  intros Hx Hy. rewrite b64_sub_add_opp.
  apply b64_add_not_nan; [exact Hx|]. now rewrite b64_finite_opp.
Qed.

(** [x * y] is a number when [x] is one and [y] is finite and not zero. *)
Lemma b64_mul_not_nan (x y : B64.num) :
  x <> B64.NaN -> B64.is_finite y = true -> B64.nonzero y = true ->
  B64.mul x y <> B64.NaN.
Proof.
  intros Hx Hy Ny. unfold B64.mul.
  destruct x as [sx|sx| |sx mx ex]; [| |contradiction|];
    destruct y as [sy|sy| |sy my ey]; try discriminate Hy;
    try discriminate Ny; try discriminate.
  cbn [SFmul]. apply binary_round_aux_not_nan. lia.
Qed.

Lemma b64_or_not_nan (x y : B64.num) : y <> B64.NaN -> B64.or x y <> B64.NaN.
Proof.
  intros Hy. unfold B64.or. destruct x; cbn [B64.truthy]; try assumption;
    discriminate.
Qed.

Lemma b64_finite_not_nan (x : B64.num) :
  B64.is_finite x = true -> x <> B64.NaN.
Proof. destruct x; discriminate. Qed.

Lemma b64_of_nat_not_nan (n : nat) : B64.of_nat n <> B64.NaN.
Proof. apply binary_normalize_not_nan. Qed.

Lemma rt_updateDrawdown_nonneg label (e : B64.num) (d : Runtime.Drawdown) :
  B64.le (B64.of_Z 0) (Runtime.maxDrawdown d) = true ->
  B64.le (B64.of_Z 0)
    (Runtime.maxDrawdown (Runtime.updateDrawdown label e d)) = true.
Proof.
  intros Hmax. unfold Runtime.updateDrawdown.
  destruct (B64.gt e (Runtime.peakEquity d)); [exact Hmax|]. cbv zeta.
  destruct (B64.gt (Runtime.drawdownPercentage (Runtime.peakEquity d) e)
              (Runtime.currentDrawdown d)); [|exact Hmax].
  cbn [Runtime.maxDrawdown].
  destruct (B64.gt (Runtime.drawdownPercentage (Runtime.peakEquity d) e)
              (Runtime.maxDrawdown d)) eqn:Hm; [|exact Hmax].
  exact (b64_le_nonneg_trans _ _ Hmax Hm).
Qed.

Section RuntimeNumbers.

Variable p : Runtime.SimulationSettings.
Variable rng : nat -> B64.num.

Hypothesis Hreward : B64.is_finite (Runtime.rewardPerTrade p) = true.
Hypothesis Hrisk : B64.is_finite (Runtime.riskPerTrade p) = true.

Lemma rt_tradeEquity_number (isWin : bool) (e : B64.num) :
  e <> B64.NaN -> Runtime.tradeEquity p isWin e <> B64.NaN.
Proof.
  intros He. unfold Runtime.tradeEquity. destruct isWin.
  - now apply b64_add_not_nan.
  - now apply b64_sub_not_nan.
Qed.

Lemma rt_runTrade_numbers date (e : B64.num) (st : Runtime.State) :
  In (month date) (Runtime.keysOf (Runtime.monthlyStats st)) ->
  In (week date) (Runtime.keysOf (Runtime.weeklyStats st)) ->
  Runtime.numbersOnly e st ->
  exists e' st',
    Runtime.runTrade p rng date (e, st) = Some (e', st') /\
    Runtime.numbersOnly e' st' /\
    Runtime.keysOf (Runtime.monthlyStats st')
      = Runtime.keysOf (Runtime.monthlyStats st) /\
    Runtime.keysOf (Runtime.weeklyStats st')
      = Runtime.keysOf (Runtime.weeklyStats st).
Proof.
  intros Hm Hw (He & Hr & Hcurve & Hms & Hws & Hmax).
  destruct (rt_runTrade_total p rng date (e, st) Hm Hw) as [[e' st'] E].
  exists e', st'. split; [exact E|].
  destruct (rt_runTrade_keys p rng date _ _ E) as [Km Kw].
  cbn [snd] in Km, Kw. split; [|split; assumption].
  unfold Runtime.runTrade in E. cbn [fst snd] in E.
  destruct (Runtime.bucket_update (month date) _ (Runtime.monthlyStats st))
    as [ms|] eqn:Ems; [|discriminate].
  destruct (Runtime.bucket_update (week date) _ (Runtime.weeklyStats st))
    as [ws|] eqn:Ews; [|discriminate].
  injection E as <- <-.
  assert (Hmut : forall b : Runtime.BucketStats,
            Runtime.profitLoss b <> B64.NaN ->
            Runtime.profitLoss
              ((if Runtime.isWinAt p rng (Runtime.randomCalls st)
                then Runtime.bucket_win (Runtime.rewardPerTrade p)
                else Runtime.bucket_loss (Runtime.riskPerTrade p)) b)
            <> B64.NaN).
  { intros b Hb.
    pose proof (rt_tradeEquity_number
                  (Runtime.isWinAt p rng (Runtime.randomCalls st)) _ Hb) as H.
    destruct (Runtime.isWinAt p rng (Runtime.randomCalls st)); exact H. }
  unfold Runtime.numbersOnly.
  cbn [Runtime.runningEquity Runtime.equityCurve Runtime.monthlyStats
       Runtime.weeklyStats Runtime.drawdown].
  split; [now apply rt_tradeEquity_number|].
  split; [exact Hr|]. split; [exact Hcurve|].
  split; [exact (rt_bucket_update_Forall _ _ _ _ _ _ Ems Hmut
                   (fun b H => H) Hms)|].
  split; [exact (rt_bucket_update_Forall _ _ _ _ _ _ Ews Hmut
                   (fun b H => H) Hws)|].
  exact Hmax.
Qed.

Lemma rt_runTrades_numbers date (n : nat) : forall e st,
  In (month date) (Runtime.keysOf (Runtime.monthlyStats st)) ->
  In (week date) (Runtime.keysOf (Runtime.weeklyStats st)) ->
  Runtime.numbersOnly e st ->
  exists e' st',
    Runtime.runTrades p rng n date (e, st) = Some (e', st') /\
    Runtime.numbersOnly e' st' /\
    Runtime.keysOf (Runtime.monthlyStats st')
      = Runtime.keysOf (Runtime.monthlyStats st) /\
    Runtime.keysOf (Runtime.weeklyStats st')
      = Runtime.keysOf (Runtime.weeklyStats st).
Proof.
  induction n as [|n IH]; intros e st Hm Hw Hinv; cbn [Runtime.runTrades].
  - exists e, st. auto.
  - destruct (rt_runTrade_numbers date e st Hm Hw Hinv)
      as (e1 & st1 & E & Hinv1 & Km & Kw).
    rewrite E.
    destruct (IH e1 st1) as (e' & st' & E' & Hinv' & Km' & Kw').
    + now rewrite Km.
    + now rewrite Kw.
    + exact Hinv1.
    + exists e', st'. split; [exact E'|]. split; [exact Hinv'|].
      split; congruence.
Qed.

Lemma rt_runDays_numbers dates : forall st,
  Runtime.keysCover dates st ->
  Runtime.numbersOnly (Runtime.runningEquity st) st ->
  exists st',
    Runtime.runDays p rng dates st = Some st' /\
    Runtime.numbersOnly (Runtime.runningEquity st') st'.
Proof.
  induction dates as [|d dates IH]; intros st Hcover Hinv;
    cbn [Runtime.runDays].
  - exists st. auto.
  - destruct (Hcover d (or_introl eq_refl)) as [Hm Hw].
    unfold Runtime.runDay.
    destruct (rt_runTrades_numbers d (Runtime.tradesPerDay p) _ st Hm Hw Hinv)
      as (e' & st' & E & (He & Hr & Hcurve & Hms & Hws & Hmax) & Km & Kw).
    rewrite E. apply IH.
    + intros d' Hd'. destruct (Hcover d' (or_intror Hd')).
      unfold Runtime.closeDay.
      cbn [fst snd Runtime.monthlyStats Runtime.weeklyStats].
      split; congruence.
    + unfold Runtime.numbersOnly, Runtime.closeDay.
      cbn [fst snd Runtime.runningEquity Runtime.equityCurve
           Runtime.monthlyStats Runtime.weeklyStats Runtime.drawdown].
      split; [exact He|]. split; [exact He|].
      split; [apply Forall_app; split; [exact Hcurve|];
              constructor; [exact He|constructor]|].
      split; [exact Hms|]. split; [exact Hws|].
      now apply rt_updateDrawdown_nonneg.
Qed.

End RuntimeNumbers.

Lemma rt_registerBuckets_numbers (dates : list DateInfo) :
  forall a b : Runtime.BucketMap,
    Forall (fun kb => Runtime.profitLoss (snd kb) <> B64.NaN) a ->
    Forall (fun kb => Runtime.profitLoss (snd kb) <> B64.NaN) b ->
    let r := fold_left
               (fun acc date =>
                  (Runtime.bucket_register (month date) (fst acc),
                   Runtime.bucket_register (week date) (snd acc)))
               dates (a, b) in
    Forall (fun kb => Runtime.profitLoss (snd kb) <> B64.NaN) (fst r) /\
    Forall (fun kb => Runtime.profitLoss (snd kb) <> B64.NaN) (snd r).
Proof.
  assert (Hreg : forall k m,
            Forall (fun kb => Runtime.profitLoss (snd kb) <> B64.NaN) m ->
            Forall (fun kb => Runtime.profitLoss (snd kb) <> B64.NaN)
                   (Runtime.bucket_register k m)).
  { intros k m Hm. unfold Runtime.bucket_register.
    destruct (Runtime.bucket_lookup k m); [exact Hm|].
    apply Forall_app. split; [exact Hm|]. constructor; [|constructor].
    discriminate. }
  induction dates as [|d dates IH]; intros a b Ha Hb; cbn [fold_left].
  - split; assumption.
  - apply IH; cbn [fst snd]; now apply Hreg.
Qed.

(** X26. In binary64, for parameters in the stated ranges whose reward
    [riskPerTrade * riskRewardRatio] does not overflow, whatever the
    starting equity, the draws and the calendar: the run returns and no
    numeric field of its summary is [NaN] (lines 161-297). *)
Theorem summary_never_nan (p : Runtime.SimulationSettings)
  (rng : nat -> B64.num) (dates : list DateInfo) :
  Runtime.validRanges p ->
  B64.is_finite (Runtime.rewardPerTrade p) = true ->
  exists st s,
    Runtime.simulate p rng dates = Some st /\
    Runtime.runOver p rng dates = Some s /\
    Runtime.summaryNumbers s.
Proof.
  intros (Fwr & _ & _ & _ & Frisk & _ & Fratio & _ & Fstart) Freward.
  pose proof (b64_finite_not_nan _ Fstart) as Nstart.
  destruct (rt_runDays_numbers p rng Freward Frisk dates
              (Runtime.initState p dates))
    as (st & Hrun & (_ & Hr & Hcurve & Hms & Hws & Hmax)).
  - apply rt_initState_cover.
  - unfold Runtime.numbersOnly, Runtime.initState.
    cbn [Runtime.runningEquity Runtime.equityCurve Runtime.monthlyStats
         Runtime.weeklyStats Runtime.drawdown Runtime.maxDrawdown].
    unfold Runtime.initialEquity.
    split; [exact Nstart|]. split; [exact Nstart|].
    split.
    { unfold Runtime.seedCurve. destruct dates; constructor;
        [exact Nstart|constructor]. }
    destruct (rt_registerBuckets_numbers dates [] [] ltac:(constructor)
                ltac:(constructor)) as [Hm Hw].
    split; [exact Hm|]. split; [exact Hw|]. reflexivity.
  - exists st, (Runtime.summarize p dates st).
    split; [exact Hrun|].
    split; [unfold Runtime.runOver, Runtime.simulate; now rewrite Hrun|].
    unfold Runtime.summaryNumbers, Runtime.summarize.
    cbn [Runtime.s_winRate Runtime.s_avgRPerDay Runtime.s_avgRPerWeek
         Runtime.s_avgTradesPerDay Runtime.s_initialEquity
         Runtime.s_finalEquity Runtime.s_totalProfit Runtime.s_maxDrawdown
         Runtime.s_riskRewardRatio Runtime.s_equityCurve
         Runtime.s_monthlyBreakdown Runtime.s_weeklyBreakdown].
    unfold Runtime.initialEquity.
    split; [apply b64_or_not_nan, b64_finite_not_nan, Fwr|].
    split; [apply b64_or_not_nan; discriminate|].
    split; [apply b64_mul_not_nan;
            [apply b64_or_not_nan; discriminate|reflexivity|reflexivity]|].
    split; [apply b64_or_not_nan, b64_of_nat_not_nan|].
    split; [exact Nstart|]. split; [exact Hr|].
    split; [now apply b64_sub_not_nan|].
    split; [exact (b64_le_not_nan _ _ Hmax)|].
    split; [apply b64_finite_not_nan, Fratio|].
    split; [exact Hcurve|].
    assert (Hrep : forall m,
      Forall (fun kb => Runtime.profitLoss (snd kb) <> B64.NaN) m ->
      Forall (fun r => Runtime.bucketWinRate (Runtime.stats r) <> B64.NaN /\
                       Runtime.profitLoss (Runtime.stats r) <> B64.NaN)
             (map Runtime.reportBucket (Runtime.bucket_values m))).
    { intros m Hm. unfold Runtime.bucket_values. rewrite map_map.
      apply Forall_map. eapply Forall_impl; [|exact Hm].
      intros [key b] Hb. cbn [snd Runtime.reportBucket Runtime.stats] in *.
      split; [|exact Hb]. unfold Runtime.bucketWinRate.
      apply b64_or_not_nan. discriminate. }
    apply Forall_app. split; apply Hrep; assumption.
Qed.

(** The day of [largeEquity64], a win and two losses: the final equity
    is [Infinity], and no field is [NaN]. *)
Lemma summary_never_nan_witness :
  exists s,
    Runtime.runOver largeEquity64 draw64WinThenLose
      (generateDates jan_1_2025 jan_1_2025) = Some s /\
    Runtime.summaryNumbers s /\
    Runtime.s_finalEquity s = B64.PInf.
Proof.
  destruct (summary_never_nan largeEquity64 draw64WinThenLose
              (generateDates jan_1_2025 jan_1_2025))
    as (st & s & _ & Hrun & Hnum).
  - unfold Runtime.validRanges. repeat split; try reflexivity.
    vm_compute. lia.
  - reflexivity.
  - exists s. split; [exact Hrun|]. split; [exact Hnum|].
    vm_compute in Hrun. injection Hrun as <-. reflexivity.
Defined.
